(* ===== verification/_CoqProject ===== *)
-Q . S2P
Prelude.v
Json.v
Floats.v
Api.v
Labels.v
Diff.v
Order.v
Match.v
Render.v
Shelly.v
Effects.v
Client.v
Decode.v
Rpc.v
Digest.v
FakeDevice.v
Wire.v
Memory.v
Objects.v
DeepCopy.v
Jobs.v
DeviceView.v
DeviceStore.v
Fleet.v
Apply.v
Cidr.v
Discovery.v
Sweeping.v
Feed.v
Metrics.v
Dashboard.v
Window.v
Update.v
Reconcile.v
Converge.v
Main.v
Safety.v
Replicas.v
Truth.v
Damping.v
Requeue.v
Enforced.v
Stack.v
Watch.v
Sequencing.v
Cache.v
TestUtils.v
Witnesses.v
DeviceWitnesses.v
CopyWitnesses.v
ProcessWitnesses.v
