(* ===== verification/Prelude.v ===== *)
(** * shelly-operator: a verification development

    The program (src/) is a Kubernetes operator for a fleet of Shelly Gen2+
    devices.  Its parts and how they meet:

    - the API objects (api/v1alpha1): a ShellyDevice per device, whose spec belongs
      to users and whose status is shared by discovery and the device controller,
      and ShellyProfiles, the desired configuration with a mode (observe, enforce);
    - discovery (internal/discovery): periodic sweeps probe the configured subnets
      and keep the ShellyDevice objects;
    - the device controller (internal/controller): for each device, find the
      governing profile, read the device, compute the drift, report it as a
      condition and, in enforce mode, write it; reboot and update firmware only in
      the profile's window;
    - drift detection (internal/drift): rendering a profile to the device's
      components, comparing, matching profiles, ordering the writes;
    - fleet (internal/fleet): names, passwords and registry entries from ConfigMaps
      and Secrets, and sanitizing of label values;
    - the RPC client (internal/shelly): JSON-RPC over HTTP with digest
      authentication, and the fake device used in tests (shellytest);
    - the exporter feed (internal/exporterfeed), the metrics collector
      (internal/metrics) and the dashboard (internal/dashboard): readers of the
      device objects, of which only the feed writes, and only its ConfigMap;
    - cmd/main.go: flags to validated settings to the parts that run;
    - test/utils: helpers of the end-to-end tests.

    ** Files

    - Prelude (this file): results, strings, [strconv] and [strings] functions,
      stable sorting, and the list lemmas shared below;
    - Json: Go's [any] values as decoded by encoding/json, float64 included; leaf
      equality of drift/diff.go; the fake device's deep [merge];
    - Floats: magnitudes of float64 computations and their conversion to int64 (out of
      range as on amd64), for the durations computed in them;
    - Api: every struct of api/v1alpha1 as a record, conditions, labels, time;
    - Labels: device_helpers.go and fleet/sanitize.go, over Go's UTF-8 decoding;
    - Diff, Order, Match, Render: the four files of internal/drift;
    - Shelly: RPC answers and errors ([IsRefusal]);
    - Effects: programs over operations (device calls, Kubernetes reads and writes,
      clock, randomness, the two critical sections), their executions, a weakest
      precondition over all environments, pools of interleaving programs, and
      total correctness against one environment ([ends], [succeeds]);
    - Client: the methods of shelly.Client as the calls they make;
    - Decode: encoding/json into the types the client and the fake device decode;
    - Rpc: [Client.Call] itself down to HTTP requests (client.go, digest.go), and
      the fake device's check of a credential; Digest: the exchange of the two;
    - FakeDevice: shellytest/server.go, every handler; DeviceStore: its invariant;
      Wire: [Client.Call] over HTTP refines one step of that device; DeviceView: an
      abstract device and the client's methods as operations on it;
    - Memory: a heap of Go pointers and slices, programs that copy in it, and reads
      with their footprints; Objects: the structs of api/v1alpha1 in that heap and
      what they read as; DeepCopy: zz_generated.deepcopy.go;
    - Cidr: discovery/cidr.go; Discovery: probing as a step relation, upserts,
      staleness and one sweep; Sweeping: what a sweep does;
    - Jobs: the planning half of controller/firmware.go and schedule.go;
    - Fleet: internal/fleet and [stampRegistry]; Window: rebootwindow.go;
    - Apply: apply.go and the executing half of firmware.go and schedule.go;
      Update: firmwareupdate.go; Reconcile: shellydevice_controller.go;
      Converge: an enforcement run against the abstract device; Enforced: a whole
      reconcile against it; Stack: programs, and a whole reconcile, with every
      device call made by [Client.Call] over HTTP;
    - Feed, Metrics, Dashboard: the packages of the same names; Main: cmd/main.go;
      Watch: the predicates and mappings of SetupWithManager; Replicas: which parts
      run where, and what each may write; TestUtils: test/utils/utils.go;
    - Safety: what one [Reconcile] may do, whatever it is answered; Truth: what
      an InSync condition and an Event stand for; Damping: what becomes of drift that
      came back; Requeue: that it is called again;
    - Sequencing: the order of writes within one reconcile and the spacing of
      updates over interleaved reconciles; Cache: building a client, and the cache
      of clients over interleaved reconciles;
    - Witnesses, DeviceWitnesses, CopyWitnesses, ProcessWitnesses: concrete instances
      and inputs on which the theorems apply.

    ** Correspondence

    Each Go function is a definition of the same name (helpers for a loop body or a
    branch have names in lower case).  Pure functions are Rocq functions.  A handler
    is a [prog]: every call that leaves the process is an operation, a Go object
    that a call replaces or a handler mutates is returned, [(T, error)] is [res].
    Pointers are options, maps [gmap]s; where the order of a [range] over a map can
    be seen it is an argument.  Sharing is modelled where the code depends on it:
    deep copies are programs on a heap, an RPC client has an identity in the cache,
    and [finish] reads the previous condition through its place in the slice.
    Durations and times are nanoseconds in [Z], with the saturation of [time.Sub]
    and the wrap of int32, uint32 and int64 written out where they can be reached.

    Code outside src/ enters as classes: [Fmt] (%v, %q), [JsonText] (json.Marshal,
    which may fail),
    [StrConv] (ParseFloat), [Sha256], [Netip] (ParsePrefix), [Locations]
    (LoadLocation), [Selectors] and [Conditions] and [QualifiedNames]
    (apimachinery), [RegistryJson] (decoding an entry), [JsonParse] (json.Unmarshal
    to [any]), [JsonIndent] (json.MarshalIndent), [Yaml].  Laws they are documented
    to satisfy are separate classes ([QuoteLaw], [Sha256Law], [NetipLaws],
    [JsonLaw], [ConditionLaws], [FindsFirst], [MachineryLaws] for the deep copies of
    apimachinery in [Machinery]) taken only by the theorems that need them; the
    witness files have an instance of each.  The device, the API server and the network
    answer arbitrarily unless a statement says otherwise.  One that does takes the
    interface [Backed]: a device call that JSON can carry, from a client the device
    admits, is a step of the fake device; [Steady]: moreover cluster reads have
    fixed answers meanwhile; or [Serves]: the API server stores what it is given,
    creates only what is missing and updates only what exists.
    Stack implements the first two with the RPC client, given the rest of the
    process ([Process], [SteadyCluster]).

    ** What the theorems show

    - Safety: updates and reboots only with opt-in, enforce mode, an open window and
      the device's own fresh word; at most one update request, recorded first; a
      paused, offline or updating device is left alone; only enforce mode writes;
      ownership of the shared status: neither controller nor discovery writes the
      other's fields.
    - Truth: InSync = True is only ever written on the strength of a complete read,
      name included, with no configuration written since; an Event comes with the first InSync
      condition only, although the code means it for every change ([finish]
      compares the condition with itself).
    - Damping: only drift that came back is given up on, and from then on the device
      is left alone exactly as long as drift and warnings read the same.
    - Requeue: every reconcile of an existing device is followed by another (for
      intervals up to 18 years).
    - Deep copies: equal, and independent of the original in memory.
    - Sequencing: auth after every section but wifi, nothing after wifi; granted
      update slots are spaced in every interleaving of workers; so is each device
      served by one client, and one nonce, until its password changes.
    - Convergence: writing the drifted sections by deep merge, executing the
      schedule plan and the firmware plan each leave nothing to report; together,
      one round of enforcement against a cooperative device returns, and its
      verification read finds nothing left, so that one whole reconcile of a governed
      device, over HTTP, ends in InSync = True with the device in sync.
    - Drift: findings are exactly the declared leaves that differ; an empty plan or
      report means agreement; profile matching is a function of the set of profiles.
    - RPC: a call sends nothing if it cannot be put in a request and a bounded number
      of requests otherwise, gets through a digest challenge, steps a
      nonce's counter by one, and reports a refusal only when the device refused;
      against the fake device it has the result and the effect of one atomic step,
      and so whole programs run over HTTP as they do with atomic calls.
    - Fake device: whatever it is sent, short of an id spelled in two ways in one
      object, its job ids stay positive and distinct.
    - Discovery: exactly the hosts of the prefixes are probed, probing is bounded,
      complete and terminates, a sweep reaches every device and marks exactly the
      stale ones offline.
    - Windows, labels and registry stamping: windows by the wall clock of any zone, valid and stable label
      values, stamping that settles.
    - Feed: the rendering depends on the set of online addresses only, and a
      reconcile leaves a ConfigMap that the next one does not touch.
    - Metrics and dashboard: one sample per device and family, with the value the
      status has; pages only read,
      count what the objects say and show no secret; device updates that carry no
      news for the controller do not wake it.
    - Process: a started manager has exactly the parts the flags ask for, set up so
      that they can run; everything else is an exit with an error; a replica without
      the leader lease only reads, and each kind of write has one owner.
    - Test helpers: uncommenting undoes commenting, in place.

    ** Fuel

    [digest_matches] takes the header's length, which every step shortens
    ([digest_matches_fuel]); [walk] takes the host cap plus four, after which the
    cap or the end of the prefix has been reached ([walk_spec]).  [sweep_loop], the
    endless loop of Sweeper.Start, is followed for any number of ticks.  Everything
    else is structural.

    ** Not modelled

    The HTML templates, net/http (listeners, matching of route patterns), TLS beyond
    the options passed, flag parsing, scheme registration, controller-runtime's
    manager and its work queue, logging: library code that src/ only calls, or
    (the templates) text without logic of its own.  A JSON object has no member name
    twice; a struct field takes a member whose name is its tag up to case, as
    encoding/json folds names, and where several are, which one is an argument
    ([spelled] prefers the exact name).  Reading an object in memory does not tell a nil slice from an
    empty one, as the values of Api.v do not.  [strings.TrimSpace] is on ASCII white
    space. *)

(** ** Vocabulary: results, strings, sorting, lists *)

From stdpp Require Import prelude gmap strings pretty sorting list.
From Stdlib Require Import Ascii.

Declare Scope go_scope.
Delimit Scope go_scope with go.
#[global] Open Scope go_scope.

(** ** Results: Go's [(T, error)] *)

(** [res E A] is the outcome of a Go function returning [(A, error)]: a value
    with a nil error, or the error (the value is then unspecified and unused). *)
Inductive res (E A : Type) : Type :=
| Ok (a : A)
| Err (e : E).
Arguments Ok {E A} a.
Arguments Err {E A} e.

Definition res_bind {E A B : Type} (r : res E A) (f : A → res E B) : res E B :=
  match r with Ok a => f a | Err e => Err e end.

Notation "'try' x := r 'in' k" := (res_bind r (λ x, k))
  (at level 200, x pattern, r at level 100, k at level 200) : go_scope.

Lemma res_bind_Ok {E A B} (r : res E A) (f : A → res E B) b :
  res_bind r f = Ok b ↔ ∃ a, r = Ok a ∧ f a = Ok b.
Proof. destruct r; cbn; naive_solver. Qed.

(** ** Strings *)

(** Go's [<] on strings: bytewise lexicographic order. *)
Definition str_lt (a b : string) : bool := String.ltb a b.

Definition HasPrefix (s p : string) : bool := String.prefix p s.

(** [strings.TrimPrefix]. *)
Fixpoint drop_str (n : nat) (s : string) : string :=
  match n, s with
  | O, _ => s
  | S n, String _ s => drop_str n s
  | S _, EmptyString => EmptyString
  end.

Definition TrimPrefix (s p : string) : string :=
  if HasPrefix s p then drop_str (String.length p) s else s.

(** [strings.HasSuffix]: some tail of [s] is [p]. *)
Fixpoint HasSuffix (s p : string) : bool :=
  String.eqb s p ||
  match s with
  | EmptyString => false
  | String _ s' => HasSuffix s' p
  end.

Definition ascii_upper (c : ascii) : ascii :=
  let n := N_of_ascii c in
  if ((97 <=? n) && (n <=? 122))%N then ascii_of_N (n - 32) else c.

Definition ascii_lower (c : ascii) : ascii :=
  let n := N_of_ascii c in
  if ((65 <=? n) && (n <=? 90))%N then ascii_of_N (n + 32) else c.

Fixpoint str_map (f : ascii → ascii) (s : string) : string :=
  match s with
  | EmptyString => EmptyString
  | String c s' => String (f c) (str_map f s')
  end.

(** [strings.ToUpper] and [strings.ToLower] on ASCII text, which component and
    method names are. *)
Definition ToUpper (s : string) : string := str_map ascii_upper s.
Definition ToLower (s : string) : string := str_map ascii_lower s.

(** [strings.Join]. *)
Definition Join (l : list string) (sep : string) : string := String.concat sep l.

(** [strings.SplitSeq(s, c)] for a one-byte separator. *)
Fixpoint split_on (sep : ascii) (s : string) : list string :=
  match s with
  | EmptyString => [""]
  | String c s =>
      if Ascii.eqb c sep then "" :: split_on sep s
      else match split_on sep s with
           | x :: xs => String c x :: xs
           | [] => [String c ""]
           end
  end.

Fixpoint str_all (f : ascii → bool) (s : string) : bool :=
  match s with String c s => f c && str_all f s | EmptyString => true end.

(** [fmt.Sprintf("%d", z)]. *)
Definition itoa (z : Z) : string := pretty z.

(** [strconv.Atoi] on a 64-bit platform: an optional sign and decimal digits. *)
Fixpoint digits_value (acc : Z) (s : string) : option Z :=
  match s with
  | EmptyString => Some acc
  | String c s' =>
      let n := N_of_ascii c in
      if ((48 <=? n) && (n <=? 57))%N
      then digits_value (acc * 10 + (Z.of_N n - 48))%Z s' else None
  end.

Definition Atoi (s : string) : option Z :=
  let '(neg, ds) :=
    match s with
    | String c s' => if Ascii.eqb c "-" then (true, s')
                     else if Ascii.eqb c "+" then (false, s') else (false, s)
    | EmptyString => (false, s)
    end in
  if String.eqb ds "" then None
  else match digits_value 0 ds with
       | None => None
       | Some n =>
           let z := if neg then (- n)%Z else n in
           if ((- 2 ^ 63 <=? z) && (z <? 2 ^ 63))%Z then Some z else None
       end.

(** ** Stable sorting, as [sort.SliceStable] and [sort.Strings] do it *)

Section Sorting.
Context {A : Type} (less : A → A → bool).

Fixpoint insert_by (x : A) (l : list A) : list A :=
  match l with
  | [] => [x]
  | y :: l' => if less y x then y :: insert_by x l' else x :: l
  end.

Definition sort_by (l : list A) : list A := foldr insert_by [] l.
End Sorting.

(** What [sort.SliceStable] asks of its [less] function. *)
Class WeakOrder {A : Type} (less : A → A → bool) : Prop := {
  weak_asym : ∀ x y, less x y = true → less y x = false;
  weak_trans : ∀ x y z, less y x = false → less z y = false → less z x = false;
}.

(** [x] may stand before [y] in the sorted output. *)
Definition not_after {A : Type} (less : A → A → bool) (x y : A) : Prop :=
  less y x = false.

Definition sort_strings (l : list string) : list string := sort_by str_lt l.

(** Keys of a map in increasing order ([sortedKeys] of drift/diff.go). *)
Definition sortedKeys {V : Type} (m : gmap string V) : list string :=
  sort_strings (map_to_list m).*1.

(** ** Automation *)

Create HintDb go_db.

(** Case analysis on every [match] and [if] the hypotheses and goal branch on. *)
Ltac split_matches :=
  repeat (case_match; simplify_eq/=; try done).

(** Turn boolean facts into propositions. *)
Ltac reflect_bools :=
  repeat match goal with
  | H : _ && _ = true |- _ => apply andb_true_iff in H as [? ?]
  | H : _ && _ = false |- _ => apply andb_false_iff in H
  | H : _ || _ = true |- _ => apply orb_true_iff in H
  | H : _ || _ = false |- _ => apply orb_false_iff in H as [? ?]
  | H : negb _ = true |- _ => apply negb_true_iff in H
  | H : negb _ = false |- _ => apply negb_false_iff in H
  | H : String.eqb _ _ = true |- _ => apply String.eqb_eq in H; subst
  | H : String.eqb _ _ = false |- _ => apply String.eqb_neq in H
  | H : bool_decide _ = true |- _ => apply bool_decide_eq_true in H
  | H : bool_decide _ = false |- _ => apply bool_decide_eq_false in H
  | H : (_ <? _)%Z = _ |- _ => first [apply Z.ltb_lt in H | apply Z.ltb_ge in H]
  | H : (_ <=? _)%Z = _ |- _ => first [apply Z.leb_le in H | apply Z.leb_gt in H]
  | H : (_ =? _)%Z = _ |- _ => first [apply Z.eqb_eq in H | apply Z.eqb_neq in H]
  end.

(** ** Lemmas on strings *)

Lemma str_lt_le (a b : string) : str_lt a b = false ↔ String.le b a.
Proof.
  unfold str_lt, String.le, String.ltb, String.leb.
  rewrite (String.compare_antisym b a).
  destruct (String.compare a b); simpl; split; done.
Qed.

#[export] Instance str_lt_weak : WeakOrder str_lt.
Proof.
  split.
  - intros x y H. destruct (str_lt y x) eqn:E; [|done].
    unfold str_lt, String.ltb in *.
    rewrite (String.compare_antisym y x) in E.
    destruct (String.compare x y); simpl in *; done.
  - intros x y z. rewrite !str_lt_le. intros. by etrans.
Qed.

Lemma str_lt_antisym (a b : string) :
  str_lt a b = false → str_lt b a = false → a = b.
Proof. rewrite !str_lt_le. intros. by apply (anti_symm String.le). Qed.

Lemma str_lt_irrefl (a : string) : str_lt a a = false.
Proof. apply str_lt_le. reflexivity. Qed.

Lemma str_app_cons c (s t : string) : String c s +:+ t = String c (s +:+ t).
Proof. done. Qed.

Lemma str_app_nil_l (t : string) : "" +:+ t = t.
Proof. done. Qed.

Lemma str_app_nil_r (t : string) : t +:+ "" = t.
Proof. induction t as [|c t IH]; [done|]. by rewrite str_app_cons, IH. Qed.

Lemma str_app_assoc (s t u : string) : (s +:+ t) +:+ u = s +:+ t +:+ u.
Proof. induction s as [|c s IH]; [done|]. by rewrite !str_app_cons, IH. Qed.

Lemma str_length_app (s t : string) :
  String.length (s +:+ t) = String.length s + String.length t.
Proof. induction s as [|c s IH]; [done|]. rewrite str_app_cons. simpl. by rewrite IH. Qed.

Lemma str_app_inj_l (p s t : string) : p +:+ s = p +:+ t → s = t.
Proof.
  induction p as [|c p IH]; [by rewrite !str_app_nil_l|].
  rewrite !str_app_cons. intros [= ?]. by apply IH.
Qed.

Lemma str_app_inj_r (s t u : string) : s +:+ u = t +:+ u → s = t.
Proof.
  revert t. induction s as [|c s IH]; intros [|d t] Heq; [done| | |].
  - apply (f_equal String.length) in Heq. rewrite !str_length_app in Heq. simpl in Heq. lia.
  - apply (f_equal String.length) in Heq. rewrite !str_length_app in Heq. simpl in Heq. lia.
  - rewrite !str_app_cons in Heq. injection Heq as -> Heq. f_equal. by apply IH.
Qed.

Lemma HasPrefix_app (p s : string) : HasPrefix (p +:+ s) p = true.
Proof.
  unfold HasPrefix. induction p as [|c p IH]; [by destruct s|].
  rewrite str_app_cons. cbn. by destruct (ascii_dec c c).
Qed.

Lemma HasPrefix_inv (s p : string) :
  HasPrefix s p = true → s = p +:+ drop_str (String.length p) s.
Proof.
  unfold HasPrefix. revert s.
  induction p as [|c p IH]; intros s H; simpl in *; [done|].
  destruct s as [|d s]; [done|]. cbn in H.
  destruct (ascii_dec c d) as [->|]; [|done].
  simpl. rewrite str_app_cons. f_equal. by apply IH.
Qed.

Lemma HasSuffix_spec (s p : string) : HasSuffix s p = true ↔ ∃ q, s = q +:+ p.
Proof.
  split.
  - induction s as [|c s IH]; cbn [HasSuffix]; intros H.
    + rewrite orb_false_r in H. reflect_bools. by exists "".
    + apply orb_true_iff in H as [H|H]; [reflect_bools; by exists ""|].
      destruct (IH H) as [q ->]. by exists (String c q).
  - intros [q ->]. induction q as [|c q IH].
    + rewrite str_app_nil_l. destruct p; cbn [HasSuffix]; by rewrite String.eqb_refl.
    + rewrite str_app_cons. cbn [HasSuffix]. rewrite IH. apply orb_true_r.
Qed.

Lemma str_all_impl (f g : ascii → bool) s :
  (∀ c, f c = true → g c = true) → str_all f s = true → str_all g s = true.
Proof.
  intros Hfg. induction s as [|c s IH]; [done|]. cbn. rewrite !andb_true_iff. naive_solver.
Qed.

Lemma str_all_app f s t : str_all f (s +:+ t) = str_all f s && str_all f t.
Proof.
  induction s as [|c s IH]; [done|]. rewrite str_app_cons. cbn. by rewrite IH, andb_assoc.
Qed.

Lemma substring_app (s t : string) : String.substring 0 (String.length s) (s +:+ t) = s.
Proof.
  induction s as [|c s IH]; [by destruct t|]. rewrite str_app_cons. cbn. f_equal. apply IH.
Qed.

Lemma drop_str_app (p s : string) : drop_str (String.length p) (p +:+ s) = s.
Proof. induction p as [|c p IH]; [done|]. rewrite str_app_cons. apply IH. Qed.

(** Splitting takes a join of separator-free parts apart. *)
Lemma split_on_free sep l : str_all (λ c, negb (Ascii.eqb c sep)) l = true → split_on sep l = [l].
Proof.
  induction l as [|c l IH]; [done|]. cbn. intros [Hc Hl]%andb_true_iff.
  apply negb_true_iff in Hc. by rewrite Hc, (IH Hl).
Qed.

Lemma split_on_app sep l s : str_all (λ c, negb (Ascii.eqb c sep)) l = true →
  split_on sep (l +:+ String sep s) = l :: split_on sep s.
Proof.
  induction l as [|c l IH].
  - intros _. rewrite str_app_nil_l. cbn. by rewrite Ascii.eqb_refl.
  - cbn [str_all]. intros [Hc Hl]%andb_true_iff. apply negb_true_iff in Hc.
    rewrite str_app_cons. cbn [split_on]. by rewrite Hc, (IH Hl).
Qed.

Lemma split_on_Join sep ls : ls ≠ [] →
  Forall (λ l, str_all (λ c, negb (Ascii.eqb c sep)) l = true) ls →
  split_on sep (Join ls (String sep "")) = ls.
Proof.
  intros Hne Hls. induction Hls as [|l ls Hl Hls IH]; [done|]. destruct ls as [|l' ls].
  - by apply split_on_free.
  - change (Join (l :: l' :: ls) (String sep "")) with (l +:+ String sep (Join (l' :: ls) (String sep ""))).
    by rewrite split_on_app, IH.
Qed.

Lemma TrimPrefix_app (p s : string) : TrimPrefix (p +:+ s) p = s.
Proof.
  unfold TrimPrefix. rewrite HasPrefix_app. induction p as [|c p IH]; [done|].
  rewrite str_app_cons. apply IH.
Qed.

(** Printing an integer and parsing it back. *)
Lemma digit_char x :
  (x < 10)%N → N_of_ascii (pretty_N_char x) = (48 + x)%N.
Proof.
  intros Hx. destruct x as [|p]; [done|].
  do 4 (destruct p as [p|p|]; try done; try lia).
Qed.

Lemma digits_value_pretty n : ∀ s,
  digits_value 0 (pretty_N_go n s) = digits_value (Z.of_N n) s.
Proof.
  induction (N.lt_wf_0 n) as [n _ IH]; intros s.
  destruct (decide (n = 0)%N) as [->|Hn]; [by rewrite pretty_N_go_0|].
  rewrite pretty_N_go_step by lia. rewrite IH by (apply N.div_lt; lia). cbn [digits_value].
  pose proof (N.mod_lt n 10 ltac:(lia)) as Hlt. rewrite digit_char by done.
  set (d := (n `mod` 10)%N) in *.
  rewrite (proj2 (N.leb_le 48 (48 + d))), (proj2 (N.leb_le (48 + d) 57)) by lia. cbn [andb].
  subst d. f_equal. rewrite N2Z.inj_add, N2Z.inj_div, N2Z.inj_mod.
  pose proof (Z.div_mod (Z.of_N n) (Z.of_N 10) ltac:(lia)). lia.
Qed.

Lemma Atoi_itoa z : (0 ≤ z < 2 ^ 63)%Z → Atoi (itoa z) = Some z.
Proof.
  intros Hz. destruct z as [|p|p]; [done| |lia].
  assert (Hd : digits_value 0 (itoa (Z.pos p)) = Some (Z.pos p)) by apply (digits_value_pretty (N.pos p)).
  unfold Atoi. destruct (itoa (Z.pos p)) as [|c s]; [done|].
  destruct (Ascii.eqb_spec c "-") as [->|_]; [done|].
  destruct (Ascii.eqb_spec c "+") as [->|_]; [done|].
  cbn [String.eqb]. rewrite Hd.
  rewrite (proj2 (Z.leb_le _ _)), (proj2 (Z.ltb_lt _ _)) by lia. done.
Qed.

Lemma ToLower_app s t : ToLower (s +:+ t) = ToLower s +:+ ToLower t.
Proof.
  unfold ToLower. induction s as [|c s IH]; [done|].
  rewrite !str_app_cons. cbn [str_map]. by rewrite str_app_cons, IH.
Qed.

(** ** Lemmas on lists *)

Lemma filter_all {A} (P : A → Prop) `{∀ x, Decision (P x)} (l : list A) :
  (∀ x, x ∈ l → P x) → filter P l = l.
Proof.
  induction l as [|x l IH]; intros Hl; [done|]. rewrite filter_cons_True.
  - f_equal. apply IH. intros. apply Hl. by constructor.
  - apply Hl. constructor.
Qed.

Lemma filter_none {A} (P : A → Prop) `{∀ x, Decision (P x)} (l : list A) :
  (∀ x, x ∈ l → ¬ P x) → filter P l = [].
Proof.
  induction l as [|x l IH]; intros Hl; [done|]. rewrite filter_cons_False.
  - apply IH. intros. apply Hl. by constructor.
  - apply Hl. constructor.
Qed.

Lemma filter_ext_in {A} (P Q : A → Prop) `{∀ x, Decision (P x), ∀ x, Decision (Q x)} (l : list A) :
  (∀ x, x ∈ l → P x ↔ Q x) → filter P l = filter Q l.
Proof.
  induction l as [|x l IH]; intros Hl; [done|]. rewrite !filter_cons.
  rewrite (IH (λ y Hy, Hl y (list_elem_of_further _ _ _ Hy))).
  specialize (Hl x (list_elem_of_here _ _)). repeat case_decide; naive_solver.
Qed.

(** A filter that a map respects commutes with it. *)
Lemma filter_fmap_comm {A} (P : A → Prop) `{∀ x, Decision (P x)} (f : A → A) (l : list A) :
  (∀ x, x ∈ l → P (f x) ↔ P x) → filter P (f <$> l) = f <$> filter P l.
Proof.
  induction l as [|x l IH]; intros Hl; [done|]. rewrite fmap_cons, !filter_cons.
  rewrite (IH (λ y Hy, Hl y (list_elem_of_further _ _ _ Hy))).
  specialize (Hl x (list_elem_of_here _ _)). repeat case_decide; naive_solver.
Qed.

Lemma filter_comm {A} (P Q : A → Prop) `{∀ x, Decision (P x), ∀ x, Decision (Q x)} (l : list A) :
  filter P (filter Q l) = filter Q (filter P l).
Proof. rewrite !list_filter_filter. apply list_filter_iff. tauto. Qed.

(** ** Lemmas on sorting *)

Section SortingFacts.
Context {A : Type} (less : A → A → bool).

Lemma insert_by_perm x l : insert_by less x l ≡ₚ x :: l.
Proof.
  induction l as [|y l IH]; simpl; [done|].
  case_match; [|done]. rewrite IH. constructor.
Qed.

Lemma sort_by_perm l : sort_by less l ≡ₚ l.
Proof.
  unfold sort_by. induction l as [|x l IH]; simpl; [done|].
  by rewrite insert_by_perm, IH.
Qed.

Lemma elem_of_sort_by x l : x ∈ sort_by less l ↔ x ∈ l.
Proof. by rewrite sort_by_perm. Qed.

Lemma length_sort_by l : length (sort_by less l) = length l.
Proof. apply Permutation_length, sort_by_perm. Qed.

Lemma NoDup_sort_by l : NoDup (sort_by less l) ↔ NoDup l.
Proof. by rewrite sort_by_perm. Qed.

Context `{!WeakOrder less}.

Lemma insert_by_sorted x l :
  StronglySorted (not_after less) l →
  StronglySorted (not_after less) (insert_by less x l).
Proof.
  induction 1 as [|y l Hs IH Hy]; simpl; [by repeat constructor|].
  destruct (less y x) eqn:E.
  - constructor; [done|]. rewrite insert_by_perm.
    constructor; [|done]. by apply weak_asym.
  - constructor; [by constructor|]. constructor; [done|].
    rewrite Forall_forall in Hy |- *.
    intros z Hz. unfold not_after in *. eapply weak_trans; [done|]. by apply Hy.
Qed.

Lemma sort_by_sorted l : StronglySorted (not_after less) (sort_by less l).
Proof. induction l; simpl; [constructor|]. by apply insert_by_sorted. Qed.

(** An order without ties makes the result independent of the input order. *)
Lemma sort_by_perm_eq l1 l2 :
  (∀ x y, x ∈ l1 → y ∈ l1 → less x y = false → less y x = false → x = y) →
  l1 ≡ₚ l2 → sort_by less l1 = sort_by less l2.
Proof.
  intros Htie Hp. eapply StronglySorted_unique_strong;
    [|apply sort_by_sorted..|by rewrite !sort_by_perm].
  intros x y Hx Hy Hxy Hyx. rewrite elem_of_sort_by in Hx, Hy.
  rewrite <-Hp in Hy. by apply Htie.
Qed.
End SortingFacts.

Lemma sort_strings_perm_eq (l1 l2 : list string) :
  l1 ≡ₚ l2 → sort_strings l1 = sort_strings l2.
Proof. apply sort_by_perm_eq; [apply _|]. intros. by apply str_lt_antisym. Qed.

Lemma elem_of_sortedKeys {V} (m : gmap string V) k :
  k ∈ sortedKeys m ↔ is_Some (m !! k).
Proof.
  unfold sortedKeys, sort_strings. rewrite elem_of_sort_by, list_elem_of_fmap.
  split.
  - intros ([k' v] & -> & H). apply elem_of_map_to_list in H. by exists v.
  - intros [v H]. exists (k, v). by rewrite elem_of_map_to_list.
Qed.

Lemma NoDup_sortedKeys {V} (m : gmap string V) : NoDup (sortedKeys m).
Proof. unfold sortedKeys, sort_strings. rewrite NoDup_sort_by. apply NoDup_fst_map_to_list. Qed.

#[export] Hint Resolve str_lt_irrefl NoDup_sortedKeys : go_db.
