(* ===== verification/Json.v ===== *)
(** * JSON-shaped Go values

    The [any] values the operator passes around: what [encoding/json] decodes
    a device answer into, and what the profile renderer builds.  Both only ever
    hold nil, booleans, float64 numbers, strings, [[]any] and [map[string]any],
    so these six are the constructors.  Numbers are IEEE-754 binary64 values
    ([SpecFloat.spec_float] at precision 53), maps are stdpp's [gmap], whose
    Leibniz equality is equality of Go maps.  The file also holds the leaf
    comparison of drift/diff.go and the deep merge of the fake device. *)

From stdpp Require Import prelude gmap strings pretty sorting list.
From Stdlib Require Import SpecFloat.
From S2P Require Import Prelude.

(** ** Values *)

Inductive value : Type :=
| VNull
| VBool (b : bool)
| VNum (f : spec_float)
| VStr (s : string)
| VArr (l : list value)
| VObj (m : gmap string value).

(** [map[string]any]. *)
Abbreviation obj := (gmap string value).

(** [float64(z)] for a machine integer [z]. *)
Definition float64_of_Z (z : Z) : spec_float :=
  binary_normalize 53 1024 z 0 false.

(** Go's [==] on float64. *)
Definition float_eq (a b : spec_float) : bool := SFeqb a b.

(** [v.(map[string]any)] with the comma-ok form: [None] when [ok] is false. *)
Definition as_map (v : value) : option obj :=
  match v with VObj m => Some m | _ => None end.

(** The nested map under a value, empty when there is none. *)
Definition map_of (v : option value) : obj :=
  match v with Some (VObj m) => m | _ => ∅ end.
Arguments map_of v : simpl nomatch.

(** [json.Unmarshal(raw, &m)] for [m map[string]any]: objects decode, [null]
    leaves the map nil, any other document is a type error. *)
Definition unmarshal_map (raw : value) : option obj :=
  match raw with
  | VObj m => Some m
  | VNull => Some ∅
  | _ => None
  end.

(** ** Text *)

(** The [fmt] verbs [%v] (of a leaf value) and [%q] (of a string).  The texts
    only ever end up in messages, so nothing is assumed of them. *)
Class Fmt : Type := {
  fmt_v : value → string;
  fmt_q : string → string;
}.

(** [json.Marshal] of a value: its text (object keys in order), or an error for a
    value JSON has no text for. *)
Class JsonText : Type := {
  json_Marshal : value → res string string;
}.

(** ** Equality *)

(** [reflect.DeepEqual] on these values. *)
Fixpoint deepEqual (a b : value) {struct a} : bool :=
  match a, b with
  | VNull, VNull => true
  | VBool x, VBool y => Bool.eqb x y
  | VNum x, VNum y => float_eq x y
  | VStr x, VStr y => String.eqb x y
  | VArr x, VArr y =>
      (fix go (x y : list value) {struct x} : bool :=
         match x, y with
         | [], [] => true
         | a :: x, b :: y => deepEqual a b && go x y
         | _, _ => false
         end) x y
  | VObj x, VObj y =>
      bool_decide (dom x = dom y) &&
      map_fold (λ k a acc, match y !! k with
                           | Some b => deepEqual a b
                           | None => false
                           end && acc) true x
  | _, _ => false
  end.

(** [toFloat] of drift/diff.go.  Values carry numbers as float64 only, so the
    other numeric cases of the type switch have no inhabitant here. *)
Definition toFloat (v : value) : option spec_float :=
  match v with VNum f => Some f | _ => None end.

Definition leafEqual (w h : value) : bool :=
  match toFloat w with
  | Some wf => match toFloat h with Some hf => float_eq wf hf | None => false end
  | None => deepEqual w h
  end.

(** ** Deep merge (the fake device's [merge]) *)

(** The value [merge] stores under a key: objects are merged into the object
    already there (or into an empty one), everything else replaces it. *)
Fixpoint merge_val (dst : option value) (src : value) {struct src} : value :=
  match src with
  | VObj sm =>
      VObj (map_fold (λ k v acc, <[k := merge_val (map_of dst !! k) v]> acc)
              (map_of dst) sm)
  | v => v
  end.

Definition merge (dst src : obj) : obj :=
  map_fold (λ k v acc, <[k := merge_val (dst !! k) v]> acc) dst src.

(** ** Well-formed numbers *)

Definition not_nan (f : spec_float) : bool :=
  match f with S754_nan => false | _ => true end.

(** No NaN anywhere: what JSON can carry. *)
Fixpoint no_nan (v : value) : bool :=
  match v with
  | VNum f => not_nan f
  | VArr l => forallb no_nan l
  | VObj m => map_fold (λ _ v acc, no_nan v && acc) true m
  | _ => true
  end.

(** Number of nodes of a value; the induction measure. *)
Fixpoint vsize (v : value) : nat :=
  match v with
  | VArr l => S (foldr (λ x n, vsize x + n) 0 l)
  | VObj m => S (map_fold (λ _ x n, vsize x + n) 0 m)
  | _ => 1
  end.

(** ** Lemmas *)

#[export] Instance spec_float_eq_dec : EqDecision spec_float.
Proof. intros x y. unfold Decision. repeat decide equality. Defined.

#[export] Instance value_eq_dec : EqDecision value.
Proof.
  refine (
    fix go v1 v2 :=
      let _ : EqDecision value := @go in
      match v1, v2 with
      | VNull, VNull => left _
      | VBool x, VBool y => cast_if (decide (x = y))
      | VNum x, VNum y => cast_if (decide (x = y))
      | VStr x, VStr y => cast_if (decide (x = y))
      | VArr x, VArr y => cast_if (decide (x = y))
      | VObj x, VObj y => cast_if (decide (x = y))
      | _, _ => right _
      end);
    abstract congruence.
Defined.

Lemma map_fold_plus_lookup {V} (f : V → nat) (m : gmap string V) k v :
  m !! k = Some v → f v ≤ map_fold (λ _ x n, f x + n) 0 m.
Proof.
  intros Hk. rewrite <-(insert_delete_id m k v) by done.
  rewrite map_fold_insert_L; [lia|intros; lia|apply lookup_delete_eq].
Qed.

Lemma vsize_lookup (m : obj) k v : m !! k = Some v → vsize v < vsize (VObj m).
Proof. intros H. simpl. pose proof (map_fold_plus_lookup vsize m k v H). lia. Qed.

Lemma vsize_elem (l : list value) v : v ∈ l → vsize v < vsize (VArr l).
Proof.
  simpl. induction 1 as [x l|x y l _ IH]; simpl in *; lia.
Qed.

(** Induction that goes through arrays and objects. *)
Lemma value_ind' (P : value → Prop)
  (Hnull : P VNull) (Hbool : ∀ b, P (VBool b)) (Hnum : ∀ f, P (VNum f))
  (Hstr : ∀ s, P (VStr s))
  (Harr : ∀ l, Forall P l → P (VArr l))
  (Hobj : ∀ m, map_Forall (λ _, P) m → P (VObj m)) :
  ∀ v, P v.
Proof.
  intros v. remember (vsize v) as n eqn:Hn. revert v Hn.
  induction (lt_wf n) as [n _ IH]; intros [| | | |l|m] ->; try done.
  - apply Harr, Forall_forall. intros v Hv. eapply IH; [|done]. by apply vsize_elem.
  - apply Hobj. intros k v Hv. eapply IH; [|done]. by eapply vsize_lookup.
Qed.

(** A fold that stores one entry per key is a pointwise update. *)
Lemma map_fold_insert_lookup {V W} (f : string → V → W) (d : gmap string W)
  (m : gmap string V) i :
  map_fold (λ k v acc, <[k := f k v]> acc) d m !! i =
  match m !! i with Some v => Some (f i v) | None => d !! i end.
Proof.
  induction m as [|k v m Hk IH] using map_ind.
  { by rewrite map_fold_empty, lookup_empty. }
  rewrite map_fold_insert_L; [|intros; by apply insert_insert_ne|done].
  destruct (decide (k = i)) as [->|Hne]; by simplify_map_eq.
Qed.

(** A boolean conjunction over a map. *)
Lemma map_fold_andb {V} (p : string → V → bool) (m : gmap string V) :
  map_fold (λ k v acc, p k v && acc) true m = true ↔
  ∀ k v, m !! k = Some v → p k v = true.
Proof.
  induction m as [|k v m Hk IH] using map_ind.
  { rewrite map_fold_empty. split; [|done]. intros _ k v H. by simplify_map_eq. }
  rewrite map_fold_insert_L; [|intros; by rewrite !andb_assoc, (andb_comm (p j1 z1))|done].
  rewrite andb_true_iff, IH. split.
  - intros [Hv H] i w Hi. apply lookup_insert_Some in Hi as [[<- <-]|[_ Hi]]; eauto.
  - intros H. split; [apply H; by simplify_map_eq|].
    intros i w Hi. apply H. rewrite lookup_insert_ne; [done|]. by intros ->; congruence.
Qed.

Lemma merge_lookup (d s : obj) k :
  merge d s !! k =
  match s !! k with Some v => Some (merge_val (d !! k) v) | None => d !! k end.
Proof. apply (map_fold_insert_lookup (λ k v, merge_val (d !! k) v)). Qed.

Lemma merge_val_obj dst (sm : obj) :
  merge_val dst (VObj sm) = VObj (merge (map_of dst) sm).
Proof. done. Qed.

Lemma merge_empty_r (d : obj) : merge d ∅ = d.
Proof. apply map_eq; intros k. by rewrite merge_lookup, lookup_empty. Qed.

Lemma no_nan_obj (m : obj) :
  no_nan (VObj m) = true ↔ ∀ k v, m !! k = Some v → no_nan v = true.
Proof. apply (map_fold_andb (λ _ v, no_nan v)). Qed.

Lemma float_eq_refl f : not_nan f = true → float_eq f f = true.
Proof.
  unfold float_eq, SFeqb, SFcompare. destruct f as [s|s| |s m e]; simpl; try done.
  - by destruct s.
  - intros _. rewrite Z.compare_refl.
    assert (PosDef.Pos.compare_cont Eq m m = Eq) as -> by apply Pos.compare_refl.
    by destruct s.
Qed.

(** Shifting a nonnegative significand right keeps it nonnegative. *)
Lemma shr_1_nonneg mrs : (0 <= shr_m mrs → 0 <= shr_m (shr_1 mrs))%Z.
Proof. destruct mrs as [[|[]|[]] r s]; simpl; lia. Qed.

Lemma shr_fexp_nonneg prec emax m e l :
  (0 <= m → 0 <= shr_m (fst (shr_fexp prec emax m e l)))%Z.
Proof.
  intros Hm. unfold shr_fexp, shr.
  assert (Hr : (0 <= shr_m (shr_record_of_loc m l))%Z) by (destruct l as [|[]]; done).
  destruct (_ - _)%Z as [|p|p]; simpl; [done| |done].
  revert Hr. generalize (shr_record_of_loc m l) as r.
  induction p as [p IH|p IH|]; intros r Hr; simpl; auto using shr_1_nonneg.
Qed.

Lemma round_even_nonneg m l : (0 <= m → 0 <= round_nearest_even m l)%Z.
Proof. unfold round_nearest_even. intros. repeat case_match; lia. Qed.

(** Converting an integer never produces NaN. *)
Lemma float64_of_Z_not_nan z : not_nan (float64_of_Z z) = true.
Proof.
  assert (Hr : ∀ s p, not_nan (binary_round 53 1024 s p 0) = true).
  { intros s p. unfold binary_round. destruct (shl_align _ _ _) as [mz ez].
    unfold binary_round_aux.
    pose proof (shr_fexp_nonneg 53 1024 (Z.pos mz) ez loc_Exact ltac:(done)) as H1.
    destruct (shr_fexp _ _ _ _ _) as [mrs e]. simpl in H1.
    apply (round_even_nonneg _ (loc_of_shr_record mrs)) in H1.
    pose proof (shr_fexp_nonneg 53 1024 _ e loc_Exact H1) as H2.
    destruct (shr_fexp _ _ _ _ _) as [mrs' e']. simpl in H2.
    destruct (shr_m mrs'); [done| |lia]. by case_match. }
  unfold float64_of_Z, binary_normalize. destruct z; [done|apply Hr..].
Qed.

Lemma deepEqual_refl v : no_nan v = true → deepEqual v v = true.
Proof.
  induction v as [|b|f|s|l IH|m IH] using value_ind'; simpl; intros Hn.
  - done.
  - apply Bool.eqb_reflx.
  - by apply float_eq_refl.
  - apply String.eqb_refl.
  - induction IH as [|v l Hv _ IHl]; simpl in *; [done|].
    apply andb_true_iff in Hn as [Hn1 Hn2]. by rewrite Hv, IHl.
  - rewrite bool_decide_eq_true_2 by done. simpl.
    rewrite (map_fold_andb (λ _, no_nan)) in Hn.
    apply (map_fold_andb (λ k a, match m !! k with
                                 | Some b => deepEqual a b
                                 | None => false
                                 end)).
    intros k v Hk. rewrite Hk. eauto.
Qed.

Lemma leafEqual_refl v : no_nan v = true → leafEqual v v = true.
Proof.
  intros Hn. unfold leafEqual. destruct v; simpl; [by apply (deepEqual_refl _ Hn)..].
Qed.
