(* ===== verification/Floats.v ===== *)
(** * Magnitudes of float64 arithmetic

    The operator computes two durations in float64 and truncates them: the jittered
    interval of the next check, and the exporter's polling interval in seconds.
    Both must not come out as zero.  The order of magnitude of a result, the
    exponent of its leading bit, is enough to see that, and it survives rounding:
    rounding to nearest never leaves the power of two below a number. *)

From stdpp Require Import prelude.
From Stdlib Require Import SpecFloat.
From S2P Require Import Prelude Json.
Local Open Scope Z_scope.

(** The whole part of a finite number. *)
Definition whole (s : bool) (m : positive) (e : Z) : Z :=
  let a := if (0 <=? e)%Z then (Z.pos m * 2 ^ e)%Z else (Z.pos m / 2 ^ (- e))%Z in
  if s then (- a)%Z else a.

(** [time.Duration(f)] and [int(f)]: truncation towards zero to an int64.  The
    language leaves open what a number out of range becomes; on amd64, which the
    releases are built for, it is the least int64. *)
Definition trunc (f : spec_float) : Z :=
  match f with
  | S754_zero _ => 0%Z
  | S754_finite s m e =>
      let n := whole s m e in
      if ((- 2 ^ 63 <=? n) && (n <? 2 ^ 63))%Z then n else (- 2 ^ 63)%Z
  | _ => (- 2 ^ 63)%Z
  end.

(** The exponent of the leading bit of [m * 2^e]. *)
Definition lead (m e : Z) : Z := Z.log2 m + e.

(** A positive float in [2^lo, 2^(hi+1)). *)
Definition within (lo hi : Z) (f : spec_float) : Prop :=
  match f with
  | S754_finite false m e => lo ≤ lead (Zpos m) e ≤ hi
  | _ => False
  end.

(** Zero, or a positive float below 2^(hi+1). *)
Definition below (hi : Z) (f : spec_float) : Prop :=
  match f with
  | S754_zero false => True
  | S754_finite false m e => lead (Zpos m) e ≤ hi
  | _ => False
  end.

Lemma within_below lo hi f : within lo hi f → below hi f.
Proof. destruct f as [[]|[]| |[] m e]; cbn; lia. Qed.

Lemma within_weaken lo hi lo' hi' f : lo' ≤ lo → hi ≤ hi' → within lo hi f → within lo' hi' f.
Proof. destruct f as [[]|[]| |[] m e]; cbn; lia. Qed.

(** ** Shifts *)

Lemma digits2_size m : digits2_pos m = Pos.size m.
Proof. induction m as [m IH|m IH|]; cbn; by rewrite ?IH. Qed.

Lemma Zdigits2_log2 m : Zdigits2 (Zpos m) = Z.log2 (Zpos m) + 1.
Proof.
  cbn [Zdigits2]. rewrite digits2_size. destruct m as [m|m|]; cbn; lia.
Qed.

Lemma shr_1_half r : 0 ≤ shr_m r → shr_m (shr_1 r) = shr_m r / 2.
Proof.
  destruct r as [[|p|p] b s]; cbn; [done| |lia]. intros _. destruct p as [p|p|]; cbn [shr_m].
  - apply Z.div_unique with 1; lia.
  - apply Z.div_unique with 0; lia.
  - done.
Qed.

Lemma iter_shr p : ∀ r, 0 ≤ shr_m r → shr_m (iter_pos shr_1 p r) = shr_m r / 2 ^ Zpos p.
Proof.
  assert (Hdiv : ∀ a k, 0 ≤ a → 0 ≤ a / 2 ^ Zpos k) by (intros; apply Z.div_pos; lia).
  induction p as [p IH|p IH|]; intros r Hr; cbn [iter_pos].
  - assert (H1 : 0 ≤ shr_m (shr_1 r)) by (rewrite shr_1_half by done; apply Z.div_pos; lia).
    rewrite IH, IH, shr_1_half by (rewrite ?IH by done; auto).
    rewrite !Z.div_div by lia. f_equal. replace (Zpos p~1) with (1 + Zpos p + Zpos p) by lia.
    rewrite !Z.pow_add_r by lia. lia.
  - rewrite IH, IH by (rewrite ?IH by done; auto). rewrite Z.div_div by lia. f_equal.
    replace (Zpos p~0) with (Zpos p + Zpos p) by lia. by rewrite Z.pow_add_r by lia.
  - by rewrite shr_1_half.
Qed.

(** Shifting to the format: the leading bit stays, unless nothing does. *)
Lemma shr_fexp_lead m e l :
  0 < m →
  let out := shr_fexp 53 1024 m e l in
  (0 ≤ shr_m out.1) ∧ (0 < shr_m out.1 → lead (shr_m out.1) out.2 = lead m e) ∧
  (-1000 ≤ lead m e → 0 < shr_m out.1).
Proof.
  intros Hm. destruct m as [|m|m]; [lia| |lia]. unfold shr_fexp. rewrite Zdigits2_log2.
  assert (Hr : shr_m (shr_record_of_loc (Zpos m) l) = Zpos m) by (by destruct l as [|[]]).
  pose proof (Z.log2_nonneg (Zpos m)) as Hlog. unfold lead.
  unfold fexp, emin. set (n := Z.max _ _ - e). unfold shr.
  destruct n as [|p|p] eqn:Hn; cbn [fst snd]; rewrite ?Hr; [lia| |lia].
  rewrite iter_shr, Hr by (rewrite Hr; lia). rewrite <- Z.shiftr_div_pow2 by lia.
  rewrite Z.log2_shiftr by lia. split; [apply Z.shiftr_nonneg; lia|].
  assert (Hle : 0 < Z.shiftr (Zpos m) (Zpos p) ↔ Zpos p ≤ Z.log2 (Zpos m)).
  { rewrite Z.shiftr_div_pow2 by lia. split; intros Hp.
    - apply Z.log2_le_pow2; [lia|]. destruct (Z.le_gt_cases (2 ^ Zpos p) (Zpos m)); [done|].
      rewrite Z.div_small in Hp by lia. lia.
    - apply Z.div_str_pos. split; [lia|]. by apply Z.log2_le_pow2. }
  split; [intros ?%Hle; lia|]. intros Hlo. apply Hle. lia.
Qed.

Lemma round_even_step m l : 0 ≤ m → m ≤ round_nearest_even m l ≤ m + 1.
Proof. intros. unfold round_nearest_even. repeat case_match; lia. Qed.

Lemma log2_step m m' : 0 < m → m ≤ m' ≤ m + 1 → Z.log2 m ≤ Z.log2 m' ≤ Z.log2 m + 1.
Proof.
  intros Hm [? ?]. split; [by apply Z.log2_le_mono|].
  etrans; [apply (Z.log2_le_mono m' (m + 1)); lia|]. apply Z.log2_succ_le.
Qed.

(** ** Rounding *)

Lemma round_aux_within m e l lo hi :
  0 < m → -1000 ≤ lo → lo ≤ lead m e ≤ hi → hi ≤ 900 →
  within lo (hi + 1) (binary_round_aux 53 1024 false m e l).
Proof.
  intros Hm Hlo [Hl Hh] Hhi. unfold binary_round_aux.
  destruct (shr_fexp_lead m e l Hm) as (_ & Hkeep & Hpos).
  destruct (shr_fexp 53 1024 m e l) as [r1 e1]. cbn [fst snd] in Hkeep, Hpos.
  assert (Hr1 : 0 < shr_m r1) by (apply Hpos; lia). specialize (Hkeep Hr1).
  destruct (round_even_step (shr_m r1) (loc_of_shr_record r1)) as [Ha Hb]; [lia|].
  set (m2 := round_nearest_even _ _) in *.
  destruct (log2_step (shr_m r1) m2) as [Hla Hlb]; [lia..|].
  destruct (shr_fexp_lead m2 e1 loc_Exact) as (_ & Hkeep2 & Hpos2); [lia|].
  destruct (shr_fexp 53 1024 m2 e1 loc_Exact) as [r2 e2]. cbn [fst snd] in Hkeep2, Hpos2.
  unfold lead in *. assert (Hr2 : 0 < shr_m r2) by (apply Hpos2; lia). specialize (Hkeep2 Hr2).
  destruct (shr_m r2) as [|m3|m3]; [lia| |lia].
  pose proof (Z.log2_nonneg (Zpos m3)). rewrite (proj2 (Z.leb_le _ _)) by lia.
  cbn. unfold lead. lia.
Qed.

(** The exponent after a shift. *)
Lemma shr_fexp_exp m e l hi :
  0 ≤ m → e ≤ hi → (0 < m → lead m e ≤ hi) → -1074 ≤ hi →
  0 ≤ shr_m (shr_fexp 53 1024 m e l).1 ∧ (shr_fexp 53 1024 m e l).2 ≤ hi ∧
  (0 < shr_m (shr_fexp 53 1024 m e l).1 → lead (shr_m (shr_fexp 53 1024 m e l).1) (shr_fexp 53 1024 m e l).2 ≤ hi).
Proof.
  intros Hm He Hl Hhi. split; [by apply shr_fexp_nonneg|]. split.
  - assert (Hd : Zdigits2 m + e ≤ hi + 1).
    { destruct m as [|m|m]; [cbn; lia| |lia]. rewrite Zdigits2_log2. unfold lead in Hl. lia. }
    unfold shr_fexp, fexp, emin. set (n := Z.max _ _ - e).
    assert (Hn : n ≤ hi - e) by lia. clearbody n. unfold shr. destruct n; cbn [snd]; lia.
  - intros Hpos. destruct (Z.eq_dec m 0) as [->|Hne].
    + exfalso. revert Hpos. unfold shr_fexp, shr. destruct (_ - _) as [|k|k].
      * destruct l as [|[]]; cbn; lia.
      * cbn [fst]. rewrite iter_shr by (destruct l as [|[]]; cbn; lia).
        destruct l as [|[]]; cbn [shr_m shr_record_of_loc]; rewrite Z.div_0_l; lia.
      * destruct l as [|[]]; cbn; lia.
    + destruct (shr_fexp_lead m e l) as (_ & Hkeep & _); [lia|]. rewrite (Hkeep Hpos). apply Hl. lia.
Qed.

Lemma round_aux_below m e l hi :
  0 ≤ m → e ≤ hi → (0 < m → lead m e ≤ hi) → -1074 ≤ hi ≤ 900 →
  below (hi + 1) (binary_round_aux 53 1024 false m e l).
Proof.
  intros Hm He Hl [Hlo Hhi]. unfold binary_round_aux.
  destruct (shr_fexp_exp m e l hi Hm He Hl Hlo) as (Hr1 & He1 & Hl1).
  destruct (shr_fexp 53 1024 m e l) as [r1 e1]. cbn [fst snd] in *.
  destruct (round_even_step (shr_m r1) (loc_of_shr_record r1) Hr1) as [Ha Hb].
  set (m2 := round_nearest_even _ _) in *.
  assert (Hl2 : 0 < m2 → lead m2 e1 ≤ hi + 1).
  { intros Hm2. unfold lead in *. destruct (Z.eq_dec (shr_m r1) 0) as [Hz|Hz].
    - replace m2 with 1 by lia. cbn. lia.
    - destruct (log2_step (shr_m r1) m2); lia. }
  destruct (shr_fexp_exp m2 e1 loc_Exact (hi + 1)) as (Hr2 & He2 & Hl3); [lia..|done|lia|].
  destruct (shr_fexp 53 1024 m2 e1 loc_Exact) as [r2 e2]. cbn [fst snd] in *.
  destruct (shr_m r2) as [|m3|m3]; [done| |lia].
  rewrite (proj2 (Z.leb_le _ _)) by lia. cbn. apply Hl3. lia.
Qed.

(** ** Alignment *)

Lemma shl_align_spec m e e' :
  Zpos (shl_align m e e').1 = Zpos m * 2 ^ (e - (shl_align m e e').2) ∧
  (shl_align m e e').2 = Z.min e e'.
Proof.
  unfold shl_align. destruct (e' - e) as [|d|d] eqn:Hd; cbn [fst snd].
  - replace (e - e) with 0 by lia. lia.
  - replace (e - e) with 0 by lia. lia.
  - split; [|lia]. replace (e - e') with (Zpos d) by lia.
    clear.
    induction d as [|d IH] using Pos.peano_ind; [cbn; lia|].
    rewrite Pos.iter_succ. rewrite Pos2Z.inj_succ, Z.pow_succ_r by lia. lia.
Qed.

Lemma shl_align_lead m e e' : lead (Zpos (shl_align m e e').1) (shl_align m e e').2 = lead (Zpos m) e.
Proof.
  destruct (shl_align_spec m e e') as [Hm He]. unfold lead. rewrite Hm.
  rewrite Z.log2_mul_pow2 by lia. lia.
Qed.

Lemma normalize_within m e lo hi :
  0 < m → -1000 ≤ lo → lo ≤ lead m e ≤ hi → hi ≤ 900 →
  within lo (hi + 1) (binary_normalize 53 1024 m e false).
Proof.
  intros Hm Hlo Hl Hhi. destruct m as [|m|m]; [lia| |lia]. cbn [binary_normalize]. unfold binary_round.
  set (e' := fexp _ _ _). pose proof (shl_align_lead m e e') as Ha.
  destruct (shl_align m e e') as [mz ez]. cbn [fst snd] in Ha.
  apply round_aux_within; [lia|done|by rewrite Ha|done].
Qed.

(** ** Operations *)

Lemma of_Z_within z lo hi : 2 ^ lo ≤ z < 2 ^ (hi + 1) → 0 ≤ lo → hi ≤ 900 → within lo (hi + 1) (float64_of_Z z).
Proof.
  intros [Hl Hh] Hlo Hhi. assert (0 < 2 ^ lo) by (apply Z.pow_pos_nonneg; lia).
  apply normalize_within; [lia|lia| |done]. unfold lead.
  pose proof (proj1 (Z.log2_le_pow2 z lo ltac:(lia)) Hl).
  pose proof (proj1 (Z.log2_lt_pow2 z (hi + 1) ltac:(lia)) Hh). lia.
Qed.

Lemma SFadd_within x y lo hi :
  within lo hi x → below hi y → -1000 ≤ lo → hi ≤ 800 → within lo (hi + 2) (SFadd 53 1024 x y).
Proof.
  intros Hx Hy Hlo Hhi. destruct x as [[]|[]| |[] mx ex]; try done.
  destruct y as [[]|[]| |[] my ey]; try done.
  - cbn in *. lia.
  - cbn [SFadd cond_Zopp]. cbv zeta. set (ez := Z.min ex ey).
    pose proof (shl_align_lead mx ex ez) as Lx. pose proof (shl_align_lead my ey ez) as Ly.
    pose proof (proj2 (shl_align_spec mx ex ez)) as Ex. pose proof (proj2 (shl_align_spec my ey ez)) as Ey.
    replace (Z.min ex ez) with ez in Ex by lia. replace (Z.min ey ez) with ez in Ey by lia.
    rewrite Ex in Lx. rewrite Ey in Ly.
    set (a := (shl_align mx ex ez).1) in *. set (b := (shl_align my ey ez).1) in *.
    cbn in Hx, Hy. rewrite <- Lx in Hx. rewrite <- Ly in Hy. unfold lead in *.
    replace (hi + 2) with (hi + 1 + 1) by lia. apply normalize_within; [lia|lia| |lia]. unfold lead.
    assert (Ha : Z.log2 (Zpos a) ≤ Z.log2 (Zpos a + Zpos b)) by (apply Z.log2_le_mono; lia).
    enough (Z.log2 (Zpos a + Zpos b) < hi - ez + 2) by lia.
    pose proof (Z.log2_nonneg (Zpos a)).
    apply Z.log2_lt_pow2; [lia|]. replace (hi - ez + 2) with (Z.succ (hi - ez + 1)) by lia.
    rewrite Z.pow_succ_r by lia.
    assert (Zpos a < 2 ^ (hi - ez + 1)) by (apply Z.log2_lt_pow2; lia).
    assert (Zpos b < 2 ^ (hi - ez + 1)) by (apply Z.log2_lt_pow2; lia). lia.
Qed.

Lemma lead_mul mx ex my ey :
  lead (Zpos mx) ex + lead (Zpos my) ey ≤ lead (Zpos (mx * my)) (ex + ey) ≤
  lead (Zpos mx) ex + lead (Zpos my) ey + 1.
Proof.
  unfold lead. rewrite Pos2Z.inj_mul.
  pose proof (Z.log2_mul_below (Zpos mx) (Zpos my)). pose proof (Z.log2_mul_above (Zpos mx) (Zpos my)). lia.
Qed.

Lemma SFmul_within x y lo1 hi1 lo2 hi2 :
  within lo1 hi1 x → within lo2 hi2 y → -1000 ≤ lo1 + lo2 → hi1 + hi2 ≤ 800 →
  within (lo1 + lo2) (hi1 + hi2 + 2) (SFmul 53 1024 x y).
Proof.
  intros Hx Hy Hlo Hhi. destruct x as [[]|[]| |[] mx ex]; try done.
  destruct y as [[]|[]| |[] my ey]; try done. cbn [SFmul xorb]. cbn in Hx, Hy.
  pose proof (lead_mul mx ex my ey). replace (hi1 + hi2 + 2) with (hi1 + hi2 + 1 + 1) by lia.
  apply round_aux_within; lia.
Qed.

Lemma SFmul_below x y lo1 hi1 hi2 :
  within lo1 hi1 x → below hi2 y → -1074 ≤ hi1 + hi2 + 1 ≤ 900 →
  below (hi1 + hi2 + 2) (SFmul 53 1024 x y).
Proof.
  intros Hx Hy Hhi. destruct x as [[]|[]| |[] mx ex]; try done.
  destruct y as [[]|[]| |[] my ey]; try done. cbn [SFmul xorb]. cbn in Hx, Hy.
  pose proof (lead_mul mx ex my ey). replace (hi1 + hi2 + 2) with (hi1 + hi2 + 1 + 1) by lia.
  unfold lead in *. pose proof (Z.log2_nonneg (Zpos mx)). pose proof (Z.log2_nonneg (Zpos my)).
  apply round_aux_below; [lia| | |lia]; unfold lead; lia.
Qed.

Lemma SFdiv_below x y lo1 hi1 m2 e2 hi :
  within lo1 hi1 x → y = S754_finite false m2 e2 → hi1 - e2 ≤ hi → -1074 ≤ hi ≤ 900 →
  below (hi + 1) (SFdiv 53 1024 x y).
Proof.
  intros Hx -> Hhi Hr. destruct x as [[]|[]| |[] m1 e1]; try done. cbn in Hx.
  cbn [SFdiv xorb]. unfold SFdiv_core_binary.
  set (e' := Z.min _ (e1 - e2)). assert (He' : e' ≤ e1 - e2) by apply Z.le_min_r. clearbody e'.
  assert (Hm' : match e1 - e2 - e' with
                | Z0 => Zpos m1
                | Zpos _ => Z.shiftl (Zpos m1) (e1 - e2 - e')
                | Zneg _ => 0
                end = Zpos m1 * 2 ^ (e1 - e2 - e')).
  { destruct (e1 - e2 - e') as [|s|s] eqn:Hs; [lia| |lia]. by rewrite Z.shiftl_mul_pow2 by lia. }
  rewrite Hm'. set (m' := Zpos m1 * _). 
  assert (Hpos : 0 < m') by (apply Z.mul_pos_pos; [lia|apply Z.pow_pos_nonneg; lia]).
  pose proof (Z_div_mod m' (Zpos m2) ltac:(lia)) as Hdm.
  destruct (Z.div_eucl m' (Zpos m2)) as [q r]. destruct Hdm as [Hdm Hrem].
  assert (Hq : 0 ≤ q ≤ m') by nia.
  assert (Hlog : Z.log2 m' = Z.log2 (Zpos m1) + (e1 - e2 - e')) by (unfold m'; rewrite Z.log2_mul_pow2 by lia; lia).
  pose proof (Z.log2_nonneg (Zpos m1)). unfold lead in *.
  apply round_aux_below; [lia|lia| |lia]. intros Hq0. unfold lead.
  pose proof (Z.log2_le_mono q m' ltac:(lia)). lia.
Qed.

(** In range, and at least one, the conversion gives the whole part. *)
Lemma trunc_pos f hi : within 0 hi f → hi ≤ 62 → 1 ≤ trunc f < 2 ^ 63.
Proof.
  destruct f as [[]|[]| |[] m e]; try done. cbn. unfold lead, whole. intros [Hl Hh] Hhi.
  set (a := if 0 <=? e then _ else _).
  assert (Ha : 1 ≤ a < 2 ^ 63).
  { unfold a. destruct (Z.leb_spec 0 e) as [He|He].
    - assert (0 < 2 ^ e) by (apply Z.pow_pos_nonneg; lia). split; [nia|].
      apply Z.log2_lt_pow2; [nia|]. rewrite Z.log2_mul_pow2 by lia. lia.
    - assert (0 < 2 ^ (- e)) by (apply Z.pow_pos_nonneg; lia). split.
      + apply Z.div_le_lower_bound; [done|]. rewrite Z.mul_1_r. apply Z.log2_le_pow2; lia.
      + apply Z.div_lt_upper_bound; [done|]. rewrite <- Z.pow_add_r by lia.
        apply Z.log2_lt_pow2; lia. }
  rewrite (proj2 (Z.leb_le _ _)), (proj2 (Z.ltb_lt _ _)) by lia. done.
Qed.
