(* ===== verification/Api.v ===== *)
(** * The API objects (api/v1alpha1)

    [ShellyDevice] and [ShellyProfile] as the Go structs declare them, with the
    source's field names behind a short prefix per struct (Rocq's field names
    are global).  A pointer field is an [option], a slice a [list], a map a
    [gmap]; int32 fields are [Z].  [ObjectMeta] keeps the metadata fields the
    operator reads or writes.  Times are nanoseconds since the Unix epoch.

    [LabelSelector] and [Condition] belong to apimachinery: their fields are
    data here, and the library's functions on them (selector matching, the
    position [FindStatusCondition] points at, [SetStatusCondition],
    [IsQualifiedName]) are members of the classes below, with the laws the
    operator relies on stated apart.  The structs as objects in memory, with
    pointers and slices that can be shared, are in Objects.v. *)

From stdpp Require Import prelude gmap strings pretty sorting list.
From S2P Require Import Prelude Json.

(** ** Time *)

(** [time.Time] and [time.Duration], in nanoseconds. *)
Abbreviation time := Z.
Abbreviation duration := Z.

Definition Second : duration := 1000000000%Z.
Definition Minute : duration := (60 * Second)%Z.

(** The zero [time.Time]: 0001-01-01T00:00:00Z. *)
Definition time_zero : time := (-62135596800 * Second)%Z.
Definition IsZero (t : time) : bool := bool_decide (t = time_zero).

Definition max_duration : duration := (2 ^ 63 - 1)%Z.
Definition min_duration : duration := (- 2 ^ 63)%Z.

(** [t.Sub(u)]: the difference, saturated to the int64 range. *)
Definition time_Sub (t u : time) : duration :=
  Z.max min_duration (Z.min max_duration (t - u)).

(** int64 arithmetic wraps around. *)
Definition int64 (n : Z) : Z := ((n + 2 ^ 63) mod 2 ^ 64 - 2 ^ 63)%Z.

Definition time_After (t u : time) : bool := (u <? t)%Z.

(** ** ShellyProfile (shellyprofile_types.go) *)

Definition ModeObserve : string := "observe".
Definition ModeEnforce : string := "enforce".

(** apimachinery's [metav1.LabelSelector]. *)
Record LabelSelectorRequirement : Type := MkLabelSelectorRequirement {
  req_Key : string;
  req_Operator : string;
  req_Values : list string;
}.

Record LabelSelector : Type := MkLabelSelector {
  sel_MatchLabels : gmap string string;
  sel_MatchExpressions : list LabelSelectorRequirement;
}.

Record RebootWindow : Type := MkRebootWindow {
  rw_Start : string;
  rw_End : string;
  rw_TimeZone : string;
}.

Record NightMode : Type := MkNightMode {
  nm_Enable : option bool;
  nm_Brightness : option Z;
  nm_ActiveBetween : list string;
}.

Record UISection : Type := MkUISection {
  ui_LEDMode : option string;
  ui_NightMode : option NightMode;
  ui_ButtonInMode : option string;
}.

Record SystemSection : Type := MkSystemSection {
  sys_EcoMode : option bool;
  sys_Discoverable : option bool;
  sys_Timezone : option string;
  sys_Latitude : option string;
  sys_Longitude : option string;
  sys_SNTPServer : option string;
  sys_DebugLevel : option Z;
}.

Record NameSection : Type := MkNameSection {
  name_Managed : bool;
}.

Record MQTTSection : Type := MkMQTTSection {
  mqtt_Enable : option bool;
  mqtt_Server : string;
}.

Record CloudSection : Type := MkCloudSection {
  cloud_Enable : option bool;
}.

Record BLESection : Type := MkBLESection {
  ble_Enable : option bool;
}.

Record WSSection : Type := MkWSSection {
  ws_Enable : option bool;
}.

Record SecretKeyRef : Type := MkSecretKeyRef {
  ref_Name : string;
  ref_Key : string;
}.

Record AuthSection : Type := MkAuthSection {
  auth_Enable : option bool;
  auth_PasswordSecretRef : option SecretKeyRef;
}.

Record SwitchSection : Type := MkSwitchSection {
  sw_InitialState : option string;
  sw_AutoOn : option bool;
  sw_AutoOnDelay : option Z;
  sw_AutoOff : option bool;
  sw_AutoOffDelay : option Z;
  sw_PowerLimit : option Z;
  sw_VoltageLimit : option Z;
  sw_CurrentLimit : option Z;
  sw_AutorecoverVoltageErrors : option bool;
}.

Record WifiAP : Type := MkWifiAP {
  ap_Enable : option bool;
  ap_RangeExtender : option bool;
}.

Record WifiRoam : Type := MkWifiRoam {
  roam_RSSIThreshold : option Z;
  roam_Interval : option Z;
}.

Record WifiNetwork : Type := MkWifiNetwork {
  net_Enable : option bool;
  net_SSID : string;
  net_PassSecretRef : option SecretKeyRef;
}.

Record WifiSection : Type := MkWifiSection {
  wifi_Sta : option WifiNetwork;
  wifi_Sta1 : option WifiNetwork;
  wifi_AP : option WifiAP;
  wifi_Roam : option WifiRoam;
}.

(** [Params] is raw JSON, held as the document it denotes; [None] is the nil
    pointer (or an empty document). *)
Record ScheduleCallSpec : Type := MkScheduleCallSpec {
  cs_Method : string;
  cs_Params : option value;
}.

Record ScheduleJobSpec : Type := MkScheduleJobSpec {
  js_Enable : option bool;
  js_Timespec : string;
  js_Calls : list ScheduleCallSpec;
}.

Record ScheduleSection : Type := MkScheduleSection {
  sched_Jobs : list ScheduleJobSpec;
}.

Record FirmwareSection : Type := MkFirmwareSection {
  fw_AutoUpdate : option bool;
}.

Record ProfileConfig : Type := MkProfileConfig {
  cfg_System : option SystemSection;
  cfg_Name : option NameSection;
  cfg_MQTT : option MQTTSection;
  cfg_Cloud : option CloudSection;
  cfg_BLE : option BLESection;
  cfg_WS : option WSSection;
  cfg_Auth : option AuthSection;
  cfg_Switch : option SwitchSection;
  cfg_Wifi : option WifiSection;
  cfg_Firmware : option FirmwareSection;
  cfg_Schedules : option ScheduleSection;
  cfg_UI : option UISection;
}.

Record ShellyProfileSpec : Type := MkShellyProfileSpec {
  ps_Selector : option LabelSelector;
  ps_Priority : Z;
  ps_Mode : string;
  ps_Config : ProfileConfig;
  ps_RebootWhenRequired : bool;
  ps_RebootWindow : option RebootWindow;
  ps_UpdateWhenAvailable : bool;
  ps_UpdateWindow : option RebootWindow;
}.

(** A profile: its object name and its spec. *)
Record ShellyProfile : Type := MkShellyProfile {
  prof_Name : string;
  prof_Spec : ShellyProfileSpec;
}.

(** ** ShellyDevice (shellydevice_types.go) *)

(** apimachinery's [metav1.ConditionStatus] and [metav1.Condition]. *)
Inductive ConditionStatus : Type := ConditionTrue | ConditionFalse | ConditionUnknown.

Record Condition : Type := MkCondition {
  cond_Type : string;
  cond_Status : ConditionStatus;
  cond_Reason : string;
  cond_Message : string;
  cond_ObservedGeneration : Z;
  cond_LastTransitionTime : time;
}.

Record ShellyDeviceSpec : Type := MkShellyDeviceSpec {
  ds_Paused : bool;
  ds_DisplayName : string;
  ds_ProfileRef : string;
}.

Record FirmwareUpdateAttempt : Type := MkFirmwareUpdateAttempt {
  fua_Time : time;
  fua_From : string;
  fua_Target : string;
  fua_Error : string;
  fua_Refused : bool;
}.

Record ShellyDeviceStatus : Type := MkShellyDeviceStatus {
  st_Address : string;
  st_MAC : string;
  st_Model : string;
  st_App : string;
  st_Gen : Z;
  st_Firmware : string;
  st_AvailableFirmware : string;
  st_AuthEnabled : bool;
  st_RestartRequired : bool;
  st_LastFirmwareUpdate : option FirmwareUpdateAttempt;
  st_DeviceName : string;
  st_Online : bool;
  st_LastSeen : option time;
  st_MatchedProfile : string;
  st_DriftedSections : list string;
  st_Conditions : list Condition;
}.

Definition set_st_Address (x : string) (r : ShellyDeviceStatus) : ShellyDeviceStatus :=
  MkShellyDeviceStatus x r.(st_MAC) r.(st_Model) r.(st_App) r.(st_Gen)
    r.(st_Firmware) r.(st_AvailableFirmware) r.(st_AuthEnabled)
    r.(st_RestartRequired) r.(st_LastFirmwareUpdate) r.(st_DeviceName)
    r.(st_Online) r.(st_LastSeen) r.(st_MatchedProfile) r.(st_DriftedSections)
    r.(st_Conditions).

Definition set_st_MAC (x : string) (r : ShellyDeviceStatus) : ShellyDeviceStatus :=
  MkShellyDeviceStatus r.(st_Address) x r.(st_Model) r.(st_App) r.(st_Gen)
    r.(st_Firmware) r.(st_AvailableFirmware) r.(st_AuthEnabled)
    r.(st_RestartRequired) r.(st_LastFirmwareUpdate) r.(st_DeviceName)
    r.(st_Online) r.(st_LastSeen) r.(st_MatchedProfile) r.(st_DriftedSections)
    r.(st_Conditions).

Definition set_st_Model (x : string) (r : ShellyDeviceStatus) : ShellyDeviceStatus :=
  MkShellyDeviceStatus r.(st_Address) r.(st_MAC) x r.(st_App) r.(st_Gen)
    r.(st_Firmware) r.(st_AvailableFirmware) r.(st_AuthEnabled)
    r.(st_RestartRequired) r.(st_LastFirmwareUpdate) r.(st_DeviceName)
    r.(st_Online) r.(st_LastSeen) r.(st_MatchedProfile) r.(st_DriftedSections)
    r.(st_Conditions).

Definition set_st_App (x : string) (r : ShellyDeviceStatus) : ShellyDeviceStatus :=
  MkShellyDeviceStatus r.(st_Address) r.(st_MAC) r.(st_Model) x r.(st_Gen)
    r.(st_Firmware) r.(st_AvailableFirmware) r.(st_AuthEnabled)
    r.(st_RestartRequired) r.(st_LastFirmwareUpdate) r.(st_DeviceName)
    r.(st_Online) r.(st_LastSeen) r.(st_MatchedProfile) r.(st_DriftedSections)
    r.(st_Conditions).

Definition set_st_Gen (x : Z) (r : ShellyDeviceStatus) : ShellyDeviceStatus :=
  MkShellyDeviceStatus r.(st_Address) r.(st_MAC) r.(st_Model) r.(st_App) x
    r.(st_Firmware) r.(st_AvailableFirmware) r.(st_AuthEnabled)
    r.(st_RestartRequired) r.(st_LastFirmwareUpdate) r.(st_DeviceName)
    r.(st_Online) r.(st_LastSeen) r.(st_MatchedProfile) r.(st_DriftedSections)
    r.(st_Conditions).

Definition set_st_Firmware (x : string) (r : ShellyDeviceStatus) : ShellyDeviceStatus :=
  MkShellyDeviceStatus r.(st_Address) r.(st_MAC) r.(st_Model) r.(st_App)
    r.(st_Gen) x r.(st_AvailableFirmware) r.(st_AuthEnabled)
    r.(st_RestartRequired) r.(st_LastFirmwareUpdate) r.(st_DeviceName)
    r.(st_Online) r.(st_LastSeen) r.(st_MatchedProfile) r.(st_DriftedSections)
    r.(st_Conditions).

Definition set_st_AvailableFirmware (x : string) (r : ShellyDeviceStatus) : ShellyDeviceStatus :=
  MkShellyDeviceStatus r.(st_Address) r.(st_MAC) r.(st_Model) r.(st_App)
    r.(st_Gen) r.(st_Firmware) x r.(st_AuthEnabled) r.(st_RestartRequired)
    r.(st_LastFirmwareUpdate) r.(st_DeviceName) r.(st_Online) r.(st_LastSeen)
    r.(st_MatchedProfile) r.(st_DriftedSections) r.(st_Conditions).

Definition set_st_AuthEnabled (x : bool) (r : ShellyDeviceStatus) : ShellyDeviceStatus :=
  MkShellyDeviceStatus r.(st_Address) r.(st_MAC) r.(st_Model) r.(st_App)
    r.(st_Gen) r.(st_Firmware) r.(st_AvailableFirmware) x
    r.(st_RestartRequired) r.(st_LastFirmwareUpdate) r.(st_DeviceName)
    r.(st_Online) r.(st_LastSeen) r.(st_MatchedProfile) r.(st_DriftedSections)
    r.(st_Conditions).

Definition set_st_RestartRequired (x : bool) (r : ShellyDeviceStatus) : ShellyDeviceStatus :=
  MkShellyDeviceStatus r.(st_Address) r.(st_MAC) r.(st_Model) r.(st_App)
    r.(st_Gen) r.(st_Firmware) r.(st_AvailableFirmware) r.(st_AuthEnabled) x
    r.(st_LastFirmwareUpdate) r.(st_DeviceName) r.(st_Online) r.(st_LastSeen)
    r.(st_MatchedProfile) r.(st_DriftedSections) r.(st_Conditions).

Definition set_st_LastFirmwareUpdate (x : option FirmwareUpdateAttempt) (r : ShellyDeviceStatus) : ShellyDeviceStatus :=
  MkShellyDeviceStatus r.(st_Address) r.(st_MAC) r.(st_Model) r.(st_App)
    r.(st_Gen) r.(st_Firmware) r.(st_AvailableFirmware) r.(st_AuthEnabled)
    r.(st_RestartRequired) x r.(st_DeviceName) r.(st_Online) r.(st_LastSeen)
    r.(st_MatchedProfile) r.(st_DriftedSections) r.(st_Conditions).

Definition set_st_DeviceName (x : string) (r : ShellyDeviceStatus) : ShellyDeviceStatus :=
  MkShellyDeviceStatus r.(st_Address) r.(st_MAC) r.(st_Model) r.(st_App)
    r.(st_Gen) r.(st_Firmware) r.(st_AvailableFirmware) r.(st_AuthEnabled)
    r.(st_RestartRequired) r.(st_LastFirmwareUpdate) x r.(st_Online)
    r.(st_LastSeen) r.(st_MatchedProfile) r.(st_DriftedSections)
    r.(st_Conditions).

Definition set_st_Online (x : bool) (r : ShellyDeviceStatus) : ShellyDeviceStatus :=
  MkShellyDeviceStatus r.(st_Address) r.(st_MAC) r.(st_Model) r.(st_App)
    r.(st_Gen) r.(st_Firmware) r.(st_AvailableFirmware) r.(st_AuthEnabled)
    r.(st_RestartRequired) r.(st_LastFirmwareUpdate) r.(st_DeviceName) x
    r.(st_LastSeen) r.(st_MatchedProfile) r.(st_DriftedSections)
    r.(st_Conditions).

Definition set_st_LastSeen (x : option time) (r : ShellyDeviceStatus) : ShellyDeviceStatus :=
  MkShellyDeviceStatus r.(st_Address) r.(st_MAC) r.(st_Model) r.(st_App)
    r.(st_Gen) r.(st_Firmware) r.(st_AvailableFirmware) r.(st_AuthEnabled)
    r.(st_RestartRequired) r.(st_LastFirmwareUpdate) r.(st_DeviceName)
    r.(st_Online) x r.(st_MatchedProfile) r.(st_DriftedSections)
    r.(st_Conditions).

Definition set_st_MatchedProfile (x : string) (r : ShellyDeviceStatus) : ShellyDeviceStatus :=
  MkShellyDeviceStatus r.(st_Address) r.(st_MAC) r.(st_Model) r.(st_App)
    r.(st_Gen) r.(st_Firmware) r.(st_AvailableFirmware) r.(st_AuthEnabled)
    r.(st_RestartRequired) r.(st_LastFirmwareUpdate) r.(st_DeviceName)
    r.(st_Online) r.(st_LastSeen) x r.(st_DriftedSections) r.(st_Conditions).

Definition set_st_DriftedSections (x : list string) (r : ShellyDeviceStatus) : ShellyDeviceStatus :=
  MkShellyDeviceStatus r.(st_Address) r.(st_MAC) r.(st_Model) r.(st_App)
    r.(st_Gen) r.(st_Firmware) r.(st_AvailableFirmware) r.(st_AuthEnabled)
    r.(st_RestartRequired) r.(st_LastFirmwareUpdate) r.(st_DeviceName)
    r.(st_Online) r.(st_LastSeen) r.(st_MatchedProfile) x r.(st_Conditions).

Definition set_st_Conditions (x : list Condition) (r : ShellyDeviceStatus) : ShellyDeviceStatus :=
  MkShellyDeviceStatus r.(st_Address) r.(st_MAC) r.(st_Model) r.(st_App)
    r.(st_Gen) r.(st_Firmware) r.(st_AvailableFirmware) r.(st_AuthEnabled)
    r.(st_RestartRequired) r.(st_LastFirmwareUpdate) r.(st_DeviceName)
    r.(st_Online) r.(st_LastSeen) r.(st_MatchedProfile) r.(st_DriftedSections)
    x.

(** The metadata the operator uses. *)
Record ObjectMeta : Type := MkObjectMeta {
  meta_Namespace : string;
  meta_Name : string;
  meta_Generation : Z;
  meta_Labels : gmap string string;
  meta_Annotations : gmap string string;
}.

Definition set_meta_Labels (x : gmap string string) (r : ObjectMeta) : ObjectMeta :=
  MkObjectMeta r.(meta_Namespace) r.(meta_Name) r.(meta_Generation) x
    r.(meta_Annotations).

Definition set_meta_Annotations (x : gmap string string) (r : ObjectMeta) : ObjectMeta :=
  MkObjectMeta r.(meta_Namespace) r.(meta_Name) r.(meta_Generation)
    r.(meta_Labels) x.

Record ShellyDevice : Type := MkShellyDevice {
  dev_Meta : ObjectMeta;
  dev_Spec : ShellyDeviceSpec;
  dev_Status : ShellyDeviceStatus;
}.

Definition set_dev_Meta (x : ObjectMeta) (r : ShellyDevice) : ShellyDevice :=
  MkShellyDevice x r.(dev_Spec) r.(dev_Status).

Definition set_dev_Status (x : ShellyDeviceStatus) (r : ShellyDevice) : ShellyDevice :=
  MkShellyDevice r.(dev_Meta) r.(dev_Spec) x.

(** [dev.Status.F = x], on the whole object. *)
Definition upd_status (f : ShellyDeviceStatus → ShellyDeviceStatus) (d : ShellyDevice)
  : ShellyDevice := set_dev_Status (f d.(dev_Status)) d.

Abbreviation dev_Name d := (meta_Name (dev_Meta d)).
Abbreviation dev_Namespace d := (meta_Namespace (dev_Meta d)).
Abbreviation dev_Labels d := (meta_Labels (dev_Meta d)).
Abbreviation dev_Annotations d := (meta_Annotations (dev_Meta d)).

(** ** Conditions (conditions.go) *)

Definition ConditionInSync : string := "InSync".
Definition ReasonInSync : string := "InSync".
Definition ReasonDrifted : string := "Drifted".
Definition ReasonNoProfile : string := "NoProfile".
Definition ReasonProfileNotFound : string := "ProfileNotFound".
Definition ReasonOffline : string := "Offline".
Definition ReasonPaused : string := "Paused".
Definition ReasonConfigFetchFailed : string := "ConfigFetchFailed".
Definition ReasonAuthRequired : string := "AuthRequired".
Definition ReasonApplyFailed : string := "ApplyFailed".
Definition ReasonCredentialsError : string := "CredentialsError".
Definition ReasonNotConverging : string := "NotConverging".
Definition ReasonWifiApplied : string := "WifiApplied".

(** ** Labels (device_helpers.go) *)

Definition LabelModel : string := "shelly.thirdimpact.io/model".
Definition LabelApp : string := "shelly.thirdimpact.io/app".
Definition LabelGen : string := "shelly.thirdimpact.io/gen".
Definition LabelRoom : string := "shelly.thirdimpact.io/room".
Definition LabelAppliance : string := "shelly.thirdimpact.io/appliance".
Definition AnnotationNote : string := "shelly.thirdimpact.io/note".
Definition LabelRegistryPrefix : string := "registry.shelly.thirdimpact.io/".

(** ** apimachinery *)

(** [metav1.LabelSelectorAsSelector] followed by [Matches]: the error text for
    an invalid selector, otherwise whether the labels match. *)
Class Selectors : Type := {
  selector_matches : LabelSelector → gmap string string → res string bool;
}.

(** [meta.FindStatusCondition] and [meta.SetStatusCondition].  The first returns
    a pointer into the slice it is given: [condition_index] is the element it
    points at, [FindStatusCondition] what is read through it at once. *)
Class Conditions : Type := {
  condition_index : list Condition → string → option nat;
  SetStatusCondition : list Condition → Condition → list Condition;
}.

Definition FindStatusCondition `{Conditions} (cs : list Condition) (ty : string)
  : option Condition := condition_index cs ty ≫= λ i, cs !! i.

Definition set_cond_time (t : time) (c : Condition) : Condition :=
  MkCondition c.(cond_Type) c.(cond_Status) c.(cond_Reason) c.(cond_Message)
    c.(cond_ObservedGeneration) t.

(** What their documentation promises: the condition found has the type; if the
    type already exists, all fields of the existing condition are updated, in the
    element that is there (the transition time is the library's business); if it
    does not, the new condition is appended. *)
Class ConditionLaws `{Conditions} : Prop := {
  index_found cs ty i :
    condition_index cs ty = Some i → ∃ c, cs !! i = Some c ∧ c.(cond_Type) = ty;
  set_existing cs c i :
    condition_index cs c.(cond_Type) = Some i →
    ∃ t, SetStatusCondition cs c = <[i := set_cond_time t c]> cs ∧
         condition_index (SetStatusCondition cs c) c.(cond_Type) = Some i;
  set_new cs c :
    condition_index cs c.(cond_Type) = None →
    ∃ t, SetStatusCondition cs c = cs ++ [set_cond_time t c] ∧
         condition_index (SetStatusCondition cs c) c.(cond_Type) = Some (length cs);
}.

(** The condition set is the one found. *)
Lemma find_set `{ConditionLaws} cs c :
  ∃ t, FindStatusCondition (SetStatusCondition cs c) c.(cond_Type) = Some (set_cond_time t c).
Proof.
  unfold FindStatusCondition. destruct (condition_index cs c.(cond_Type)) as [i|] eqn:Hi.
  - destruct (set_existing cs c i Hi) as (t & Hset & Hidx). exists t. rewrite Hidx, Hset. cbn.
    destruct (index_found cs _ i Hi) as (c0 & Hc0 & _). apply list_lookup_insert_eq.
    by eapply lookup_lt_Some.
  - destruct (set_new cs c Hi) as (t & Hset & Hidx). exists t. rewrite Hidx, Hset. cbn.
    by apply list_lookup_middle.
Qed.

#[export] Instance ConditionStatus_eq_dec : EqDecision ConditionStatus.
Proof. solve_decision. Defined.
