(* ===== verification/Labels.v ===== *)
(** * Names and label values (api/v1alpha1/device_helpers.go, internal/fleet/sanitize.go)

    The operator turns firmware- and human-supplied text into Kubernetes object
    names and label values.  Go iterates over a string by decoded code points, so
    [runes] is Go's UTF-8 decoding (an invalid byte is U+FFFD, one byte wide). *)

From stdpp Require Import prelude gmap strings pretty sorting list.
From Stdlib Require Import Ascii.
From S2P Require Import Prelude Json Api.

(** ** UTF-8 *)

Definition RuneError : N := 65533.

Definition between (lo n hi : N) : bool := ((lo <=? n) && (n <=? hi))%N.
Definition cont (n : N) : bool := between 128 n 191.

(** The first code point of a byte list and its width. *)
Definition decode_rune (b0 : N) (rest : list N) : N * nat :=
  if (b0 <? 128)%N then (b0, 1)
  else match rest with
  | b1 :: rest1 =>
      if between 194 b0 223 then
        if cont b1 then (((b0 - 192) * 64 + (b1 - 128))%N, 2) else (RuneError, 1)
      else match rest1 with
      | b2 :: rest2 =>
          if between 224 b0 239 then
            let lo := if (b0 =? 224)%N then 160%N else 128%N in
            let hi := if (b0 =? 237)%N then 159%N else 191%N in
            if between lo b1 hi && cont b2
            then ((((b0 - 224) * 64 + (b1 - 128)) * 64 + (b2 - 128))%N, 3)
            else (RuneError, 1)
          else match rest2 with
          | b3 :: _ =>
              if between 240 b0 244 then
                let lo := if (b0 =? 240)%N then 144%N else 128%N in
                let hi := if (b0 =? 244)%N then 143%N else 191%N in
                if between lo b1 hi && cont b2 && cont b3
                then (((((b0 - 240) * 64 + (b1 - 128)) * 64 + (b2 - 128)) * 64 + (b3 - 128))%N, 4)
                else (RuneError, 1)
              else (RuneError, 1)
          | [] => (RuneError, 1)
          end
      | [] => (RuneError, 1)
      end
  | [] => (RuneError, 1)
  end.

Fixpoint bytes (s : string) : list N :=
  match s with EmptyString => [] | String c s' => N_of_ascii c :: bytes s' end.

(** [range s] over the code points; [skip] counts the bytes of the current code
    point still to pass. *)
Fixpoint runes_from (skip : nat) (bs : list N) : list N :=
  match bs with
  | [] => []
  | b :: rest =>
      match skip with
      | S n => runes_from n rest
      | O => let '(r, w) := decode_rune b rest in r :: runes_from (pred w) rest
      end
  end.

Definition runes (s : string) : list N := runes_from 0 (bytes s).

(** The string of a list of ASCII code points. *)
Fixpoint of_runes (l : list N) : string :=
  match l with [] => EmptyString | r :: l' => String (ascii_of_N r) (of_runes l') end.

(** [strings.TrimFunc]. *)
Fixpoint drop_while {A : Type} (f : A → bool) (l : list A) : list A :=
  match l with [] => [] | x :: l' => if f x then drop_while f l' else l end.

Definition TrimFunc (f : N → bool) (l : list N) : list N :=
  reverse (drop_while f (reverse (drop_while f l))).

Definition is_digit (r : N) : bool := between 48 r 57.
Definition is_lower (r : N) : bool := between 97 r 122.
Definition is_upper (r : N) : bool := between 65 r 90.
Definition dot : N := 46.
Definition underscore : N := 95.
Definition dash : N := 45.

(** ** sanitize.go *)

Definition isAlnum (r : N) : bool := is_lower r || is_digit r.

(** [unicode.ToLower], as far as [SanitizeLabel] can tell: outside ASCII only
    U+0130 and U+212A have an ASCII lower case, and every other code point
    outside ASCII is replaced whatever it maps to. *)
Definition lower_rune (r : N) : N :=
  if is_upper r then r + 32
  else if (r =? 304)%N then 105
  else if (r =? 8490)%N then 107
  else r.

(** The loop of [SanitizeLabel]; [prev] is the last rune considered. *)
Fixpoint sanitize_loop (prev : N) (l : list N) : list N :=
  match l with
  | [] => []
  | r :: l' =>
      if isAlnum r || (r =? dot)%N || (r =? underscore)%N then r :: sanitize_loop r l'
      else if (prev =? dash)%N then sanitize_loop prev l'
      else dash :: sanitize_loop dash l'
  end.

Definition SanitizeLabel (s : string) : string :=
  of_runes (TrimFunc (λ r, negb (isAlnum r))
    (take 63 (sanitize_loop 0 (lower_rune <$> runes s)))).

(** ** device_helpers.go *)

Definition isAlnumCase (r : N) : bool := is_upper r || is_lower r || is_digit r.

Definition label_rune (r : N) : N :=
  if isAlnumCase r || (r =? dot)%N || (r =? underscore)%N || (r =? dash)%N
  then r else underscore.

Definition sanitizeLabelValue (s : string) : string :=
  of_runes (TrimFunc (λ r, negb (isAlnumCase r)) (take 63 (label_rune <$> runes s))).

(** A MAC address is ASCII, on which [strings.ToLower] is bytewise. *)
Fixpoint strip_separators (s : string) : string :=
  match s with
  | EmptyString => EmptyString
  | String c s' =>
      if Ascii.eqb c ":" || Ascii.eqb c "-" then strip_separators s'
      else String c (strip_separators s')
  end.

Definition DeviceObjectName (mac : string) : string := ToLower (strip_separators mac).

Definition DeviceLabels (model app : string) (gen : Z) : gmap string string :=
  {[LabelModel := sanitizeLabelValue model; LabelApp := sanitizeLabelValue app;
    LabelGen := itoa gen]}.

(** ** What Kubernetes accepts as a label value *)

(** At most 63 characters of [A-Za-z0-9._-], empty or with alphanumeric ends. *)
Definition label_char (r : N) : bool :=
  isAlnumCase r || (r =? dot)%N || (r =? underscore)%N || (r =? dash)%N.

Definition valid_label_value (s : string) : Prop :=
  String.length s ≤ 63 ∧ Forall (λ r, label_char r = true) (bytes s) ∧
  (∀ r, head (bytes s) = Some r → isAlnumCase r = true) ∧
  (∀ r, last (bytes s) = Some r → isAlnumCase r = true).

(** ** Lemmas *)

Lemma between_iff lo n hi : between lo n hi = true ↔ (lo ≤ n ≤ hi)%N.
Proof. unfold between. rewrite andb_true_iff, !N.leb_le. lia. Qed.

Lemma isAlnum_case r : isAlnum r = true → isAlnumCase r = true.
Proof. unfold isAlnum, isAlnumCase. intros H. rewrite <-orb_assoc, H. apply orb_true_r. Qed.

Lemma label_char_ascii r : label_char r = true → (r < 128)%N.
Proof.
  unfold label_char, isAlnumCase, is_upper, is_lower, is_digit, dot, underscore, dash.
  rewrite !orb_true_iff, !between_iff, !N.eqb_eq. lia.
Qed.

Lemma bytes_of_runes l : Forall (λ r, (r < 128)%N) l → bytes (of_runes l) = l.
Proof.
  induction 1 as [|r l Hr _ IH]; simpl; [done|]. rewrite IH, N_ascii_embedding; [done|]. lia.
Qed.

Lemma length_of_runes l : String.length (of_runes l) = length l.
Proof. induction l; simpl; auto. Qed.

Lemma runes_ascii l : Forall (λ r, (r < 128)%N) l → runes (of_runes l) = l.
Proof.
  intros Hl. unfold runes. rewrite bytes_of_runes by done. induction Hl as [|r l Hr _ IH]; [done|].
  simpl. unfold decode_rune. rewrite (proj2 (N.ltb_lt _ _) Hr). simpl. by rewrite IH.
Qed.

Section DropWhile.
Context {A : Type} (f : A → bool).

Lemma drop_while_suffix l : ∃ k, l = k ++ drop_while f l.
Proof.
  induction l as [|x l [k Hk]]; simpl; [by exists []|].
  destruct (f x); [exists (x :: k); simpl; by f_equal|by exists []].
Qed.

Lemma drop_while_head l x : head (drop_while f l) = Some x → f x = false.
Proof. induction l as [|y l IH]; simpl; [done|]. destruct (f y) eqn:E; [done|]. by intros [= <-]. Qed.

Lemma drop_while_id l : (∀ x, head l = Some x → f x = false) → drop_while f l = l.
Proof. destruct l as [|x l]; simpl; [done|]. intros H. by rewrite (H x). Qed.
End DropWhile.

Lemma TrimFunc_sublist f l : ∃ k1 k2, l = k1 ++ TrimFunc f l ++ k2.
Proof.
  unfold TrimFunc. destruct (drop_while_suffix f l) as [k1 H1].
  destruct (drop_while_suffix f (reverse (drop_while f l))) as [k2 H2].
  exists k1, (reverse k2). rewrite H1 at 1. f_equal.
  rewrite <-reverse_app, <-H2, reverse_involutive. done.
Qed.

Lemma TrimFunc_last f l x : last (TrimFunc f l) = Some x → f x = false.
Proof. unfold TrimFunc. rewrite last_reverse. apply drop_while_head. Qed.

Lemma TrimFunc_head f l x : head (TrimFunc f l) = Some x → f x = false.
Proof.
  unfold TrimFunc. destruct (drop_while_suffix f (reverse (drop_while f l))) as [k Hk].
  apply (f_equal reverse) in Hk. rewrite reverse_involutive, reverse_app in Hk.
  intros Hx. apply (drop_while_head f l). rewrite Hk.
  by destruct (reverse (drop_while f (reverse (drop_while f l)))); simplify_eq/=.
Qed.

Lemma TrimFunc_id f l :
  (∀ x, head l = Some x → f x = false) → (∀ x, last l = Some x → f x = false) →
  TrimFunc f l = l.
Proof.
  intros Hh Hl. unfold TrimFunc. rewrite (drop_while_id f l) by done.
  rewrite drop_while_id, reverse_involutive; [done|].
  intros x Hx. apply Hl. by rewrite <-last_reverse, reverse_involutive in Hx.
Qed.

(** The common shape of both sanitizers: runes that are label characters, cut at
    63 and trimmed. *)
Lemma valid_cut (alnum : N → bool) (l : list N) :
  (∀ r, alnum r = true → isAlnumCase r = true) →
  Forall (λ r, label_char r = true) l →
  valid_label_value (of_runes (TrimFunc (λ r, negb (alnum r)) (take 63 l))).
Proof.
  intros Hal Hl. set (t := TrimFunc _ _).
  destruct (TrimFunc_sublist (λ r, negb (alnum r)) (take 63 l)) as (k1 & k2 & Hk).
  fold t in Hk.
  assert (Ht : Forall (λ r, label_char r = true) t).
  { assert (Hf : Forall (λ r, label_char r = true) (take 63 l)) by by apply Forall_take.
    rewrite Hk in Hf. by apply Forall_app in Hf as [_ [? _]%Forall_app]. }
  unfold valid_label_value. rewrite length_of_runes, bytes_of_runes.
  2:{ eapply Forall_impl; [exact Ht|]. apply label_char_ascii. }
  split_and!; [|done| |].
  - apply (f_equal length) in Hk. rewrite length_take, !length_app in Hk. lia.
  - intros r Hr. apply TrimFunc_head in Hr. apply Hal. by destruct (alnum r).
  - intros r Hr. apply TrimFunc_last in Hr. apply Hal. by destruct (alnum r).
Qed.

Lemma sanitize_loop_chars prev l :
  Forall (λ r, isAlnum r || (r =? dot)%N || (r =? underscore)%N || (r =? dash)%N = true)
    (sanitize_loop prev l).
Proof.
  revert prev. induction l as [|r l IH]; intros prev; simpl; [constructor|].
  destruct (isAlnum r || _ || _) eqn:E; [|destruct (prev =? dash)%N; [apply IH|]];
    constructor; auto. by rewrite E.
Qed.

(** No two dashes in a row. *)
Definition no_run (l : list N) : Prop := ∀ k1 k2, l ≠ k1 ++ dash :: dash :: k2.

Lemma no_run_cons r l :
  no_run l → (r = dash → head l ≠ Some dash) → no_run (r :: l).
Proof.
  intros Hl Hr [|x k1] k2 Heq; simplify_eq/=; [by apply Hr|]. by apply (Hl k1 k2).
Qed.

Lemma no_run_sub k1 l k2 : no_run (k1 ++ l ++ k2) → no_run l.
Proof.
  intros H j1 j2 ->. apply (H (k1 ++ j1) (j2 ++ k2)). by rewrite <-!app_assoc.
Qed.

Lemma not_dash r : isAlnum r || (r =? dot)%N || (r =? underscore)%N = true → r ≠ dash.
Proof. by intros H ->. Qed.

Lemma sanitize_loop_no_run prev l :
  no_run (sanitize_loop prev l) ∧ (prev = dash → head (sanitize_loop prev l) ≠ Some dash).
Proof.
  revert prev. induction l as [|r l IH]; intros prev; cbn [sanitize_loop].
  { split; [|done]. by intros [|? ?] ?. }
  destruct (isAlnum r || _ || _) eqn:E; [|destruct (N.eqb_spec prev dash) as [->|Hne]].
  - apply not_dash in E. destruct (IH r) as [IH1 _]. split; [|simpl; congruence].
    by apply no_run_cons.
  - apply IH.
  - split; [|done]. destruct (IH dash) as [IH1 IH2]. apply no_run_cons; auto.
Qed.

Lemma sanitize_loop_id prev l :
  Forall (λ r, isAlnum r || (r =? dot)%N || (r =? underscore)%N || (r =? dash)%N = true) l →
  no_run l → (prev = dash → head l ≠ Some dash) → sanitize_loop prev l = l.
Proof.
  intros Hl. revert prev. induction Hl as [|r l Hr Hl IH]; intros prev Hn Hp; simpl; [done|].
  assert (Hn' : no_run l).
  { apply (no_run_sub [r] l []). by rewrite app_nil_r. }
  assert (Hrd : r = dash → head l ≠ Some dash).
  { intros -> Hh. destruct l as [|x l]; simplify_eq/=. by apply (Hn [] l). }
  destruct (isAlnum r || _ || _) eqn:E; [f_equal; by apply IH|].
  rewrite orb_false_l in Hr. apply N.eqb_eq in Hr as ->.
  destruct (N.eqb_spec prev dash) as [->|Hne]; [by destruct Hp|].
  f_equal. by apply IH.
Qed.

Lemma lower_rune_id r :
  isAlnum r || (r =? dot)%N || (r =? underscore)%N || (r =? dash)%N = true → lower_rune r = r.
Proof.
  unfold lower_rune, isAlnum, is_upper, is_lower, is_digit, dot, underscore, dash.
  rewrite !orb_true_iff, !between_iff, !N.eqb_eq. intros H.
  destruct (between 65 r 90) eqn:E; [rewrite between_iff in E; lia|].
  destruct (N.eqb_spec r 304); [lia|]. destruct (N.eqb_spec r 8490); [lia|done].
Qed.

Lemma label_rune_id r : label_char r = true → label_rune r = r.
Proof. unfold label_rune, label_char. by intros ->. Qed.

Lemma label_rune_char r : label_char (label_rune r) = true.
Proof. unfold label_rune. case_match eqn:E; [exact E|done]. Qed.

(** Cut at 63 and trim: the common last step. *)
Definition cut (alnum : N → bool) (l : list N) : list N :=
  TrimFunc (λ r, negb (alnum r)) (take 63 l).

Lemma cut_sub alnum l : ∃ k1 k2, l = k1 ++ cut alnum l ++ k2.
Proof.
  destruct (TrimFunc_sublist (λ r, negb (alnum r)) (take 63 l)) as (k1 & k2 & Hk).
  exists k1, (k2 ++ drop 63 l). rewrite <-(take_drop 63 l) at 1. unfold cut.
  rewrite Hk at 1. by rewrite <-!app_assoc.
Qed.

Lemma cut_again alnum l : cut alnum (cut alnum l) = cut alnum l.
Proof.
  destruct (TrimFunc_sublist (λ r, negb (alnum r)) (take 63 l)) as (k1 & k2 & Hk).
  apply (f_equal length) in Hk. rewrite length_take, !length_app in Hk. fold (cut alnum l) in Hk.
  unfold cut at 1. rewrite take_ge by lia.
  apply TrimFunc_id; intros x Hx;
    [exact (TrimFunc_head _ _ _ Hx)|exact (TrimFunc_last _ _ _ Hx)].
Qed.

Lemma fmap_id_on {A} (f : A → A) (P : A → Prop) l :
  (∀ x, P x → f x = x) → Forall P l → f <$> l = l.
Proof. intros Hf. induction 1 as [|x l Hx _ IH]; csimpl; [done|]. by rewrite Hf, IH. Qed.

Definition lower_label_char (r : N) : bool :=
  isAlnum r || (r =? dot)%N || (r =? underscore)%N || (r =? dash)%N.

Lemma lower_label_char_label r : lower_label_char r = true → label_char r = true.
Proof.
  unfold lower_label_char, label_char. rewrite !orb_true_iff.
  intros [[[H|H]|H]|H]; auto using isAlnum_case.
Qed.

(** ** Theorems *)

(** C39: both sanitizers return a valid Kubernetes label value for every input
    byte string: at most 63 characters from [A-Za-z0-9._-], empty or beginning
    and ending with an alphanumeric. *)
Theorem sanitizers_valid (s : string) :
  valid_label_value (SanitizeLabel s) ∧ valid_label_value (sanitizeLabelValue s).
Proof.
  split; apply valid_cut.
  - apply isAlnum_case.
  - eapply Forall_impl; [apply sanitize_loop_chars|]. intros r Hr. unfold label_char.
    revert Hr. rewrite !orb_true_iff. intros [[[H|H]|H]|H]; auto using isAlnum_case.
  - done.
  - apply Forall_fmap, Forall_true. apply label_rune_char.
Qed.

(** Sanitizing is idempotent: a stamped label value sanitizes to itself, so
    a value read back from a device object never looks changed. *)
Theorem sanitizers_idempotent (s : string) :
  SanitizeLabel (SanitizeLabel s) = SanitizeLabel s ∧
  sanitizeLabelValue (sanitizeLabelValue s) = sanitizeLabelValue s.
Proof.
  split.
  - set (l := sanitize_loop 0 (lower_rune <$> runes s)).
    change (SanitizeLabel s) with (of_runes (cut isAlnum l)).
    destruct (cut_sub isAlnum l) as (k1 & k2 & Hk).
    pose proof (sanitize_loop_chars 0 (lower_rune <$> runes s)) as Hc.
    pose proof (proj1 (sanitize_loop_no_run 0 (lower_rune <$> runes s))) as Hn.
    fold l in Hc, Hn. rewrite Hk in Hc, Hn. apply no_run_sub in Hn.
    apply Forall_app in Hc as [_ [Hc _]%Forall_app].
    unfold SanitizeLabel. rewrite runes_ascii
      by (eapply Forall_impl; [exact Hc|]; auto using label_char_ascii, lower_label_char_label).
    rewrite (fmap_id_on _ _ _ lower_rune_id Hc), sanitize_loop_id by done.
    f_equal. apply cut_again.
  - set (l := label_rune <$> runes s).
    change (sanitizeLabelValue s) with (of_runes (cut isAlnumCase l)).
    destruct (cut_sub isAlnumCase l) as (k1 & k2 & Hk).
    assert (Hc : Forall (λ r, label_char r = true) l)
      by (apply Forall_fmap, Forall_true, label_rune_char).
    rewrite Hk in Hc. apply Forall_app in Hc as [_ [Hc _]%Forall_app].
    unfold sanitizeLabelValue. rewrite runes_ascii
      by (eapply Forall_impl; [exact Hc|apply label_char_ascii]).
    rewrite (fmap_id_on _ _ _ label_rune_id Hc). f_equal. apply cut_again.
Qed.
