(* ===== verification/Diff.v ===== *)
(** * Drift detection (internal/drift/diff.go)

    [Diff] compares the rendered desired configuration with the device's
    configuration, leaf by leaf.  The device side is [map[string]json.RawMessage];
    a raw message is held as the JSON document it denotes (it was cut out of an
    answer [encoding/json] had already validated), and decoding it into
    [map[string]any] is [unmarshal_map].

    The specification of the component is [agrees]: every leaf the desired
    configuration declares is present on the device with an equal value.  The
    theorems show that [Diff] returns no finding exactly then, that each finding
    names a real disagreement, and that writing a payload that carries the
    desired leaves with the device's deep merge leaves no finding. *)

From stdpp Require Import prelude gmap strings pretty sorting list.
From S2P Require Import Prelude Json.

(** [desired]: component -> rendered config. *)
Abbreviation desired_config := (gmap string obj).
(** [actual]: component -> raw JSON. *)
Abbreviation actual_config := (gmap string value).

Record Finding : Type := MkFinding {
  Section_ : string;
  Path : string;
  Want : value;
  Have : value;
}.

Definition maxSummarized : nat := 5.

(** The dotted path of key [k] under [prefix]. *)
Definition path_join (prefix k : string) : string :=
  if String.eqb prefix "" then k else prefix +:+ "." +:+ k.

Definition key_lt {V : Type} (a b : string * V) : bool := str_lt a.1 b.1.

(** The body of [diffMap]'s loop for one key: [w] is [want[k]], [h] is
    [have[k]] ([None] when absent, which reads as a nil [any]).  A nested map is
    compared key by key in increasing order, against an empty map when the
    device has no map there. *)
Fixpoint diff_entry (section path : string) (w : value) (h : option value) {struct w}
  : list Finding :=
  match w with
  | VObj wm =>
      concat (sort_by key_lt
        (map_fold (λ k w' acc,
           (k, diff_entry section (path_join path k) w' (map_of h !! k)) :: acc)
           [] wm)).*2
  | _ =>
      match h with
      | Some hv => if leafEqual w hv then [] else [MkFinding section path w hv]
      | None => [MkFinding section path w VNull]
      end
  end.

Definition diffMap (section prefix : string) (want have : obj) : list Finding :=
  concat ((λ k, match want !! k with
                | Some w => diff_entry section (path_join prefix k) w (have !! k)
                | None => []
                end) <$> sortedKeys want).

(** One iteration of [Diff]'s loop over the sorted sections. *)
Definition diff_section (desired : desired_config) (actual : actual_config)
  (section : string) : res string (list Finding) :=
  let want := default ∅ (desired !! section) in
  if decide (size want = 0) then Ok []
  else match actual !! section with
       | None => Ok [MkFinding section "" (VStr "section present") VNull]
       | Some raw =>
           match unmarshal_map raw with
           | None => Err ("drift: decode section " +:+ section)
           | Some have => Ok (diffMap section "" want have)
           end
       end.

Fixpoint diff_sections (desired : desired_config) (actual : actual_config)
  (sections : list string) : res string (list Finding) :=
  match sections with
  | [] => Ok []
  | s :: rest =>
      try fs := diff_section desired actual s in
      try gs := diff_sections desired actual rest in
      Ok (fs ++ gs)
  end.

Definition Diff (desired : desired_config) (actual : actual_config)
  : res string (list Finding) :=
  diff_sections desired actual (sortedKeys desired).

(** Sorted unique sections of a list of findings. *)
Definition Sections (findings : list Finding) : list string :=
  sort_strings (remove_dups (Section_ <$> findings)).

Section Summary.
Context `{Fmt}.

Definition summarize_one (f : Finding) : string :=
  let loc := if String.eqb f.(Path) "" then f.(Section_)
             else f.(Section_) +:+ "." +:+ f.(Path) in
  loc +:+ ": want " +:+ fmt_v f.(Want) +:+ ", have " +:+ fmt_v f.(Have).

Definition Summarize (findings : list Finding) : string :=
  let shown := summarize_one <$> take maxSummarized findings in
  let more :=
    if decide (maxSummarized < length findings) then
      ["(+" +:+ itoa (Z.of_nat (length findings - maxSummarized)) +:+ " more)"]
    else [] in
  Join (shown ++ more) "; ".
End Summary.

(** ** Specification *)

(** Leaves of a value that is not itself compared as a leaf. *)
Inductive agrees : value → option value → Prop :=
| agrees_leaf w hv :
    as_map w = None → leafEqual w hv = true → agrees w (Some hv)
| agrees_obj wm h :
    (∀ k w, wm !! k = Some w → agrees w (map_of h !! k)) → agrees (VObj wm) h.

(** The device agrees with a section: present, decodable, every leaf equal. *)
Definition section_agrees (want : obj) (raw : option value) : Prop :=
  size want = 0 ∨
  ∃ r have, raw = Some r ∧ unmarshal_map r = Some have ∧
            ∀ k w, want !! k = Some w → agrees w (have !! k).

(** [p] declares at least the leaves of [w]: what a payload must carry. *)
Inductive carries : value → value → Prop :=
| carries_leaf w : as_map w = None → carries w w
| carries_obj wm pm :
    (∀ k w, wm !! k = Some w → ∃ p, pm !! k = Some p ∧ carries w p) →
    carries (VObj wm) (VObj pm).

(** ** Lemmas on the loop *)

#[export] Instance key_lt_weak {V} : WeakOrder (@key_lt V).
Proof.
  split; unfold key_lt; intros.
  - by apply weak_asym.
  - by eapply weak_trans.
Qed.

Lemma sort_by_map {A B} (f : A → B) (lt1 : A → A → bool) (lt2 : B → B → bool) l :
  (∀ x y, lt1 x y = lt2 (f x) (f y)) →
  f <$> sort_by lt1 l = sort_by lt2 (f <$> l).
Proof.
  intros Hlt.
  assert (Hins : ∀ x l, f <$> insert_by lt1 x l = insert_by lt2 (f x) (f <$> l)).
  { intros x k. induction k as [|y k IH]; csimpl; [done|].
    rewrite Hlt. case_match; csimpl; [by rewrite IH|done]. }
  unfold sort_by. induction l as [|x l IH]; csimpl; [done|]. by rewrite Hins, IH.
Qed.

Lemma map_fold_cons {V W} (f : string → V → W) (m : gmap string V) :
  map_fold (λ k v acc, (k, f k v) :: acc) [] m ≡ₚ
  (λ kv, (kv.1, f kv.1 kv.2)) <$> map_to_list m.
Proof.
  induction m as [|k v m Hk IH] using map_ind.
  { by rewrite map_fold_empty, map_to_list_empty. }
  rewrite map_to_list_insert by done. simpl. rewrite <-IH.
  rewrite (map_fold_insert (≡ₚ)); [done|solve_proper| |done].
  intros. by rewrite Permutation_swap.
Qed.

(** The sorted association list of a map lists its keys in increasing order. *)
Lemma sortedKeys_map_to_list {V} (m : gmap string V) :
  sortedKeys m = (sort_by key_lt (map_to_list m)).*1.
Proof.
  unfold sortedKeys, sort_strings. symmetry. by apply sort_by_map.
Qed.

(** Collecting per-key results and sorting them by key is iterating over the
    sorted keys. *)
Lemma sort_collected {V W} (f : string → V → W) (m : gmap string V) :
  (sort_by key_lt (map_fold (λ k v acc, (k, f k v) :: acc) [] m)).*2 =
  (λ kv, f kv.1 kv.2) <$> sort_by key_lt (map_to_list m).
Proof.
  rewrite (sort_by_perm_eq key_lt _ ((λ kv, (kv.1, f kv.1 kv.2)) <$> map_to_list m));
    [| |apply map_fold_cons].
  - rewrite <-(sort_by_map (λ kv, (kv.1, f kv.1 kv.2)) key_lt) by done.
    by rewrite <-list_fmap_compose.
  - intros [k1 w1] [k2 w2]. rewrite !map_fold_cons, !list_elem_of_fmap.
    intros ([? v1] & [= -> ->] & H1) ([? v2] & [= -> ->] & H2) Hlt1 Hlt2.
    unfold key_lt in *; simpl in *.
    pose proof (str_lt_antisym _ _ Hlt1 Hlt2) as <-.
    apply elem_of_map_to_list in H1, H2. by simplify_eq.
Qed.

(** The recursive call of [diffMap] on a nested map. *)
Lemma diff_entry_obj section path (wm : obj) h :
  diff_entry section path (VObj wm) h = diffMap section path wm (map_of h).
Proof.
  unfold diffMap. cbn [diff_entry].
  rewrite (sort_collected (λ k w', diff_entry section (path_join path k) w' (map_of h !! k))).
  rewrite sortedKeys_map_to_list, <-list_fmap_compose. f_equal.
  apply list_fmap_ext. intros i [k v] Hi. simpl.
  assert (wm !! k = Some v) as ->; [|done].
  apply elem_of_map_to_list. rewrite <-(elem_of_sort_by key_lt).
  apply list_elem_of_lookup. eauto.
Qed.

Lemma elem_of_diffMap section prefix (want have : obj) f :
  f ∈ diffMap section prefix want have ↔
  ∃ k w, want !! k = Some w ∧
         f ∈ diff_entry section (path_join prefix k) w (have !! k).
Proof.
  unfold diffMap. rewrite list_elem_of_In, in_concat.
  split.
  - intros (l & Hl & Hf). rewrite <-list_elem_of_In, list_elem_of_fmap in Hl.
    destruct Hl as (k & -> & Hk). apply list_elem_of_In in Hf.
    destruct (want !! k) as [w|] eqn:E; [by eauto|]. by apply elem_of_nil in Hf.
  - intros (k & w & Hk & Hf).
    exists (diff_entry section (path_join prefix k) w (have !! k)).
    rewrite <-!list_elem_of_In. split; [|done].
    apply list_elem_of_fmap. exists k. rewrite Hk. split; [done|].
    apply elem_of_sortedKeys. by exists w.
Qed.

Lemma nil_iff_no_elem {A} (l : list A) : l = [] ↔ ∀ x, x ∉ l.
Proof.
  split; [intros -> x; apply not_elem_of_nil|].
  destruct l as [|x l]; [done|]. intros H. destruct (H x). constructor.
Qed.

(** ** What the findings mean *)

(** The value at a key path; a missing or non-object step reads as absent. *)
Fixpoint value_at (v : option value) (ks : list string) : option value :=
  match ks with
  | [] => v
  | k :: ks => value_at (map_of v !! k) ks
  end.

(** The device's value at a declared leaf is absent or different. *)
Definition differs (w : value) (h : option value) : Prop :=
  match h with Some hv => leafEqual w hv = false | None => True end.

(** What one finding reports: a declared section the device lacks, or a
    declared leaf (at the key path [ks]) that is absent or different there. *)
Definition reported (desired : desired_config) (actual : actual_config) (f : Finding)
  : Prop :=
  ∃ want, desired !! f.(Section_) = Some want ∧ want ≠ ∅ ∧
    ((actual !! f.(Section_) = None ∧
      f = MkFinding f.(Section_) "" (VStr "section present") VNull) ∨
     ∃ raw have ks w,
       actual !! f.(Section_) = Some raw ∧ unmarshal_map raw = Some have ∧
       value_at (Some (VObj want)) ks = Some w ∧ as_map w = None ∧
       differs w (value_at (Some (VObj have)) ks) ∧
       f = MkFinding f.(Section_) (foldl path_join "" ks) w
             (default VNull (value_at (Some (VObj have)) ks))).

Lemma value_at_None ks : value_at None ks = None.
Proof. induction ks as [|k ks IH]; simpl; [done|]. by rewrite lookup_empty. Qed.

Lemma value_at_leaf w ks l :
  as_map w = None → value_at (Some w) ks = Some l → ks = [] ∧ l = w.
Proof.
  intros Hw. destruct ks as [|k ks]; simpl; [intros; by simplify_eq|].
  assert (map_of (Some w) = ∅) as -> by (by destruct w).
  by rewrite lookup_empty, value_at_None.
Qed.

(** [diff_entry] lists exactly the declared leaves on which the device differs. *)
Lemma elem_of_diff_entry section w :
  ∀ path h f,
  f ∈ diff_entry section path w h ↔
  ∃ ks l, value_at (Some w) ks = Some l ∧ as_map l = None ∧
          differs l (value_at h ks) ∧
          f = MkFinding section (foldl path_join path ks) l
                (default VNull (value_at h ks)).
Proof.
  assert (Hleaf : ∀ w, as_map w = None → ∀ path h f,
    f ∈ (match h with
         | Some hv => if leafEqual w hv then [] else [MkFinding section path w hv]
         | None => [MkFinding section path w VNull]
         end) ↔
    ∃ ks l, value_at (Some w) ks = Some l ∧ as_map l = None ∧
            differs l (value_at h ks) ∧
            f = MkFinding section (foldl path_join path ks) l
                  (default VNull (value_at h ks))).
  { intros w' Hw path h f. split.
    - intros Hf. exists [], w'. simpl. split; [done|]. split; [done|].
      destruct h as [hv|]; simpl; [|by apply list_elem_of_singleton in Hf].
      destruct (leafEqual w' hv) eqn:E; [by apply elem_of_nil in Hf|].
      by apply list_elem_of_singleton in Hf.
    - intros (ks & l & Hks & Hl & Hd & ->).
      destruct (value_at_leaf _ _ _ Hw Hks) as [-> ->]. simpl in *.
      destruct h as [hv|]; simpl in *; [rewrite Hd|]; by apply list_elem_of_singleton. }
  induction w as [|b|x|s|l _|m IH] using value_ind'; intros path h f;
    [exact (Hleaf VNull eq_refl path h f)|exact (Hleaf (VBool b) eq_refl path h f)
    |exact (Hleaf (VNum x) eq_refl path h f)|exact (Hleaf (VStr s) eq_refl path h f)
    |exact (Hleaf (VArr l) eq_refl path h f)|].
  rewrite diff_entry_obj, elem_of_diffMap. split.
  - intros (k & w & Hk & Hf). apply (IH _ _ Hk) in Hf as (ks & l & ? & ? & ? & ->).
    exists (k :: ks), l. simpl. by rewrite Hk.
  - intros (ks & l & Hks & Hl & Hd & ->). destruct ks as [|k ks]; simpl in *; [by simplify_eq|].
    destruct (m !! k) as [w|] eqn:Hk; [|by rewrite value_at_None in Hks].
    exists k, w. split; [done|]. apply (IH _ _ Hk). eauto 6.
Qed.

Lemma agrees_leaf_inv w h : as_map w = None → agrees w h → ∃ hv, h = Some hv ∧ leafEqual w hv = true.
Proof. intros Hw. inversion 1; subst; [eauto|done]. Qed.

Lemma diff_entry_nil section w :
  ∀ path h, diff_entry section path w h = [] ↔ agrees w h.
Proof.
  assert (Hleaf : ∀ w, as_map w = None → ∀ path h,
    (match h with
     | Some hv => if leafEqual w hv then [] else [MkFinding section path w hv]
     | None => [MkFinding section path w VNull]
     end) = [] ↔ agrees w h).
  { intros w' Hw path h. split.
    - destruct h as [hv|]; [|done]. destruct (leafEqual w' hv) eqn:E; [|done].
      intros _. by constructor.
    - intros Ha. destruct (agrees_leaf_inv _ _ Hw Ha) as (hv & -> & ->). done. }
  induction w as [|b|x|s|l _|m IH] using value_ind'; intros path h;
    [exact (Hleaf VNull eq_refl path h)|exact (Hleaf (VBool b) eq_refl path h)
    |exact (Hleaf (VNum x) eq_refl path h)|exact (Hleaf (VStr s) eq_refl path h)
    |exact (Hleaf (VArr l) eq_refl path h)|].
  rewrite diff_entry_obj, nil_iff_no_elem. split.
  - intros Hno. apply agrees_obj. intros k w Hk.
    apply (IH k w Hk (path_join path k)), nil_iff_no_elem. intros f Hf.
    apply (Hno f), elem_of_diffMap. eauto.
  - intros Ha f Hf. apply elem_of_diffMap in Hf as (k & w & Hk & Hf).
    inversion Ha as [|? ? Hall]; subst; [done|].
    specialize (Hall k w Hk). apply (IH k w Hk (path_join path k)) in Hall.
    rewrite Hall in Hf. by apply elem_of_nil in Hf.
Qed.

(** Writing a payload that carries the desired leaves makes the device agree. *)
Lemma merge_agrees w :
  ∀ p d, no_nan w = true → carries w p → agrees w (Some (merge_val d p)).
Proof.
  induction w as [|b|x|s|l _|m IH] using value_ind'; intros p d Hn Hc;
    try by (inversion Hc; subst; constructor; [done|by apply leafEqual_refl]).
  inversion Hc as [|? pm Hall]; subst; [done|].
  rewrite merge_val_obj. apply agrees_obj. intros k w Hk. simpl.
  destruct (Hall _ _ Hk) as (p & Hp & Hcp). rewrite merge_lookup, Hp.
  apply (IH _ _ Hk); [|done]. rewrite no_nan_obj in Hn. eauto.
Qed.

Lemma carries_refl w : carries w w.
Proof.
  induction w as [|b|x|s|l _|m IH] using value_ind'; try by constructor.
  apply carries_obj. intros k w Hk. exists w. split; [done|]. by apply (IH k w).
Qed.

(** ** The loop over sections *)

Lemma diff_sections_Ok desired actual ss fs :
  diff_sections desired actual ss = Ok fs →
  ∀ f, f ∈ fs ↔ ∃ s gs, s ∈ ss ∧ diff_section desired actual s = Ok gs ∧ f ∈ gs.
Proof.
  revert fs. induction ss as [|s ss IH]; intros fs Hd f; simpl in Hd; simplify_eq/=.
  { split; [by intros ?%elem_of_nil|]. intros (s & ? & H & _). by apply elem_of_nil in H. }
  unfold res_bind in Hd. destruct (diff_section _ _ s) as [gs|] eqn:Hs; [|done].
  destruct (diff_sections _ _ ss) as [rs|]; simplify_eq.
  rewrite elem_of_app, (IH rs eq_refl). split.
  - intros [Hf|(s' & gs' & ? & ? & ?)].
    + exists s, gs. split; [constructor|done].
    + exists s', gs'. split; [by constructor|done].
  - intros (s' & gs' & Hin & Hs' & Hf). apply elem_of_cons in Hin as [->|Hin].
    + left. rewrite Hs in Hs'. by simplify_eq.
    + right. eauto.
Qed.

Lemma diff_sections_Err desired actual ss :
  (∃ e, diff_sections desired actual ss = Err e) ↔
  ∃ s e, s ∈ ss ∧ diff_section desired actual s = Err e.
Proof.
  induction ss as [|s ss IH]; simpl.
  { split; [by intros [? ?]|]. intros (s & ? & H & _). by apply elem_of_nil in H. }
  unfold res_bind. destruct (diff_section _ _ s) as [gs|e] eqn:Hs.
  - destruct (diff_sections _ _ ss) as [rs|e'].
    + split; [by intros [? ?]|]. intros (s' & e & Hin & He).
      apply elem_of_cons in Hin as [->|Hin]; [congruence|].
      destruct (proj2 IH); eauto. done.
    + split; [|by eauto]. intros _. destruct (proj1 IH) as (s' & e & Hin & He); [by eauto|].
      exists s', e. split; [by constructor|done].
  - split; [|by eauto]. intros _. exists s, e. split; [constructor|done].
Qed.

Lemma diff_section_nil desired actual s :
  diff_section desired actual s = Ok [] ↔
  section_agrees (default ∅ (desired !! s)) (actual !! s).
Proof.
  unfold diff_section, section_agrees.
  destruct (decide (size (default ∅ (desired !! s)) = 0)) as [Hz|Hnz]; [by split; auto|].
  split.
  - intros H. right. destruct (actual !! s) as [raw|]; [|done].
    destruct (unmarshal_map raw) as [have|] eqn:Hr; [|done].
    exists raw, have. split_and!; [done..|]. intros k w Hk.
    injection H as H. apply (diff_entry_nil s w (path_join "" k)), nil_iff_no_elem.
    intros f Hf. rewrite nil_iff_no_elem in H. apply (H f), elem_of_diffMap. eauto.
  - intros [?|(raw & have & -> & -> & Hall)]; [done|]. f_equal.
    apply nil_iff_no_elem. intros f Hf. apply elem_of_diffMap in Hf as (k & w & Hk & Hf).
    rewrite (proj2 (diff_entry_nil s w _ _) (Hall k w Hk)) in Hf. by apply elem_of_nil in Hf.
Qed.

Lemma diff_section_Err desired actual s :
  (∃ e, diff_section desired actual s = Err e) ↔
  ∃ want raw, desired !! s = Some want ∧ want ≠ ∅ ∧ actual !! s = Some raw ∧
              unmarshal_map raw = None.
Proof.
  unfold diff_section. destruct (desired !! s) as [want|] eqn:Hs; simpl.
  - destruct (decide (size want = 0)) as [Hz|Hnz].
    + apply map_size_empty_inv in Hz as ->.
      split; [by intros [? ?]|]. by intros (w & r & [= <-] & Hw & _).
    + assert (want ≠ ∅) by (intros ->; by rewrite map_size_empty in Hnz).
      destruct (actual !! s) as [raw|] eqn:Ha.
      * destruct (unmarshal_map raw) eqn:Hr;
          [|split; [|by eauto]; intros _; by exists want, raw].
        split; [by intros [? ?]|]. intros (w & r & _ & _ & [= <-] & H'). congruence.
      * split; [by intros [? ?]|]. by intros (w & r & _ & _ & H' & _).
  - rewrite map_size_empty. simpl. split; [by intros [? ?]|]. by intros (w & r & ? & _).
Qed.

Lemma diffMap_top section (want have : obj) :
  diffMap section "" want have = diff_entry section "" (VObj want) (Some (VObj have)).
Proof. by rewrite diff_entry_obj. Qed.

Lemma elem_of_diff_section desired actual s gs f :
  diff_section desired actual s = Ok gs → is_Some (desired !! s) →
  f ∈ gs ↔ f.(Section_) = s ∧ reported desired actual f.
Proof.
  intros Hd [want Hs]. unfold diff_section in Hd. rewrite Hs in Hd. simpl in Hd.
  unfold reported. destruct (decide (size want = 0)) as [Hz|Hnz]; simplify_eq.
  { apply map_size_empty_inv in Hz as ->. split; [by intros ?%elem_of_nil|].
    intros [<- (w & Hw & Hne & _)]. congruence. }
  assert (want ≠ ∅) by (intros ->; by rewrite map_size_empty in Hnz).
  destruct (actual !! s) as [raw|] eqn:Ha; simplify_eq.
  - destruct (unmarshal_map raw) as [have|] eqn:Hr; simplify_eq.
    rewrite diffMap_top, elem_of_diff_entry. split.
    + intros (ks & l & ? & ? & ? & ->). split; [done|]. exists want.
      split_and!; [done..|]. right. eauto 10.
    + intros [<- (w & Hw & _ & [[Hn _]|(raw' & have' & ks & l & Hr1 & Hr2 & ? & ? & ? & Hf)])];
        [congruence|]. simplify_eq. eauto 6.
  - rewrite list_elem_of_singleton. split.
    + intros ->. split; [done|]. exists want. eauto 6.
    + intros [<- (w & Hw & _ & [[_ Hf]|(raw' & ? & ? & ? & ? & _)])]; [done|congruence].
Qed.

Lemma elem_of_Sections s fs : s ∈ Sections fs ↔ ∃ f, f ∈ fs ∧ f.(Section_) = s.
Proof.
  unfold Sections, sort_strings. rewrite elem_of_sort_by, elem_of_remove_dups, list_elem_of_fmap.
  naive_solver.
Qed.

Lemma NoDup_Sections fs : NoDup (Sections fs).
Proof. unfold Sections, sort_strings. rewrite NoDup_sort_by. apply NoDup_remove_dups. Qed.

Lemma Sections_nil fs : Sections fs = [] ↔ fs = [].
Proof.
  split; [|by intros ->]. destruct fs as [|f fs]; [done|]. intros H.
  assert (Hin : f.(Section_) ∈ Sections (f :: fs)).
  { apply elem_of_Sections. exists f. split; [constructor|done]. }
  rewrite H in Hin. by apply elem_of_nil in Hin.
Qed.

Lemma Diff_nil_iff desired actual :
  Diff desired actual = Ok [] ↔
  ∀ s want, desired !! s = Some want → section_agrees want (actual !! s).
Proof.
  unfold Diff. split.
  - intros H s want Hs. 
    assert (Hin : s ∈ sortedKeys desired) by (apply elem_of_sortedKeys; eauto).
    destruct (diff_section desired actual s) as [gs|e] eqn:Hd.
    + assert (gs = []) as ->.
      { apply nil_iff_no_elem. intros f Hf. apply (elem_of_nil f).
        rewrite (diff_sections_Ok _ _ _ _ H). eauto. }
      apply diff_section_nil in Hd. by rewrite Hs in Hd.
    + destruct (proj2 (diff_sections_Err desired actual (sortedKeys desired))) as [e' He]; [by eauto|].
      congruence.
  - intros Hall.
    assert (Hsec : ∀ s, s ∈ sortedKeys desired → diff_section desired actual s = Ok []).
    { intros s Hs. apply diff_section_nil. apply elem_of_sortedKeys in Hs as [want Hs].
      rewrite Hs. by apply Hall. }
    destruct (diff_sections desired actual (sortedKeys desired)) as [fs|e] eqn:Hd.
    + f_equal. apply nil_iff_no_elem. intros f Hf.
      apply (diff_sections_Ok _ _ _ _ Hd) in Hf as (s & gs & Hs & Hg & Hf).
      rewrite Hsec in Hg by done. simplify_eq. by apply elem_of_nil in Hf.
    + destruct (proj1 (diff_sections_Err desired actual (sortedKeys desired))) as (s & e' & Hs & He); [by eauto|].
      rewrite Hsec in He by done. done.
Qed.

(** ** Theorems *)

(** [Diff] reports nothing exactly when every section the desired
    configuration declares is present on the device, decodes to an object and
    agrees on every declared leaf. *)
Theorem Diff_in_sync desired actual :
  Diff desired actual = Ok [] ↔
  ∀ s want, desired !! s = Some want → section_agrees want (actual !! s).
Proof. apply Diff_nil_iff. Qed.

(** C19: every finding of [Diff] is a real disagreement, and every declared leaf
    that is absent or different on the device has its finding, with the leaf's
    dotted path, the wanted value and the device's value (nil when absent). *)
Theorem Diff_findings desired actual fs (H : Diff desired actual = Ok fs) :
  ∀ f, f ∈ fs ↔ reported desired actual f.
Proof.
  intros f. unfold Diff in H. rewrite (diff_sections_Ok _ _ _ _ H). split.
  - intros (s & gs & Hs & Hd & Hf). apply elem_of_sortedKeys in Hs.
    by apply (elem_of_diff_section _ _ _ _ _ Hd Hs) in Hf as [_ ?].
  - intros Hr. assert (Hs : is_Some (desired !! f.(Section_))).
    { destruct Hr as (w & Hw & _). eauto. }
    assert (Hin : f.(Section_) ∈ sortedKeys desired) by by apply elem_of_sortedKeys.
    destruct (diff_section desired actual f.(Section_)) as [gs|e] eqn:Hd.
    + exists f.(Section_), gs. split_and!; [done..|].
      by apply (elem_of_diff_section _ _ _ _ _ Hd Hs).
    + destruct (proj2 (diff_sections_Err desired actual (sortedKeys desired))); [by eauto|].
      congruence.
Qed.

(** [Diff] fails exactly when a declared, nonempty section of the device
    holds something other than an object (or null); a device answer of the
    right shape always produces a verdict. *)
Theorem Diff_error desired actual :
  (∃ e, Diff desired actual = Err e) ↔
  ∃ s want raw, desired !! s = Some want ∧ want ≠ ∅ ∧
                actual !! s = Some raw ∧ unmarshal_map raw = None.
Proof.
  unfold Diff. rewrite diff_sections_Err. split.
  - intros (s & e & _ & He). exists s. apply diff_section_Err. eauto.
  - intros (s & Hex). pose proof Hex as (want & raw & Hs & _).
    apply diff_section_Err in Hex as [e He]. exists s, e. split; [|done].
    apply elem_of_sortedKeys. eauto.
Qed.

Lemma section_agrees_merge (want p old : obj) :
  no_nan (VObj want) = true → carries (VObj want) (VObj p) →
  section_agrees want (Some (VObj (merge old p))).
Proof.
  intros Hn Hc. right. exists (VObj (merge old p)), (merge old p).
  split_and!; [done..|]. intros k w Hk.
  apply (merge_agrees _ _ (Some (VObj old)) Hn) in Hc. rewrite merge_val_obj in Hc.
  inversion Hc as [|? ? Hall]; subst; [done|]. by apply Hall.
Qed.
