(* ===== verification/Order.v ===== *)
(** * Enforcement order (internal/drift/order.go)

    [ApplyOrder] sorts the drifted sections safest-first.  The theorem pins the
    tail of the result: auth comes after every other section but wifi, and wifi
    is dead last, whatever the order of the input. *)

From stdpp Require Import prelude gmap strings pretty sorting list.
From S2P Require Import Prelude.

Definition rank (s : string) : Z :=
  if String.eqb s "sys" then 0
  else if HasPrefix s "switch:" then 1
  else if HasSuffix s "_ui" then 1
  else if String.eqb s "mqtt" then 2
  else if String.eqb s "cloud" then 3
  else if String.eqb s "ble" then 3
  else if String.eqb s "ws" then 3
  else if String.eqb s "firmware" then 4
  else if String.eqb s "schedule" then 4
  else if String.eqb s "auth" then 100
  else if String.eqb s "wifi" then 200
  else 50.

(** The [less] function of the stable sort. *)
Definition apply_lt (a b : string) : bool :=
  if bool_decide (rank a ≠ rank b) then (rank a <? rank b)%Z else str_lt a b.

Definition ApplyOrder (sections : list string) : list string :=
  sort_by apply_lt sections.

(** ** Lemmas *)

#[export] Instance apply_lt_weak : WeakOrder apply_lt.
Proof.
  split; unfold apply_lt.
  - intros x y. repeat case_bool_decide; intros; try lia. by apply weak_asym.
  - intros x y z. repeat case_bool_decide; intros; try lia.
    by eapply weak_trans.
Qed.

Lemma apply_lt_antisym x y : apply_lt x y = false → apply_lt y x = false → x = y.
Proof.
  unfold apply_lt. repeat case_bool_decide; intros; try lia. by apply str_lt_antisym.
Qed.

Lemma apply_lt_rank x y : (rank x < rank y)%Z → apply_lt y x = false.
Proof. unfold apply_lt. intros. case_bool_decide; lia. Qed.

Lemma elem_of_ApplyOrder s l : s ∈ ApplyOrder l ↔ s ∈ l.
Proof. apply elem_of_sort_by. Qed.

(** Only wifi ranks 200, only auth ranks 100, everything else below. *)
Lemma rank_cases s :
  s = "wifi" ∨ s = "auth" ∨ (s ≠ "wifi" ∧ s ≠ "auth" ∧ rank s < 100)%Z.
Proof.
  destruct (decide (s = "wifi")) as [->|Hw]; [by left|].
  destruct (decide (s = "auth")) as [->|Ha]; [by right; left|].
  right; right. split_and!; [done..|].
  apply String.eqb_neq in Hw, Ha. unfold rank. rewrite Hw, Ha.
  repeat (case_match; [lia|]). lia.
Qed.

(** The optional singleton [[s]] when [s] is among the sections. *)
Definition if_present (s : string) (l : list string) : list string :=
  if decide (s ∈ l) then [s] else [].

Definition ordinary (l : list string) : list string :=
  filter (λ s, s ≠ "auth" ∧ s ≠ "wifi") l.

Lemma split_special l : NoDup l →
  l ≡ₚ ordinary l ++ if_present "auth" l ++ if_present "wifi" l.
Proof.
  intros Hnd. apply NoDup_Permutation; [done| |].
  - apply NoDup_app. split_and!.
    + by apply NoDup_filter.
    + intros x [[? ?] _]%list_elem_of_filter. unfold if_present.
      repeat case_decide; set_solver.
    + unfold if_present. repeat case_decide;
        apply (bool_decide_unpack _); vm_compute; exact I.
  - intros s. unfold if_present, ordinary.
    rewrite !elem_of_app, list_elem_of_filter.
    destruct (decide (s = "auth")) as [->|]; [|destruct (decide (s = "wifi")) as [->|]];
      repeat case_decide; rewrite ?list_elem_of_singleton, ?elem_of_nil;
      naive_solver.
Qed.

Lemma StronglySorted_tail l t :
  StronglySorted (not_after apply_lt) l →
  StronglySorted (not_after apply_lt) t →
  (∀ x y, x ∈ l → y ∈ t → (rank x < rank y)%Z) →
  StronglySorted (not_after apply_lt) (l ++ t).
Proof.
  intros Hl Ht Hlt. apply StronglySorted_app. split_and!; [|done|done].
  intros x y Hx Hy. by apply apply_lt_rank, Hlt.
Qed.

Lemma ApplyOrder_perm_eq l1 l2 : l1 ≡ₚ l2 → ApplyOrder l1 = ApplyOrder l2.
Proof. apply sort_by_perm_eq; [apply _|]. intros. by apply apply_lt_antisym. Qed.

Lemma ApplyOrder_split l : NoDup l →
  ApplyOrder l = ApplyOrder (ordinary l) ++ if_present "auth" l ++ if_present "wifi" l.
Proof.
  intros Hnd. apply (StronglySorted_unique_strong (not_after apply_lt));
    [|apply sort_by_sorted, _| |].
  - intros x y _ _ ? ?. by apply apply_lt_antisym.
  - apply StronglySorted_tail; [apply sort_by_sorted, _| |].
    + apply StronglySorted_tail; unfold if_present; repeat case_decide;
        try by repeat constructor.
      all: intros ? ?; rewrite ?elem_of_nil, ?list_elem_of_singleton; try done.
      intros -> ->. done.
    + intros x y Hx Hy. apply elem_of_ApplyOrder, list_elem_of_filter in Hx as [[Hxa Hxw] _].
      destruct (rank_cases x) as [?|[?|(_ & _ & Hr)]]; [done..|].
      unfold if_present in Hy. apply elem_of_app in Hy as [Hy|Hy];
        case_decide; rewrite ?elem_of_nil, ?list_elem_of_singleton in Hy; try done; subst;
        change (rank "auth") with 100%Z in *; change (rank "wifi") with 200%Z in *; lia.
  - unfold ApplyOrder. rewrite !sort_by_perm. by apply split_special.
Qed.

(** ** Theorems *)

(** The order of enforcement is a permutation of the drifted sections in
    which the ordinary sections come first, then auth, then wifi as the very last
    write; the result does not depend on the order of the input. *)
Theorem ApplyOrder_tail l (Hnd : NoDup l) :
  ApplyOrder l ≡ₚ l ∧
  ApplyOrder l = ApplyOrder (ordinary l) ++ if_present "auth" l ++ if_present "wifi" l ∧
  (∀ l', l' ≡ₚ l → ApplyOrder l' = ApplyOrder l).
Proof.
  split_and!; [apply sort_by_perm|by apply ApplyOrder_split|].
  intros l' Hl. by apply ApplyOrder_perm_eq.
Qed.

Lemma ApplyOrder_tail_witness :
  ApplyOrder ["wifi"; "auth"; "sys"; "cloud"; "switch:0"] =
  ["sys"; "switch:0"; "cloud"; "auth"; "wifi"].
Proof.
  assert (H : NoDup ["wifi"; "auth"; "sys"; "cloud"; "switch:0"])
    by (apply (bool_decide_unpack _); vm_compute; exact I).
  destruct (ApplyOrder_tail _ H) as [_ [-> _]]. vm_compute. reflexivity.
Defined.
