(* ===== verification/Match.v ===== *)
(** * Profile matching (internal/drift/match.go)

    Which profile governs a device.  Selector evaluation is apimachinery's and
    enters through the class [Selectors]. *)

From stdpp Require Import prelude gmap strings pretty sorting list.
From S2P Require Import Prelude Json Api.

Section Match.
Context `{Selectors, Fmt}.

(** The first profile called [ref]. *)
Fixpoint find_profile (ref : string) (profiles : list ShellyProfile)
  : option ShellyProfile :=
  match profiles with
  | [] => None
  | p :: ps => if String.eqb p.(prof_Name) ref then Some p else find_profile ref ps
  end.

(** The selector loop: candidates and warnings, each in input order. *)
Fixpoint match_scan (set : gmap string string) (profiles : list ShellyProfile)
  : list ShellyProfile * list string :=
  match profiles with
  | [] => ([], [])
  | p :: ps =>
      let '(cands, warns) := match_scan set ps in
      match p.(prof_Spec).(ps_Selector) with
      | None => (cands, warns)
      | Some sel =>
          match selector_matches sel set with
          | Err e => (cands, ("profile " +:+ p.(prof_Name) +:+ ": invalid selector: " +:+ e) :: warns)
          | Ok true => (p :: cands, warns)
          | Ok false => (cands, warns)
          end
      end
  end.

(** Candidates compete: highest priority, then smallest name. *)
Definition match_lt (a b : ShellyProfile) : bool :=
  if bool_decide (a.(prof_Spec).(ps_Priority) ≠ b.(prof_Spec).(ps_Priority))
  then (b.(prof_Spec).(ps_Priority) <? a.(prof_Spec).(ps_Priority))%Z
  else str_lt a.(prof_Name) b.(prof_Name).

Definition MatchProfile (dev : ShellyDevice) (profiles : list ShellyProfile)
  : option ShellyProfile * list string :=
  let ref := dev.(dev_Spec).(ds_ProfileRef) in
  if negb (String.eqb ref "") then
    match find_profile ref profiles with
    | Some p => (Some p, [])
    | None => (None, ["profileRef " +:+ fmt_q ref +:+ " not found"])
    end
  else
    let '(candidates, warnings) := match_scan (dev_Labels dev) profiles in
    (head (sort_by match_lt candidates), warnings).

(** ** Specification *)

(** A profile applies to a device by its selector. *)
Definition applies (dev : ShellyDevice) (p : ShellyProfile) : Prop :=
  ∃ sel, p.(prof_Spec).(ps_Selector) = Some sel ∧
         selector_matches sel (dev_Labels dev) = Ok true.

(** [p] wins against [q]. *)
Definition beats (p q : ShellyProfile) : Prop :=
  (q.(prof_Spec).(ps_Priority) < p.(prof_Spec).(ps_Priority))%Z ∨
  (q.(prof_Spec).(ps_Priority) = p.(prof_Spec).(ps_Priority) ∧
   String.le p.(prof_Name) q.(prof_Name)).

(** ** Lemmas *)

#[export] Instance match_lt_weak : WeakOrder match_lt.
Proof.
  split; unfold match_lt.
  - intros x y. repeat case_bool_decide; intros; try lia. by apply weak_asym.
  - intros x y z. repeat case_bool_decide; intros; try lia. by eapply weak_trans.
Qed.

Lemma match_lt_beats p q : match_lt q p = false ↔ beats p q.
Proof.
  unfold match_lt, beats. rewrite <-str_lt_le.
  case_bool_decide; [rewrite Z.ltb_ge|]; naive_solver lia.
Qed.

Lemma elem_of_match_scan dev ps p :
  p ∈ (match_scan (dev_Labels dev) ps).1 ↔ p ∈ ps ∧ applies dev p.
Proof.
  induction ps as [|q ps IH]; simpl; [set_solver|].
  destruct (match_scan _ ps) as [cands warns]; simpl in *. rewrite elem_of_cons.
  assert (Hskip : ¬ applies dev q → p ∈ cands ↔ (p = q ∨ p ∈ ps) ∧ applies dev p).
  { rewrite IH. intros Hq. split; [naive_solver|]. by intros [[->|?] ?]. }
  destruct (q.(prof_Spec).(ps_Selector)) as [sel|] eqn:Hsel; simpl.
  - destruct (selector_matches sel _) as [[]|e] eqn:Hm; simpl.
    + assert (applies dev q) by by exists sel.
      rewrite elem_of_cons, IH. naive_solver.
    + apply Hskip. intros (sel' & ? & ?). congruence.
    + apply Hskip. intros (sel' & ? & ?). congruence.
  - apply Hskip. intros (sel' & ? & ?). congruence.
Qed.

(** The candidates are the profiles with a valid, matching selector. *)
Definition selected (set : gmap string string) (p : ShellyProfile) : bool :=
  match p.(prof_Spec).(ps_Selector) with
  | Some sel => match selector_matches sel set with Ok b => b | Err _ => false end
  | None => false
  end.

Lemma match_scan_filter set ps :
  (match_scan set ps).1 = filter (λ p, selected set p = true) ps.
Proof.
  induction ps as [|p ps IH]; simpl; [done|]. rewrite filter_cons, <-IH. unfold selected.
  destruct (match_scan set ps) as [cands warns]. simpl.
  destruct (ps_Selector _) as [sel|]; [|done].
  by destruct (selector_matches sel set) as [[]|].
Qed.

Lemma match_scan_perm set ps1 ps2 :
  ps1 ≡ₚ ps2 → (match_scan set ps1).1 ≡ₚ (match_scan set ps2).1.
Proof. intros Hp. rewrite !match_scan_filter. by rewrite Hp. Qed.

Lemma find_profile_Some ref ps p :
  find_profile ref ps = Some p → p ∈ ps ∧ p.(prof_Name) = ref.
Proof.
  induction ps as [|q ps IH]; simpl; [done|].
  case_match; intros Hf; reflect_bools.
  - simplify_eq. split; [constructor|done].
  - destruct (IH Hf) as [? ?]. split; [by constructor|done].
Qed.

Lemma find_profile_None ref ps :
  find_profile ref ps = None ↔ ∀ p, p ∈ ps → p.(prof_Name) ≠ ref.
Proof.
  induction ps as [|q ps IH]; simpl; [set_solver|].
  case_match; reflect_bools; [|set_solver]. split; [done|].
  intros Hall. destruct (Hall q); [constructor|done].
Qed.

Lemma head_sorted_min {A} (less : A → A → bool) `{!WeakOrder less} l x y :
  head (sort_by less l) = Some x → y ∈ l → less y x = false.
Proof.
  intros Hh Hy. apply (elem_of_sort_by less) in Hy.
  pose proof (sort_by_sorted less l) as Hs.
  destruct (sort_by less l) as [|z zs]; simplify_eq/=.
  inversion Hs as [|? ? _ Hall]; subst. apply elem_of_cons in Hy as [->|Hy].
  - destruct (less x x) eqn:E; [|done]. by rewrite (weak_asym _ _ E) in E.
  - rewrite Forall_forall in Hall. by apply Hall.
Qed.

Lemma head_sort_by_elem {A} (less : A → A → bool) l x :
  head (sort_by less l) = Some x → x ∈ l.
Proof.
  intros Hh. apply (elem_of_sort_by less).
  destruct (sort_by less l); simplify_eq/=. constructor.
Qed.

Lemma head_sort_by_None {A} (less : A → A → bool) l : head (sort_by less l) = None ↔ l = [].
Proof.
  rewrite head_None. split; [|by intros ->].
  intros Hs. apply (f_equal length) in Hs. rewrite length_sort_by in Hs. by destruct l.
Qed.

(** ** Theorems *)

(** Without a [profileRef] the governing profile is one whose selector
    matches the device and that beats every other matching profile (higher
    priority, then smaller name); there is none exactly when no selector
    matches, and an invalid or absent selector never governs. *)
Lemma MatchProfile_selects dev ps (Href : dev.(dev_Spec).(ds_ProfileRef) = "") :
  match (MatchProfile dev ps).1 with
  | Some p => p ∈ ps ∧ applies dev p ∧ ∀ q, q ∈ ps → applies dev q → beats p q
  | None => ∀ q, q ∈ ps → ¬ applies dev q
  end.
Proof.
  unfold MatchProfile. rewrite Href. simpl.
  pose proof (elem_of_match_scan dev ps) as Hel.
  destruct (match_scan _ ps) as [cands warns]; simpl in *.
  destruct (head (sort_by match_lt cands)) as [p|] eqn:Hh; simpl.
  - pose proof (head_sort_by_elem _ _ _ Hh) as [Hin Hap]%Hel.
    split_and!; [done..|]. intros q Hq Hqa. apply match_lt_beats.
    eapply head_sorted_min; [apply _|done|]. by apply Hel.
  - apply head_sort_by_None in Hh as ->. intros q Hq Hqa.
    by apply (elem_of_nil q), Hel.
Qed.

(** The verdict does not depend on the order in which the API server lists
    the profiles, as long as profile names are unique. *)
Lemma MatchProfile_order dev ps1 ps2
  (Hnames : NoDup (prof_Name <$> ps1)) (Hperm : ps1 ≡ₚ ps2) :
  (MatchProfile dev ps1).1 = (MatchProfile dev ps2).1.
Proof.
  assert (Huniq : ∀ p q, p ∈ ps1 → q ∈ ps1 → p.(prof_Name) = q.(prof_Name) → p = q).
  { intros p q Hp Hq Hn. apply list_elem_of_lookup in Hp as [i Hi], Hq as [j Hj].
    assert (i = j) as ->; [|congruence].
    eapply (NoDup_lookup (prof_Name <$> ps1)); [done| |];
      rewrite list_lookup_fmap; [by rewrite Hi|by rewrite Hj, Hn]. }
  unfold MatchProfile. destruct (negb _) eqn:Href.
  - destruct (find_profile _ ps1) as [p|] eqn:H1, (find_profile _ ps2) as [q|] eqn:H2; simpl.
    + apply find_profile_Some in H1 as [Hp Hpn], H2 as [Hq Hqn].
      rewrite <-Hperm in Hq. f_equal. apply Huniq; congruence.
    + apply find_profile_Some in H1 as [Hp Hpn]. rewrite Hperm in Hp.
      rewrite find_profile_None in H2. by destruct (H2 p Hp).
    + apply find_profile_Some in H2 as [Hq Hqn]. rewrite <-Hperm in Hq.
      rewrite find_profile_None in H1. by destruct (H1 q Hq).
    + done.
  - pose proof (match_scan_perm (dev_Labels dev) _ _ Hperm) as Hsc.
    pose proof (elem_of_match_scan dev ps1) as Hel.
    destruct (match_scan _ ps1) as [c1 w1], (match_scan _ ps2) as [c2 w2]; simpl in *.
    f_equal. apply sort_by_perm_eq; [apply _| |done].
    intros x y Hx%Hel Hy%Hel Hxy Hyx. apply Huniq; [naive_solver..|].
    apply match_lt_beats in Hxy, Hyx. unfold beats in *.
    apply (anti_symm String.le); naive_solver lia.
Qed.

(** An explicit [profileRef] always wins: the device is governed by the
    profile of that name, and by none, with a warning, when there is none. *)
Lemma MatchProfile_ref dev ps (Href : dev.(dev_Spec).(ds_ProfileRef) ≠ "") :
  match MatchProfile dev ps with
  | (Some p, warns) => p ∈ ps ∧ p.(prof_Name) = dev.(dev_Spec).(ds_ProfileRef) ∧ warns = []
  | (None, warns) =>
      (∀ p, p ∈ ps → p.(prof_Name) ≠ dev.(dev_Spec).(ds_ProfileRef)) ∧ length warns = 1
  end.
Proof.
  unfold MatchProfile. apply String.eqb_neq in Href. rewrite Href. simpl.
  destruct (find_profile _ ps) as [p|] eqn:Hf.
  - apply find_profile_Some in Hf as [? ?]. done.
  - by rewrite find_profile_None in Hf.
Qed.

(** C18: which profile governs a device is a function of the profiles there are.
    Whatever the listing order (profile names being unique), the verdict is the
    same; an explicit [profileRef] wins, and when it names no profile none
    governs, with a warning; without one the governing profile is one whose
    selector matches the device and that beats every other matching profile
    (higher priority, then smaller name), and there is none exactly when no
    selector matches: an invalid or absent selector never governs. *)
Theorem MatchProfile_governs dev ps (Hnames : NoDup (prof_Name <$> ps)) :
  (∀ ps', ps ≡ₚ ps' → (MatchProfile dev ps).1 = (MatchProfile dev ps').1) ∧
  (dev.(dev_Spec).(ds_ProfileRef) ≠ "" →
   match MatchProfile dev ps with
   | (Some p, warns) => p ∈ ps ∧ p.(prof_Name) = dev.(dev_Spec).(ds_ProfileRef) ∧ warns = []
   | (None, warns) =>
       (∀ p, p ∈ ps → p.(prof_Name) ≠ dev.(dev_Spec).(ds_ProfileRef)) ∧ length warns = 1
   end) ∧
  (dev.(dev_Spec).(ds_ProfileRef) = "" →
   match (MatchProfile dev ps).1 with
   | Some p => p ∈ ps ∧ applies dev p ∧ ∀ q, q ∈ ps → applies dev q → beats p q
   | None => ∀ q, q ∈ ps → ¬ applies dev q
   end).
Proof.
  split_and!; [intros ps' Hp; by apply MatchProfile_order|apply MatchProfile_ref|apply MatchProfile_selects].
Qed.
End Match.
