(* ===== verification/Render.v ===== *)
(** * Rendering the desired configuration (internal/drift/desired.go)

    [Render] maps a profile's declared config onto the device's component names.
    A Go map is built key by key, so each renderer is a chain of [put]s in the
    source's order.  [discoverUIKey] returns the first match of a [range] over a
    map, whose order the Go runtime chooses: that order is the argument [order],
    any listing of the device's component names. *)

From stdpp Require Import prelude gmap strings pretty sorting list.
From Stdlib Require Import SpecFloat Ascii.
From S2P Require Import Prelude Json Api Diff.

(** [strconv.ParseFloat(s, 64)]: [None] when it returns an error. *)
Class StrConv : Type := {
  ParseFloat : string → option spec_float;
}.

(** [if p != nil { m[k] = f( *p) }]. *)
Definition put {A : Type} (k : string) (f : A → value) (o : option A) (m : obj) : obj :=
  match o with Some a => <[k := f a]> m | None => m end.

(** [if len(sub) > 0 { m[k] = sub }]. *)
Definition put_map (k : string) (sub m : obj) : obj :=
  if decide (size sub = 0) then m else <[k := VObj sub]> m.

(** A non-nil string field that is rendered when non-empty. *)
Definition non_empty (s : string) : option string :=
  if String.eqb s "" then None else Some s.

(** [nil] for an empty map. *)
Definition non_nil (m : obj) : option obj :=
  if decide (size m = 0) then None else Some m.

Definition vint (z : Z) : value := VNum (float64_of_Z z).

(** ** Component key patterns *)

(** [[a-z0-9]]. *)
Definition is_lower_alnum (c : ascii) : bool :=
  let n := N_of_ascii c in
  ((97 <=? n) && (n <=? 122) || (48 <=? n) && (n <=? 57))%N.

(** [uiKeyRe]: [^[a-z0-9]+_ui$]. *)
Fixpoint ui_rest (seen : bool) (s : string) : bool :=
  if String.eqb s "_ui" then seen
  else match s with
       | String c s' => is_lower_alnum c && ui_rest true s'
       | EmptyString => false
       end.

Definition uiKeyRe (s : string) : bool := ui_rest false s.

Definition discoverUIKey (order : list string) : string :=
  default "" (head (filter (λ k, uiKeyRe k = true) order)).

(** ** Section renderers *)

Section Render.
Context `{StrConv}.

Definition renderNightMode (nm : NightMode) : obj :=
  put "active_between" VArr
    (match nm.(nm_ActiveBetween) with [] => None | l => Some (VStr <$> l) end)
  (put "brightness" vint nm.(nm_Brightness)
  (put "enable" VBool nm.(nm_Enable) ∅)).

Definition renderUILeds (ui : UISection) : obj :=
  let leds := put "mode" VStr ui.(ui_LEDMode) ∅ in
  match ui.(ui_NightMode) with
  | Some nm => put_map "night_mode" (renderNightMode nm) leds
  | None => leds
  end.

(** The [switch:N] keys of the device's [controls] object. *)
Definition uiControlSwitchKeys (raw : option value) : list string :=
  match raw with
  | None => []
  | Some r =>
      match unmarshal_map r with
      | None => []
      | Some v => filter (λ k, HasPrefix k "switch:" = true)
                    (map_to_list (map_of (v !! "controls"))).*1
      end
  end.

(** The keys [renderUIControls] writes: those, or [switch:0] when there are none. *)
Definition switch_keys_of (raw : option value) : list string :=
  match uiControlSwitchKeys raw with [] => ["switch:0"] | ks => ks end.

Definition renderUIControls (inMode : string) (actualRaw : option value) : obj :=
  list_to_map ((λ k, (k, VObj {["in_mode" := VStr inMode]})) <$> switch_keys_of actualRaw).

Definition renderUI (ui : UISection) (actualRaw : option value) : obj :=
  let out := put_map "leds" (renderUILeds ui) ∅ in
  match ui.(ui_ButtonInMode) with
  | Some mode => put_map "controls" (renderUIControls mode actualRaw) out
  | None => out
  end.

Definition parse_leaf (s : string) : option value := VNum <$> ParseFloat s.

Definition renderSysLocation (sys : SystemSection) : obj :=
  put "lon" id (sys.(sys_Longitude) ≫= parse_leaf)
  (put "lat" id (sys.(sys_Latitude) ≫= parse_leaf)
  (put "tz" VStr sys.(sys_Timezone) ∅)).

Definition renderSys (sys : option SystemSection) (name : option NameSection)
  (desiredName : string) : obj :=
  let managed := match name with Some n => n.(name_Managed) | None => false end in
  let device :=
    put "name" VStr (if managed then non_empty desiredName else None)
    (put "discoverable" VBool (sys ≫= sys_Discoverable)
    (put "eco_mode" VBool (sys ≫= sys_EcoMode) ∅)) in
  let out := put_map "device" device ∅ in
  match sys with
  | None => out
  | Some sys =>
      put "debug" (λ l, VObj {["level" := vint l]}) sys.(sys_DebugLevel)
      (put "sntp" (λ s, VObj {["server" := VStr s]}) sys.(sys_SNTPServer)
      (put_map "location" (renderSysLocation sys) out))
  end.

Definition renderMQTT (mqtt : option MQTTSection) : obj :=
  match mqtt with
  | None => ∅
  | Some m => put "server" VStr (non_empty m.(mqtt_Server))
              (put "enable" VBool m.(mqtt_Enable) ∅)
  end.

(** The leaves a switch section declares, shared by every switch component. *)
Definition renderSwitchLeaves (sw : SwitchSection) : obj :=
  put "autorecover_voltage_errors" VBool sw.(sw_AutorecoverVoltageErrors)
  (put "current_limit" vint sw.(sw_CurrentLimit)
  (put "voltage_limit" vint sw.(sw_VoltageLimit)
  (put "power_limit" vint sw.(sw_PowerLimit)
  (put "auto_off_delay" vint sw.(sw_AutoOffDelay)
  (put "auto_off" VBool sw.(sw_AutoOff)
  (put "auto_on_delay" vint sw.(sw_AutoOnDelay)
  (put "auto_on" VBool sw.(sw_AutoOn)
  (put "initial_state" VStr sw.(sw_InitialState) ∅)))))))).

Definition renderSwitchComponents (sw : option SwitchSection) (actual : actual_config)
  (out : desired_config) : desired_config :=
  match sw with
  | None => out
  | Some sw =>
      let m := renderSwitchLeaves sw in
      if decide (size m = 0) then out
      else map_fold (λ comp _ acc,
             if HasPrefix comp "switch:" then <[comp := m]> acc else acc) out actual
  end.

Definition renderWifiNetwork (n : option WifiNetwork) : option obj :=
  match n with
  | None => None
  | Some n => non_nil (put "ssid" VStr (non_empty n.(net_SSID))
                      (put "enable" VBool n.(net_Enable) ∅))
  end.

Definition renderWifiAP (ap : option WifiAP) : option obj :=
  match ap with
  | None => None
  | Some ap => non_nil (put "range_extender" (λ b, VObj {["enable" := VBool b]}) ap.(ap_RangeExtender)
                       (put "enable" VBool ap.(ap_Enable) ∅))
  end.

Definition renderWifiRoam (roam : option WifiRoam) : option obj :=
  match roam with
  | None => None
  | Some r => non_nil (put "interval" vint r.(roam_Interval)
                      (put "rssi_thr" vint r.(roam_RSSIThreshold) ∅))
  end.

Definition renderWifi (w : WifiSection) : obj :=
  put "roam" VObj (renderWifiRoam w.(wifi_Roam))
  (put "ap" VObj (renderWifiAP w.(wifi_AP))
  (put "sta1" VObj (renderWifiNetwork w.(wifi_Sta1))
  (put "sta" VObj (renderWifiNetwork w.(wifi_Sta)) ∅))).

(** [out[section] = m], when the rendered section is not empty. *)
Definition emit (section : string) (m : obj) (out : desired_config) : desired_config :=
  if decide (size m = 0) then out else <[section := m]> out.

(** [map[string]any{"enable": *e}] for a declared enable flag. *)
Definition enable_only (e : option bool) : obj := put "enable" VBool e ∅.

(** The sections that do not depend on the device. *)
Definition render_fixed (cfg : ProfileConfig) (desiredName : string) : desired_config :=
  let out := emit "sys" (renderSys cfg.(cfg_System) cfg.(cfg_Name) desiredName) ∅ in
  let out := emit "mqtt" (renderMQTT cfg.(cfg_MQTT)) out in
  let out := emit "cloud" (enable_only (cfg.(cfg_Cloud) ≫= cloud_Enable)) out in
  let out := emit "ble" (enable_only (cfg.(cfg_BLE) ≫= ble_Enable)) out in
  let out := emit "ws" (enable_only (cfg.(cfg_WS) ≫= ws_Enable)) out in
  match cfg.(cfg_Wifi) with
  | Some w => emit "wifi" (renderWifi w) out
  | None => out
  end.

Definition Render (cfg : ProfileConfig) (desiredName : string)
  (order : list string) (actual : actual_config) : desired_config :=
  let out := renderSwitchComponents cfg.(cfg_Switch) actual (render_fixed cfg desiredName) in
  match cfg.(cfg_UI) with
  | None => out
  | Some ui =>
      let uiKey := discoverUIKey order in
      if String.eqb uiKey "" then out
      else emit uiKey (renderUI ui (actual !! uiKey)) out
  end.
End Render.

(** ** Lookups in the rendered configuration *)

Lemma emit_lookup section m out i :
  emit section m out !! i =
  if decide (section = i) then
    match non_nil m with Some m' => Some m' | None => out !! i end
  else out !! i.
Proof.
  unfold emit, non_nil. destruct (decide (section = i)) as [->|Hne];
    case_decide; by simplify_map_eq.
Qed.

Lemma size_zero_empty {V} (m : gmap string V) : size m = 0 ↔ m = ∅.
Proof. split; [apply map_size_empty_inv|by intros ->]. Qed.

Lemma non_nil_Some m m' : non_nil m = Some m' ↔ m' = m ∧ m ≠ ∅.
Proof. unfold non_nil. case_decide; rewrite size_zero_empty in *; naive_solver. Qed.

Lemma non_nil_empty : non_nil ∅ = None.
Proof. done. Qed.

Lemma uiKeyRe_head k : uiKeyRe k = true → ∃ c k', k = String c k' ∧ is_lower_alnum c = true ∧ ui_rest true k' = true.
Proof.
  unfold uiKeyRe. destruct k as [|c k']; [done|]. cbn [ui_rest].
  destruct (String.eqb (String c k') "_ui"); [done|].
  rewrite andb_true_iff. naive_solver.
Qed.

Lemma ui_rest_suffix b s : ui_rest b s = true → HasSuffix s "_ui" = true.
Proof.
  revert b. induction s as [|c s IH]; intros b; cbn [ui_rest HasSuffix]; [done|].
  destruct (String.eqb (String c s) "_ui"); [done|].
  rewrite andb_true_iff. intros [_ H]. simpl. by eapply IH.
Qed.

(** A UI component is none of the fixed sections and no switch. *)
Lemma uiKeyRe_fixed k : uiKeyRe k = true →
  k ∉ ["sys"; "mqtt"; "cloud"; "ble"; "ws"; "wifi"; "firmware"; "schedule"; "auth"].
Proof.
  intros Hk Hin. apply ui_rest_suffix in Hk.
  repeat (apply elem_of_cons in Hin as [->|Hin]; [done|]). by apply elem_of_nil in Hin.
Qed.

Lemma ui_rest_switch s : HasPrefix s ":" = true → ∀ b, ui_rest b s = false.
Proof.
  intros Hp b. apply HasPrefix_inv in Hp. rewrite Hp. cbn -[String.eqb].
  by rewrite str_app_cons.
Qed.

Lemma uiKeyRe_switch k : uiKeyRe k = true → HasPrefix k "switch:" = false.
Proof.
  intros Hk. destruct (HasPrefix k "switch:") eqn:Hp; [|done].
  apply HasPrefix_inv in Hp. rewrite Hp in Hk.
  revert Hk. generalize (drop_str (String.length "switch:") k) as rest. intros rest Hk.
  rewrite !str_app_cons, str_app_nil_l in Hk. done.
Qed.

Lemma discoverUIKey_match order k :
  discoverUIKey order = k → k ≠ "" → uiKeyRe k = true ∧ k ∈ order.
Proof.
  unfold discoverUIKey. intros Hk Hne.
  destruct (head (filter _ order)) as [k'|] eqn:Hh; simpl in Hk; [|congruence]. subst k'.
  assert (Hin : k ∈ filter (λ k, uiKeyRe k = true) order).
  { destruct (filter _ order); simplify_eq/=. constructor. }
  by apply list_elem_of_filter in Hin.
Qed.

Section RenderFacts.
Context `{StrConv}.

Lemma renderSwitchComponents_lookup sw actual out s :
  renderSwitchComponents sw actual out !! s =
  match sw with
  | Some sw =>
      if HasPrefix s "switch:" && bool_decide (is_Some (actual !! s))
      then match non_nil (renderSwitchLeaves sw) with Some m => Some m | None => out !! s end
      else out !! s
  | None => out !! s
  end.
Proof.
  unfold renderSwitchComponents. destruct sw as [sw|]; [|done]. unfold non_nil.
  destruct (decide (size (renderSwitchLeaves sw) = 0)); [by case_match|].
  set (m := renderSwitchLeaves sw).
  induction actual as [|c v actual Hc IH] using map_ind.
  { rewrite map_fold_empty, lookup_empty.
    rewrite bool_decide_eq_false_2 by (intros [? ?]; done). by rewrite andb_false_r. }
  rewrite map_fold_insert_L; [| |done].
  2:{ intros j1 j2 _ _ acc Hj _ _.
      destruct (HasPrefix j1 _), (HasPrefix j2 _); try done. by apply insert_insert_ne. }
  destruct (decide (c = s)) as [->|Hne].
  - rewrite lookup_insert_eq, bool_decide_eq_true_2, andb_true_r by eauto.
    destruct (HasPrefix s "switch:") eqn:Hp; [by simplify_map_eq|].
    by rewrite IH.
  - rewrite (lookup_insert_ne actual) by done. rewrite <-IH.
    destruct (HasPrefix c "switch:"); [by rewrite lookup_insert_ne|done].
Qed.

(** The section [Render] produces under one component name: the fixed sections
    and the switch components ... *)
Definition base_section (cfg : ProfileConfig) (desiredName : string)
  (actual : actual_config) (s : string) : obj :=
  if decide (s = "sys") then renderSys cfg.(cfg_System) cfg.(cfg_Name) desiredName
  else if decide (s = "mqtt") then renderMQTT cfg.(cfg_MQTT)
  else if decide (s = "cloud") then enable_only (cfg.(cfg_Cloud) ≫= cloud_Enable)
  else if decide (s = "ble") then enable_only (cfg.(cfg_BLE) ≫= ble_Enable)
  else if decide (s = "ws") then enable_only (cfg.(cfg_WS) ≫= ws_Enable)
  else if decide (s = "wifi") then
    match cfg.(cfg_Wifi) with Some w => renderWifi w | None => ∅ end
  else match cfg.(cfg_Switch) with
       | Some sw => if HasPrefix s "switch:" && bool_decide (is_Some (actual !! s))
                    then renderSwitchLeaves sw else ∅
       | None => ∅
       end.

(** ... and the plug's UI component. *)
Definition rendered_section (cfg : ProfileConfig) (desiredName : string)
  (order : list string) (actual : actual_config) (s : string) : obj :=
  match cfg.(cfg_UI) with
  | Some ui => if decide (s = discoverUIKey order ∧ s ≠ "")
               then renderUI ui (actual !! s)
               else base_section cfg desiredName actual s
  | None => base_section cfg desiredName actual s
  end.

Lemma base_section_ui cfg dn actual s :
  uiKeyRe s = true → base_section cfg dn actual s = ∅.
Proof.
  intros Hs. pose proof (uiKeyRe_fixed s Hs) as Hf. unfold base_section.
  rewrite (uiKeyRe_switch s Hs). repeat (case_decide; [set_solver|]). by case_match.
Qed.

Definition fixed_names : list string := ["sys"; "mqtt"; "cloud"; "ble"; "ws"; "wifi"].

Lemma render_fixed_other cfg dn s : s ∉ fixed_names → render_fixed cfg dn !! s = None.
Proof.
  unfold fixed_names, render_fixed. intros Hs. destruct (cfg_Wifi cfg);
    rewrite !emit_lookup; repeat (rewrite decide_False by set_solver); apply lookup_empty.
Qed.

Lemma base_lookup cfg dn actual s :
  renderSwitchComponents cfg.(cfg_Switch) actual (render_fixed cfg dn) !! s =
  non_nil (base_section cfg dn actual s).
Proof.
  rewrite renderSwitchComponents_lookup. unfold base_section.
  repeat (case_decide as Hs; [subst s; unfold render_fixed;
    destruct (cfg_Switch cfg), (cfg_Wifi cfg);
    rewrite ?emit_lookup; simpl; by repeat case_match|]; revert Hs).
  intros. rewrite render_fixed_other by (unfold fixed_names; set_solver).
  destruct (cfg_Switch cfg); [|done]. case_match; [|done]. by case_match.
Qed.

Lemma Render_lookup cfg dn order actual s :
  Render cfg dn order actual !! s = non_nil (rendered_section cfg dn order actual s).
Proof.
  unfold Render, rendered_section. cbv zeta. destruct (cfg_UI cfg) as [ui|];
    [|apply base_lookup].
  destruct (String.eqb (discoverUIKey order) "") eqn:E; reflect_bools.
  { rewrite decide_False by naive_solver. apply base_lookup. }
  rewrite emit_lookup. destruct (decide (discoverUIKey order = s)) as [Hk|Hne].
  - rewrite decide_True by naive_solver. rewrite Hk, base_lookup.
    rewrite base_section_ui by (apply (discoverUIKey_match order); naive_solver).
    rewrite non_nil_empty. by case_match.
  - rewrite decide_False by naive_solver. apply base_lookup.
Qed.

End RenderFacts.

(** ** Predicates on every node of a rendered section *)

(** Every key satisfies [Pk] and every leaf [Pl]. *)
Inductive every (Pk : string → Prop) (Pl : value → Prop) : value → Prop :=
| every_leaf v : as_map v = None → Pl v → every Pk Pl v
| every_obj m :
    (∀ k v, m !! k = Some v → Pk k ∧ every Pk Pl v) → every Pk Pl (VObj m).

Section Every.
Context (Pk : string → Prop) (Pl : value → Prop).

Lemma every_obj_inv m : every Pk Pl (VObj m) → ∀ k v, m !! k = Some v → Pk k ∧ every Pk Pl v.
Proof. inversion 1; subst; [done|]. eauto. Qed.

Lemma every_empty : every Pk Pl (VObj ∅).
Proof. apply every_obj. intros k v Hk. by rewrite lookup_empty in Hk. Qed.

Lemma every_insert k v m :
  Pk k → every Pk Pl v → every Pk Pl (VObj m) → every Pk Pl (VObj (<[k := v]> m)).
Proof.
  intros Hk Hv Hm. apply every_obj. intros i w Hi.
  apply lookup_insert_Some in Hi as [[<- <-]|[_ Hi]]; [done|]. by apply (every_obj_inv m).
Qed.

Lemma every_put {A} k (f : A → value) o m :
  Pk k → (∀ a, o = Some a → every Pk Pl (f a)) → every Pk Pl (VObj m) →
  every Pk Pl (VObj (put k f o m)).
Proof. destruct o; simpl; auto using every_insert. Qed.

Lemma every_put_map k sub m :
  Pk k → every Pk Pl (VObj sub) → every Pk Pl (VObj m) →
  every Pk Pl (VObj (put_map k sub m)).
Proof. unfold put_map. case_decide; auto using every_insert. Qed.

Lemma every_singleton k v :
  Pk k → every Pk Pl v → every Pk Pl (VObj {[k := v]}).
Proof. intros. apply every_insert; auto using every_empty. Qed.

Lemma every_non_nil (m m' : obj) :
  non_nil m = Some m' → every Pk Pl (VObj m) → every Pk Pl (VObj m').
Proof. by intros [-> _]%non_nil_Some. Qed.

(** A path through the value only uses admissible keys. *)
Lemma every_path ks :
  ∀ v l, every Pk Pl v → value_at (Some v) ks = Some l → Forall Pk ks.
Proof.
  induction ks as [|k ks IH]; intros v l He Hl; [constructor|]. simpl in Hl.
  destruct v as [| | | | |m]; simpl in Hl; try by rewrite ?lookup_empty, value_at_None in Hl.
  destruct (m !! k) as [w|] eqn:Hk; [|by rewrite value_at_None in Hl].
  destruct (every_obj_inv _ He _ _ Hk). constructor; eauto.
Qed.
End Every.

Lemma every_no_nan Pk v : every Pk (λ l, no_nan l = true) v → no_nan v = true.
Proof.
  induction v as [|b|f|s|l _|m IH] using value_ind'; try by inversion 1.
  intros He. apply no_nan_obj. intros k v Hk.
  destruct (every_obj_inv _ _ _ He _ _ Hk). by apply (IH k v).
Qed.

Create HintDb render_db.
#[export] Hint Resolve every_put every_put_map every_empty every_singleton : render_db.
#[export] Hint Extern 3 (every _ _ (VBool _)) => apply every_leaf; [done|] : render_db.
#[export] Hint Extern 3 (every _ _ (VStr _)) => apply every_leaf; [done|] : render_db.
#[export] Hint Extern 3 (every _ _ (VArr _)) => apply every_leaf; [done|] : render_db.
#[export] Hint Extern 3 (every _ _ (vint _)) => apply every_leaf; [done|] : render_db.

(** Profiles whose coordinates, if they parse at all, parse to a number (the CRD
    pattern admits decimal literals only). *)
Definition finite_location `{StrConv} (cfg : ProfileConfig) : Prop :=
  ∀ sys s f, cfg.(cfg_System) = Some sys →
    (sys.(sys_Latitude) = Some s ∨ sys.(sys_Longitude) = Some s) →
    ParseFloat s = Some f → not_nan f = true.

Section RenderEvery.
Context `{StrConv} (Pk : string → Prop) (Pl : value → Prop).

(** The keys the renderers use. *)
Definition rendered_keys : list string :=
  ["active_between"; "brightness"; "enable"; "mode"; "night_mode"; "in_mode"; "leds";
   "controls"; "lon"; "lat"; "tz"; "name"; "discoverable"; "eco_mode"; "device";
   "debug"; "level"; "sntp"; "server"; "location"; "autorecover_voltage_errors";
   "current_limit"; "voltage_limit"; "power_limit"; "auto_off_delay"; "auto_off";
   "auto_on_delay"; "auto_on"; "initial_state"; "ssid"; "range_extender"; "interval";
   "rssi_thr"; "roam"; "ap"; "sta1"; "sta"].

Context (Hkeys : Forall Pk rendered_keys)
        (Hswitch : ∀ k, HasPrefix k "switch:" = true → Pk k)
        (Hb : ∀ b, Pl (VBool b)) (Hs : ∀ s, Pl (VStr s)) (Hi : ∀ z, Pl (vint z))
        (Ha : ∀ l, Pl (VArr (VStr <$> l))).

Lemma rendered_key k : k ∈ rendered_keys → Pk k.
Proof. by apply Forall_forall. Qed.

Local Ltac solve_key :=
  apply rendered_key; apply (bool_decide_unpack _); vm_compute; exact I.
Local Ltac ev :=
  repeat match goal with
  | |- every _ _ (VObj (put _ _ _ _)) => apply every_put; [solve_key|intros ? ?|]
  | |- every _ _ (VObj (put_map _ _ _)) => apply every_put_map; [solve_key| |]
  | |- every _ _ (VObj {[_ := _]}) => apply every_singleton; [solve_key|]
  | |- every _ _ (VObj ∅) => apply every_empty
  | |- every _ _ _ => by (apply every_leaf; auto)
  end.

Lemma every_renderNightMode nm : every Pk Pl (VObj (renderNightMode nm)).
Proof.
  unfold renderNightMode. ev. destruct (nm_ActiveBetween nm); simplify_eq.
  apply every_leaf; [done|]. apply (Ha (s :: l)).
Qed.

Lemma every_renderUIControls mode raw : every Pk Pl (VObj (renderUIControls mode raw)).
Proof.
  unfold renderUIControls. set (ks := switch_keys_of raw).
  assert (Hks : ∀ k, k ∈ ks → HasPrefix k "switch:" = true).
  { subst ks. unfold switch_keys_of. intros k. assert (Hall : ∀ k, k ∈ uiControlSwitchKeys raw → HasPrefix k "switch:" = true).
    { unfold uiControlSwitchKeys. intros k'. repeat case_match; rewrite ?elem_of_nil, ?list_elem_of_filter; naive_solver. }
    destruct (uiControlSwitchKeys raw) as [|k0 l]; [|by apply Hall].
    rewrite list_elem_of_singleton. by intros ->. }
  clearbody ks. induction ks as [|k ks IH]; csimpl; [apply every_empty|].
  apply every_insert; [apply Hswitch, Hks; constructor| |].
  - ev.
  - apply IH. intros k' Hk'. apply Hks. by constructor.
Qed.

Lemma every_renderUI ui raw : every Pk Pl (VObj (renderUI ui raw)).
Proof.
  assert (every Pk Pl (VObj (renderUILeds ui))).
  { unfold renderUILeds. case_match; ev. apply every_renderNightMode. }
  unfold renderUI. case_match; ev; auto using every_renderUIControls.
Qed.

Lemma every_parse (o : option string) a :
  (∀ s f, o = Some s → ParseFloat s = Some f → Pl (VNum f)) →
  o ≫= parse_leaf = Some a → every Pk Pl (id a).
Proof.
  intros Hnum (s & -> & (f & Hf & ->)%fmap_Some)%bind_Some.
  apply every_leaf; [done|]. by eapply Hnum.
Qed.

Lemma every_renderSys cfg dn
  (Hnum : ∀ sys s f, cfg.(cfg_System) = Some sys →
     (sys.(sys_Latitude) = Some s ∨ sys.(sys_Longitude) = Some s) →
     ParseFloat s = Some f → Pl (VNum f)) :
  every Pk Pl (VObj (renderSys cfg.(cfg_System) cfg.(cfg_Name) dn)).
Proof.
  unfold renderSys. cbv zeta. destruct (cfg_System cfg) as [sys|] eqn:Hsys; ev.
  unfold renderSysLocation. ev; (eapply every_parse; [|done]); intros; eapply Hnum; eauto.
Qed.

Lemma every_renderWifi w : every Pk Pl (VObj (renderWifi w)).
Proof.
  unfold renderWifi, renderWifiRoam, renderWifiAP, renderWifiNetwork.
  ev; case_match; try done; (eapply every_non_nil; [done|]); ev.
Qed.

Lemma every_rendered_section cfg dn order actual s
  (Hnum : ∀ sys s f, cfg.(cfg_System) = Some sys →
     (sys.(sys_Latitude) = Some s ∨ sys.(sys_Longitude) = Some s) →
     ParseFloat s = Some f → Pl (VNum f)) :
  every Pk Pl (VObj (rendered_section cfg dn order actual s)).
Proof.
  assert (Hbase : every Pk Pl (VObj (base_section cfg dn actual s))).
  { unfold base_section, renderMQTT, enable_only, renderSwitchLeaves.
    repeat (case_decide || case_match); ev;
      auto using every_renderSys, every_renderWifi. }
  unfold rendered_section. repeat (case_decide || case_match); auto using every_renderUI.
Qed.
End RenderEvery.

(** ** Rendering is stable under its own writes *)

(** At most one component of the device is a plug UI. *)
Definition unique_ui (actual : actual_config) : Prop :=
  ∀ k1 k2, uiKeyRe k1 = true → uiKeyRe k2 = true →
    is_Some (actual !! k1) → is_Some (actual !! k2) → k1 = k2.

(** [order] is one order in which [range actual] can enumerate its keys. *)
Definition range_order (order : list string) (actual : actual_config) : Prop :=
  order ≡ₚ (map_to_list actual).*1.

(** What enforcement sends for a section: the rendered map; for wifi possibly
    with more (the network passwords). *)
Definition payload_for (s : string) (want p : obj) : Prop :=
  carries (VObj want) (VObj p) ∧ (s ≠ "wifi" → p = want).

(** The device after enforcement: each rendered section either agreed already
    and was left alone, or was deep-merged with its payload; sections the
    profile does not render are untouched. *)
Definition enforced (desired : desired_config) (actual actual' : actual_config) : Prop :=
  ∀ s, match desired !! s with
       | Some want =>
           (section_agrees want (actual !! s) ∧ actual' !! s = actual !! s) ∨
           ∃ p, payload_for s want p ∧
                actual' !! s = Some (VObj (merge (map_of (actual !! s)) p))
       | None => actual' !! s = actual !! s
       end.

(** A device that was sent every rendered section. *)
Definition write_all (desired : desired_config) (actual : actual_config) : actual_config :=
  map_imap (λ s want, Some (VObj (merge (map_of (actual !! s)) want))) desired ∪ actual.

Lemma enforced_write_all desired actual : enforced desired actual (write_all desired actual).
Proof.
  intros s. unfold write_all. destruct (desired !! s) as [want|] eqn:Hs.
  - right. exists want. split; [by split; [apply carries_refl|]|].
    apply lookup_union_Some_l. by rewrite map_lookup_imap, Hs.
  - apply lookup_union_r. by rewrite map_lookup_imap, Hs.
Qed.

Lemma elem_of_range_order order actual k :
  range_order order actual → k ∈ order ↔ is_Some (actual !! k).
Proof.
  unfold range_order. intros ->. rewrite list_elem_of_fmap. split.
  - intros ([k' v] & -> & Hin%elem_of_map_to_list). by exists v.
  - intros [v Hv]. exists (k, v). by rewrite elem_of_map_to_list.
Qed.

Lemma discoverUIKey_spec order actual k :
  range_order order actual → unique_ui actual →
  discoverUIKey order = k ∧ k ≠ "" ↔ uiKeyRe k = true ∧ is_Some (actual !! k).
Proof.
  intros Hord Hu. split.
  - intros [Hk Hne]. destruct (discoverUIKey_match _ _ Hk Hne) as [? Hin].
    by rewrite (elem_of_range_order _ _ _ Hord) in Hin.
  - intros [Hk Hin]. pose proof Hin as Hin2.
    rewrite <-(elem_of_range_order order _ _ Hord) in Hin2.
    assert (k ≠ "") by (by intros ->).
    destruct (decide (discoverUIKey order = "")) as [He|Hne].
    + exfalso. unfold discoverUIKey in He.
      assert (Hf : k ∈ filter (λ k, uiKeyRe k = true) order) by by apply list_elem_of_filter.
      assert (Hall : ∀ k, k ∈ filter (λ k, uiKeyRe k = true) order → uiKeyRe k = true)
        by (intros ? ?%list_elem_of_filter; naive_solver).
      destruct (filter _ order) as [|k' ks]; [by apply elem_of_nil in Hf|].
      simpl in He. subst k'. specialize (Hall "" (list_elem_of_here _ _)). done.
    + destruct (discoverUIKey_match order _ eq_refl Hne) as [Hm Hmin].
      rewrite (elem_of_range_order _ _ _ Hord) in Hmin. split; [|done]. by apply Hu.
Qed.

Section Stable.
Context `{StrConv}.

Lemma switch_keys_of_some raw : ∃ k, k ∈ switch_keys_of raw.
Proof.
  unfold switch_keys_of. destruct (uiControlSwitchKeys raw) as [|k ks];
    eexists; constructor.
Qed.

Lemma renderUIControls_lookup mode raw k :
  renderUIControls mode raw !! k =
  if decide (k ∈ switch_keys_of raw) then Some (VObj {["in_mode" := VStr mode]}) else None.
Proof.
  unfold renderUIControls. generalize (switch_keys_of raw) as ks. induction ks as [|k' ks IH].
  { rewrite decide_False by (apply not_elem_of_nil). exact (lookup_empty k). }
  rewrite fmap_cons, list_to_map_cons.
  destruct (decide (k' = k)) as [->|Hne].
  - rewrite lookup_insert_eq, decide_True; [done|]. constructor.
  - rewrite lookup_insert_ne, IH by done.
    destruct (decide (k ∈ ks)).
    + rewrite decide_True; [done|]. rewrite elem_of_cons. by right.
    + rewrite decide_False; [done|]. rewrite elem_of_cons. naive_solver.
Qed.

Lemma elem_of_uiControlSwitchKeys r v k :
  unmarshal_map r = Some v →
  k ∈ uiControlSwitchKeys (Some r) ↔
  HasPrefix k "switch:" = true ∧ is_Some (map_of (v !! "controls") !! k).
Proof.
  intros Hr. simpl. rewrite Hr, list_elem_of_filter, list_elem_of_fmap. f_equiv. split.
  - intros ([k' w] & -> & Hin%elem_of_map_to_list). by exists w.
  - intros [w Hw]. exists (k, w). by rewrite elem_of_map_to_list.
Qed.

Lemma put_map_lookup_ne k sub m i : k ≠ i → put_map k sub m !! i = m !! i.
Proof. unfold put_map. intros. case_decide; [done|]. by rewrite lookup_insert_ne. Qed.

Lemma renderUI_controls ui raw :
  renderUI ui raw !! "controls" =
  (λ mode, VObj (renderUIControls mode raw)) <$> ui.(ui_ButtonInMode).
Proof.
  unfold renderUI. cbv zeta. destruct (ui_ButtonInMode ui) as [mode|]; simpl.
  - unfold put_map at 1. rewrite decide_False; [by rewrite lookup_insert_eq|].
    rewrite size_zero_empty. intros He.
    destruct (switch_keys_of_some raw) as [k Hk].
    pose proof (renderUIControls_lookup mode raw k) as Hl.
    by rewrite He, lookup_empty, decide_True in Hl.
  - by rewrite put_map_lookup_ne.
Qed.

(** Merging the rendered UI section into the device's does not change what is
    rendered next. *)
Lemma renderUI_stable ui r old :
  unmarshal_map r = Some old →
  renderUI ui (Some (VObj (merge old (renderUI ui (Some r))))) = renderUI ui (Some r).
Proof.
  intros Hr. set (new := VObj (merge old (renderUI ui (Some r)))).
  unfold renderUI. cbv zeta.
  pose proof (renderUI_controls ui (Some r)) as Hctl.
  destruct (ui_ButtonInMode ui) as [mode|] eqn:Hm; [|done]. simpl in Hctl.
  f_equal. apply map_eq. intros k. rewrite !renderUIControls_lookup.
  assert (Hnew : ∀ k, k ∈ uiControlSwitchKeys (Some new) ↔ k ∈ switch_keys_of (Some r)).
  { intros i. rewrite (elem_of_uiControlSwitchKeys new (merge old (renderUI ui (Some r)))) by done.
    rewrite merge_lookup, Hctl, merge_val_obj. simpl. rewrite merge_lookup, renderUIControls_lookup.
    pose proof (elem_of_uiControlSwitchKeys r old i Hr) as Hi. unfold switch_keys_of.
    destruct (uiControlSwitchKeys (Some r)) as [|k0 ks] eqn:Hks.
    - case_decide as Hc.
      + split; [done|]. intros _. apply list_elem_of_singleton in Hc as ->. eauto.
      + rewrite elem_of_nil in Hi. naive_solver.
    - case_decide as Hc; [|by rewrite Hi]. split; [done|]. intros _.
      apply Hi in Hc as [? _]. eauto. }
  assert (Hsk : switch_keys_of (Some new) = uiControlSwitchKeys (Some new)).
  { unfold switch_keys_of at 1. destruct (uiControlSwitchKeys (Some new)) eqn:E; [|done].
    destruct (switch_keys_of_some (Some r)) as [i Hi].
    by apply Hnew, elem_of_nil in Hi. }
  rewrite Hsk. destruct (decide (k ∈ switch_keys_of (Some r))).
  - by rewrite decide_True by by apply Hnew.
  - by rewrite decide_False by by rewrite Hnew.
Qed.

Lemma rendered_present cfg dn order actual actual' s :
  enforced (Render cfg dn order actual) actual actual' →
  s ∉ fixed_names →
  range_order order actual →
  is_Some (actual' !! s) ↔ is_Some (actual !! s).
Proof.
  intros Henf Hs Hord. specialize (Henf s).
  destruct (Render cfg dn order actual !! s) as [want|] eqn:Hr; [|by rewrite Henf].
  assert (Hin : is_Some (actual !! s)).
  { rewrite Render_lookup in Hr. apply non_nil_Some in Hr as [_ Hne].
    unfold rendered_section in Hne.
    assert (Hb : base_section cfg dn actual s ≠ ∅ → is_Some (actual !! s)).
    { unfold base_section. repeat (rewrite decide_False by (unfold fixed_names in Hs; set_solver)).
      destruct (cfg_Switch cfg); [|done].
      destruct (HasPrefix s "switch:"); simpl; [|done]. by case_bool_decide. }
    destruct (cfg_UI cfg) as [ui|]; [|auto]. case_decide as Hd; [|auto].
    destruct Hd as [Hd Hne']. destruct (discoverUIKey_match order s) as [_ Hin]; [done..|].
    by apply (elem_of_range_order _ _ _ Hord) in Hin. }
  split; [done|]. intros _. destruct Henf as [[_ ->]|(p & _ & ->)]; [done|by eauto].
Qed.

(** Rendering against the device the enforcement left behind gives the same
    desired configuration. *)
Lemma Render_stable cfg dn order order' actual actual' :
  range_order order actual → range_order order' actual' → unique_ui actual →
  (∀ s raw, actual !! s = Some raw → is_Some (unmarshal_map raw)) →
  enforced (Render cfg dn order actual) actual actual' →
  Render cfg dn order' actual' = Render cfg dn order actual.
Proof.
  intros Hord Hord' Hu Hdec Henf. apply map_eq. intros s. rewrite !Render_lookup. f_equal.
  pose proof (λ s Hs, rendered_present _ _ _ _ _ s Henf Hs Hord) as Hpres.
  assert (Hnf : ∀ k, uiKeyRe k = true → k ∉ fixed_names).
  { intros k Hk Hin. apply (uiKeyRe_fixed k Hk). unfold fixed_names in Hin. set_solver. }
  assert (Hu' : unique_ui actual').
  { intros k1 k2 H1 H2 Hs1 Hs2. apply Hu; [done|done|by apply Hpres; auto..]. }
  assert (Hbase : base_section cfg dn actual' s = base_section cfg dn actual s).
  { unfold base_section. repeat (case_decide; [done|]).
    destruct (cfg_Switch cfg); [|done].
    rewrite (bool_decide_ext _ (is_Some (actual !! s))); [done|].
    apply Hpres. unfold fixed_names. set_solver. }
  unfold rendered_section. destruct (cfg_UI cfg) as [ui|] eqn:Hui; [|done]. rewrite Hbase.
  assert (Hkey : s = discoverUIKey order' ∧ s ≠ "" ↔ s = discoverUIKey order ∧ s ≠ "").
  { pose proof (discoverUIKey_spec order actual s Hord Hu) as H1.
    pose proof (discoverUIKey_spec order' actual' s Hord' Hu') as H2.
    split.
    - intros [He Hne]. destruct (proj1 H2 (conj (eq_sym He) Hne)) as [Hk Hin].
      rewrite Hpres in Hin by auto. destruct (proj2 H1 (conj Hk Hin)). done.
    - intros [He Hne]. destruct (proj1 H1 (conj (eq_sym He) Hne)) as [Hk Hin].
      rewrite <-Hpres in Hin by auto. destruct (proj2 H2 (conj Hk Hin)). done. }
  destruct (decide (s = discoverUIKey order ∧ s ≠ "")) as [Hd|Hd];
    [rewrite decide_True by by apply Hkey|by rewrite decide_False by by rewrite Hkey].
  specialize (Henf s). rewrite Render_lookup in Henf. unfold rendered_section in Henf.
  rewrite Hui, decide_True in Henf by done. destruct Hd as [He Hne].
  destruct (discoverUIKey_match order s) as [Hk Hin]; [done..|].
  rewrite (elem_of_range_order _ _ _ Hord) in Hin. destruct Hin as [r Hr].
  destruct (non_nil (renderUI ui (actual !! s))) as [want|] eqn:Hw.
  - apply non_nil_Some in Hw as [-> _].
    destruct Henf as [[_ ->]|(p & [_ Hp] & ->)]; [done|].
    rewrite Hp by (intros ->; by specialize (Hnf _ Hk); unfold fixed_names in Hnf; set_solver).
    rewrite Hr. destruct (Hdec _ _ Hr) as [old Hold].
    replace (map_of (Some r)) with old by (by destruct r; simplify_eq/=).
    by apply renderUI_stable.
  - by rewrite Henf.
Qed.

Lemma Render_section_no_nan cfg dn order actual s want :
  finite_location cfg → Render cfg dn order actual !! s = Some want →
  no_nan (VObj want) = true.
Proof.
  intros Hfin Hr. rewrite Render_lookup in Hr. apply non_nil_Some in Hr as [-> _].
  apply (every_no_nan (λ _, True)). apply every_rendered_section; try done.
  - by apply Forall_forall.
  - intros z. apply float64_of_Z_not_nan.
  - intros l. simpl. by induction l.
Qed.

(** No rendered key is called [pass]. *)
Lemma Render_keys cfg dn order actual s want :
  Render cfg dn order actual !! s = Some want →
  every (λ k, k ≠ "pass") (λ _, True) (VObj want).
Proof.
  rewrite Render_lookup. intros [-> _]%non_nil_Some. apply every_rendered_section; try done.
  - apply (bool_decide_unpack _). vm_compute. exact I.
  - by intros k Hk ->.
Qed.

(** The names under which sections are rendered. *)
Lemma Render_names cfg dn order actual s want :
  range_order order actual → Render cfg dn order actual !! s = Some want →
  s ∈ fixed_names ∨ uiKeyRe s = true ∨
  HasPrefix s "switch:" = true ∧ is_Some (actual !! s).
Proof.
  rewrite Render_lookup. intros Hord [-> Hne]%non_nil_Some.
  destruct (decide (s ∈ fixed_names)) as [?|Hs]; [by left|right].
  assert (Hbase : base_section cfg dn actual s ≠ ∅ →
    HasPrefix s "switch:" = true ∧ is_Some (actual !! s)).
  { unfold base_section. repeat (rewrite decide_False by (unfold fixed_names in Hs; set_solver)).
    destruct (cfg_Switch cfg); [|done].
    destruct (HasPrefix s "switch:"); simpl; [|done]. by case_bool_decide. }
  unfold rendered_section in Hne. destruct (cfg_UI cfg) as [ui|]; [|auto].
  case_decide as Hd; [|auto]. destruct Hd as [Hd Hne'].
  left. by apply (discoverUIKey_match order s).
Qed.

Lemma Render_Diff_clean cfg dn order order' actual actual' :
  finite_location cfg → range_order order actual → range_order order' actual' →
  unique_ui actual → (∀ s raw, actual !! s = Some raw → is_Some (unmarshal_map raw)) →
  enforced (Render cfg dn order actual) actual actual' →
  Diff (Render cfg dn order' actual') actual' = Ok [].
Proof.
  intros Hfin Hord Hord' Hui Hdec Henf. rewrite (Render_stable _ _ order _ actual) by done.
  apply Diff_nil_iff. intros s want Hs. specialize (Henf s). rewrite Hs in Henf.
  destruct Henf as [[? ->]|(p & [Hc _] & ->)]; [done|].
  apply section_agrees_merge; [|done]. by eapply Render_section_no_nan.
Qed.

(** ** Theorems *)

(** C38: a rendered configuration never contains a key called [pass] at any
    depth, so network passwords can be neither diffed nor displayed. *)
Theorem Render_no_password cfg dn order actual s want ks v
  (Hr : Render cfg dn order actual !! s = Some want)
  (Hv : value_at (Some (VObj want)) ks = Some v) :
  "pass" ∉ ks.
Proof.
  apply Render_keys in Hr. pose proof (every_path _ _ _ _ _ Hr Hv) as Hall.
  intros Hin. rewrite Forall_forall in Hall. by apply (Hall "pass").
Qed.

(** C12: enforcement converges.  Take any device whose components decode to
    objects and which has at most one plug UI; write each rendered section that
    does not agree yet by deep merge (wifi possibly with extra keys) and leave
    the rest alone: rendering and diffing the resulting configuration again, in
    any map iteration order, reports no drift. *)
Theorem Render_Diff_converges cfg dn order order' actual actual'
  (Hfin : finite_location cfg)
  (Hord : range_order order actual) (Hord' : range_order order' actual')
  (Hui : unique_ui actual)
  (Hdec : ∀ s raw, actual !! s = Some raw → is_Some (unmarshal_map raw))
  (Henf : enforced (Render cfg dn order actual) actual actual') :
  Diff (Render cfg dn order' actual') actual' = Ok [].
Proof. by apply (Render_Diff_clean _ _ order _ actual). Qed.
End Stable.
