(* ===== verification/Shelly.v ===== *)
(** * The device RPC vocabulary (internal/shelly)

    The data the RPC client exchanges with a device, and its errors.  A Go error
    chain is held as the kind [errors.As] (or apimachinery's [IsNotFound] and
    friends) can find in it and its text; [fmt.Errorf] with %w keeps the kind.
    HTTP, digest authentication and retrying are in Rpc.v. *)

From stdpp Require Import prelude gmap strings pretty sorting list.
From S2P Require Import Prelude Json.

(** ** Errors *)

Inductive err_kind : Type :=
| EAuth            (** [*shelly.AuthError] *)
| ERpc (code : Z)  (** [*shelly.RPCError] *)
| EStatus          (** [*shelly.StatusError] *)
| ENotFound        (** apimachinery: object not found *)
| EConflict        (** apimachinery: stale resourceVersion *)
| EAlreadyExists   (** apimachinery: object already exists *)
| EOther.          (** anything else: transport, decoding, validation *)

Record error : Type := MkError {
  err_kind_of : err_kind;
  err_text : string;
}.

Definition errorf (text : string) : error := MkError EOther text.

(** [fmt.Errorf(prefix + ": %w", e)]. *)
Definition wrap (prefix : string) (e : error) : error :=
  MkError e.(err_kind_of) (prefix +:+ ": " +:+ e.(err_text)).

(** [errors.As(err, new( *AuthError))]. *)
Definition is_AuthError (e : error) : bool :=
  match e.(err_kind_of) with EAuth => true | _ => false end.

(** A definite "the device did not act". *)
Definition IsRefusal (e : error) : bool :=
  match e.(err_kind_of) with
  | ERpc _ => true
  | EAuth => true
  | EStatus => true
  | _ => false
  end.

(** ** Answers *)

(** types.go *)
Record DeviceInfo : Type := MkDeviceInfo {
  di_ID : string;
  di_MAC : string;
  di_Model : string;
  di_Gen : Z;
  di_Firmware : string;
  di_App : string;
  di_AuthEnabled : bool;
  di_Name : string;
}.

(** sysstatus.go: the stable entry of available_updates is [None] when absent;
    the beta entry is never read. *)
Record SysStatus : Type := MkSysStatus {
  ss_Stable : option string;
  ss_RestartRequired : bool;
}.

(** schedule.go *)
Record ScheduleCall : Type := MkScheduleCall {
  sc_Method : string;
  sc_Params : obj;
}.

Record ScheduleJob : Type := MkScheduleJob {
  job_ID : Z;
  job_Enable : bool;
  job_Timespec : string;
  job_Calls : list ScheduleCall;
}.

(** A client: its identity (the pointer) and the address and password it was
    built with. *)
Record Client : Type := MkClient {
  cl_ptr : nat;
  cl_host : string;
  cl_password : string;
}.

#[export] Instance err_kind_eq_dec : EqDecision err_kind.
Proof. solve_decision. Defined.

Lemma wrap_kind p e : (wrap p e).(err_kind_of) = e.(err_kind_of).
Proof. done. Qed.
