(* ===== verification/Effects.v ===== *)
(** * Effects: what the operator's handlers do to the outside world

    A handler is a tree of operations ([prog]): each node is one call that
    leaves the pure code (a device RPC, a Kubernetes read or patch, an Event, a
    clock reading, the random number behind the jitter, a critical section of
    the reconciler), and the subtree is chosen by the answer.  Four readings:

    - [wp Guard Rely h p Q]: for every answer the environment may give
      ([Rely]), every operation is issued only when [Guard] allows it after the
      history [h] (newest first), and the result satisfies [Q];
    - [run hd p s]: execution against a handler with state [s];
    - [pool_step]: several handlers interleaving over one shared state;
    - [ends hd p s Q]: run against the handler [hd], the program returns and its
      result and final state satisfy [Q] ([succeeds]: and the result is no error).

    [wp_run] and [wp_pool] connect the first to the next two. *)

From stdpp Require Import prelude gmap strings pretty sorting list.
From Stdlib Require Import SpecFloat.
From S2P Require Import Prelude Json Api Diff Shelly.

(** ** Operations *)

(** The type of the [result] argument of [Client.Call]. *)
Inductive answer : Type :=
| AnsConfig    (** [map[string]json.RawMessage] *)
| AnsRestart   (** [setConfigResult] *)
| AnsJobs      (** the [jobs] of Schedule.List *)
| AnsJobID     (** the [id] of Schedule.Create *)
| AnsSys       (** [SysStatus] *)
| AnsNone.     (** nil *)

Definition answer_type (a : answer) : Type :=
  match a with
  | AnsConfig => actual_config
  | AnsRestart => bool
  | AnsJobs => list ScheduleJob
  | AnsJobID => Z
  | AnsSys => SysStatus
  | AnsNone => unit
  end.

Inductive event_type : Type := EventNormal | EventWarning.

(** One device that answered a probe during a sweep (discovery/probe.go). *)
Record Found : Type := MkFound {
  f_Host : string;
  f_Info : DeviceInfo;
}.

Inductive op : Type :=
| OCall (c : Client) (method : string) (params : option obj) (a : answer)
| OProbe (host : string)
| ORange (m : actual_config)               (** the order of one [range m] *)
| OGetDevice (namespace name : string)
| OListDevices (namespace : string)
| OListProfiles (namespace : string)
| OGetConfigMap (namespace name : string)
| OGetSecret (namespace name : string)
| OPatch (base dev : ShellyDevice)         (** [r.Patch(dev, MergeFrom(base))] *)
| OStatusPatch (base dev : ShellyDevice)   (** [r.Status().Patch(...)] *)
| OEvent (dev : string) (t : event_type) (reason message : string)
| ONow
| ORandom                                  (** [rand.Float64()] *)
| OClient (addr password : string)         (** [deviceClient], under [clientMu] *)
| ONewClient (addr password : string)      (** [shelly.NewClient], a client of one's own *)
| OClaim (spacing : duration) (attempts : list time)
                                           (** [claimUpdateSlot], under [updateMu] *)
| OCreate (dev : ShellyDevice)             (** [c.Create(dev)] *)
| OUpdate (dev : ShellyDevice)             (** [c.Update(dev)] *)
| OStatusUpdate (dev : ShellyDevice)       (** [c.Status().Update(dev)] *)
| OCreateConfigMap (namespace name : string) (labels data : gmap string string)
| OUpdateConfigMap (namespace name : string) (data : gmap string string)
                                           (** the object read, with this [Data] *)
| OProbeAll (targets : list string) (concurrency : Z)
                                           (** [probeAll], and [ctx.Err() != nil] after it *)
| OTick.                                   (** the next tick, or false when [ctx] is done *)

(** A write to the API server answers with the server's object, which replaces
    the local one. *)
Definition resp (o : op) : Type :=
  match o with
  | OCall _ _ _ a => res error (answer_type a)
  | OProbe _ => res error DeviceInfo
  | ORange _ => list string
  | OGetDevice _ _ => res error ShellyDevice
  | OListDevices _ => res error (list ShellyDevice)
  | OListProfiles _ => res error (list ShellyProfile)
  | OGetConfigMap _ _ => res error (gmap string string)
  | OGetSecret _ _ => res error (gmap string string)
  | OPatch _ _ => res error ShellyDevice
  | OStatusPatch _ _ => res error ShellyDevice
  | OEvent _ _ _ _ => unit
  | ONow => time
  | ORandom => spec_float
  | OClient _ _ => Client
  | ONewClient _ _ => Client
  | OClaim _ _ => bool
  | OCreate _ | OUpdate _ | OStatusUpdate _ => res error ShellyDevice
  | OCreateConfigMap _ _ _ _ | OUpdateConfigMap _ _ _ => res error unit
  | OProbeAll _ _ => list Found * bool
  | OTick => bool
  end.

(** An operation with the answer it got. *)
Definition event : Type := {o : op & resp o}.
Definition Ev (o : op) (r : resp o) : event := existT o r.

(** ** Programs *)

Inductive prog (A : Type) : Type :=
| Ret (a : A)
| Do (o : op) (k : resp o → prog A).
Arguments Ret {A} a.
Arguments Do {A} o k.

Fixpoint bind {A B : Type} (p : prog A) (f : A → prog B) : prog B :=
  match p with
  | Ret a => f a
  | Do o k => Do o (λ r, bind (k r) f)
  end.

Definition perform (o : op) : prog (resp o) := Do o Ret.

Notation "x <- p ;; k" := (bind p (λ x, k))
  (at level 100, p at next level, k at level 200, right associativity) : go_scope.
Notation "p ;;; k" := (bind p (λ _, k))
  (at level 100, k at level 200, right associativity) : go_scope.

(** [if err != nil { return ..., err }]: stop with the error, or go on. *)
Definition bind_ok {E A B : Type} (p : prog (res E A)) (f : A → prog (res E B))
  : prog (res E B) :=
  bind p (λ r, match r with Ok a => f a | Err e => Ret (Err e) end).

Notation "x <-? p ;; k" := (bind_ok p (λ x, k))
  (at level 100, p at next level, k at level 200, right associativity) : go_scope.

(** ** Execution *)

(** A handler answers an operation and changes its state. *)
Definition handler (S : Type) : Type := ∀ o : op, S → resp o * S.

Fixpoint run {S A : Type} (hd : handler S) (p : prog A) (s : S) (h : list event)
  : A * S * list event :=
  match p with
  | Ret a => (a, s, h)
  | Do o k => let '(r, s') := hd o s in run hd (k r) s' (Ev o r :: h)
  end.

(** ** Weakest preconditions over all environments *)

Section WP.
Context (Guard : list event → op → Prop) (Rely : ∀ o : op, resp o → Prop).

Fixpoint wp {A : Type} (h : list event) (p : prog A) (Q : list event → A → Prop) : Prop :=
  match p with
  | Ret a => Q h a
  | Do o k => Guard h o ∧ ∀ r, Rely o r → wp (Ev o r :: h) (k r) Q
  end.

Lemma wp_mono {A} (p : prog A) : ∀ h Q Q',
  (∀ h' a, Q h' a → Q' h' a) → wp h p Q → wp h p Q'.
Proof. induction p as [a|o k IH]; simpl; [auto|]. intros h Q Q' HQ [? Hk]. eauto. Qed.

Lemma wp_bind {A B} (p : prog A) (f : A → prog B) : ∀ h Q,
  wp h (bind p f) Q ↔ wp h p (λ h' a, wp h' (f a) Q).
Proof.
  induction p as [a|o k IH]; intros h Q; simpl; [done|].
  split; intros [? Hk]; (split; [done|]); intros r Hr; apply IH; auto.
Qed.

Lemma wp_bind_ok {E A B} (p : prog (res E A)) (f : A → prog (res E B)) h Q :
  wp h (bind_ok p f) Q ↔
  wp h p (λ h' r, match r with Ok a => wp h' (f a) Q | Err e => Q h' (Err e) end).
Proof.
  unfold bind_ok. rewrite wp_bind. split; apply wp_mono; by intros h' [].
Qed.

(** Guards that hold after a history also hold of what an extension allows. *)
Lemma wp_conj {A} (p : prog A) : ∀ h Q Q',
  wp h p Q → wp h p Q' → wp h p (λ h' a, Q h' a ∧ Q' h' a).
Proof.
  induction p as [a|o k IH]; simpl; [done|]. intros h Q Q' [? H1] [_ H2].
  split; [done|]. intros r Hr. auto.
Qed.
End WP.

(** From the history [h], some answers take [p] to the result [a] and the history
    [h']. *)
Fixpoint yields {A : Type} (p : prog A) (h h' : list event) (a : A) : Prop :=
  match p with
  | Ret x => x = a ∧ h' = h
  | Do o k => ∃ r, yields (k r) (Ev o r :: h) h' a
  end.

Lemma wp_yields {A} G R (p : prog A) : ∀ h Q,
  wp G R h p Q → wp G R h p (λ h' a, Q h' a ∧ yields p h h' a).
Proof.
  induction p as [a|o k IH]; intros h Q; cbn [wp yields]; [done|]. intros [Hg Hk]. split; [done|].
  intros r Hr. eapply wp_mono; [|by apply IH, Hk]. intros h' a [HQ Hy]. eauto.
Qed.

(** The guard and the rely may be weakened. *)
Lemma wp_guard {A} (G G' : list event → op → Prop) R (p : prog A) : ∀ h Q,
  (∀ h o, G h o → G' h o) → wp G R h p Q → wp G' R h p Q.
Proof. induction p as [a|o k IH]; simpl; [done|]. intros h Q HG [? Hk]. eauto. Qed.

(** Every operation in a history was allowed by what came before it. *)
Fixpoint guarded (Guard : list event → op → Prop) (h : list event) : Prop :=
  match h with
  | [] => True
  | e :: h' => Guard h' (projT1 e) ∧ guarded Guard h'
  end.

(** The handler keeps the rely, for the operations the guard allows. *)
Definition keeps {S : Type} (Guard : list event → op → Prop) (Rely : ∀ o : op, resp o → Prop)
  (Inv : S → Prop) (hd : handler S) : Prop :=
  ∀ h o s, Guard h o → Inv s → Rely o (hd o s).1 ∧ Inv (hd o s).2.

Lemma wp_run {S A} (G : list event → op → Prop) R (Inv : S → Prop) (hd : handler S)
  (p : prog A) : ∀ s h Q,
  keeps G R Inv hd → Inv s → wp G R h p Q → guarded G h →
  let '(a, s', h') := run hd p s h in Q h' a ∧ guarded G h' ∧ Inv s'.
Proof.
  induction p as [a|o k IH]; intros s h Q Hk Hs Hwp Hh; simpl in *; [done|].
  destruct Hwp as [Hg Hwp]. destruct (Hk h o s Hg Hs) as [Hr Hs'].
  destruct (hd o s) as [r s']. simpl in *. eapply IH; eauto. by split.
Qed.

Lemma run_bind {S A B} (hd : handler S) (p : prog A) (f : A → prog B) : ∀ s h,
  run hd (bind p f) s h =
  let '(a, s', h') := run hd p s h in run hd (f a) s' h'.
Proof.
  induction p as [a|o k IH]; intros s h; simpl; [done|].
  destruct (hd o s) as [r s']. apply IH.
Qed.

(** ** Execution against one handler *)

(** [p] run against [hd] from [s] ends with a result and a state in [Q]. *)
Definition ends {S A : Type} (hd : handler S) (p : prog A) (s : S) (Q : A → S → Prop) : Prop :=
  ∀ h, let '(a, s', _) := run hd p s h in Q a s'.

Section Ends.
Context {S : Type} (hd : handler S).

Lemma ends_ret {A} (a : A) s (Q : A → S → Prop) : Q a s → ends hd (Ret a) s Q.
Proof. by intros HQ h. Qed.

Lemma ends_bind {A B} (p : prog A) (f : A → prog B) s Q :
  ends hd p s (λ a s', ends hd (f a) s' Q) → ends hd (bind p f) s Q.
Proof.
  intros Hp h. rewrite run_bind. specialize (Hp h). destruct (run hd p s h) as [[a s'] h'].
  apply Hp.
Qed.

Lemma ends_bind_ok {E A B} (p : prog (res E A)) (f : A → prog (res E B)) s Q :
  ends hd p s (λ r s', match r with Ok a => ends hd (f a) s' Q | Err e => Q (Err e) s' end) →
  ends hd (bind_ok p f) s Q.
Proof.
  intros Hp. apply ends_bind. intros h. specialize (Hp h).
  destruct (run hd p s h) as [[[a|e] s'] h']; [done|]. by apply ends_ret.
Qed.

Lemma ends_perform o s (Q : resp o → S → Prop) :
  Q (hd o s).1 (hd o s).2 → ends hd (perform o) s Q.
Proof. intros HQ h. simpl. by destruct (hd o s). Qed.

Lemma ends_mono {A} (p : prog A) s (Q Q' : A → S → Prop) :
  ends hd p s Q → (∀ a s', Q a s' → Q' a s') → ends hd p s Q'.
Proof. intros Hp HQ h. specialize (Hp h). destruct (run hd p s h) as [[a s'] h']. auto. Qed.

(** It ends without an error. *)
Definition succeeds {E A} (p : prog (res E A)) (s : S) (Q : A → S → Prop) : Prop :=
  ends hd p s (λ r s', ∃ a, r = Ok a ∧ Q a s').

Lemma succeeds_ret {E A} (a : A) s (Q : A → S → Prop) :
  Q a s → succeeds (E := E) (Ret (Ok a)) s Q.
Proof. intros HQ. apply ends_ret. eauto. Qed.

Lemma succeeds_bind_ok {E A B} (p : prog (res E A)) (f : A → prog (res E B)) s Q :
  succeeds p s (λ a s', succeeds (f a) s' Q) → succeeds (bind_ok p f) s Q.
Proof.
  intros Hp. apply ends_bind_ok. eapply ends_mono; [exact Hp|]. by intros r s' (a & -> & Ha).
Qed.

Lemma succeeds_bind {E A B} (p : prog A) (f : A → prog (res E B)) s Q :
  ends hd p s (λ a s', succeeds (f a) s' Q) → succeeds (bind p f) s Q.
Proof. apply ends_bind. Qed.

Lemma succeeds_mono {E A} (p : prog (res E A)) s (Q Q' : A → S → Prop) :
  succeeds p s Q → (∀ a s', Q a s' → Q' a s') → succeeds p s Q'.
Proof. intros Hp HQ. eapply ends_mono; [exact Hp|]. naive_solver. Qed.
End Ends.

(** One operation of a program, answered by the handler. *)
Inductive prog_step {S A : Type} (hd : handler S)
  : prog A * S * list event → prog A * S * list event → Prop :=
| prog_step_do o k s h :
    prog_step hd (Do o k, s, h) (k (hd o s).1, (hd o s).2, Ev o (hd o s).1 :: h).

(** Stepping a program comes to what running it gives. *)
Lemma run_steps {S A B} (hd : handler S) (p : prog A) (f : A → prog B) : ∀ s h,
  let '(a, s', h') := run hd p s h in rtc (prog_step hd) (bind p f, s, h) (f a, s', h').
Proof.
  induction p as [a|o k IH]; intros s h; cbn [run bind]; [done|].
  specialize (IH (hd o s).1 (hd o s).2 (Ev o (hd o s).1 :: h)).
  pose proof (prog_step_do hd o (λ r, bind (k r) f) s h) as Hstep.
  destruct (hd o s) as [r s']. cbn [fst snd] in *. destruct (run hd (k r) s' _) as [[a s2] h2].
  by eapply rtc_l.
Qed.

(** Run against [hd] from [s], [p] comes to a point where the program left to run
    and the state are in [Q]. *)
Definition leads_to {S A : Type} (hd : handler S) (p : prog A) (s : S) (Q : prog A → S → Prop) : Prop :=
  ∀ h, ∃ p' s' h', rtc (prog_step hd) (p, s, h) (p', s', h') ∧ Q p' s'.

Lemma leads_to_now {S A} (hd : handler S) (p : prog A) s (Q : prog A → S → Prop) :
  Q p s → leads_to hd p s Q.
Proof. intros HQ h. by exists p, s, h. Qed.

Lemma leads_to_bind {S A B} (hd : handler S) (p : prog A) (f : A → prog B) s Q :
  ends hd p s (λ a s', leads_to hd (f a) s' Q) → leads_to hd (bind p f) s Q.
Proof.
  intros Hp h. specialize (Hp h). pose proof (run_steps hd p f s h) as Hsteps.
  destruct (run hd p s h) as [[a s1] h1]. destruct (Hp h1) as (p' & s' & h' & Hrest & HQ).
  exists p', s', h'. split; [|done]. by etrans.
Qed.

Lemma leads_to_mono {S A} (hd : handler S) (p : prog A) s (Q Q' : prog A → S → Prop) :
  leads_to hd p s Q → (∀ p' s', Q p' s' → Q' p' s') → leads_to hd p s Q'.
Proof. intros Hp HQ h. destruct (Hp h) as (p' & s' & h' & ? & ?). eauto 10. Qed.

(** ** Programs that only ever issue certain operations *)

Fixpoint emits {A : Type} (P : op → Prop) (p : prog A) : Prop :=
  match p with
  | Ret _ => True
  | Do o k => P o ∧ ∀ r, emits P (k r)
  end.

Lemma emits_bind {A B} P (p : prog A) (f : A → prog B) :
  emits P p → (∀ a, emits P (f a)) → emits P (bind p f).
Proof. induction p as [a|o k IH]; simpl; [auto|]. intros [? ?] ?. auto. Qed.

Lemma emits_bind_bind {A B C} P (p : prog A) (f : A → prog B) (g : B → prog C) :
  emits P p → (∀ a, emits P (bind (f a) g)) → emits P (bind (bind p f) g).
Proof. induction p as [a|o k IH]; simpl; [auto|]. intros [? ?] ?. split; auto. Qed.

Lemma emits_bind_ok {E A B} P (p : prog (res E A)) (f : A → prog (res E B)) :
  emits P p → (∀ a, emits P (f a)) → emits P (bind_ok p f).
Proof. intros. apply emits_bind; [done|]. by intros [a|e]. Qed.

Lemma emits_perform P o : P o → emits P (perform o).
Proof. done. Qed.

Lemma emits_mono {A} (P Q : op → Prop) (p : prog A) :
  (∀ o, P o → Q o) → emits P p → emits Q p.
Proof. intros HPQ. induction p as [a|o k IH]; simpl; [done|]. intros [? ?]. auto. Qed.

(** A program whose operations are allowed after any extension of [h] that keeps
    the invariant [I] ends in such an extension. *)
Lemma wp_emits {A} (G : list event → op → Prop) R (I : list event → Prop) (P : op → Prop)
  (p : prog A) : ∀ h,
  (∀ h' o, suffix h h' → I h' → P o → G h' o ∧ ∀ r, I (Ev o r :: h')) →
  emits P p → I h → wp G R h p (λ h' _, suffix h h' ∧ I h').
Proof.
  induction p as [a|o k IH]; intros h HG He Hi; simpl in *; [done|].
  destruct He as [Ho He]. destruct (HG h o) as [Hg Hr]; [done..|].
  split; [done|]. intros r _. eapply wp_mono; [|apply IH; auto].
  - intros h' a [Hs ?]. split; [|done]. etrans; [|exact Hs]. by exists [Ev o r].
  - intros h' o' Hs. apply HG. etrans; [|exact Hs]. by exists [Ev o r].
Qed.

(** ** Interleaving *)

(** A pool of handlers over one shared state, with a history per handler
    (what it has done itself) and the common one. *)
Record pool (S A : Type) : Type := MkPool {
  pool_threads : list (list event * prog A);
  pool_state : S;
  pool_trace : list event;
}.
Arguments MkPool {S A}.
Arguments pool_threads {S A}.
Arguments pool_state {S A}.
Arguments pool_trace {S A}.

Inductive pool_step {S A : Type} (hd : handler S) : pool S A → pool S A → Prop :=
| pool_step_intro (ths : list (list event * prog A)) i h o k s tr :
    ths !! i = Some (h, Do o k) →
    pool_step hd (MkPool ths s tr)
      (MkPool (<[i := (Ev o (hd o s).1 :: h, k (hd o s).1)]> ths)
              (hd o s).2 (Ev o (hd o s).1 :: tr)).

Lemma wp_pool {S A} G R (Inv : S → Prop) (hd : handler S) (Q : list event → A → Prop)
  (c c' : pool S A) :
  keeps G R Inv hd → rtc (pool_step hd) c c' →
  Inv c.(pool_state) →
  Forall (λ t, guarded G t.1 ∧ wp G R t.1 t.2 Q) c.(pool_threads) →
  Inv c'.(pool_state) ∧
  Forall (λ t, guarded G t.1 ∧ wp G R t.1 t.2 Q) c'.(pool_threads).
Proof.
  intros Hk. induction 1 as [c|c1 c2 c3 Hs _ IH]; intros Hi Hf; [done|].
  destruct Hs as [ths i h o k s tr Hl]; simpl in *.
  pose proof (proj1 (Forall_lookup _ _) Hf i _ Hl) as [Hg [Hgo Hwp]].
  destruct (Hk h o s Hgo Hi) as [Hr Hi']. apply IH; [done|].
  apply Forall_insert; [done|]. simpl. split; [done|]. by apply Hwp.
Qed.

(** Decompose a program into its operations, closing the pure leaves. *)
Ltac emits_step :=
  first
    [ progress intros
    | exact I
    | match goal with
      | |- emits _ (Ret _) => exact I
      | |- emits _ (Do _ _) => split
      | |- emits _ (bind _ _) => apply emits_bind
      | |- emits _ (bind_ok _ _) => apply emits_bind_ok
      | |- emits _ (perform _) => apply emits_perform
      | |- emits _ (match ?x with _ => _ end) => destruct x eqn:?
      | |- emits _ (if ?x then _ else _) => destruct x eqn:?
      | |- emits _ (let '_ := ?x in _) => destruct x eqn:?
      end ].
