(* ===== verification/Client.v ===== *)
(** * The device RPC client's methods (internal/shelly)

    One definition per exported method of [Client], as the request it builds and
    the call it makes.  [Client.Call] itself (HTTP, digest authentication,
    retries and the decoding of the answer) is the operation [OCall]; a Go value
    passed as [params] is held as the JSON document it marshals to. *)

From stdpp Require Import prelude gmap strings pretty sorting list.
From Stdlib Require Import Ascii.
From S2P Require Import Prelude Json Api Diff Shelly Effects Render.

(** [hex(sha256(s))]. *)
Class Sha256 : Type := {
  sha256hex : string → string;
}.

(** ** config.go *)

Definition componentMethods : gmap string string :=
  list_to_map
    [("sys", "Sys"); ("wifi", "Wifi"); ("mqtt", "MQTT"); ("cloud", "Cloud");
     ("ble", "BLE"); ("ws", "WS")].

Definition component_namespace (component : string) : string :=
  match componentMethods !! component with
  | Some ns => ns
  | None => ToUpper component
  end.

Definition GetConfig (c : Client) : prog (res error actual_config) :=
  perform (OCall c "Shelly.GetConfig" None AnsConfig).

(** [config] is nil when the section is missing from the caller's map. *)
Definition config_value (config : option obj) : value :=
  match config with Some m => VObj m | None => VNull end.

Definition SetConfig (c : Client) (component : string) (config : option obj)
  : prog (res error bool) :=
  perform (OCall c (component_namespace component +:+ ".SetConfig")
    (Some {["config" := config_value config]}) AnsRestart).

Definition SetSwitchConfig (c : Client) (id : Z) (config : option obj)
  : prog (res error bool) :=
  perform (OCall c "Switch.SetConfig"
    (Some {["id" := vint id; "config" := config_value config]}) AnsRestart).

(** ** schedule.go *)

(** [params] is omitted when empty. *)
Definition json_call (c : ScheduleCall) : value :=
  VObj (put_map "params" c.(sc_Params) {["method" := VStr c.(sc_Method)]}).

Definition json_calls (calls : list ScheduleCall) : value := VArr (json_call <$> calls).

Definition ListSchedules (c : Client) : prog (res error (list ScheduleJob)) :=
  perform (OCall c "Schedule.List" None AnsJobs).

Definition create_params (job : ScheduleJob) : obj :=
  {["enable" := VBool job.(job_Enable); "timespec" := VStr job.(job_Timespec);
    "calls" := json_calls job.(job_Calls)]}.

Definition CreateSchedule (c : Client) (job : ScheduleJob) : prog (res error Z) :=
  match job.(job_Calls) with
  | [] => Ret (Err (errorf "shelly: CreateSchedule requires at least one call"))
  | _ => perform (OCall c "Schedule.Create" (Some (create_params job)) AnsJobID)
  end.

Definition DeleteSchedule (c : Client) (id : Z) : prog (res error unit) :=
  perform (OCall c "Schedule.Delete" (Some {["id" := vint id]}) AnsNone).

Definition update_params (job : ScheduleJob) : obj :=
  <["id" := vint job.(job_ID)]> (create_params job).

Definition UpdateSchedule (c : Client) (job : ScheduleJob) : prog (res error unit) :=
  match job.(job_Calls) with
  | [] => Ret (Err (errorf "shelly: UpdateSchedule requires at least one call"))
  | _ => perform (OCall c "Schedule.Update" (Some (update_params job)) AnsNone)
  end.

(** ** setauth.go, sysstatus.go, update.go, reboot.go, probe.go *)

Definition auth_params `{Sha256} (deviceID password : string) : obj :=
  {["user" := VStr "admin"; "realm" := VStr deviceID;
    "ha1" := if String.eqb password "" then VNull
             else VStr (sha256hex ("admin:" +:+ deviceID +:+ ":" +:+ password))]}.

Definition SetAuth `{Sha256} (c : Client) (deviceID password : string)
  : prog (res error unit) :=
  perform (OCall c "Shelly.SetAuth" (Some (auth_params deviceID password)) AnsNone).

Definition GetSysStatus (c : Client) : prog (res error SysStatus) :=
  perform (OCall c "Sys.GetStatus" None AnsSys).

Definition Update (c : Client) (stage : string) : prog (res error unit) :=
  perform (OCall c "Shelly.Update" (Some {["stage" := VStr stage]}) AnsNone).

Definition Reboot (c : Client) : prog (res error unit) :=
  perform (OCall c "Shelly.Reboot" None AnsNone).

(** [GET /shelly], which needs no credentials. *)
Definition Probe (host : string) : prog (res error DeviceInfo) := perform (OProbe host).

(** ** Facts about method names *)

Lemma ascii_lower_upper c : is_lower_alnum c = true → ascii_lower (ascii_upper c) = c.
Proof. by destruct c as [[] [] [] [] [] [] [] []]. Qed.

Lemma ToLower_ToUpper_ui b s : ui_rest b s = true → ToLower (ToUpper s) = s.
Proof.
  unfold ToLower, ToUpper. revert b. induction s as [|c s IH]; intros b; [done|].
  cbn [ui_rest str_map]. destruct (String.eqb (String c s) "_ui") eqn:E.
  - reflect_bools. injection E as -> ->. done.
  - rewrite andb_true_iff. intros [Hc Hs]. by rewrite ascii_lower_upper, (IH _ Hs).
Qed.
