(* ===== verification/Decode.v ===== *)
(** * Decoding JSON answers into Go types

    [encoding/json] on the six kinds of values of Json.v: into integers, booleans,
    strings, pointers and the structs of internal/shelly.  A missing member and
    [null] leave the zero value; a member of another type is an error.  A struct
    field takes a member whose name is its tag up to case.

    A Go int is marshalled to its digits and decoded from them; here it is held as
    the float64 the digits denote, which is exact up to 2^53 ([json_int_of_Z]). *)

From stdpp Require Import prelude gmap strings pretty sorting list.
From Stdlib Require Import SpecFloat Ascii.
From S2P Require Import Prelude Json Api Diff Shelly Effects Render Client.

(** ** Integers *)

(** The integer a float64 denotes, if it denotes one. *)
Definition float_int (f : spec_float) : option Z :=
  match f with
  | S754_zero _ => Some 0%Z
  | S754_finite s m e =>
      let signed (n : Z) := if s then (- n)%Z else n in
      if (0 <=? e)%Z then Some (signed (Z.pos m * 2 ^ e))%Z
      else if (Z.pos m mod 2 ^ (- e) =? 0)%Z then Some (signed (Z.pos m / 2 ^ (- e)))%Z
      else None
  | _ => None
  end.

(** Decoding a number into an int. *)
Definition json_int (f : spec_float) : option Z :=
  match float_int f with
  | Some z => if ((- 2 ^ 63 <=? z) && (z <? 2 ^ 63))%Z then Some z else None
  | None => None
  end.

(** *** Small integers are exact *)

Lemma digits2_log2 p : Z.pos (digits2_pos p) = (Z.log2 (Z.pos p) + 1)%Z.
Proof.
  assert (Hs : digits2_pos p = Pos.size p) by (induction p as [p IH|p IH|]; cbn; congruence).
  rewrite Hs. destruct p; cbn; lia.
Qed.

Lemma iter_xO_pow d p : Z.pos (Pos.iter xO p d) = (Z.pos p * 2 ^ Z.pos d)%Z.
Proof.
  induction d as [|d IH] using Pos.peano_ind.
  { rewrite Z.pow_1_r. change (2 * Z.pos p = Z.pos p * 2)%Z. apply Z.mul_comm. }
  rewrite Pos.iter_succ, Pos2Z.inj_succ, Z.pow_succ_r by lia.
  rewrite Pos2Z.inj_xO, IH. lia.
Qed.

(** A 53-digit significand is already rounded. *)
Lemma round_aux_exact s m e :
  Z.log2 (Z.pos m) = 52%Z → (-1074 ≤ e ≤ 0)%Z →
  binary_round_aux 53 1024 s (Z.pos m) e loc_Exact = S754_finite s m e.
Proof.
  intros Hm He. unfold binary_round_aux.
  assert (Hshr : shr_fexp 53 1024 (Z.pos m) e loc_Exact = (shr_record_of_loc (Z.pos m) loc_Exact, e)).
  { unfold shr_fexp, fexp, emin. cbn [Zdigits2]. rewrite digits2_log2, Hm.
    replace (_ - e)%Z with 0%Z by lia. done. }
  rewrite Hshr. cbn [shr_record_of_loc shr_m loc_of_shr_record shr_r shr_s round_nearest_even].
  rewrite Hshr. cbn [shr_record_of_loc shr_m].
  by rewrite (proj2 (Z.leb_le _ _)) by lia.
Qed.

Lemma binary_round_exact s p :
  (Z.pos p < 2 ^ 53)%Z →
  ∃ m d, binary_round 53 1024 s p 0 = S754_finite s m (- d) ∧ (0 ≤ d)%Z
       ∧ Z.pos m = (Z.pos p * 2 ^ d)%Z ∧ Z.log2 (Z.pos m) = 52%Z ∧ (d ≤ 52)%Z.
Proof.
  intros Hp. unfold binary_round, fexp, emin.
  rewrite digits2_log2. set (l := Z.log2 (Z.pos p)).
  assert (Hl : (0 ≤ l < 53)%Z) by (split; [apply Z.log2_nonneg|apply Z.log2_lt_pow2; lia]).
  replace (Z.max _ _) with (l - 52)%Z by lia. unfold shl_align. rewrite Z.sub_0_r.
  destruct (l - 52)%Z as [|q|q] eqn:Hd; [|lia|].
  - exists p, 0%Z. rewrite round_aux_exact by (unfold l in *; lia). split_and!; [done|lia|lia|unfold l in *; lia|lia].
  - exists (Pos.iter xO p q), (Z.pos q).
    assert (Hlog : Z.log2 (Z.pos (Pos.iter xO p q)) = 52%Z).
    { rewrite iter_xO_pow, Z.log2_mul_pow2 by lia. fold l. lia. }
    rewrite round_aux_exact by (done || lia). split_and!; [done|lia|apply iter_xO_pow|done|lia].
Qed.

Lemma float_int_finite s p :
  (Z.pos p < 2 ^ 53)%Z →
  float_int (binary_round 53 1024 s p 0) = Some (if s then (- Z.pos p)%Z else Z.pos p).
Proof.
  intros Hp. destruct (binary_round_exact s p Hp) as (m & d & -> & Hd & Hm & _). cbn [float_int].
  assert (Hpow : (0 < 2 ^ d)%Z) by (apply Z.pow_pos_nonneg; lia).
  destruct (Z.leb_spec 0 (- d)).
  - replace d with 0%Z in * by lia. rewrite Hm. f_equal. destruct s; cbn; lia.
  - rewrite Z.opp_involutive, Hm, Z.mod_mul, Z.div_mul by lia. by destruct s.
Qed.

Lemma float_int_of_Z z : (Z.abs z < 2 ^ 53)%Z → float_int (float64_of_Z z) = Some z.
Proof.
  intros Hz. unfold float64_of_Z, binary_normalize.
  destruct z as [|p|p]; [done|rewrite float_int_finite by lia; done..].
Qed.

Lemma json_int_of_Z z : (Z.abs z < 2 ^ 53)%Z → json_int (float64_of_Z z) = Some z.
Proof.
  intros Hz. unfold json_int. rewrite float_int_of_Z by done.
  rewrite (proj2 (Z.leb_le _ _)), (proj2 (Z.ltb_lt _ _)) by lia. done.
Qed.

(** ** Members *)

(** [m[k]] of a map; nil when it is missing. *)
Definition index (m : obj) (k : string) : value := default VNull (m !! k).

(** Names are compared by simple case folding; outside ASCII only U+017F and U+212A
    fold to ASCII letters, s and k. *)
Fixpoint fold_name (s : string) : string :=
  match s with
  | EmptyString => EmptyString
  | String c s1 =>
      let plain := String (ascii_lower c) (fold_name s1) in
      match s1 with
      | EmptyString => plain
      | String c1 s2 =>
          if Ascii.eqb c "197" && Ascii.eqb c1 "191" then String "s" (fold_name s2)
          else match s2 with
               | EmptyString => plain
               | String c2 s3 =>
                   if Ascii.eqb c "226" && Ascii.eqb c1 "132" && Ascii.eqb c2 "170"
                   then String "k" (fold_name s3) else plain
               end
      end
  end.

(** The member a struct field tagged [k] takes: the one spelled [k], or else one
    whose name folds to it.  (Where a document has several spellings of one name,
    the last of them counts, and in a text Go marshals from a map that is the one
    in lower case.) *)
Definition spelled (m : obj) (k : string) : option value :=
  match m !! k with
  | Some v => Some v
  | None => snd <$> head (filter (λ kv, fold_name kv.1 = k) (map_to_list m))
  end.

(** A missing member decodes like [null]. *)
Definition member (m : obj) (k : string) : value := default VNull (spelled m k).

Lemma spelled_exact m k v : m !! k = Some v → spelled m k = Some v.
Proof. unfold spelled. by intros ->. Qed.

Lemma member_exact m k v : m !! k = Some v → member m k = v.
Proof. intros Hk. unfold member. by rewrite (spelled_exact _ _ _ Hk). Qed.

Definition type_error {A : Type} (what : string) : res string A :=
  Err ("json: cannot unmarshal into Go value of type " +:+ what).

Definition to_bool (v : value) : res string bool :=
  match v with VNull => Ok false | VBool b => Ok b | _ => type_error "bool" end.

Definition to_string (v : value) : res string string :=
  match v with VNull => Ok "" | VStr s => Ok s | _ => type_error "string" end.

Definition to_int (v : value) : res string Z :=
  match v with
  | VNull => Ok 0%Z
  | VNum f => match json_int f with Some z => Ok z | None => type_error "int" end
  | _ => type_error "int"
  end.

(** A pointer: nil for [null]. *)
Definition to_pointer {A : Type} (f : value → res string A) (v : value)
  : res string (option A) :=
  match v with VNull => Ok None | _ => try a := f v in Ok (Some a) end.

Definition to_slice {A : Type} (f : value → res string A) (v : value) : res string (list A) :=
  match v with
  | VNull => Ok []
  | VArr l => foldr (λ v acc, try a := f v in try rest := acc in Ok (a :: rest)) (Ok []) l
  | _ => type_error "slice"
  end.

(** [map[string]any], and the members of a struct. *)
Definition to_map (v : value) : res string obj :=
  match unmarshal_map v with Some m => Ok m | None => type_error "map" end.

(** ** The structs of internal/shelly *)

Definition to_ScheduleCall (v : value) : res string ScheduleCall :=
  try m := to_map v in
  try method := to_string (member m "method") in
  try params := to_map (member m "params") in
  Ok (MkScheduleCall method params).

Definition to_ScheduleJob (v : value) : res string ScheduleJob :=
  try m := to_map v in
  try id := to_int (member m "id") in
  try enable := to_bool (member m "enable") in
  try timespec := to_string (member m "timespec") in
  try calls := to_slice to_ScheduleCall (member m "calls") in
  Ok (MkScheduleJob id enable timespec calls).

Definition to_FirmwareUpdate (v : value) : res string string :=
  try m := to_map v in to_string (member m "version").

Definition to_SysStatus (v : value) : res string SysStatus :=
  try m := to_map v in
  try avail := to_map (member m "available_updates") in
  try stable := to_pointer to_FirmwareUpdate (member avail "stable") in
  try _ := to_pointer to_FirmwareUpdate (member avail "beta") in
  try restart := to_bool (member m "restart_required") in
  Ok (MkSysStatus stable restart).

Definition to_DeviceInfo (v : value) : res string DeviceInfo :=
  try m := to_map v in
  try id := to_string (member m "id") in
  try mac := to_string (member m "mac") in
  try model := to_string (member m "model") in
  try gen := to_int (member m "gen") in
  try fw := to_string (member m "fw_id") in
  try app := to_string (member m "app") in
  try auth := to_bool (member m "auth_en") in
  try name := to_string (member m "name") in
  Ok (MkDeviceInfo id mac model gen fw app auth name).

(** The result argument of each method: its zero value and its decoding. *)
Definition zero_answer (a : answer) : answer_type a :=
  match a with
  | AnsConfig => ∅
  | AnsRestart => false
  | AnsJobs => []
  | AnsJobID => 0%Z
  | AnsSys => MkSysStatus None false
  | AnsNone => tt
  end.

Definition decode_answer (a : answer) : option (value → res string (answer_type a)) :=
  match a with
  | AnsConfig => Some to_map
  | AnsRestart => Some (λ v, try m := to_map v in to_bool (member m "restart_required"))
  | AnsJobs => Some (λ v, try m := to_map v in to_slice to_ScheduleJob (member m "jobs"))
  | AnsJobID => Some (λ v, try m := to_map v in to_int (member m "id"))
  | AnsSys => Some to_SysStatus
  | AnsNone => None
  end.

(** ** Round trips *)

(** A Go int survives the wire. *)
Lemma to_int_vint z : (Z.abs z < 2 ^ 53)%Z → to_int (vint z) = Ok z.
Proof. intros Hz. unfold to_int, vint. by rewrite json_int_of_Z. Qed.

Lemma to_slice_fmap {A} (f : value → res string A) (g : A → value) l :
  (∀ x, x ∈ l → f (g x) = Ok x) → to_slice f (VArr (g <$> l)) = Ok l.
Proof.
  cbn. induction l as [|x l IH]; intros Hfg; [done|]. cbn.
  rewrite Hfg by constructor. cbn. rewrite IH; [done|]. intros y Hy. apply Hfg. by constructor.
Qed.

Lemma to_ScheduleCall_json c : to_ScheduleCall (json_call c) = Ok c.
Proof.
  destruct c as [method params]. unfold json_call, to_ScheduleCall, put_map, member. cbn [to_map unmarshal_map sc_Params sc_Method res_bind].
  case_decide as Hs; simplify_map_eq; cbn; [|done].
  apply size_zero_empty in Hs as ->. done.
Qed.

Lemma to_slice_calls calls : to_slice to_ScheduleCall (json_calls calls) = Ok calls.
Proof. apply to_slice_fmap. intros c _. apply to_ScheduleCall_json. Qed.
