(* ===== verification/Rpc.v ===== *)
(** * Client.Call over HTTP (internal/shelly/client.go and digest.go)

    One RPC call down to the HTTP requests: digest authentication with a cached
    challenge, one answer to a 401, and two retries of a 429.  The network is an
    environment: an arbitrary, possibly stateful server (the answer to a request
    is a function of all requests so far, a transport error included), the
    outcome of each wait and the bytes [rand.Read] yields for each request.  The
    state is the client's cached challenge, the log of requests and the number
    of waits.  A response body is held as what [json.Decode] makes of it.

    The last part is the other end of the digest exchange, the fake device's
    check of a credential (internal/shelly/shellytest/server.go). *)

From stdpp Require Import prelude gmap strings pretty sorting list.
From Stdlib Require Import Ascii.
From S2P Require Import Prelude Json Api Diff Shelly Effects Render Client.

(** ** Data *)

Record digestState : Type := MkDigest {
  dg_realm : string;
  dg_nonce : string;
  dg_nc : Z;
}.

Record RPCError : Type := MkRPCError {
  rpc_Code : Z;
  rpc_Message : string;
}.

(** Result is [None] when the member is absent. *)
Record rpcResponse : Type := MkRpcResponse {
  rr_Result : option value;
  rr_Error : option RPCError;
}.

(** An HTTP response: status, the WWW-Authenticate header (empty when absent),
    the body's text and its decoding. *)
Record response : Type := MkResponse {
  rsp_code : Z;
  rsp_status : string;
  rsp_challenge : string;
  rsp_text : string;
  rsp_decoded : res string rpcResponse;
}.

(** An Authorization header with the nonce and counter it was computed from. *)
Record credential : Type := MkCredential {
  cr_nonce : string;
  cr_nc : Z;
  cr_header : string;
}.

(** A POST to /rpc. *)
Record request : Type := MkRequest {
  rq_payload : string;
  rq_auth : option credential;
}.

(** The error of an answer is the transport error's text.  [env_url] is the error
    [http.NewRequestWithContext] makes of the URL for a host, if any: then nothing
    is sent. *)
Record env : Type := MkEnv {
  env_answer : list request → res string response;
  env_cancelled : nat → bool;
  env_random : nat → list Z;
  env_url : string → option string;
}.

Record state : Type := MkState {
  st_auth : option digestState;
  st_log : list request;
  st_waits : nat;
}.

Definition set_auth (d : digestState) (st : state) : state :=
  MkState (Some d) st.(st_log) st.(st_waits).

Definition StatusOK : Z := 200.
Definition StatusUnauthorized : Z := 401.
Definition StatusTooManyRequests : Z := 429.
Definition tooManyRequestsRetries : nat := 2.

(** ** digest.go *)

(** [\w] and [\s] of Go's regexp. *)
Definition is_word (c : ascii) : bool :=
  let n := N_of_ascii c in
  ((48 <=? n) && (n <=? 57) || (65 <=? n) && (n <=? 90) || (97 <=? n) && (n <=? 122)
   || (n =? 95))%N.

Definition is_space (c : ascii) : bool :=
  let n := N_of_ascii c in ((n =? 32) || (n =? 9) || (n =? 10) || (n =? 12) || (n =? 13))%N.

Definition quote_char : ascii := "034".
Definition quote : string := String quote_char "".

Definition not_quote (c : ascii) : bool := negb (Ascii.eqb c quote_char).

(** Neither a quote nor a comma nor white space. *)
Definition is_token (c : ascii) : bool :=
  negb (Ascii.eqb c quote_char || Ascii.eqb c "," || is_space c).

(** The longest prefix whose characters satisfy [f], and the rest. *)
Fixpoint span (f : ascii → bool) (s : string) : string * string :=
  match s with
  | String c s' => if f c then let '(a, b) := span f s' in (String c a, b) else ("", s)
  | EmptyString => ("", "")
  end.

(** The value after [=] and what follows it: a quoted value, or a token. *)
Definition field_value (s : string) : option (string * string) :=
  match s with
  | EmptyString => None
  | String c s' =>
      if Ascii.eqb c quote_char then
        let '(v, rest) := span not_quote s' in
        match rest with String _ rest' => Some (v, rest') | EmptyString => None end
      else
        let '(v, rest) := span is_token s in
        if String.eqb v "" then None else Some (v, rest)
  end.

(** [digestFieldRe.FindAllStringSubmatch(header, -1)]: names and values, in order.
    Where a name is not followed by [=] and a value no match starts inside it
    either, so the search goes on behind it.  Every step consumes input, so the
    length of the header is enough fuel ([digest_matches_fuel]). *)
Fixpoint digest_matches (fuel : nat) (s : string) : list (string * string) :=
  match fuel with
  | O => []
  | S fuel =>
      match s with
      | EmptyString => []
      | String c s' =>
          if is_word c then
            let '(name, rest) := span is_word s in
            match rest with
            | String e rest' =>
                if Ascii.eqb e "=" then
                  match field_value rest' with
                  | Some (v, rest'') => (name, v) :: digest_matches fuel rest''
                  | None => digest_matches fuel rest'
                  end
                else digest_matches fuel rest
            | EmptyString => []
            end
          else digest_matches fuel s'
      end
  end.

(** The map the loop over the matches fills: a later match overwrites. *)
Definition parseDigestFields (header : string) : gmap string string :=
  foldl (λ f m, <[m.1 := m.2]> f) ∅ (digest_matches (String.length header) header).

(** [f[k]]: the empty string when absent. *)
Definition field (f : gmap string string) (k : string) : string := default "" (f !! k).

Definition hex_digit (n : Z) : ascii :=
  ascii_of_N (Z.to_N (if (n <? 10)%Z then n + 48 else n + 87)).

(** The [k] lowest hexadecimal digits of [n]. *)
Fixpoint hex_digits (k : nat) (n : Z) : string :=
  match k with
  | O => ""
  | S k => hex_digits k (n / 16) +:+ String (hex_digit (n mod 16)) ""
  end.

(** [fmt.Sprintf("%08x", n)] for a uint32. *)
Definition hex8 (n : Z) : string := hex_digits 8 n.

(** [hex.EncodeToString] on bytes. *)
Definition EncodeToString (bytes : list Z) : string :=
  String.concat "" (map (hex_digits 2) bytes).

(** Eight random bytes for the request about to be sent. *)
Definition randomHex (E : env) (st : state) : string :=
  EncodeToString (take 8 (E.(env_random) (length st.(st_log)))).

Section Rpc.
Context `{Fmt, JsonText, Sha256} (E : env).

Definition setChallenge (host header : string) (st : state) : res error state :=
  let f := parseDigestFields header in
  if String.eqb (field f "realm") "" || String.eqb (field f "nonce") "" then
    Err (errorf ("shelly: " +:+ host +:+ ": unsupported auth challenge " +:+ fmt_q header))
  else Ok (set_auth (MkDigest (field f "realm") (field f "nonce") 0) st).

(** The response hash for one use of the nonce. *)
Definition digest_response (realm nonce password nc cnonce : string) : string :=
  let ha1 := sha256hex ("admin:" +:+ realm +:+ ":" +:+ password) in
  let ha2 := sha256hex "POST:/rpc" in
  sha256hex (Join [ha1; nonce; nc; cnonce; "auth"; ha2] ":").

Definition digest_header (realm nonce password nc cnonce : string) : string :=
  "Digest username=" +:+ quote +:+ "admin" +:+ quote +:+ ", realm=" +:+ fmt_q realm
  +:+ ", nonce=" +:+ fmt_q nonce +:+ ", uri=" +:+ quote +:+ "/rpc" +:+ quote
  +:+ ", response=" +:+ fmt_q (digest_response realm nonce password nc cnonce)
  +:+ ", qop=auth, nc=" +:+ nc +:+ ", cnonce=" +:+ fmt_q cnonce
  +:+ ", algorithm=SHA-256".

(** [None] is the empty header; the counter is a uint32. *)
Definition authHeader (password : string) (st : state) : option credential * state :=
  match st.(st_auth) with
  | None => (None, st)
  | Some d =>
      if String.eqb password "" then (None, st)
      else
        let nc := ((d.(dg_nc) + 1) mod 2 ^ 32)%Z in
        (Some (MkCredential d.(dg_nonce) nc
                 (digest_header d.(dg_realm) d.(dg_nonce) password (hex8 nc)
                    (randomHex E st))),
         set_auth (MkDigest d.(dg_realm) d.(dg_nonce) nc) st)
  end.

(** ** client.go *)

Definition send (host payload : string) (auth : option credential) (st : state)
  : res error response * state :=
  match E.(env_url) host with
  | Some e => (Err (errorf e), st)
  | None =>
      let log := st.(st_log) ++ [MkRequest payload auth] in
      (match E.(env_answer) log with Ok resp => Ok resp | Err e => Err (errorf e) end,
       MkState st.(st_auth) log st.(st_waits))
  end.

(** [c.send(ctx, payload, c.authHeader())]. *)
Definition send_with_auth (c : Client) (payload : string) (st : state)
  : res error response * state :=
  let '(auth, st) := authHeader c.(cl_password) st in send c.(cl_host) payload auth st.

Definition post (c : Client) (payload : string) (st : state) : res error response * state :=
  let '(r, st) := send_with_auth c payload st in
  match r with
  | Err e => (Err e, st)
  | Ok resp =>
      if negb (resp.(rsp_code) =? StatusUnauthorized)%Z || String.eqb c.(cl_password) ""
      then (Ok resp, st)
      else match setChallenge c.(cl_host) resp.(rsp_challenge) st with
           | Err e => (Err e, st)
           | Ok st => send_with_auth c payload st
           end
  end.

(** The wait between attempts: whether the context was done first. *)
Definition wait (st : state) : bool * state :=
  (E.(env_cancelled) st.(st_waits), MkState st.(st_auth) st.(st_log) (S st.(st_waits))).

(** The loop with [retries] attempts left after this one. *)
Fixpoint post_retrying (retries : nat) (c : Client) (payload : string) (st : state)
  : res error response * state :=
  let '(r, st) := post c payload st in
  match r with
  | Err e => (Err e, st)
  | Ok resp =>
      if negb (resp.(rsp_code) =? StatusTooManyRequests)%Z then (Ok resp, st)
      else match retries with
           | O => (Ok resp, st)
           | S retries =>
               let '(cancelled, st) := wait st in
               if cancelled then (Err (errorf "context canceled"), st)
               else post_retrying retries c payload st
           end
  end.

Definition postRetrying (c : Client) (payload : string) (st : state)
  : res error response * state :=
  post_retrying tooManyRequestsRetries c payload st.

(** The document of an [rpcRequest]; params are left out when nil. *)
Definition request_doc (method : string) (params : option value) : value :=
  VObj (from_option (λ p, <["params" := p]>) id params
    {["id" := VNum (float64_of_Z 1); "method" := VStr method]}).

(** Its JSON text, where it has one: an infinity or a NaN has none. *)
Definition rpcRequest (method : string) (params : option value) : res string string :=
  json_Marshal (request_doc method params).

(** [decode] unmarshals the result into the caller's variable, which holds [zero]
    before; it is [None] for a nil [result]. *)
Definition call_outcome {A : Type} (c : Client) (method : string) (zero : A)
  (decode : option (value → res string A)) (r : res error response) : res error A :=
  let prefix := "shelly: " +:+ method +:+ " " +:+ c.(cl_host) in
  match r with
  | Err e => if is_AuthError e then Err e else Err (wrap prefix e)
  | Ok resp =>
      if (resp.(rsp_code) =? StatusUnauthorized)%Z then
        Err (MkError EAuth ("shelly: authentication failed for " +:+ c.(cl_host)))
      else if negb (resp.(rsp_code) =? StatusOK)%Z then
        Err (wrap prefix (MkError EStatus ("status " +:+ resp.(rsp_status) +:+ ": "
                                           +:+ String.substring 0 512 resp.(rsp_text))))
      else match resp.(rsp_decoded) with
           | Err e => Err (wrap prefix (errorf ("decode: " +:+ e)))
           | Ok rr =>
               match rr.(rr_Error) with
               | Some e =>
                   Err (wrap prefix (MkError (ERpc e.(rpc_Code))
                          ("shelly rpc error " +:+ itoa e.(rpc_Code) +:+ ": "
                           +:+ e.(rpc_Message))))
               | None =>
                   match decode, rr.(rr_Result) with
                   | Some f, Some v =>
                       match f v with
                       | Ok a => Ok a
                       | Err e => Err (wrap prefix (errorf ("unmarshal result: " +:+ e)))
                       end
                   | _, _ => Ok zero
                   end
               end
           end
  end.

Definition Call {A : Type} (c : Client) (method : string) (params : option value) (zero : A)
  (decode : option (value → res string A)) (st : state) : res error A * state :=
  match rpcRequest method params with
  | Err e => (Err (errorf e), st)
  | Ok payload =>
      let '(r, st) := postRetrying c payload st in
      (call_outcome c method zero decode r, st)
  end.

(** ** The fake device's side of the exchange (shellytest/server.go) *)

Definition testNonce : string := "testnonce1".

(** [header] is the Authorization header ("" when absent) of a POST to /rpc. *)
Definition authorized (id ha1 header : string) : bool :=
  if negb (HasPrefix header "Digest ") then false
  else
    let f := parseDigestFields header in
    if negb (String.eqb (field f "username") "admin")
       || negb (String.eqb (field f "realm") id)
       || negb (String.eqb (field f "nonce") testNonce)
       || negb (String.eqb (field f "uri") "/rpc")
    then false
    else
      let ha2 := sha256hex ("POST" +:+ ":" +:+ field f "uri") in
      let want := sha256hex (Join [ha1; field f "nonce"; field f "nc"; field f "cnonce";
                                   "auth"; ha2] ":") in
      negb (String.eqb (field f "response") "") && String.eqb (field f "response") want.

(** The 401 handleRPC answers with, and the hash New computes. *)
Definition challenge_header (id : string) : string :=
  "Digest qop=" +:+ quote +:+ "auth" +:+ quote +:+ ", realm=" +:+ fmt_q id
  +:+ ", nonce=" +:+ fmt_q testNonce +:+ ", algorithm=SHA-256".

Definition device_ha1 (id password : string) : string :=
  sha256hex ("admin:" +:+ id +:+ ":" +:+ password).

Definition header_of (rq : request) : string :=
  from_option cr_header "" rq.(rq_auth).

(** handleRPC as a server: [serve] answers a request that passed. *)
Definition guarded_server (id password : string) (serve : list request → response)
  (log : list request) : res string response :=
  match last log with
  | None => Err "no request"
  | Some rq =>
      if authorized id (device_ha1 id password) (header_of rq) then Ok (serve log)
      else Ok (MkResponse StatusUnauthorized "401 Unauthorized" (challenge_header id) ""
                 (Err "EOF"))
  end.
End Rpc.

(** ** What a call sends *)

(** A request a call with [payload] may make: authenticated only with a password. *)
Definition rq_ok (c : Client) (payload : string) (rq : request) : Prop :=
  rq.(rq_payload) = payload ∧ (c.(cl_password) = "" → rq.(rq_auth) = None).

(** How many requests one attempt may take. *)
Definition per_attempt (c : Client) : nat := if String.eqb c.(cl_password) "" then 1 else 2.

(** From [st] to [st'], between 1 and [n] attempts' worth of requests were sent
    (none if the client's host makes no URL) and at most [w] waits were made. *)
Definition sends (E : env) (c : Client) (payload : string) (n w : nat) (st st' : state) : Prop :=
  ∃ new, st'.(st_log) = st.(st_log) ++ new
       ∧ match E.(env_url) c.(cl_host) with
         | None => 1 ≤ length new ≤ n * per_attempt c
         | Some _ => new = []
         end
       ∧ Forall (rq_ok c payload) new ∧ st'.(st_waits) ≤ st.(st_waits) + w.

Lemma sends_trans E c payload n1 n2 w1 w2 st1 st2 st3 :
  sends E c payload n1 w1 st1 st2 → sends E c payload n2 w2 st2 st3 →
  sends E c payload (n1 + n2) (w1 + w2) st1 st3.
Proof.
  intros (new1 & Hl1 & Hn1 & Hok1 & Hw1) (new2 & Hl2 & Hn2 & Hok2 & Hw2).
  exists (new1 ++ new2). rewrite Hl2, Hl1, app_assoc, length_app, Forall_app.
  split_and!; [done| |done|done|lia]. case_match; [by subst|lia].
Qed.

Lemma sends_weaken E c payload n w n' w' st st' :
  n ≤ n' → w ≤ w' → sends E c payload n w st st' → sends E c payload n' w' st st'.
Proof.
  intros Hn Hw (new & Hl & Hlen & Hok & Hwait). exists new. split_and!; [done| |done|lia].
  case_match; [done|nia].
Qed.

(** What a Go value of type [( *http.Response, error)] of the layers under [Call]
    says: a response is the server's answer to the last request, an error is
    none of the classified kinds. *)
Definition answered (E : env) (r : res error response) (st : state) : Prop :=
  match r with
  | Ok resp => E.(env_answer) st.(st_log) = Ok resp
  | Err e => e.(err_kind_of) = EOther
  end.

Section Sends.
Context `{Fmt, JsonText, Sha256} (E : env).

Lemma send_with_auth_sends c payload st r st' :
  send_with_auth E c payload st = (r, st') →
  match E.(env_url) c.(cl_host) with
  | None =>
      answered E r st' ∧ (∃ rq, st'.(st_log) = st.(st_log) ++ [rq] ∧ rq_ok c payload rq)
  | Some e => r = Err (errorf e) ∧ st'.(st_log) = st.(st_log)
  end ∧ st'.(st_waits) = st.(st_waits).
Proof.
  unfold send_with_auth, authHeader, send, rq_ok. intros Hs.
  destruct (st_auth st); [destruct (String.eqb_spec (cl_password c) "") as [Hp|Hp]|];
    destruct (env_url E (cl_host c)); injection Hs as <- <-; cbn [st_log st_waits answered set_auth];
    (split; [|done]); try done;
    (split; [by case_match|eexists; split; [done|]; cbn; naive_solver]).
Qed.

Lemma setChallenge_keeps host header st st' :
  setChallenge host header st = Ok st' →
  st'.(st_log) = st.(st_log) ∧ st'.(st_waits) = st.(st_waits).
Proof. unfold setChallenge. case_match; naive_solver. Qed.

Lemma setChallenge_error host header st e :
  setChallenge host header st = Err e → e.(err_kind_of) = EOther.
Proof. unfold setChallenge. case_match; naive_solver. Qed.

(** A host that makes no URL. *)
Lemma post_unsendable c payload st r st' e :
  E.(env_url) c.(cl_host) = Some e → post E c payload st = (r, st') →
  r = Err (errorf e) ∧ st'.(st_log) = st.(st_log) ∧ st'.(st_waits) = st.(st_waits).
Proof.
  intros He. unfold post. destruct (send_with_auth E c payload st) as [r1 st1] eqn:Hs1.
  apply send_with_auth_sends in Hs1. rewrite He in Hs1. destruct Hs1 as [[-> Hl] Hw].
  by intros [= <- <-].
Qed.

Lemma post_sends c payload st r st' :
  post E c payload st = (r, st') → answered E r st' ∧ sends E c payload 1 0 st st'.
Proof.
  destruct (env_url E (cl_host c)) as [e|] eqn:Hurl.
  { intros Hp. destruct (post_unsendable _ _ _ _ _ _ Hurl Hp) as (-> & Hl & Hw). split; [done|].
    exists []. rewrite Hurl, app_nil_r, Hw. split_and!; [done|done|by constructor|lia]. }
  unfold post. destruct (send_with_auth E c payload st) as [r1 st1] eqn:Hs1.
  apply send_with_auth_sends in Hs1. rewrite Hurl in Hs1. destruct Hs1 as ((Ha1 & rq1 & Hl1 & Hok1) & Hw1).
  assert (Hone : sends E c payload 1 0 st st1).
  { exists [rq1]. rewrite Hurl, Hl1, Hw1. unfold per_attempt. split_and!; [done|simpl; lia| |by constructor|lia].
    simpl. case_match; lia. }
  destruct r1 as [resp|e]; [|by intros [= <- <-]].
  destruct (negb _ || _) eqn:Hc; [by intros [= <- <-]|].
  apply orb_false_iff in Hc as [_ Hp].
  destruct (setChallenge _ _ _) as [st2|e] eqn:Hset.
  - apply setChallenge_keeps in Hset as [Hl2 Hw2].
    intros Hs2. apply send_with_auth_sends in Hs2. rewrite Hurl in Hs2.
    destruct Hs2 as ((Ha2 & rq2 & Hl3 & Hok2) & Hw3).
    split; [done|]. exists [rq1; rq2]. rewrite Hurl, Hl3, Hl2, Hl1, <-app_assoc, Hw3, Hw2, Hw1.
    unfold per_attempt. rewrite Hp. split_and!; [done|simpl; lia|simpl; lia|by apply Forall_cons_2, Forall_singleton|lia].
  - intros [= <- <-]. split; [by eapply setChallenge_error|done].
Qed.

Lemma post_retrying_sends retries c payload st r st' :
  post_retrying E retries c payload st = (r, st') →
  answered E r st' ∧ sends E c payload (S retries) retries st st'.
Proof.
  revert st. induction retries as [|retries IH]; intros st; cbn [post_retrying];
    destruct (post E c payload st) as [r1 st1] eqn:Hp;
    apply post_sends in Hp as [Ha Hs];
    (destruct r1 as [resp|e]; [|intros [= <- <-]; split; [done|by eapply sends_weaken, Hs; lia]]);
    (destruct (negb _); [intros [= <- <-]; split; [done|by eapply sends_weaken, Hs; lia]|]).
  - by intros [= <- <-].
  - cbn. set (st2 := MkState _ _ _).
    assert (Hs2 : sends E c payload 1 1 st st2).
    { destruct Hs as (new & Hl & Hn & Hok & Hw). exists new. cbn in *. split_and!; [done|done|done|lia]. }
    destruct (env_cancelled _ _).
    + intros [= <- <-]. split; [done|]. by eapply sends_weaken, Hs2; lia.
    + intros Hrec. apply IH in Hrec as [Ha2 Hs3]. split; [done|].
      exact (sends_trans _ _ _ 1 (S retries) 1 retries _ _ _ Hs2 Hs3).
Qed.

(** The outcome of a call, and the server's last word. *)
Lemma call_outcome_refusal {A : Type} c method (zero : A) decode r e :
  (∀ e', r = Err e' → e'.(err_kind_of) = EOther) →
  call_outcome c method zero decode r = Err e → IsRefusal e = true →
  ∃ resp, r = Ok resp ∧
    (resp.(rsp_code) ≠ StatusOK ∨ ∃ rr, resp.(rsp_decoded) = Ok rr ∧ is_Some rr.(rr_Error)).
Proof.
  unfold call_outcome. intros Hr Hout Href. destruct r as [resp|e'].
  - exists resp. split; [done|].
    destruct (Z.eqb_spec (rsp_code resp) StatusUnauthorized) as [Hc|Hc]; [left; by rewrite Hc|].
    destruct (Z.eqb_spec (rsp_code resp) StatusOK); [|by left]. right. cbn in Hout.
    destruct (rsp_decoded resp) as [rr|]; [|by simplify_eq].
    exists rr. split; [done|]. destruct (rr_Error rr); [done|].
    repeat case_match; by simplify_eq.
  - specialize (Hr e' eq_refl). unfold is_AuthError in Hout. rewrite Hr in Hout.
    injection Hout as <-. unfold IsRefusal in Href. cbn in Href. by rewrite Hr in Href.
Qed.

Lemma call_outcome_ok {A : Type} c method (zero : A) decode r a :
  call_outcome c method zero decode r = Ok a →
  ∃ resp rr, r = Ok resp ∧ resp.(rsp_code) = StatusOK ∧ resp.(rsp_decoded) = Ok rr
    ∧ rr.(rr_Error) = None.
Proof.
  unfold call_outcome. destruct r as [resp|e]; [|by case_match].
  case_match; [done|]. destruct (Z.eqb_spec (rsp_code resp) StatusOK); [|done]. cbn.
  destruct (rsp_decoded resp) as [rr|] eqn:Hd; [|done].
  destruct (rr_Error rr) eqn:He; [done|]. by exists resp, rr.
Qed.

Lemma Call_unsendable {A : Type} c method params (zero : A) decode st payload e :
  rpcRequest method params = Ok payload → E.(env_url) c.(cl_host) = Some e →
  ∃ st', Call E c method params zero decode st =
           (Err (wrap ("shelly: " +:+ method +:+ " " +:+ c.(cl_host)) (errorf e)), st')
       ∧ st'.(st_log) = st.(st_log).
Proof.
  intros Hp He. unfold Call, postRetrying, tooManyRequestsRetries. rewrite Hp. cbn [post_retrying].
  destruct (post E c payload st) as [r1 st1] eqn:Hpost.
  destruct (post_unsendable _ _ _ _ _ _ He Hpost) as (-> & Hl & _). by exists st1.
Qed.

(** C35: what one call sends.  A request that JSON cannot carry, or a host that
    makes no URL, is an error, never a refusal, and nothing is sent.  Otherwise the
    request is sent, unchanged, between one and six times (three without a
    password).  In every case the call waits at most twice, and without a password
    it never sends a credential: the retries of a 429 and the answer to a 401 are
    bounded whatever the server does. *)
Theorem Call_bounded {A : Type} c method params (zero : A) decode st r st' :
  Call E c method params zero decode st = (r, st') →
  ∃ new, st'.(st_log) = st.(st_log) ++ new
    ∧ st'.(st_waits) ≤ st.(st_waits) + 2
    ∧ match rpcRequest method params, E.(env_url) c.(cl_host) with
      | Ok payload, None =>
          1 ≤ length new ≤ (if String.eqb c.(cl_password) "" then 3 else 6)
          ∧ Forall (rq_ok c payload) new
      | _, _ => new = [] ∧ ∃ e, r = Err e ∧ IsRefusal e = false
      end.
Proof.
  destruct (rpcRequest method params) as [payload|e] eqn:Hreq.
  2:{ unfold Call. rewrite Hreq. intros [= <- <-]. exists []. rewrite app_nil_r.
      split_and!; [done|lia|done|]. by eexists. }
  destruct (env_url E (cl_host c)) as [e|] eqn:Hurl.
  - intros Hcall. pose proof Hcall as Hsent. unfold Call, postRetrying in Hsent. rewrite Hreq in Hsent.
    destruct (post_retrying _ _ _ _ _) as [r1 st1] eqn:Hp. injection Hsent as _ <-.
    apply post_retrying_sends in Hp as [_ (new & Hl & Hn & _ & Hw)]. rewrite Hurl in Hn. subst new.
    exists []. split_and!; [done|done|done|].
    destruct (Call_unsendable c method params zero decode st payload e Hreq Hurl) as (st2 & Heq & _).
    rewrite Heq in Hcall. injection Hcall as <- _. by eexists.
  - unfold Call, postRetrying. rewrite Hreq. destruct (post_retrying _ _ _ _ _) as [r1 st1] eqn:Hp.
    intros [= <- <-]. apply post_retrying_sends in Hp as [_ (new & Hl & Hn & Hok & Hw)]. rewrite Hurl in Hn.
    exists new. unfold per_attempt, tooManyRequestsRetries in *. split_and!; [done|done|lia| |done].
    case_match; lia.
Qed.

(** C33: [IsRefusal] is a definite "the device did not act": a call fails with one
    only if the server's answer to its last request was an HTTP status other than
    200 or an RPC error, and it succeeds only on a 200 without an RPC error.  A lost
    answer, a failed decoding, an unusable challenge or a cancelled wait is never
    reported as a refusal. *)
Theorem Call_refusal_definite {A : Type} c method params (zero : A) decode st r st' :
  Call E c method params zero decode st = (r, st') →
  match r with
  | Ok _ => ∃ resp rr, E.(env_answer) st'.(st_log) = Ok resp ∧ resp.(rsp_code) = StatusOK
              ∧ resp.(rsp_decoded) = Ok rr ∧ rr.(rr_Error) = None
  | Err e =>
      IsRefusal e = true →
      ∃ resp, E.(env_answer) st'.(st_log) = Ok resp
        ∧ (resp.(rsp_code) ≠ StatusOK
           ∨ ∃ rr, resp.(rsp_decoded) = Ok rr ∧ is_Some rr.(rr_Error))
  end.
Proof.
  unfold Call, postRetrying. destruct (rpcRequest method params) as [payload|e0]; [|by intros [= <- <-]].
  destruct (post_retrying _ _ _ _ _) as [r1 st1] eqn:Hp.
  intros [= <- <-]. apply post_retrying_sends in Hp as [Ha _].
  destruct (call_outcome _ _ _ _ _) as [a|e] eqn:Hout.
  - apply call_outcome_ok in Hout as (resp & rr & -> & Hrest). by exists resp, rr.
  - intros Href. apply call_outcome_refusal in Hout as (resp & -> & Hrest); [|by intros ? ->|done].
    by exists resp.
Qed.
End Sends.
