(* ===== verification/Digest.v ===== *)
(** * The digest exchange (internal/shelly/digest.go against shellytest/server.go)

    The header the client renders parses back to the fields it was rendered from,
    so a device that shares the password accepts it; a client with the right
    password therefore gets through a 401 in at most two requests, from any cached
    state; and over any sequence of calls the counters of a nonce go up by one. *)

From stdpp Require Import prelude gmap strings pretty sorting list.
From Stdlib Require Import Ascii.
From S2P Require Import Prelude Json Api Diff Shelly Effects Render Client Rpc.

(** ** Characters and spans *)

(** Printable ASCII that %q leaves as it is. *)
Definition is_plain (c : ascii) : bool :=
  let n := N_of_ascii c in
  ((32 <=? n) && (n <=? 126) && negb (n =? 34) && negb (n =? 92))%N.

(** Documented behaviour of fmt's %q, and the shape of a hexadecimal SHA-256. *)
Class QuoteLaw `{Fmt} : Prop := {
  fmt_q_plain s : str_all is_plain s = true → fmt_q s = quote +:+ s +:+ quote;
}.

Class Sha256Law `{Sha256} : Prop := {
  sha256hex_word s : str_all is_word (sha256hex s) = true;
  sha256hex_length s : String.length (sha256hex s) = 64;
}.

Lemma word_plain c : is_word c = true → is_plain c = true.
Proof. by destruct c as [[][][][][][][][]]. Qed.

Lemma word_token c : is_word c = true → is_token c = true.
Proof. by destruct c as [[][][][][][][][]]. Qed.

Lemma plain_not_quote c : is_plain c = true → not_quote c = true.
Proof. by destruct c as [[][][][][][][][]]. Qed.

Lemma span_app f s c t :
  str_all f s = true → f c = false → span f (s +:+ String c t) = (s, String c t).
Proof.
  intros Hs Hc. induction s as [|d s IH].
  - rewrite str_app_nil_l. cbn. by rewrite Hc.
  - cbn in Hs. apply andb_true_iff in Hs as [Hd Hs]. rewrite str_app_cons. cbn.
    by rewrite Hd, (IH Hs).
Qed.

Lemma span_all f s : str_all f s = true → span f s = (s, "").
Proof.
  intros Hs. induction s as [|d s IH]; [done|]. cbn in *.
  apply andb_true_iff in Hs as [Hd Hs]. by rewrite Hd, (IH Hs).
Qed.

Lemma span_split f s a b : span f s = (a, b) → s = a +:+ b.
Proof.
  revert a b. induction s as [|c s IH]; cbn; intros a b; [by intros [= <- <-]|].
  destruct (f c); [|by intros [= <- <-]]. destruct (span f s) as [a' b'] eqn:Hs.
  intros [= <- <-]. rewrite str_app_cons. f_equal. by apply IH.
Qed.

Lemma field_value_shorter s v rest :
  field_value s = Some (v, rest) → String.length rest < String.length s.
Proof.
  destruct s as [|c s]; [done|]. cbn [field_value]. destruct (Ascii.eqb c quote_char).
  - destruct (span not_quote s) as [v' r] eqn:Hs. apply span_split in Hs as ->.
    destruct r; [done|]. intros [= <- <-]. cbn. fold (v' +:+ String a r).
    rewrite str_length_app. cbn. lia.
  - destruct (span is_token (String c s)) as [v' r] eqn:Hs. apply span_split in Hs.
    destruct (String.eqb_spec v' ""); [done|]. intros [= <- <-]. rewrite Hs, str_length_app.
    destruct v'; [done|]. cbn. lia.
Qed.

(** ** Matches of the field pattern *)

(** The header's length is enough fuel. *)
Lemma digest_matches_fuel n m s :
  String.length s ≤ n → String.length s ≤ m → digest_matches n s = digest_matches m s.
Proof.
  revert m s. induction n as [|n IH]; intros m s Hn Hm.
  - destruct s; [by destruct m|]. cbn in Hn. lia.
  - destruct s as [|c s]; [by destruct m|]. destruct m as [|m]; [cbn in Hm; lia|].
    cbn in Hn, Hm. cbn [digest_matches]. destruct (is_word c) eqn:Hc; [|apply IH; lia].
    destruct (span is_word (String c s)) as [name rest] eqn:Hs.
    assert (String.length rest ≤ String.length s).
    { pose proof Hs as Hs'. apply span_split in Hs'. apply (f_equal String.length) in Hs'.
      rewrite str_length_app in Hs'. cbn in Hs, Hs'. rewrite Hc in Hs.
      destruct (span is_word s). injection Hs as <- <-. cbn in Hs'. lia. }
    destruct rest as [|e rest]; [done|]. cbn in *. destruct (Ascii.eqb e "="); [|apply IH; cbn; lia].
    destruct (field_value rest) as [[v rest']|] eqn:Hv; [|apply IH; lia].
    apply field_value_shorter in Hv. f_equal. apply IH; lia.
Qed.

Definition matches (s : string) : list (string * string) := digest_matches (String.length s) s.

Lemma parseDigestFields_matches h l :
  matches h = l → parseDigestFields h = foldl (λ f m, <[m.1 := m.2]> f) ∅ l.
Proof. by intros <-. Qed.

Lemma matches_skip c s : is_word c = false → matches (String c s) = matches s.
Proof. intros Hc. unfold matches. cbn. by rewrite Hc. Qed.

Lemma matches_skip_all sep s :
  str_all (λ c, negb (is_word c)) sep = true → matches (sep +:+ s) = matches s.
Proof.
  induction sep as [|c sep IH]; [done|]. cbn. rewrite andb_true_iff, negb_true_iff.
  intros [Hc Hs]. rewrite <-(IH Hs). by apply matches_skip.
Qed.

(** The step at a name: what follows it decides. *)
Lemma matches_name name c s :
  name ≠ "" → str_all is_word name = true → is_word c = false →
  matches (name +:+ String c s) =
  if Ascii.eqb c "=" then
    match field_value s with
    | Some (v, rest) => (name, v) :: matches rest
    | None => matches s
    end
  else matches (String c s).
Proof.
  intros Hne Hname Hc. unfold matches at 1.
  destruct name as [|d name]; [done|]. rewrite str_app_cons. cbn [String.length digest_matches].
  pose proof Hname as Hname'. cbn in Hname'. apply andb_true_iff in Hname' as [Hd _]. rewrite Hd.
  rewrite <-str_app_cons, (span_app _ _ _ _ Hname Hc).
  destruct (Ascii.eqb c "="); [|apply digest_matches_fuel; rewrite ?str_length_app; cbn; lia].
  destruct (field_value s) as [[v rest]|] eqn:Hv.
  - apply field_value_shorter in Hv. f_equal.
    apply digest_matches_fuel; rewrite ?str_length_app; cbn; lia.
  - apply digest_matches_fuel; rewrite ?str_length_app; cbn; lia.
Qed.

Lemma matches_quoted sep name v s :
  str_all (λ c, negb (is_word c)) sep = true → name ≠ "" → str_all is_word name = true →
  str_all is_plain v = true →
  matches (sep +:+ name +:+ "=" +:+ quote +:+ v +:+ quote +:+ s) = (name, v) :: matches s.
Proof.
  intros Hsep Hne Hname Hv. rewrite (matches_skip_all _ _ Hsep).
  change ("=" +:+ ?x) with (String "=" x). rewrite (matches_name _ "="%char _ Hne Hname eq_refl).
  cbn [Ascii.eqb]. change (quote +:+ s) with (String quote_char s).
  change (quote +:+ v +:+ ?x) with (String quote_char (v +:+ x)). cbn [field_value Ascii.eqb].
  rewrite span_app; [done| |done]. eapply str_all_impl, Hv. apply plain_not_quote.
Qed.

Lemma field_value_token v s :
  v ≠ "" → str_all is_token v = true → (s = "" ∨ ∃ c s', s = String c s' ∧ is_token c = false) →
  field_value (v +:+ s) = Some (v, s).
Proof.
  intros Hne Hv Hs.
  assert (Hspan : span is_token (v +:+ s) = (v, s)).
  { destruct Hs as [->|(c & s' & -> & Hc)]; [rewrite str_app_nil_r; by apply span_all|].
    by apply span_app. }
  destruct v as [|c v]; [done|]. rewrite str_app_cons in *. cbn [field_value].
  destruct (Ascii.eqb_spec c quote_char) as [->|_]; [done|]. rewrite Hspan. done.
Qed.

Lemma matches_token sep name v s :
  str_all (λ c, negb (is_word c)) sep = true → name ≠ "" → str_all is_word name = true →
  v ≠ "" → str_all is_token v = true →
  (s = "" ∨ ∃ c s', s = String c s' ∧ is_token c = false) →
  matches (sep +:+ name +:+ "=" +:+ v +:+ s) = (name, v) :: matches s.
Proof.
  intros Hsep Hne Hname Hv Hvt Hs. rewrite (matches_skip_all _ _ Hsep).
  change ("=" +:+ ?x) with (String "=" x). rewrite (matches_name _ "="%char _ Hne Hname eq_refl).
  cbn [Ascii.eqb]. by rewrite (field_value_token _ _ Hv Hvt Hs).
Qed.

(** ** Hexadecimal text *)

Lemma hex_digit_word n : (0 ≤ n < 16)%Z → is_word (hex_digit n) = true.
Proof.
  intros Hn.
  assert (n = 0 ∨ n = 1 ∨ n = 2 ∨ n = 3 ∨ n = 4 ∨ n = 5 ∨ n = 6 ∨ n = 7 ∨ n = 8 ∨ n = 9
    ∨ n = 10 ∨ n = 11 ∨ n = 12 ∨ n = 13 ∨ n = 14 ∨ n = 15)%Z by lia.
  destruct_or!; by subst.
Qed.

Lemma hex_digits_word k n : str_all is_word (hex_digits k n) = true.
Proof.
  revert n. induction k as [|k IH]; intros n; [done|]. cbn [hex_digits].
  rewrite str_all_app, IH. cbn [str_all]. rewrite hex_digit_word; [done|].
  apply Z.mod_pos_bound. lia.
Qed.

Lemma EncodeToString_word bytes : str_all is_word (EncodeToString bytes) = true.
Proof.
  unfold EncodeToString. induction bytes as [|b bytes IH]; [done|].
  destruct bytes as [|b' bytes]; [apply hex_digits_word|]. cbn [map] in *.
  change (String.concat "" (?x :: ?y :: ?l)) with (x +:+ "" +:+ String.concat "" (y :: l)).
  rewrite !str_all_app, hex_digits_word. done.
Qed.

Section Exchange.
Context `{Fmt, JsonText, Sha256, !QuoteLaw, !Sha256Law} (E : env).

(** The rendered header parses back to the fields it was rendered from. *)
Lemma digest_header_fields realm nonce password nc cnonce :
  str_all is_plain realm = true → str_all is_plain nonce = true →
  nc ≠ "" → str_all is_word nc = true → str_all is_word cnonce = true →
  matches (digest_header realm nonce password nc cnonce) =
  [("username", "admin"); ("realm", realm); ("nonce", nonce); ("uri", "/rpc");
   ("response", digest_response realm nonce password nc cnonce); ("qop", "auth");
   ("nc", nc); ("cnonce", cnonce); ("algorithm", "SHA-256")].
Proof.
  intros Hrealm Hnonce Hnc Hncw Hcn.
  assert (Hcn' : str_all is_plain cnonce = true) by (eapply str_all_impl, Hcn; apply word_plain).
  assert (Hresp : str_all is_plain (digest_response realm nonce password nc cnonce) = true)
    by (eapply str_all_impl, sha256hex_word; apply word_plain).
  unfold digest_header. rewrite !fmt_q_plain by done. rewrite !str_app_assoc.
  set (resp := digest_response realm nonce password nc cnonce) in *. clearbody resp.
  etrans; [apply (matches_name "Digest" " "%char); done|]. cbn [Ascii.eqb Bool.eqb].
  etrans; [apply (matches_quoted " " "username" "admin"); done|]. f_equal.
  etrans; [apply (matches_quoted ", " "realm" realm); done|]. f_equal.
  etrans; [apply (matches_quoted ", " "nonce" nonce); done|]. f_equal.
  etrans; [apply (matches_quoted ", " "uri" "/rpc"); done|]. f_equal.
  etrans; [apply (matches_quoted ", " "response" resp); done|]. f_equal.
  etrans; [apply (matches_token ", " "qop" "auth"); try done; right; by eexists _, _|]. f_equal.
  etrans; [apply (matches_token ", " "nc" nc); try done;
    [eapply str_all_impl, Hncw; apply word_token|right; by eexists _, _]|]. f_equal.
  etrans; [apply (matches_quoted ", " "cnonce" cnonce); done|]. f_equal.
Qed.

Lemma challenge_header_fields id :
  str_all is_plain id = true →
  matches (challenge_header id) =
  [("qop", "auth"); ("realm", id); ("nonce", testNonce); ("algorithm", "SHA-256")].
Proof.
  intros Hid. unfold challenge_header. rewrite !fmt_q_plain by done. rewrite !str_app_assoc.
  etrans; [apply (matches_name "Digest" " "%char); done|]. cbn [Ascii.eqb Bool.eqb].
  etrans; [apply (matches_quoted " " "qop" "auth"); done|]. f_equal.
  etrans; [apply (matches_quoted ", " "realm" id); done|]. f_equal.
Qed.

(** A credential for the device's own challenge passes its check when the two
    sides share the password. *)
Lemma digest_header_authorized id password nc cnonce :
  str_all is_plain id = true → nc ≠ "" → str_all is_word nc = true →
  str_all is_word cnonce = true →
  authorized id (device_ha1 id password) (digest_header id testNonce password nc cnonce) = true.
Proof.
  intros Hid Hnc Hncw Hcn. unfold authorized.
  replace (HasPrefix _ _) with true by done. cbn [negb].
  rewrite (parseDigestFields_matches _ _
    (digest_header_fields id testNonce password nc cnonce Hid eq_refl Hnc Hncw Hcn)).
  cbn [foldl fst snd].
  set (resp := digest_response _ _ _ _ _). set (f := <["algorithm" := _]> _).
  assert (field f "username" = "admin" ∧ field f "realm" = id ∧ field f "nonce" = testNonce
    ∧ field f "uri" = "/rpc" ∧ field f "response" = resp ∧ field f "nc" = nc
    ∧ field f "cnonce" = cnonce) as (-> & -> & -> & -> & -> & -> & ->) by done.
  rewrite !String.eqb_refl. cbn [negb orb].
  replace (String.eqb resp "") with false.
  - done.
  - symmetry. apply String.eqb_neq. intros Hempty.
    pose proof (sha256hex_length (Join [sha256hex ("admin:" +:+ id +:+ ":" +:+ password);
      testNonce; nc; cnonce; "auth"; sha256hex "POST:/rpc"] ":")) as Hlen.
    fold (digest_response id testNonce password nc cnonce) in Hlen. fold resp in Hlen.
    by rewrite Hempty in Hlen.
Qed.

Lemma setChallenge_device host id st :
  str_all is_plain id = true → id ≠ "" →
  setChallenge host (challenge_header id) st = Ok (set_auth (MkDigest id testNonce 0) st).
Proof.
  intros Hid Hne. unfold setChallenge.
  rewrite (parseDigestFields_matches _ _ (challenge_header_fields id Hid)).
  cbn [foldl fst snd]. set (f := <["algorithm" := _]> _).
  assert (field f "realm" = id ∧ field f "nonce" = testNonce) as [-> ->] by done.
  apply String.eqb_neq in Hne as ->. done.
Qed.

(** handleRPC in front of [serve], over the same waits and random bytes. *)
Let device (id : string) (c : Client) (serve : list request → response) : env :=
  MkEnv (guarded_server id c.(cl_password) serve) E.(env_cancelled) E.(env_random) (λ _, None).

Lemma send_guarded id c serve payload st r st' :
  send_with_auth (device id c serve) c payload st = (r, st') →
  length st'.(st_log) = S (length st.(st_log))
  ∧ (r = Ok (serve st'.(st_log))
     ∨ r = Ok (MkResponse StatusUnauthorized "401 Unauthorized" (challenge_header id) ""
                 (Err "EOF"))).
Proof.
  unfold send_with_auth. destruct (authHeader _ _ _) as [auth st0] eqn:Hauth.
  assert (Hl : st_log st0 = st_log st).
  { revert Hauth. unfold authHeader. repeat case_match; intros [= <- <-]; done. }
  unfold send. cbn [env_url device]. intros [= <- <-]. cbn [st_log]. rewrite Hl, length_app. split; [cbn; lia|].
  cbn [env_answer device]. unfold guarded_server. rewrite last_snoc.
  destruct (authorized _ _ _); [by left|by right].
Qed.

(** A request carrying the credential for the device's challenge is served. *)
Lemma send_authenticated id c serve payload st r st' :
  str_all is_plain id = true → c.(cl_password) ≠ "" →
  send_with_auth (device id c serve) c payload (set_auth (MkDigest id testNonce 0) st) = (r, st') →
  r = Ok (serve st'.(st_log)).
Proof.
  intros Hid Hpw. unfold send_with_auth, authHeader. cbn [set_auth st_auth].
  apply String.eqb_neq in Hpw. rewrite Hpw.
  unfold send. cbn [env_url device]. intros [= <- <-]. cbn [env_answer device]. unfold guarded_server at 1.
  cbn [st_log]. rewrite last_snoc. unfold header_of. cbn [from_option rq_auth cr_header].
  rewrite digest_header_authorized;
    [done|done|done|apply hex_digits_word|apply EncodeToString_word].
Qed.

Lemma post_authenticated id c serve payload st r st' :
  str_all is_plain id = true → id ≠ "" → c.(cl_password) ≠ "" →
  (∀ log, (serve log).(rsp_code) ≠ StatusUnauthorized) →
  post (device id c serve) c payload st = (r, st') →
  r = Ok (serve st'.(st_log)) ∧ length st'.(st_log) ≤ length st.(st_log) + 2.
Proof.
  intros Hid Hne Hpw Hserve. unfold post.
  destruct (send_with_auth _ c payload st) as [r1 st1] eqn:Hs1.
  apply send_guarded in Hs1 as [Hl1 [->| ->]].
  - rewrite (proj2 (Z.eqb_neq _ _) (Hserve _)). cbn. intros [= <- <-]. split; [done|lia].
  - cbn [rsp_code rsp_challenge]. rewrite (proj2 (String.eqb_neq _ _) Hpw). cbn [negb orb].
    change (StatusUnauthorized =? StatusUnauthorized)%Z with true. cbn [negb orb].
    rewrite setChallenge_device by done. intros Hs2. split.
    + by eapply send_authenticated.
    + apply send_guarded in Hs2 as [Hl2 _]. cbn in Hl2. lia.
Qed.

(** C32: A client with the device's password gets through its digest challenge.
    Against a device that serves a request only with a valid credential, and that
    itself answers neither 401 nor 429, a call whose request JSON can carry ends with
    the device's answer to it, in at most two requests, whatever challenge (stale,
    of another device, or none) the client had cached. *)
Theorem Call_authenticates {A : Type} id serve c method params payload (zero : A) decode st r st' :
  rpcRequest method params = Ok payload →
  str_all is_plain id = true → id ≠ "" → c.(cl_password) ≠ "" →
  (∀ log, (serve log).(rsp_code) ≠ StatusUnauthorized
          ∧ (serve log).(rsp_code) ≠ StatusTooManyRequests) →
  Call (MkEnv (guarded_server id c.(cl_password) serve) E.(env_cancelled) E.(env_random) (λ _, None))
    c method params zero decode st = (r, st') →
  r = call_outcome c method zero decode (Ok (serve st'.(st_log)))
  ∧ length st'.(st_log) ≤ length st.(st_log) + 2.
Proof.
  intros Hreq Hid Hne Hpw Hserve. unfold Call, postRetrying. rewrite Hreq. fold (device id c serve).
  unfold tooManyRequestsRetries. cbn [post_retrying].
  destruct (post _ c _ st) as [r1 st1] eqn:Hp.
  apply post_authenticated in Hp as [-> Hl]; [|done|done|done|apply Hserve].
  rewrite (proj2 (Z.eqb_neq _ _) (proj2 (Hserve _))). cbn [negb]. by intros [= <- <-].
Qed.
End Exchange.

(** ** Counters *)

(** What the credential of request [k] of a log continues: the previous request's
    counter under the same nonce, or a fresh challenge just received. *)
Definition continues (E : env) (log : list request) (k : nat) (cr : credential) : Prop :=
  ∃ j prev, k = S j ∧ log !! j = Some prev ∧
  ((∃ pc, prev.(rq_auth) = Some pc ∧ cr.(cr_nonce) = pc.(cr_nonce)
          ∧ cr.(cr_nc) = ((pc.(cr_nc) + 1) mod 2 ^ 32)%Z)
   ∨ (cr.(cr_nc) = 1%Z
      ∧ ∃ resp, E.(env_answer) (take k log) = Ok resp
          ∧ resp.(rsp_code) = StatusUnauthorized
          ∧ cr.(cr_nonce) = field (parseDigestFields resp.(rsp_challenge)) "nonce")).

Definition log_disciplined (E : env) (log : list request) : Prop :=
  ∀ k rq cr, log !! k = Some rq → rq.(rq_auth) = Some cr → continues E log k cr.

(** What the cached challenge stands for, against the log. *)
Definition auth_current (E : env) (st : state) : Prop :=
  ∀ d, st.(st_auth) = Some d →
  ∃ prev, last st.(st_log) = Some prev ∧
  ((∃ pc, prev.(rq_auth) = Some pc ∧ d.(dg_nonce) = pc.(cr_nonce) ∧ d.(dg_nc) = pc.(cr_nc))
   ∨ (d.(dg_nc) = 0%Z
      ∧ ∃ resp, E.(env_answer) st.(st_log) = Ok resp
          ∧ resp.(rsp_code) = StatusUnauthorized
          ∧ d.(dg_nonce) = field (parseDigestFields resp.(rsp_challenge)) "nonce")).

Definition disciplined_state (E : env) (st : state) : Prop :=
  log_disciplined E st.(st_log) ∧ auth_current E st.

Lemma continues_snoc E log rq k cr :
  k < length log → continues E log k cr → continues E (log ++ [rq]) k cr.
Proof.
  intros Hk (j & prev & -> & Hj & Hor). exists j, prev. split; [done|].
  rewrite lookup_app_l by lia. split; [done|]. by rewrite take_app_le by lia.
Qed.

Lemma log_disciplined_snoc E log rq :
  log_disciplined E log →
  (∀ cr, rq.(rq_auth) = Some cr → continues E (log ++ [rq]) (length log) cr) →
  log_disciplined E (log ++ [rq]).
Proof.
  intros Hlog Hnew k rq' cr [Hk|[-> <-]]%lookup_snoc_Some Ha; [|by apply Hnew].
  destruct Hk as [Hk Hlk]. apply continues_snoc; [done|]. by eapply Hlog.
Qed.

Section Discipline.
Context `{!Fmt, !JsonText, !Sha256} (E : env) (c : Client).

(** A client whose host makes no URL sends nothing. *)
Lemma Call_silent {A : Type} method params (zero : A) decode st :
  E.(env_url) c.(cl_host) ≠ None → (Call E c method params zero decode st).2.(st_log) = st.(st_log).
Proof.
  intros Hurl. destruct (env_url E (cl_host c)) as [e|] eqn:He; [|done].
  destruct (rpcRequest method params) as [payload|e'] eqn:Hreq; [|by unfold Call; rewrite Hreq].
  destruct (Call_unsendable E c method params zero decode st payload e Hreq He) as (st' & -> & Hl). done.
Qed.

Section Sendable.
Context (Hpw : c.(cl_password) ≠ "") (Hurl : E.(env_url) c.(cl_host) = None).

Lemma send_with_auth_disciplined payload st :
  disciplined_state E st → disciplined_state E (send_with_auth E c payload st).2.
Proof.
  intros [Hlog Hauth]. apply String.eqb_neq in Hpw as Hpw'. unfold send_with_auth, authHeader.
  destruct (st_auth st) as [d|] eqn:Hd; [rewrite Hpw'|]; unfold send; rewrite Hurl; cbn; split; cbn.
  - apply log_disciplined_snoc; [done|]. intros cr [= <-].
    destruct (Hauth d Hd) as (prev & Hlast & Hor). unfold continues. cbn.
    exists (pred (length (st_log st))), prev. rewrite last_lookup in Hlast.
    pose proof (lookup_lt_Some _ _ _ Hlast) as Hlt.
    split; [lia|]. split; [by rewrite lookup_app_l|]. rewrite take_app_length.
    destruct Hor as [(pc & Hpc & Hn & Hnc)|(Hnc & Hresp)]; [left|right].
    + exists pc. by rewrite Hn, Hnc.
    + by rewrite Hnc.
  - intros d' [= <-]. cbn. rewrite last_snoc. eexists. split; [done|]. left. by eexists.
  - apply log_disciplined_snoc; [done|]. by intros cr [=].
  - intros d' Hd'. cbn in Hd'. congruence.
Qed.

(** Caching the challenge of the 401 just received. *)
Lemma setChallenge_disciplined host st resp st' :
  disciplined_state E st → st.(st_log) ≠ [] → E.(env_answer) st.(st_log) = Ok resp →
  resp.(rsp_code) = StatusUnauthorized →
  setChallenge host resp.(rsp_challenge) st = Ok st' → disciplined_state E st'.
Proof.
  intros [Hlog _] Hne Hans Hcode. unfold setChallenge. case_match; [done|]. intros [= <-].
  split; [done|]. intros d [= <-]. cbn. destruct (last (st_log st)) as [prev|] eqn:Hlast.
  - exists prev. split; [done|]. right. naive_solver.
  - by apply last_None in Hlast.
Qed.

Lemma post_disciplined payload st :
  disciplined_state E st → disciplined_state E (post E c payload st).2.
Proof.
  intros Hst. unfold post. pose proof (send_with_auth_disciplined payload st Hst) as Hst1.
  destruct (send_with_auth E c payload st) as [r1 st1] eqn:Hs1.
  apply send_with_auth_sends in Hs1. rewrite Hurl in Hs1. destruct Hs1 as ((Ha & rq & Hl & _) & _). cbn in Hst1.
  destruct r1 as [resp|e]; [|done].
  destruct (Z.eqb_spec (rsp_code resp) StatusUnauthorized) as [Hcode|]; [|done].
  rewrite (proj2 (String.eqb_neq _ _) Hpw). cbn [negb orb].
  destruct (setChallenge _ _ _) as [st2|e] eqn:Hset; [|done].
  apply send_with_auth_disciplined.
  eapply setChallenge_disciplined; [exact Hst1| |exact Ha|exact Hcode|exact Hset].
  rewrite Hl. by destruct (st_log st).
Qed.

Lemma post_retrying_disciplined retries payload st :
  disciplined_state E st → disciplined_state E (post_retrying E retries c payload st).2.
Proof.
  revert st. induction retries as [|retries IH]; intros st Hst; cbn [post_retrying];
    pose proof (post_disciplined payload st Hst) as Hst1;
    destruct (post E c payload st) as [[resp|e] st1]; cbn in Hst1; try done;
    (destruct (negb _); [done|]); [done|].
  cbn. destruct (env_cancelled _ _); [done|]. by apply IH.
Qed.

Lemma Call_disciplined {A : Type} method params (zero : A) decode st :
  disciplined_state E st → disciplined_state E (Call E c method params zero decode st).2.
Proof.
  intros Hst. unfold Call, postRetrying. destruct (rpcRequest method params) as [payload|e]; [|done].
  pose proof (post_retrying_disciplined tooManyRequestsRetries payload st Hst) as Hst'.
  by destruct (post_retrying _ _ _ _ _).
Qed.
End Sendable.

(** A client's calls one after another; results are decoded by the callers. *)
Definition run_calls (calls : list (string * option value)) (st : state) : state :=
  foldl (λ st call, (Call E c call.1 call.2 tt None st).2) st calls.

(** C34: Replay protection over a client's lifetime.  From a client that has seen
    no challenge, after any sequence of calls against any server, every credential
    sent either continues the previous request's nonce with the counter one higher
    (as a uint32), or answers the 401 received just before it, with that challenge's
    nonce and counter 1; the first request carries none. *)
Theorem nonce_counters_advance calls :
  c.(cl_password) ≠ "" →
  log_disciplined E (run_calls calls (MkState None [] 0)).(st_log).
Proof.
  intros Hpw. destruct (decide (E.(env_url) c.(cl_host) = None)) as [Hurl|Hurl].
  - enough (Hall : ∀ st, disciplined_state E st → disciplined_state E (run_calls calls st)).
    { apply Hall. split; [by intros k rq cr|by intros d]. }
    induction calls as [|[method params] calls IH]; intros st Hst; [done|].
    by apply IH, Call_disciplined.
  - enough (Hall : ∀ st, (run_calls calls st).(st_log) = st.(st_log)).
    { rewrite Hall. by intros k rq cr. }
    induction calls as [|[method params] calls IH]; intros st; [done|].
    cbn. unfold run_calls in IH. rewrite IH. by apply Call_silent.
Qed.
End Discipline.
