(* ===== verification/FakeDevice.v ===== *)
(** * The fake device (internal/shelly/shellytest/server.go)

    A Shelly Gen2+ device as the tests emulate it: identity, digest
    authentication, per-component configuration with merge-on-SetConfig, schedule
    jobs, Sys.GetStatus, reboot and update.  [handleRPC] is one request under the
    device's mutex; a reply is the JSON the handler writes.  The exported fields
    that no handler changes are [Setup]; [RestartRequired] and [AvailableUpdates]
    are exported but change, so they are with the state.  Job ids and the
    generation are Go ints, held as the numbers they are written as. *)

From stdpp Require Import prelude gmap strings pretty sorting list.
From Stdlib Require Import SpecFloat Ascii.
From S2P Require Import Prelude Json Floats Api Diff Shelly Effects Render Client Decode Rpc.

(** ** State *)

Record Setup : Type := MkSetup {
  fd_ID : string;
  fd_MAC : string;
  fd_Model : string;
  fd_App : string;
  fd_Gen : Z;
  fd_Firmware : string;
  fd_Name : string;
  fd_Password : string;
  fd_RestartOnSetConfig : bool;
  fd_SetConfigError : string;
  fd_IgnoreSetConfig : bool;
  fd_InitialConfig : gmap string obj;
  fd_GetConfigErrorAfter : Z;
  fd_InitialSchedules : list obj;
  fd_UpdateError : string;
  fd_UpdateDropConnection : bool;
}.

Record Call_ : Type := MkCall {
  call_Method : string;
  call_Params : option value;
}.

Record Device : Type := MkDevice {
  fd_setup : Setup;
  fd_AvailableUpdates : option obj;
  fd_RestartRequired : bool;
  fd_ha1 : string;
  fd_config : gmap string obj;
  fd_calls : list Call_;
  fd_challengesSent : Z;
  fd_getConfigCalls : Z;
  fd_schedules : list obj;
  fd_scheduleRev : Z;
  fd_nextSchedID : Z;
}.

Definition set_AvailableUpdates (x : option obj) (d : Device) : Device :=
  MkDevice d.(fd_setup) x d.(fd_RestartRequired) d.(fd_ha1) d.(fd_config) d.(fd_calls)
    d.(fd_challengesSent) d.(fd_getConfigCalls) d.(fd_schedules) d.(fd_scheduleRev)
    d.(fd_nextSchedID).

Definition set_RestartRequired (x : bool) (d : Device) : Device :=
  MkDevice d.(fd_setup) d.(fd_AvailableUpdates) x d.(fd_ha1) d.(fd_config) d.(fd_calls)
    d.(fd_challengesSent) d.(fd_getConfigCalls) d.(fd_schedules) d.(fd_scheduleRev)
    d.(fd_nextSchedID).

Definition set_ha1 (x : string) (d : Device) : Device :=
  MkDevice d.(fd_setup) d.(fd_AvailableUpdates) d.(fd_RestartRequired) x d.(fd_config)
    d.(fd_calls) d.(fd_challengesSent) d.(fd_getConfigCalls) d.(fd_schedules)
    d.(fd_scheduleRev) d.(fd_nextSchedID).

Definition set_config (x : gmap string obj) (d : Device) : Device :=
  MkDevice d.(fd_setup) d.(fd_AvailableUpdates) d.(fd_RestartRequired) d.(fd_ha1) x
    d.(fd_calls) d.(fd_challengesSent) d.(fd_getConfigCalls) d.(fd_schedules)
    d.(fd_scheduleRev) d.(fd_nextSchedID).

Definition record_call (c : Call_) (d : Device) : Device :=
  MkDevice d.(fd_setup) d.(fd_AvailableUpdates) d.(fd_RestartRequired) d.(fd_ha1)
    d.(fd_config) (d.(fd_calls) ++ [c]) d.(fd_challengesSent) d.(fd_getConfigCalls)
    d.(fd_schedules) d.(fd_scheduleRev) d.(fd_nextSchedID).

Definition count_challenge (d : Device) : Device :=
  MkDevice d.(fd_setup) d.(fd_AvailableUpdates) d.(fd_RestartRequired) d.(fd_ha1)
    d.(fd_config) d.(fd_calls) (d.(fd_challengesSent) + 1) d.(fd_getConfigCalls)
    d.(fd_schedules) d.(fd_scheduleRev) d.(fd_nextSchedID).

Definition count_getConfig (d : Device) : Device :=
  MkDevice d.(fd_setup) d.(fd_AvailableUpdates) d.(fd_RestartRequired) d.(fd_ha1)
    d.(fd_config) d.(fd_calls) d.(fd_challengesSent) (d.(fd_getConfigCalls) + 1)
    d.(fd_schedules) d.(fd_scheduleRev) d.(fd_nextSchedID).

(** New jobs, with the revision bumped. *)
Definition set_schedules (x : list obj) (next : Z) (d : Device) : Device :=
  MkDevice d.(fd_setup) d.(fd_AvailableUpdates) d.(fd_RestartRequired) d.(fd_ha1)
    d.(fd_config) d.(fd_calls) d.(fd_challengesSent) d.(fd_getConfigCalls) x
    (d.(fd_scheduleRev) + 1) next.

(** ** Start-up and snapshots *)

(** The jobs of [InitialSchedules], with ids from [next] on. *)
Fixpoint seed_jobs (next : Z) (jobs : list obj) : list obj * Z :=
  match jobs with
  | [] => ([], next)
  | j :: jobs =>
      let '(rest, next') := seed_jobs (next + 1) jobs in
      (<["id" := vint next]> (merge ∅ j) :: rest, next')
  end.

(** Other than the map and the strings, nothing is left of [New] but the HTTP
    server. *)
Definition New `{Sha256} (s : Setup) (updates : option obj) (restart : bool) : Device :=
  let '(jobs, next) := seed_jobs 1 s.(fd_InitialSchedules) in
  MkDevice s updates restart
    (if String.eqb s.(fd_Password) "" then "" else device_ha1 s.(fd_ID) s.(fd_Password))
    (merge ∅ <$> s.(fd_InitialConfig)) [] 0 0 jobs 0 next.

Definition ConfigSnapshot (d : Device) : gmap string obj := merge ∅ <$> d.(fd_config).
Definition ScheduleSnapshot (d : Device) : list obj := merge ∅ <$> d.(fd_schedules).
Definition RecordedCalls (d : Device) : list Call_ := d.(fd_calls).
Definition Challenges (d : Device) : Z := d.(fd_challengesSent).
Definition AuthEnabled (d : Device) : bool := negb (String.eqb d.(fd_ha1) "").

Definition deviceInfo (d : Device) : obj :=
  let s := d.(fd_setup) in
  {["id" := VStr s.(fd_ID); "mac" := VStr s.(fd_MAC); "model" := VStr s.(fd_Model);
    "gen" := vint s.(fd_Gen); "fw_id" := VStr s.(fd_Firmware); "app" := VStr s.(fd_App);
    "auth_en" := VBool (negb (String.eqb d.(fd_ha1) ""));
    "name" := if String.eqb s.(fd_Name) "" then VNull else VStr s.(fd_Name)]}.

Definition handleProbe (d : Device) : value := VObj (deviceInfo d).

(** ** Handlers *)

(** The JSON-RPC reply; [Dropped] closes the connection without one. *)
Inductive reply : Type :=
| Result (v : value)
| Failure (code : Z) (message : string)
| Dropped.

Definition handleGetConfig (d : Device) : reply * Device :=
  if (0 <? d.(fd_setup).(fd_GetConfigErrorAfter))%Z
     && (d.(fd_setup).(fd_GetConfigErrorAfter) <=? d.(fd_getConfigCalls))%Z
  then (Failure (-108) "config read failed", d)
  else (Result (VObj (VObj <$> d.(fd_config))), count_getConfig d).

(** [json.Unmarshal(params, &p)]; absent params are not JSON. *)
Definition unmarshal {A : Type} (f : value → res string A) (params : option value)
  : res string A :=
  match params with Some v => f v | None => Err "unexpected end of JSON input" end.

(** Which member a struct field gets from a document, by its tag.  In a document
    with several spellings of one name that is a matter of their order, which a
    decoded value does not have: so it is an argument of the handlers. *)
Section Handlers.
Context (pick : obj → string → option value).
Definition got (m : obj) (k : string) : value := default VNull (pick m k).

Definition to_SetAuth (v : value) : res string (string * string * option string) :=
  try m := to_map v in
  try user := to_string (got m "user") in
  try realm := to_string (got m "realm") in
  try ha1 := to_pointer to_string (got m "ha1") in
  Ok (user, realm, ha1).

Definition handleSetAuth (d : Device) (params : option value) : reply * Device :=
  match unmarshal to_SetAuth params with
  | Ok (user, realm, ha1) =>
      if negb (String.eqb user "admin") || negb (String.eqb realm d.(fd_setup).(fd_ID))
      then (Failure (-103) "invalid SetAuth params", d)
      else match ha1 with
           | Some h => if String.eqb h "" then (Failure (-103) "invalid SetAuth params", d)
                       else (Result VNull, set_ha1 h d)
           | None => (Result VNull, set_ha1 "" d)
           end
  | Err _ => (Failure (-103) "invalid SetAuth params", d)
  end.

Definition handleSysGetStatus (d : Device) : reply :=
  Result (VObj {["available_updates" := VObj (default ∅ d.(fd_AvailableUpdates));
                 "restart_required" := VBool d.(fd_RestartRequired)]}).

Definition handleReboot (d : Device) : reply * Device :=
  (Result (VObj ∅), set_RestartRequired false d).

Definition handleUpdate (d : Device) : reply * Device :=
  if negb (String.eqb d.(fd_setup).(fd_UpdateError) "")
  then (Failure (-114) d.(fd_setup).(fd_UpdateError), d)
  else (Result VNull, set_AvailableUpdates None d).

Definition handleScheduleList (d : Device) : reply :=
  Result (VObj {["jobs" := VArr (VObj <$> d.(fd_schedules)); "rev" := vint d.(fd_scheduleRev)]}).

(** [v == nil] for an [any]. *)
Definition is_nil (v : value) : bool := match v with VNull => true | _ => false end.

Definition handleScheduleCreate (d : Device) (params : option value) : reply * Device :=
  match unmarshal to_map params with
  | Ok p =>
      if is_nil (index p "timespec") || is_nil (index p "calls")
      then (Failure (-103) "invalid Schedule.Create params", d)
      else
        let id := vint d.(fd_nextSchedID) in
        let d := set_schedules (d.(fd_schedules) ++ [<["id" := id]> (merge ∅ p)])
                   (d.(fd_nextSchedID) + 1) d in
        (Result (VObj {["id" := id; "rev" := vint d.(fd_scheduleRev)]}), d)
  | Err _ => (Failure (-103) "invalid Schedule.Create params", d)
  end.

Definition idOf (v : value) : Z :=
  match v with VNum f => trunc f | _ => (-1)%Z end.

(** The index of the first job with this id. *)
Fixpoint find_job (id : Z) (jobs : list obj) : option nat :=
  match jobs with
  | [] => None
  | j :: jobs => if (idOf (index j "id") =? id)%Z then Some 0 else S <$> find_job id jobs
  end.

Definition to_Update (v : value)
  : res string (option Z * option bool * option string * value) :=
  try m := to_map v in
  try id := to_pointer to_int (got m "id") in
  try enable := to_pointer to_bool (got m "enable") in
  try timespec := to_pointer to_string (got m "timespec") in
  Ok (id, enable, timespec, got m "calls").

Definition not_found (id : Z) : string := "schedule job " +:+ itoa id +:+ " not found".

Definition rev_reply (d : Device) : reply := Result (VObj {["rev" := vint d.(fd_scheduleRev)]}).

Definition handleScheduleUpdate (d : Device) (params : option value) : reply * Device :=
  match unmarshal to_Update params with
  | Ok (Some id, _, _, _) =>
      match find_job id d.(fd_schedules) with
      | None => (Failure (-103) (not_found id), d)
      | Some idx =>
          match unmarshal to_map params with
          | Err _ => (Failure (-103) "invalid Schedule.Update params", d)
          | Ok raw =>
              let d := set_schedules
                         (alter (λ j, merge j raw) idx d.(fd_schedules)) d.(fd_nextSchedID) d in
              (rev_reply d, d)
          end
      end
  | _ => (Failure (-103) "invalid Schedule.Update params", d)
  end.

Definition to_id (v : value) : res string (option Z) :=
  try m := to_map v in to_pointer to_int (got m "id").

Definition handleScheduleDelete (d : Device) (params : option value) : reply * Device :=
  match unmarshal to_id params with
  | Ok (Some id) =>
      match find_job id d.(fd_schedules) with
      | None => (Failure (-103) (not_found id), d)
      | Some idx =>
          let d := set_schedules (take idx d.(fd_schedules) ++ drop (S idx) d.(fd_schedules))
                     d.(fd_nextSchedID) d in
          (rev_reply d, d)
      end
  | _ => (Failure (-103) "invalid Schedule.Delete params", d)
  end.

(** [strings.TrimSuffix]. *)
Definition TrimSuffix (s suffix : string) : string :=
  if HasSuffix s suffix
  then String.substring 0 (String.length s - String.length suffix) s else s.

(** The config is nil for [null]. *)
Definition to_SetConfig (v : value) : res string (option Z * option obj) :=
  try m := to_map v in
  try id := to_pointer to_int (got m "id") in
  try config := to_pointer to_map (got m "config") in
  Ok (id, config).

Definition set_config_reply (d : Device) : reply :=
  Result (VObj {["restart_required" := VBool d.(fd_setup).(fd_RestartOnSetConfig)]}).

Definition handleSetConfig (d : Device) (method : string) (params : option value)
  : reply * Device :=
  if negb (String.eqb d.(fd_setup).(fd_SetConfigError) "")
  then (Failure (-114) d.(fd_setup).(fd_SetConfigError), d)
  else if d.(fd_setup).(fd_IgnoreSetConfig) then (set_config_reply d, d)
  else
    let comp := ToLower (TrimSuffix method ".SetConfig") in
    match unmarshal to_SetConfig params with
    | Ok (id, Some config) =>
        let comp := match id with Some n => comp +:+ ":" +:+ itoa n | None => comp end in
        let d := set_config
                   (<[comp := merge (default ∅ (d.(fd_config) !! comp)) config]> d.(fd_config)) d in
        (set_config_reply d, d)
    | _ => (Failure (-103) "invalid params", d)
    end.

(** The [switch] of handleRPC. *)
Definition dispatch (d : Device) (method : string) (params : option value) : reply * Device :=
  if String.eqb method "Shelly.GetDeviceInfo" then (Result (VObj (deviceInfo d)), d)
  else if String.eqb method "Shelly.GetConfig" then handleGetConfig d
  else if String.eqb method "Shelly.SetAuth" then handleSetAuth d params
  else if String.eqb method "Sys.GetStatus" then (handleSysGetStatus d, d)
  else if String.eqb method "Shelly.Reboot" then handleReboot d
  else if String.eqb method "Shelly.Update" && d.(fd_setup).(fd_UpdateDropConnection)
  then (Dropped, d)
  else if String.eqb method "Shelly.Update" then handleUpdate d
  else if String.eqb method "Schedule.List" then (handleScheduleList d, d)
  else if String.eqb method "Schedule.Create" then handleScheduleCreate d params
  else if String.eqb method "Schedule.Update" then handleScheduleUpdate d params
  else if String.eqb method "Schedule.Delete" then handleScheduleDelete d params
  else if HasSuffix method ".SetConfig" then handleSetConfig d method params
  else (Failure 404 ("No handler for " +:+ method), d).

(** A request that passed authentication. *)
Definition serve_call (d : Device) (method : string) (params : option value) : reply * Device :=
  dispatch (record_call (MkCall method params) d) method params.

(** ** POST /rpc *)

(** [writeJSON] of [rpcResult] and [rpcError]: a 200 whose body decodes to these
    members.  A dropped connection is a transport error. *)
Definition write_reply (r : reply) : res string response :=
  match r with
  | Result v => Ok (MkResponse StatusOK "200 OK" "" "" (Ok (MkRpcResponse (Some v) None)))
  | Failure code msg =>
      Ok (MkResponse StatusOK "200 OK" "" ""
            (Ok (MkRpcResponse None (Some (MkRPCError code msg)))))
  | Dropped => Err "EOF"
  end.

(** The request body: method and raw params ([None] when absent). *)
Definition to_request (v : value) : res string (string * option value) :=
  try m := to_map v in
  try _ := to_int (got m "id") in
  try method := to_string (got m "method") in
  Ok (method, pick m "params").

Definition unauthorized `{Fmt} (d : Device) : response :=
  MkResponse StatusUnauthorized "401 Unauthorized" (challenge_header d.(fd_setup).(fd_ID)) ""
    (Err "EOF").

(** [header] is the Authorization header, [body] the JSON document of the body. *)
Definition handleRPC `{Fmt, Sha256} (d : Device) (header : string) (body : res string value)
  : res string response * Device :=
  if negb (String.eqb d.(fd_ha1) "")
     && negb (authorized d.(fd_setup).(fd_ID) d.(fd_ha1) header)
  then (Ok (unauthorized d), count_challenge d)
  else match (try v := body in to_request v) with
       | Err e => (Ok (MkResponse 400 "400 Bad Request" "" e (Err e)), d)
       | Ok (method, params) =>
           let '(r, d) := serve_call d method params in (write_reply r, d)
       end.
End Handlers.
