(* ===== verification/Wire.v ===== *)
(** * A call over HTTP refines a call on the device

    The operation [OCall] of Effects.v is one atomic step on a device; the code
    makes it several HTTP requests with a digest exchange.  Against the fake
    device, behind any cached challenge and any history of requests, [Client.Call]
    returns what the atomic step returns and leaves the device where the atomic
    step leaves it, up to the count of challenges. *)

From stdpp Require Import prelude gmap strings pretty sorting list.
From Stdlib Require Import SpecFloat Ascii.
From S2P Require Import Prelude Json Api Diff Shelly Effects Render Client Decode Rpc Digest FakeDevice.

(** [json.Unmarshal] of a text. *)
Class JsonParse : Type := {
  json_Unmarshal : string → res string value;
}.

(** Well-formed UTF-8: [n] continuation bytes are due, the next one between [lo]
    and [hi]. *)
Fixpoint utf8_from (n : nat) (lo hi : N) (s : string) : bool :=
  match s with
  | EmptyString => Nat.eqb n 0
  | String c s =>
      let b := N_of_ascii c in
      match n with
      | S n => (lo <=? b)%N && (b <=? hi)%N && utf8_from n 128 191 s
      | O =>
          if (b <? 128)%N then utf8_from 0 128 191 s
          else if (b <? 194)%N then false
          else if (b <? 224)%N then utf8_from 1 128 191 s
          else if (b =? 224)%N then utf8_from 2 160 191 s
          else if (b =? 237)%N then utf8_from 2 128 159 s
          else if (b <? 240)%N then utf8_from 2 128 191 s
          else if (b =? 240)%N then utf8_from 3 144 191 s
          else if (b <? 244)%N then utf8_from 3 128 191 s
          else if (b =? 244)%N then utf8_from 3 128 143 s
          else false
      end
  end.

Definition utf8 (s : string) : bool := utf8_from 0 128 191 s.

(** A finite float64. *)
Definition finite64 (f : spec_float) : bool :=
  match f with
  | S754_zero _ => true
  | S754_finite _ m e => bounded 53 1024 m e
  | _ => false
  end.

(** What a JSON text carries unchanged: no infinities, no NaN, UTF-8 text. *)
Inductive jsonable : value → Prop :=
| jsonable_null : jsonable VNull
| jsonable_bool b : jsonable (VBool b)
| jsonable_num f : finite64 f = true → jsonable (VNum f)
| jsonable_str s : utf8 s = true → jsonable (VStr s)
| jsonable_arr l : (∀ v, v ∈ l → jsonable v) → jsonable (VArr l)
| jsonable_obj m : (∀ k v, m !! k = Some v → utf8 k = true ∧ jsonable v) → jsonable (VObj m).

(** The same, computed. *)
Fixpoint jsonable_b (v : value) : bool :=
  match v with
  | VNull | VBool _ => true
  | VNum f => finite64 f
  | VStr s => utf8 s
  | VArr l => forallb jsonable_b l
  | VObj m => map_fold (λ k v acc, (utf8 k && jsonable_b v) && acc) true m
  end.

Lemma jsonable_b_sound v : jsonable_b v = true → jsonable v.
Proof.
  induction v as [|b|f|s|l IH|m IH] using value_ind'; intros Hb; [by constructor..| |].
  - apply jsonable_arr. intros v Hv. rewrite Forall_forall in IH.
    apply IH; [done|]. cbn in Hb. rewrite forallb_forall in Hb.
    apply Hb. by apply list_elem_of_In.
  - apply jsonable_obj. intros k v Hk. cbn in Hb.
    apply (map_fold_andb (λ k v, utf8 k && jsonable_b v)) with (k := k) (v := v) in Hb; [|done].
    apply andb_true_iff in Hb as [Hu Hb]. split; [done|]. by apply (IH k v).
Qed.

Lemma jsonable_obj_inv m k v : jsonable (VObj m) → m !! k = Some v → utf8 k = true ∧ jsonable v.
Proof. inversion 1; subst. eauto. Qed.

Lemma jsonable_empty : jsonable (VObj ∅).
Proof. apply jsonable_obj. intros k v Hk. by rewrite lookup_empty in Hk. Qed.

Lemma jsonable_insert k v m :
  utf8 k = true → jsonable v → jsonable (VObj m) → jsonable (VObj (<[k := v]> m)).
Proof.
  intros Hk Hv Hm. apply jsonable_obj. intros i w Hi.
  apply lookup_insert_Some in Hi as [[<- <-]|[_ Hi]]; [done|]. by apply (jsonable_obj_inv m).
Qed.

Lemma jsonable_singleton k v : utf8 k = true → jsonable v → jsonable (VObj {[k := v]}).
Proof. intros. apply jsonable_insert; [done..|apply jsonable_empty]. Qed.

(** Seven-bit text is UTF-8. *)
Definition is_ascii (c : ascii) : bool := (N_of_ascii c <? 128)%N.

Lemma utf8_ascii s : str_all is_ascii s = true → utf8 s = true.
Proof.
  unfold utf8. induction s as [|c s IH]; [done|]. cbn. unfold is_ascii. rewrite andb_true_iff.
  intros [-> Hs]. by apply IH.
Qed.

(** Integers a float64 holds exactly. *)
Lemma binary_round_finite s p :
  (Z.pos p < 2 ^ 53)%Z → finite64 (binary_round 53 1024 s p 0) = true.
Proof.
  intros Hp. destruct (binary_round_exact s p Hp) as (m & d & -> & Hd & _ & Hm & Hd').
  cbn [finite64]. unfold bounded, canonical_mantissa, fexp, emin.
  rewrite digits2_log2, Hm. apply andb_true_iff. split; [apply Z.eqb_eq; lia|apply Z.leb_le; lia].
Qed.

Lemma jsonable_vint z : (Z.abs z < 2 ^ 53)%Z → jsonable (vint z).
Proof.
  intros Hz. constructor. unfold float64_of_Z, binary_normalize.
  destruct z as [|p|p]; [done|apply binary_round_finite; lia..].
Qed.

(** A marshalled document parses back. *)
Class JsonLaw `{JsonText, JsonParse} : Prop := {
  unmarshal_marshal v : jsonable v →
    ∃ text, json_Marshal v = Ok text ∧ json_Unmarshal text = Ok v;
}.

(** ** The atomic step *)

(** The device lets this client in. *)
Definition accepts `{Sha256} (d : Device) (c : Client) : bool :=
  String.eqb d.(fd_ha1) ""
  || (negb (String.eqb c.(cl_password) "")
      && String.eqb d.(fd_ha1) (device_ha1 d.(fd_setup).(fd_ID) c.(cl_password))).

Definition http_reply (r : reply) : res error response :=
  match write_reply r with Ok resp => Ok resp | Err e => Err (errorf e) end.

Definition device_call `{Sha256} (d : Device) (c : Client) (method : string)
  (params : option obj) (a : answer) : res error (answer_type a) * Device :=
  if accepts d c then
    let '(r, d) := serve_call spelled d method (VObj <$> params) in
    (call_outcome c method (zero_answer a) (decode_answer a) (http_reply r), d)
  else (Err (MkError EAuth ("shelly: authentication failed for " +:+ c.(cl_host))), d).

(** ** The device as an HTTP server *)

Section Server.
Context `{Fmt, JsonText, Sha256, JsonParse}.

Definition rpc_step (d : Device) (rq : request) : res string response * Device :=
  handleRPC spelled d (header_of rq) (json_Unmarshal rq.(rq_payload)).

(** The device after a log of requests. *)
Definition after (d : Device) (log : list request) : Device :=
  foldl (λ d rq, (rpc_step d rq).2) d log.

Definition device_env (d : Device) (cancelled : nat → bool) (random : nat → list Z) : env :=
  MkEnv (λ log, match last log with
                | Some rq => (rpc_step (after d (take (pred (length log)) log)) rq).1
                | None => Err "no request"
                end) cancelled random (λ _, None).

Lemma after_snoc d log rq : after d (log ++ [rq]) = (rpc_step (after d log) rq).2.
Proof. unfold after. by rewrite foldl_app. Qed.

Lemma device_env_snoc d cancelled random log rq :
  (device_env d cancelled random).(env_answer) (log ++ [rq]) = (rpc_step (after d log) rq).1.
Proof.
  cbn. rewrite last_snoc, length_app. cbn. rewrite Nat.add_1_r. cbn. by rewrite take_app_length.
Qed.
End Server.

(** Challenges are counted and otherwise ignored. *)
Lemma serve_call_challenge d method params :
  serve_call spelled (count_challenge d) method params =
  let '(r, d') := serve_call spelled d method params in (r, count_challenge d').
Proof.
  destruct d. unfold serve_call, dispatch, record_call, count_challenge. cbn.
  unfold handleGetConfig, handleSetAuth, handleReboot, handleUpdate, handleScheduleCreate, handleScheduleUpdate,
    handleScheduleDelete, handleSetConfig. cbn.
  repeat case_match; simplify_eq/=; done.
Qed.

(** ** The refinement *)

Section Refinement.
Context `{Fmt, JsonText, Sha256, JsonParse, !QuoteLaw, !Sha256Law, !JsonLaw}.
Context (d0 : Device) (cancelled : nat → bool) (random : nat → list Z).
Abbreviation E := (device_env d0 cancelled random).

Lemma jsonable_request method (params : option obj) :
  utf8 method = true → (∀ p, params = Some p → jsonable (VObj p)) →
  jsonable (request_doc method (VObj <$> params)).
Proof.
  intros Hm Hp. assert (Hbase : jsonable (VObj {["id" := VNum (float64_of_Z 1); "method" := VStr method]})).
  { apply jsonable_insert; [done|by apply (jsonable_vint 1)|]. apply jsonable_singleton; [done|by constructor]. }
  unfold request_doc. destruct params as [p|]; [|done]. cbn. apply jsonable_insert; [done|by apply Hp|done].
Qed.

Lemma to_request_doc method params :
  to_request spelled (request_doc method params) = Ok (method, params).
Proof.
  unfold to_request, request_doc, to_map, got. cbn [unmarshal_map res_bind].
  assert (Hi : ∀ m : obj, m !! "id" = Some (VNum (float64_of_Z 1)) →
    m !! "method" = Some (VStr method) → spelled m "params" = params →
    (try _ := to_int (default VNull (spelled m "id")) in
     try method := to_string (default VNull (spelled m "method")) in Ok (method, spelled m "params"))
    = Ok (method, params)).
  { intros m Hi Hm ->. rewrite (spelled_exact _ _ _ Hi), (spelled_exact _ _ _ Hm).
    change (VNum (float64_of_Z 1)) with (vint 1). cbn [from_option id to_string].
    by rewrite (to_int_vint 1). }
  apply Hi; destruct params; cbn; [by simplify_map_eq..|by apply spelled_exact; simplify_map_eq|reflexivity].
Qed.

(** The text of a request, and what the device reads from it. *)
Definition request_text (method : string) (params : option value) (payload : string) : Prop :=
  rpcRequest method params = Ok payload ∧ json_Unmarshal payload = Ok (request_doc method params).

Lemma jsonable_request_text method params :
  jsonable (request_doc method params) → ∃ payload, request_text method params payload.
Proof. apply unmarshal_marshal. Qed.

(** A request with the call's payload: challenged, or served. *)
Lemma rpc_step_request d method params rq :
  request_text method params rq.(rq_payload) →
  rpc_step d rq =
  if negb (String.eqb d.(fd_ha1) "")
     && negb (authorized d.(fd_setup).(fd_ID) d.(fd_ha1) (header_of rq))
  then (Ok (unauthorized d), count_challenge d)
  else let '(r, d') := serve_call spelled d method params in (write_reply r, d').
Proof.
  intros [_ Hrq]. unfold rpc_step, handleRPC. case_match; [done|].
  rewrite Hrq. cbn [res_bind]. by rewrite to_request_doc.
Qed.

(** What one request of the call does, as an answer and a state. *)
Lemma send_device c method params payload st r st' :
  request_text method params payload →
  send_with_auth E c payload st = (r, st') →
  let d := after d0 st.(st_log) in
  (r = Ok (unauthorized d) ∧ after d0 st'.(st_log) = count_challenge d ∧ d.(fd_ha1) ≠ "")
  ∨ (let '(rep, d') := serve_call spelled d method params in
     r = http_reply rep ∧ after d0 st'.(st_log) = d').
Proof.
  intros Hp Hs d. unfold send_with_auth in Hs.
  destruct (authHeader E (cl_password c) st) as [auth st0] eqn:Hauth.
  assert (Hl : st_log st0 = st_log st).
  { revert Hauth. unfold authHeader. repeat case_match; intros [= <- <-]; done. }
  unfold send in Hs. cbn [env_url device_env] in Hs. rewrite device_env_snoc, Hl in Hs.
  injection Hs as <- <-. cbn [st_log].
  rewrite after_snoc, (rpc_step_request _ method params (MkRequest _ _) Hp). fold d.
  destruct (String.eqb_spec (fd_ha1 d) "") as [He|He]; cbn [negb andb].
  - right. unfold http_reply. by destruct (serve_call spelled d method params).
  - destruct (authorized _ _ _); cbn [negb]; [right|by left].
    unfold http_reply. by destruct (serve_call spelled d method params).
Qed.

(** ... and the one that answers the device's challenge. *)
Lemma send_device_answer c method params payload st r st' :
  request_text method params payload →
  let d := after d0 st.(st_log) in
  str_all is_plain d.(fd_setup).(fd_ID) = true → c.(cl_password) ≠ "" →
  d.(fd_ha1) = device_ha1 d.(fd_setup).(fd_ID) c.(cl_password) →
  send_with_auth E c payload
    (set_auth (MkDigest d.(fd_setup).(fd_ID) testNonce 0) st) = (r, st') →
  let '(rep, d') := serve_call spelled d method params in
  r = http_reply rep ∧ after d0 st'.(st_log) = d'.
Proof.
  intros Hp d Hid Hpw%String.eqb_neq Hha Hs.
  unfold send_with_auth, authHeader in Hs. cbn [set_auth st_auth] in Hs. rewrite Hpw in Hs.
  unfold send in Hs. cbn [env_url device_env st_log set_auth] in Hs. rewrite device_env_snoc in Hs.
  injection Hs as <- <-. cbn [st_log].
  rewrite after_snoc, (rpc_step_request _ method params (MkRequest _ _) Hp). fold d.
  unfold header_of. cbn [rq_auth from_option cr_header]. rewrite Hha.
  rewrite digest_header_authorized;
    [|done|done|apply hex_digits_word|apply EncodeToString_word].
  rewrite andb_false_r. unfold http_reply. by destruct (serve_call spelled d method params).
Qed.

(** The device's identity is not something a request changes. *)
Lemma count_challenge_setup d : (count_challenge d).(fd_setup) = d.(fd_setup).
Proof. done. Qed.

Lemma post_device c method params payload st r st' :
  request_text method params payload →
  let d := after d0 st.(st_log) in
  str_all is_plain d.(fd_setup).(fd_ID) = true → d.(fd_setup).(fd_ID) ≠ "" →
  accepts d c = true →
  post E c payload st = (r, st') →
  let '(rep, d') := serve_call spelled d method params in
  r = http_reply rep ∧ ∃ k, after d0 st'.(st_log) = Nat.iter k count_challenge d'.
Proof.
  intros Hp d Hid Hne Hacc. unfold post.
  destruct (send_with_auth E c _ st) as [r1 st1] eqn:Hs1.
  destruct (send_device _ _ _ _ _ _ _ Hp Hs1) as [(-> & Hd1 & Hha)|Hserved]; fold d in Hserved || fold d in Hd1, Hha.
  - unfold unauthorized. cbn [rsp_code rsp_challenge].
    unfold accepts in Hacc. apply orb_true_iff in Hacc as [Hacc%String.eqb_eq|Hacc]; [done|].
    apply andb_true_iff in Hacc as [Hpw%negb_true_iff Hha1%String.eqb_eq].
    change (StatusUnauthorized =? StatusUnauthorized)%Z with true. rewrite Hpw. cbn [negb orb].
    rewrite setChallenge_device by done. intros Hs2.
    pose proof (send_device_answer c method params payload st1 r st' Hp) as Hans. cbn zeta in Hans.
    rewrite Hd1, count_challenge_setup in Hans.
    specialize (Hans Hid (proj1 (String.eqb_neq _ _) Hpw) Hha1 Hs2).
    rewrite serve_call_challenge in Hans. destruct (serve_call spelled d method params) as [rep d'].
    destruct Hans as [-> ->]. split; [done|]. by exists 1.
  - destruct (serve_call spelled d method params) as [rep d'] eqn:Hserve. destruct Hserved as [-> Hd1].
    unfold http_reply, write_reply.
    destruct rep; cbn; intros [= <- <-]; (split; [done|]; by exists 0).
Qed.

(** The RPC client implements the atomic call.  Let the fake device have seen
    any requests before and the client have any challenge cached.  If the device
    lets the client in, [Client.Call] of a request that JSON can carry, with its
    digest exchange and its retries, returns exactly what one atomic step of the
    device returns (result, RPC error, lost connection or undecodable result
    alike), and the device is afterwards where that step leaves it, up to how
    often it challenged. *)
Theorem Call_refines_device_call c method params a st r st' :
  jsonable (request_doc method (VObj <$> params)) →
  let d := after d0 st.(st_log) in
  str_all is_plain d.(fd_setup).(fd_ID) = true → d.(fd_setup).(fd_ID) ≠ "" →
  accepts d c = true →
  Call E c method (VObj <$> params) (zero_answer a) (decode_answer a) st = (r, st') →
  r = (device_call d c method params a).1 ∧
  ∃ k, after d0 st'.(st_log) = Nat.iter k count_challenge (device_call d c method params a).2.
Proof.
  intros [payload Hp]%jsonable_request_text d Hid Hne Hacc. unfold Call, postRetrying, tooManyRequestsRetries.
  rewrite (proj1 Hp). cbn [post_retrying]. destruct (post E c payload st) as [r1 st1] eqn:Hpost.
  apply (post_device c method (VObj <$> params)) in Hpost; [|done..]. fold d in Hpost.
  unfold device_call. rewrite Hacc. destruct (serve_call spelled d method _) as [rep d'].
  destruct Hpost as [-> Hk]. unfold http_reply, write_reply.
  destruct rep; cbn; intros [= <- <-]; by split.
Qed.
End Refinement.
