(* ===== verification/Memory.v ===== *)
(** * Go memory: pointers, slices and what is reachable through them

    Elsewhere in this development a Go struct is a value.  Here it is what it is
    in memory: a record whose pointer, slice and map fields are references into a
    heap.  [mem] is a computation on the heap, [rd] a traversal that returns what
    it read together with the cells it read (its footprint).  [Copier] says of a
    function that it makes deep copies: what it returns reads the same, through
    cells that did not exist before. *)

From stdpp Require Import prelude gmap list option fin_maps fin_map_dom.

Abbreviation loc := positive.

(** A pointer to an [A]; a slice of [A]s: an array, an offset and a length; a
    reference to a map.  Each may be nil. *)
Inductive ptr (A : Type) : Type := Nil | Ref (l : loc).
Arguments Nil {A}.
Arguments Ref {A} l.

Inductive slice (A : Type) : Type := NilSlice | Slice (array : loc) (off len : nat).
Arguments NilSlice {A}.
Arguments Slice {A} array off len.

(** Memory: cells at addresses. *)
Abbreviation heap cell := (gmap loc cell).

Section Memory.
Context {cell : Type}.

(** How values of a type are stored in cells. *)
Class Cell (A : Type) : Type := {
  to_cell : A → cell;
  of_cell : cell → option A;
  of_to_cell x : of_cell (to_cell x) = Some x;
}.

(** ** Computations; [None] is a panic *)

Definition mem (A : Type) : Type := heap cell → option (A * heap cell).

#[global] Instance mem_ret : MRet mem := λ A x h, Some (x, h).
#[global] Instance mem_bind : MBind mem := λ A B k m h,
  match m h with Some (x, h') => k x h' | None => None end.

Definition load {A} `{Cell A} (l : loc) : mem A := λ h,
  (λ x, (x, h)) <$> (h !! l ≫= of_cell).

(** A cell that is not in use. *)
Definition alloc {A} `{Cell A} (x : A) : mem loc := λ h,
  let l := fresh (dom h) in Some (l, <[l := to_cell x]> h).

Definition load_slice {A} `{Cell (list A)} (a : loc) (off len : nat) : mem (list A) :=
  λ h, match load a h with
       | Some (xs, h') =>
           if decide (off + len ≤ length xs) then Some (take len (drop off xs), h') else None
       | None => None
       end.

Fixpoint each_copy {A} (f : A → mem A) (xs : list A) : mem (list A) :=
  match xs with
  | [] => mret []
  | x :: xs => y ← f x; ys ← each_copy f xs; mret (y :: ys)
  end.

(** [if in != nil], a [new(T)] filled by the [DeepCopyInto] of what [in] points at;
    and the body of [DeepCopy].  The new cell is taken once its contents are known; nothing can
    see it before. *)
Definition new_copy {A} `{Cell A} (f : A → mem A) (p : ptr A) : mem (ptr A) :=
  match p with
  | Nil => mret Nil
  | Ref l => x ← load l; y ← f x; l' ← alloc y; mret (Ref l')
  end.

(** [if in != nil], a [new(T)] assigned what [in] points at. *)
Definition new_assign {A} `{Cell A} (p : ptr A) : mem (ptr A) := new_copy mret p.

(** [if in != nil], a [make([]T, len(in))] and [DeepCopyInto] on each element. *)
Definition make_copy {A} `{Cell (list A)} (f : A → mem A) (s : slice A) : mem (slice A) :=
  match s with
  | NilSlice => mret NilSlice
  | Slice a off len =>
      xs ← load_slice a off len; ys ← each_copy f xs; a' ← alloc ys; mret (Slice a' 0 len)
  end.

(** [if in != nil], a [make([]T, len(in))] filled by [copy]. *)
Definition make_assign {A} `{Cell (list A)} (s : slice A) : mem (slice A) := make_copy mret s.

(** ** Traversals *)

Definition rd (P : Type) : Type := heap cell → option (P * gset loc).

#[global] Instance rd_ret : MRet rd := λ P x h, Some (x, ∅).
#[global] Instance rd_bind : MBind rd := λ P Q k r h,
  match r h with
  | Some (x, F) => match k x h with Some (y, G) => Some (y, F ∪ G) | None => None end
  | None => None
  end.

Definition rload {A} `{Cell A} (l : loc) : rd A := λ h,
  (λ x, (x, {[l]})) <$> (h !! l ≫= of_cell).

Definition rguard (b : bool) : rd unit := λ h, if b then Some (tt, ∅) else None.

Fixpoint each_rd {A P} (f : A → rd P) (xs : list A) : rd (list P) :=
  match xs with
  | [] => mret []
  | x :: xs => y ← f x; ys ← each_rd f xs; mret (y :: ys)
  end.

(** [r] reads [p] in [h]. *)
Definition reads {P} (h : heap cell) (r : rd P) (p : P) : Prop := ∃ F, r h = Some (p, F).

(** What is read depends on the footprint only, and the footprint is allocated. *)
Class Framed {P} (r : rd P) : Prop := framed : ∀ h p F,
  r h = Some (p, F) → F ⊆ dom h ∧ ∀ h', (∀ l, l ∈ F → h' !! l = h !! l) → r h' = Some (p, F).

#[global] Instance framed_ret {P} (x : P) : Framed (mret x : rd P).
Proof. intros h p F [= <- <-]. split; [set_solver|done]. Qed.

#[global] Instance framed_bind {P Q} (r : rd P) (k : P → rd Q) :
  Framed r → (∀ x, Framed (k x)) → Framed (r ≫= k).
Proof.
  intros Hr Hk h p F. unfold mbind, rd_bind.
  destruct (r h) as [[x G]|] eqn:Hx; [|done]. destruct (k x h) as [[y G']|] eqn:Hy; [|done].
  intros [= <- <-]. destruct (Hr _ _ _ Hx) as [? Hr']. destruct (Hk _ _ _ _ Hy) as [? Hk'].
  split; [set_solver|]. intros h' Hh'. rewrite Hr' by (intros; apply Hh'; set_solver).
  by rewrite Hk' by (intros; apply Hh'; set_solver).
Qed.

#[global] Instance framed_load {A} `{Cell A} l : Framed (rload l : rd A).
Proof.
  intros h p F. unfold rload. destruct (h !! l) as [c|] eqn:Hl; [|done]. cbn.
  destruct (of_cell c) as [x|] eqn:Hc; [|done]. intros [= <- <-]. split.
  - apply singleton_subseteq_l, elem_of_dom. eauto.
  - intros h' Hh'. rewrite Hh', Hl by set_solver. cbn. by rewrite Hc.
Qed.

#[global] Instance framed_guard b : Framed (rguard b).
Proof. intros h p F. unfold rguard. destruct b; [|done]. intros [= <- <-]. split; [set_solver|done]. Qed.

#[global] Instance framed_each {A P} (f : A → rd P) xs :
  (∀ x, Framed (f x)) → Framed (each_rd f xs).
Proof. intros Hf. induction xs as [|x xs IH]; cbn; apply _. Qed.

Lemma framed_mono {P} (r : rd P) `{!Framed r} h h' p F :
  h ⊆ h' → r h = Some (p, F) → r h' = Some (p, F).
Proof.
  intros Hsub Hr. destruct (framed _ _ _ Hr) as [Hd Hf]. apply Hf. intros l Hl.
  apply Hd, elem_of_dom in Hl as [c Hc]. rewrite Hc. by eapply lookup_weaken.
Qed.

Lemma reads_mono {P} (r : rd P) `{!Framed r} h h' p : h ⊆ h' → reads h r p → reads h' r p.
Proof. intros Hsub [F HF]. exists F. by eapply framed_mono. Qed.

Lemma reads_ret {P} h (x p : P) : reads h (mret x : rd P) p → p = x.
Proof. by intros [F [= <- _]]. Qed.

Lemma reads_bind {P Q} h (r : rd P) (k : P → rd Q) q :
  reads h (r ≫= k) q → ∃ p, reads h r p ∧ reads h (k p) q.
Proof.
  intros [F HF]. unfold mbind, rd_bind in HF. destruct (r h) as [[p G]|] eqn:Hr; [|done].
  destruct (k p h) as [[y G']|] eqn:Hk; [|done]. injection HF as <- _.
  exists p. split; [by exists G|by exists G'].
Qed.

(** ** Fresh structures *)

(** [r] reads [p] in [h], through cells that are not in [h0]. *)
Definition freshly {P} (h0 h : heap cell) (r : rd P) (p : P) : Prop :=
  ∃ F, r h = Some (p, F) ∧ F ## dom h0.

Lemma freshly_ret {P} h0 h (x : P) : freshly h0 h (mret x : rd P) x.
Proof. exists ∅. split; [done|set_solver]. Qed.

Lemma freshly_bind {P Q} h0 h (r : rd P) (k : P → rd Q) p q :
  freshly h0 h r p → freshly h0 h (k p) q → freshly h0 h (r ≫= k) q.
Proof.
  intros (F & HF & ?) (G & HG & ?). exists (F ∪ G). split; [|set_solver].
  unfold mbind, rd_bind. by rewrite HF, HG.
Qed.

Lemma freshly_mono {P} (r : rd P) `{!Framed r} h0 h1 h h' p :
  h0 ⊆ h1 → h ⊆ h' → freshly h1 h r p → freshly h0 h' r p.
Proof.
  intros H01%subseteq_dom Hsub (F & HF & ?). exists F. split; [by eapply framed_mono|set_solver].
Qed.

Lemma freshly_load {A} `{Cell A} h0 h (x : A) l :
  h !! l = Some (to_cell x) → l ∉ dom h0 → freshly h0 h (rload l) x.
Proof.
  intros Hl Hn. exists {[l]}. split; [|set_solver]. unfold rload. rewrite Hl. cbn. by rewrite of_to_cell.
Qed.

(** [m] run in [h] returns; it only adds to the heap; its result satisfies [Q]. *)
Definition extends {A} (h : heap cell) (m : mem A) (Q : A → heap cell → Prop) : Prop :=
  ∃ a h', m h = Some (a, h') ∧ h ⊆ h' ∧ Q a h'.

Lemma extends_ret {A} h (x : A) (Q : A → heap cell → Prop) : Q x h → extends h (mret x) Q.
Proof. intros HQ. by exists x, h. Qed.

Lemma extends_bind {A B} h (m : mem A) (k : A → mem B) Q :
  extends h m (λ a h', extends h' (k a) Q) → extends h (m ≫= k) Q.
Proof.
  intros (a & h1 & Hm & Hs & b & h2 & Hk & Hs2 & HQ). exists b, h2.
  split_and!; [|by etrans|done]. unfold mbind, mem_bind. by rewrite Hm.
Qed.

Lemma extends_mono {A} h (m : mem A) (Q Q' : A → heap cell → Prop) :
  extends h m Q → (∀ a h', h ⊆ h' → Q a h' → Q' a h') → extends h m Q'.
Proof. intros (a & h' & ? & ? & ?) HQ. exists a, h'. auto. Qed.

Lemma extends_load {A} `{Cell A} h l (x : A) (Q : A → heap cell → Prop) :
  reads h (rload l) x → Q x h → extends h (load l) Q.
Proof.
  intros [F HF] HQ. exists x, h. split_and!; [|done..]. unfold rload, load in *.
  destruct (h !! l ≫= of_cell); [|done]. by injection HF as <- _.
Qed.

Lemma extends_load_slice {A} `{Cell (list A)} h l (xs : list A) off len (Q : list A → heap cell → Prop) :
  reads h (rload l) xs → off + len ≤ length xs → Q (take len (drop off xs)) h →
  extends h (load_slice l off len) Q.
Proof.
  intros Hxs Hlen HQ. exists (take len (drop off xs)), h. split_and!; [|done..].
  destruct (extends_load h l xs (λ x h', x = xs ∧ h' = h) Hxs) as (? & ? & Hl & _ & -> & ->); [done|].
  unfold load_slice. by rewrite Hl, decide_True.
Qed.

Lemma extends_alloc {A} `{Cell A} h (x : A) (Q : loc → heap cell → Prop) :
  (∀ l, l ∉ dom h → Q l (<[l := to_cell x]> h)) → extends h (alloc x) Q.
Proof.
  intros HQ. assert (Hf : fresh (dom h) ∉ dom h) by apply is_fresh.
  exists (fresh (dom h)), (<[fresh (dom h) := to_cell x]> h). split_and!; [done| |auto].
  by apply insert_subseteq, not_elem_of_dom.
Qed.

(** ** Deep copies *)

(** How a type in memory is read: the value that all the references from it make
    up. *)
Class View (A P : Type) : Type := view : A → rd P.
Class FramedView (A P : Type) `{View A P} : Prop := framed_view : ∀ x : A, Framed (view (P := P) x).
#[global] Existing Instance framed_view.

Class Copier {A P} `{View A P} (f : A → mem A) : Prop := copies : ∀ h x p,
  reads h (view x) p → extends h (f x) (λ y h', freshly h h' (view y) p).

(** *** Pointers *)

Context {A P : Type} `{!View A P, !FramedView A P}.

#[global] Instance view_ptr `{Cell A} : View (ptr A) (option P) := λ p,
  match p with
  | Nil => mret None
  | Ref l => x ← rload l; v ← view x; mret (Some v)
  end.

#[global] Instance framed_ptr `{Cell A} : FramedView (ptr A) (option P).
Proof. intros []; cbn; apply _. Qed.

#[global] Instance copier_ptr `{Cell A} (f : A → mem A) : Copier f → Copier (new_copy f).
Proof.
  intros Hf h [|l] p Hp.
  - apply reads_ret in Hp as ->. apply extends_ret, freshly_ret.
  - cbn in Hp. apply reads_bind in Hp as (x & Hx & Hp). apply reads_bind in Hp as (v & Hv & ->%reads_ret).
    cbn. apply extends_bind. eapply extends_load; [exact Hx|].
    apply extends_bind. eapply extends_mono; [by apply Hf|]. intros y h1 Hs1 Hy.
    apply extends_bind, extends_alloc. intros l' Hl'.
    assert (Hs2 : h1 ⊆ <[l' := to_cell y]> h1) by (by apply insert_subseteq, not_elem_of_dom).
    apply extends_ret. cbn. eapply freshly_bind; [apply freshly_load; [apply lookup_insert_eq|]|].
    { apply subseteq_dom in Hs1. set_solver. }
    eapply freshly_bind; [|apply freshly_ret]. exact (freshly_mono _ _ _ _ _ _ (reflexivity _) Hs2 Hy).
Qed.

(** *** Slices *)

#[global] Instance view_slice `{Cell (list A)} : View (slice A) (list P) := λ s,
  match s with
  | NilSlice => mret []
  | Slice a off len =>
      xs ← rload a; _ ← rguard (bool_decide (off + len ≤ length xs));
      each_rd view (take len (drop off xs))
  end.

#[global] Instance framed_slice `{Cell (list A)} : FramedView (slice A) (list P).
Proof. intros []; cbn; apply _. Qed.

Lemma copies_each (f : A → mem A) `{!Copier f} xs : ∀ h ps,
  reads h (each_rd view xs) ps →
  extends h (each_copy f xs) (λ ys h', freshly h h' (each_rd view ys) ps ∧ length ys = length xs).
Proof.
  induction xs as [|x xs IH]; intros h ps Hps; cbn in *.
  - apply reads_ret in Hps as ->. apply extends_ret. split; [apply freshly_ret|done].
  - apply reads_bind in Hps as (p & Hp & Hps). apply reads_bind in Hps as (ps' & Hps & ->%reads_ret).
    apply extends_bind. eapply extends_mono; [by apply copies|]. intros y h1 Hs1 Hy.
    apply extends_bind. eapply extends_mono; [apply IH, (reads_mono _ _ _ _ Hs1 Hps)|].
    intros ys h2 Hs2 [Hys Hlen]. apply extends_ret. split; [|by cbn; rewrite Hlen]. cbn.
    eapply freshly_bind; [exact (freshly_mono _ _ _ _ _ _ (reflexivity _) Hs2 Hy)|].
    eapply freshly_bind; [|apply freshly_ret]. exact (freshly_mono _ _ _ _ _ _ Hs1 (reflexivity _) Hys).
Qed.

#[global] Instance copier_slice `{Cell (list A)} (f : A → mem A) : Copier f → Copier (make_copy f).
Proof.
  intros Hf h [|a off len] ps Hps.
  - apply reads_ret in Hps as ->. apply extends_ret, freshly_ret.
  - cbn in Hps. apply reads_bind in Hps as (xs & Hxs & Hps). apply reads_bind in Hps as (u & Hu & Hps).
    destruct Hu as [F Hu]. unfold rguard in Hu. case_bool_decide as Hb; [|done]. clear Hu.
    cbn. apply extends_bind, (extends_load_slice _ _ xs); [done..|].
    apply extends_bind. eapply extends_mono; [by apply copies_each|]. intros ys h1 Hs1 [Hys Hlen].
    rewrite length_take_le in Hlen by (rewrite length_drop; lia).
    apply extends_bind, extends_alloc. intros l' Hl'.
    assert (Hs2 : h1 ⊆ <[l' := to_cell ys]> h1) by (by apply insert_subseteq, not_elem_of_dom).
    apply extends_ret. cbn. eapply freshly_bind; [apply freshly_load; [apply lookup_insert_eq|]|].
    { apply subseteq_dom in Hs1. set_solver. }
    eapply (freshly_bind _ _ _ _ tt).
    { exists ∅. unfold rguard. rewrite bool_decide_true by lia. split; [done|set_solver]. }
    rewrite drop_0, take_ge by lia. exact (freshly_mono _ _ _ _ _ _ (reflexivity _) Hs2 Hys).
Qed.
End Memory.

Arguments mem : clear implicits.
Arguments rd : clear implicits.
Arguments Cell : clear implicits.
