(* ===== verification/Objects.v ===== *)
(** * The API objects in memory

    The structs of api/v1alpha1 with their references: a pointer field is an
    address, a slice an array with bounds, a map a reference.  [view] reads the
    value of Api.v such a struct stands for.  Structs without references
    (SecretKeyRef, NameSection, RebootWindow, ShellyDeviceSpec) are their own value.

    From apimachinery: ObjectMeta, ListMeta, TypeMeta, LabelSelector, Condition and
    Time as data, with the fields Api.v keeps; apiextensions' JSON is raw bytes. *)

From stdpp Require Import prelude gmap strings pretty sorting list.
From Stdlib Require Import Ascii.
From S2P Require Import Prelude Json Api Diff Shelly Effects Wire Memory.

(** ** Records *)

(** [metav1.Time]. *)
Record TimeObj : Type := MkTimeObj { o_time : time }.

Record TypeMeta : Type := MkTypeMeta {
  tm_Kind : string;
  tm_APIVersion : string;
}.

Record ListMeta : Type := MkListMeta {
  lm_ResourceVersion : string;
  lm_Continue : string;
  lm_RemainingItemCount : option Z;
}.

Record ListMetaObj : Type := MkListMetaObj {
  o_lm_ResourceVersion : string;
  o_lm_Continue : string;
  o_lm_RemainingItemCount : ptr Z;
}.

Record ObjectMetaObj : Type := MkObjectMetaObj {
  o_meta_Namespace : string;
  o_meta_Name : string;
  o_meta_Generation : Z;
  o_meta_Labels : ptr (gmap string string);
  o_meta_Annotations : ptr (gmap string string);
}.

Record RequirementObj : Type := MkRequirementObj {
  o_req_Key : string;
  o_req_Operator : string;
  o_req_Values : slice string;
}.

Record LabelSelectorObj : Type := MkLabelSelectorObj {
  o_sel_MatchLabels : ptr (gmap string string);
  o_sel_MatchExpressions : slice RequirementObj;
}.

Record JSONObj : Type := MkJSONObj { o_json_Raw : slice ascii }.

Record AuthSectionObj : Type := MkAuthSectionObj {
  o_auth_Enable : ptr bool;
  o_auth_PasswordSecretRef : ptr SecretKeyRef;
}.

Record BLESectionObj : Type := MkBLESectionObj {
  o_ble_Enable : ptr bool;
}.

Record CloudSectionObj : Type := MkCloudSectionObj {
  o_cloud_Enable : ptr bool;
}.

Record FirmwareSectionObj : Type := MkFirmwareSectionObj {
  o_fw_AutoUpdate : ptr bool;
}.

Record FirmwareUpdateAttemptObj : Type := MkFirmwareUpdateAttemptObj {
  o_fua_Time : TimeObj;
  o_fua_From : string;
  o_fua_Target : string;
  o_fua_Error : string;
  o_fua_Refused : bool;
}.

Record MQTTSectionObj : Type := MkMQTTSectionObj {
  o_mqtt_Enable : ptr bool;
  o_mqtt_Server : string;
}.

Record NightModeObj : Type := MkNightModeObj {
  o_nm_Enable : ptr bool;
  o_nm_Brightness : ptr Z;
  o_nm_ActiveBetween : slice string;
}.

Record ScheduleCallSpecObj : Type := MkScheduleCallSpecObj {
  o_cs_Method : string;
  o_cs_Params : ptr JSONObj;
}.

Record ScheduleJobSpecObj : Type := MkScheduleJobSpecObj {
  o_js_Enable : ptr bool;
  o_js_Timespec : string;
  o_js_Calls : slice ScheduleCallSpecObj;
}.

Record ScheduleSectionObj : Type := MkScheduleSectionObj {
  o_sched_Jobs : slice ScheduleJobSpecObj;
}.

Record SwitchSectionObj : Type := MkSwitchSectionObj {
  o_sw_InitialState : ptr string;
  o_sw_AutoOn : ptr bool;
  o_sw_AutoOnDelay : ptr Z;
  o_sw_AutoOff : ptr bool;
  o_sw_AutoOffDelay : ptr Z;
  o_sw_PowerLimit : ptr Z;
  o_sw_VoltageLimit : ptr Z;
  o_sw_CurrentLimit : ptr Z;
  o_sw_AutorecoverVoltageErrors : ptr bool;
}.

Record SystemSectionObj : Type := MkSystemSectionObj {
  o_sys_EcoMode : ptr bool;
  o_sys_Discoverable : ptr bool;
  o_sys_Timezone : ptr string;
  o_sys_Latitude : ptr string;
  o_sys_Longitude : ptr string;
  o_sys_SNTPServer : ptr string;
  o_sys_DebugLevel : ptr Z;
}.

Record UISectionObj : Type := MkUISectionObj {
  o_ui_LEDMode : ptr string;
  o_ui_NightMode : ptr NightModeObj;
  o_ui_ButtonInMode : ptr string;
}.

Record WSSectionObj : Type := MkWSSectionObj {
  o_ws_Enable : ptr bool;
}.

Record WifiAPObj : Type := MkWifiAPObj {
  o_ap_Enable : ptr bool;
  o_ap_RangeExtender : ptr bool;
}.

Record WifiNetworkObj : Type := MkWifiNetworkObj {
  o_net_Enable : ptr bool;
  o_net_SSID : string;
  o_net_PassSecretRef : ptr SecretKeyRef;
}.

Record WifiRoamObj : Type := MkWifiRoamObj {
  o_roam_RSSIThreshold : ptr Z;
  o_roam_Interval : ptr Z;
}.

Record WifiSectionObj : Type := MkWifiSectionObj {
  o_wifi_Sta : ptr WifiNetworkObj;
  o_wifi_Sta1 : ptr WifiNetworkObj;
  o_wifi_AP : ptr WifiAPObj;
  o_wifi_Roam : ptr WifiRoamObj;
}.

Record ProfileConfigObj : Type := MkProfileConfigObj {
  o_cfg_System : ptr SystemSectionObj;
  o_cfg_Name : ptr NameSection;
  o_cfg_MQTT : ptr MQTTSectionObj;
  o_cfg_Cloud : ptr CloudSectionObj;
  o_cfg_BLE : ptr BLESectionObj;
  o_cfg_WS : ptr WSSectionObj;
  o_cfg_Auth : ptr AuthSectionObj;
  o_cfg_Switch : ptr SwitchSectionObj;
  o_cfg_Wifi : ptr WifiSectionObj;
  o_cfg_Firmware : ptr FirmwareSectionObj;
  o_cfg_Schedules : ptr ScheduleSectionObj;
  o_cfg_UI : ptr UISectionObj;
}.

Record ShellyProfileSpecObj : Type := MkShellyProfileSpecObj {
  o_ps_Selector : ptr LabelSelectorObj;
  o_ps_Priority : Z;
  o_ps_Mode : string;
  o_ps_Config : ProfileConfigObj;
  o_ps_RebootWhenRequired : bool;
  o_ps_RebootWindow : ptr RebootWindow;
  o_ps_UpdateWhenAvailable : bool;
  o_ps_UpdateWindow : ptr RebootWindow;
}.

Record ShellyDeviceStatusObj : Type := MkShellyDeviceStatusObj {
  o_st_Address : string;
  o_st_MAC : string;
  o_st_Model : string;
  o_st_App : string;
  o_st_Gen : Z;
  o_st_Firmware : string;
  o_st_AvailableFirmware : string;
  o_st_AuthEnabled : bool;
  o_st_RestartRequired : bool;
  o_st_LastFirmwareUpdate : ptr FirmwareUpdateAttemptObj;
  o_st_DeviceName : string;
  o_st_Online : bool;
  o_st_LastSeen : ptr TimeObj;
  o_st_MatchedProfile : string;
  o_st_DriftedSections : slice string;
  o_st_Conditions : slice Condition;
}.

Record ShellyDeviceObj : Type := MkShellyDeviceObj {
  o_dev_TypeMeta : TypeMeta;
  o_dev_Meta : ObjectMetaObj;
  o_dev_Spec : ShellyDeviceSpec;
  o_dev_Status : ShellyDeviceStatusObj;
}.

Record ShellyDeviceListObj : Type := MkShellyDeviceListObj {
  o_dl_TypeMeta : TypeMeta;
  o_dl_ListMeta : ListMetaObj;
  o_dl_Items : slice ShellyDeviceObj;
}.

Record ShellyProfileObj : Type := MkShellyProfileObj {
  o_prof_TypeMeta : TypeMeta;
  o_prof_Meta : ObjectMetaObj;
  o_prof_Spec : ShellyProfileSpecObj;
}.

Record ShellyProfileListObj : Type := MkShellyProfileListObj {
  o_pl_TypeMeta : TypeMeta;
  o_pl_ListMeta : ListMetaObj;
  o_pl_Items : slice ShellyProfileObj;
}.

(** ** Cells: everything a reference can point at *)

Inductive cell : Type :=
| CBool (x : bool)
| CInt (x : Z)
| CString (x : string)
| CTime (x : TimeObj)
| CMap (x : gmap string string)
| CBytes (x : list ascii)
| CStrings (x : list string)
| CRequirements (x : list RequirementObj)
| CCalls (x : list ScheduleCallSpecObj)
| CJobs (x : list ScheduleJobSpecObj)
| CConditions (x : list Condition)
| CDevices (x : list ShellyDeviceObj)
| CProfiles (x : list ShellyProfileObj)
| CSecretKeyRef (x : SecretKeyRef)
| CNameSection (x : NameSection)
| CRebootWindow (x : RebootWindow)
| CShellyDeviceSpec (x : ShellyDeviceSpec)
| CLabelSelector (x : LabelSelectorObj)
| CJSON (x : JSONObj)
| CAuthSection (x : AuthSectionObj)
| CBLESection (x : BLESectionObj)
| CCloudSection (x : CloudSectionObj)
| CFirmwareSection (x : FirmwareSectionObj)
| CFirmwareUpdateAttempt (x : FirmwareUpdateAttemptObj)
| CMQTTSection (x : MQTTSectionObj)
| CNightMode (x : NightModeObj)
| CScheduleCallSpec (x : ScheduleCallSpecObj)
| CScheduleJobSpec (x : ScheduleJobSpecObj)
| CScheduleSection (x : ScheduleSectionObj)
| CSwitchSection (x : SwitchSectionObj)
| CSystemSection (x : SystemSectionObj)
| CUISection (x : UISectionObj)
| CWSSection (x : WSSectionObj)
| CWifiAP (x : WifiAPObj)
| CWifiNetwork (x : WifiNetworkObj)
| CWifiRoam (x : WifiRoamObj)
| CWifiSection (x : WifiSectionObj)
| CProfileConfig (x : ProfileConfigObj)
| CShellyProfileSpec (x : ShellyProfileSpecObj)
| CShellyDeviceStatus (x : ShellyDeviceStatusObj)
| CShellyDevice (x : ShellyDeviceObj)
| CShellyDeviceList (x : ShellyDeviceListObj)
| CShellyProfile (x : ShellyProfileObj)
| CShellyProfileList (x : ShellyProfileListObj).

#[global] Instance cell_Bool : Cell cell (bool) := {|
  to_cell := CBool; of_cell c := match c with CBool x => Some x | _ => None end;
  of_to_cell _ := eq_refl |}.
#[global] Instance cell_Int : Cell cell (Z) := {|
  to_cell := CInt; of_cell c := match c with CInt x => Some x | _ => None end;
  of_to_cell _ := eq_refl |}.
#[global] Instance cell_String : Cell cell (string) := {|
  to_cell := CString; of_cell c := match c with CString x => Some x | _ => None end;
  of_to_cell _ := eq_refl |}.
#[global] Instance cell_Time : Cell cell (TimeObj) := {|
  to_cell := CTime; of_cell c := match c with CTime x => Some x | _ => None end;
  of_to_cell _ := eq_refl |}.
#[global] Instance cell_Map : Cell cell (gmap string string) := {|
  to_cell := CMap; of_cell c := match c with CMap x => Some x | _ => None end;
  of_to_cell _ := eq_refl |}.
#[global] Instance cell_Bytes : Cell cell (list ascii) := {|
  to_cell := CBytes; of_cell c := match c with CBytes x => Some x | _ => None end;
  of_to_cell _ := eq_refl |}.
#[global] Instance cell_Strings : Cell cell (list string) := {|
  to_cell := CStrings; of_cell c := match c with CStrings x => Some x | _ => None end;
  of_to_cell _ := eq_refl |}.
#[global] Instance cell_Requirements : Cell cell (list RequirementObj) := {|
  to_cell := CRequirements; of_cell c := match c with CRequirements x => Some x | _ => None end;
  of_to_cell _ := eq_refl |}.
#[global] Instance cell_Calls : Cell cell (list ScheduleCallSpecObj) := {|
  to_cell := CCalls; of_cell c := match c with CCalls x => Some x | _ => None end;
  of_to_cell _ := eq_refl |}.
#[global] Instance cell_Jobs : Cell cell (list ScheduleJobSpecObj) := {|
  to_cell := CJobs; of_cell c := match c with CJobs x => Some x | _ => None end;
  of_to_cell _ := eq_refl |}.
#[global] Instance cell_Conditions : Cell cell (list Condition) := {|
  to_cell := CConditions; of_cell c := match c with CConditions x => Some x | _ => None end;
  of_to_cell _ := eq_refl |}.
#[global] Instance cell_Devices : Cell cell (list ShellyDeviceObj) := {|
  to_cell := CDevices; of_cell c := match c with CDevices x => Some x | _ => None end;
  of_to_cell _ := eq_refl |}.
#[global] Instance cell_Profiles : Cell cell (list ShellyProfileObj) := {|
  to_cell := CProfiles; of_cell c := match c with CProfiles x => Some x | _ => None end;
  of_to_cell _ := eq_refl |}.
#[global] Instance cell_SecretKeyRef : Cell cell (SecretKeyRef) := {|
  to_cell := CSecretKeyRef; of_cell c := match c with CSecretKeyRef x => Some x | _ => None end;
  of_to_cell _ := eq_refl |}.
#[global] Instance cell_NameSection : Cell cell (NameSection) := {|
  to_cell := CNameSection; of_cell c := match c with CNameSection x => Some x | _ => None end;
  of_to_cell _ := eq_refl |}.
#[global] Instance cell_RebootWindow : Cell cell (RebootWindow) := {|
  to_cell := CRebootWindow; of_cell c := match c with CRebootWindow x => Some x | _ => None end;
  of_to_cell _ := eq_refl |}.
#[global] Instance cell_ShellyDeviceSpec : Cell cell (ShellyDeviceSpec) := {|
  to_cell := CShellyDeviceSpec; of_cell c := match c with CShellyDeviceSpec x => Some x | _ => None end;
  of_to_cell _ := eq_refl |}.
#[global] Instance cell_LabelSelector : Cell cell (LabelSelectorObj) := {|
  to_cell := CLabelSelector; of_cell c := match c with CLabelSelector x => Some x | _ => None end;
  of_to_cell _ := eq_refl |}.
#[global] Instance cell_JSON : Cell cell (JSONObj) := {|
  to_cell := CJSON; of_cell c := match c with CJSON x => Some x | _ => None end;
  of_to_cell _ := eq_refl |}.
#[global] Instance cell_AuthSection : Cell cell (AuthSectionObj) := {|
  to_cell := CAuthSection; of_cell c := match c with CAuthSection x => Some x | _ => None end;
  of_to_cell _ := eq_refl |}.
#[global] Instance cell_BLESection : Cell cell (BLESectionObj) := {|
  to_cell := CBLESection; of_cell c := match c with CBLESection x => Some x | _ => None end;
  of_to_cell _ := eq_refl |}.
#[global] Instance cell_CloudSection : Cell cell (CloudSectionObj) := {|
  to_cell := CCloudSection; of_cell c := match c with CCloudSection x => Some x | _ => None end;
  of_to_cell _ := eq_refl |}.
#[global] Instance cell_FirmwareSection : Cell cell (FirmwareSectionObj) := {|
  to_cell := CFirmwareSection; of_cell c := match c with CFirmwareSection x => Some x | _ => None end;
  of_to_cell _ := eq_refl |}.
#[global] Instance cell_FirmwareUpdateAttempt : Cell cell (FirmwareUpdateAttemptObj) := {|
  to_cell := CFirmwareUpdateAttempt; of_cell c := match c with CFirmwareUpdateAttempt x => Some x | _ => None end;
  of_to_cell _ := eq_refl |}.
#[global] Instance cell_MQTTSection : Cell cell (MQTTSectionObj) := {|
  to_cell := CMQTTSection; of_cell c := match c with CMQTTSection x => Some x | _ => None end;
  of_to_cell _ := eq_refl |}.
#[global] Instance cell_NightMode : Cell cell (NightModeObj) := {|
  to_cell := CNightMode; of_cell c := match c with CNightMode x => Some x | _ => None end;
  of_to_cell _ := eq_refl |}.
#[global] Instance cell_ScheduleCallSpec : Cell cell (ScheduleCallSpecObj) := {|
  to_cell := CScheduleCallSpec; of_cell c := match c with CScheduleCallSpec x => Some x | _ => None end;
  of_to_cell _ := eq_refl |}.
#[global] Instance cell_ScheduleJobSpec : Cell cell (ScheduleJobSpecObj) := {|
  to_cell := CScheduleJobSpec; of_cell c := match c with CScheduleJobSpec x => Some x | _ => None end;
  of_to_cell _ := eq_refl |}.
#[global] Instance cell_ScheduleSection : Cell cell (ScheduleSectionObj) := {|
  to_cell := CScheduleSection; of_cell c := match c with CScheduleSection x => Some x | _ => None end;
  of_to_cell _ := eq_refl |}.
#[global] Instance cell_SwitchSection : Cell cell (SwitchSectionObj) := {|
  to_cell := CSwitchSection; of_cell c := match c with CSwitchSection x => Some x | _ => None end;
  of_to_cell _ := eq_refl |}.
#[global] Instance cell_SystemSection : Cell cell (SystemSectionObj) := {|
  to_cell := CSystemSection; of_cell c := match c with CSystemSection x => Some x | _ => None end;
  of_to_cell _ := eq_refl |}.
#[global] Instance cell_UISection : Cell cell (UISectionObj) := {|
  to_cell := CUISection; of_cell c := match c with CUISection x => Some x | _ => None end;
  of_to_cell _ := eq_refl |}.
#[global] Instance cell_WSSection : Cell cell (WSSectionObj) := {|
  to_cell := CWSSection; of_cell c := match c with CWSSection x => Some x | _ => None end;
  of_to_cell _ := eq_refl |}.
#[global] Instance cell_WifiAP : Cell cell (WifiAPObj) := {|
  to_cell := CWifiAP; of_cell c := match c with CWifiAP x => Some x | _ => None end;
  of_to_cell _ := eq_refl |}.
#[global] Instance cell_WifiNetwork : Cell cell (WifiNetworkObj) := {|
  to_cell := CWifiNetwork; of_cell c := match c with CWifiNetwork x => Some x | _ => None end;
  of_to_cell _ := eq_refl |}.
#[global] Instance cell_WifiRoam : Cell cell (WifiRoamObj) := {|
  to_cell := CWifiRoam; of_cell c := match c with CWifiRoam x => Some x | _ => None end;
  of_to_cell _ := eq_refl |}.
#[global] Instance cell_WifiSection : Cell cell (WifiSectionObj) := {|
  to_cell := CWifiSection; of_cell c := match c with CWifiSection x => Some x | _ => None end;
  of_to_cell _ := eq_refl |}.
#[global] Instance cell_ProfileConfig : Cell cell (ProfileConfigObj) := {|
  to_cell := CProfileConfig; of_cell c := match c with CProfileConfig x => Some x | _ => None end;
  of_to_cell _ := eq_refl |}.
#[global] Instance cell_ShellyProfileSpec : Cell cell (ShellyProfileSpecObj) := {|
  to_cell := CShellyProfileSpec; of_cell c := match c with CShellyProfileSpec x => Some x | _ => None end;
  of_to_cell _ := eq_refl |}.
#[global] Instance cell_ShellyDeviceStatus : Cell cell (ShellyDeviceStatusObj) := {|
  to_cell := CShellyDeviceStatus; of_cell c := match c with CShellyDeviceStatus x => Some x | _ => None end;
  of_to_cell _ := eq_refl |}.
#[global] Instance cell_ShellyDevice : Cell cell (ShellyDeviceObj) := {|
  to_cell := CShellyDevice; of_cell c := match c with CShellyDevice x => Some x | _ => None end;
  of_to_cell _ := eq_refl |}.
#[global] Instance cell_ShellyDeviceList : Cell cell (ShellyDeviceListObj) := {|
  to_cell := CShellyDeviceList; of_cell c := match c with CShellyDeviceList x => Some x | _ => None end;
  of_to_cell _ := eq_refl |}.
#[global] Instance cell_ShellyProfile : Cell cell (ShellyProfileObj) := {|
  to_cell := CShellyProfile; of_cell c := match c with CShellyProfile x => Some x | _ => None end;
  of_to_cell _ := eq_refl |}.
#[global] Instance cell_ShellyProfileList : Cell cell (ShellyProfileListObj) := {|
  to_cell := CShellyProfileList; of_cell c := match c with CShellyProfileList x => Some x | _ => None end;
  of_to_cell _ := eq_refl |}.

(** ** Reading a struct through its references *)

(** Values without references. *)
Definition plain {A : Type} : View (cell := cell) A A := λ x, mret x.

#[global] Instance view_bool : View bool bool := plain.
#[global] Instance view_Z : View Z Z := plain.
#[global] Instance view_string : View string string := plain.
#[global] Instance view_ascii : View ascii ascii := plain.
#[global] Instance view_map : View (gmap string string) (gmap string string) := plain.
#[global] Instance view_SecretKeyRef : View SecretKeyRef SecretKeyRef := plain.
#[global] Instance view_NameSection : View NameSection NameSection := plain.
#[global] Instance view_RebootWindow : View RebootWindow RebootWindow := plain.
#[global] Instance view_ShellyDeviceSpec : View ShellyDeviceSpec ShellyDeviceSpec := plain.
#[global] Instance view_Condition : View Condition Condition := plain.
#[global] Instance view_Time : View (cell := cell) TimeObj time := λ x, mret x.(o_time).

#[global] Instance view_ListMeta : View (cell := cell) ListMetaObj ListMeta := λ x,
  remaining ← view x.(o_lm_RemainingItemCount);
  mret (MkListMeta x.(o_lm_ResourceVersion) x.(o_lm_Continue) remaining).

(** A nil map reads as an empty one. *)
#[global] Instance view_ObjectMeta : View (cell := cell) ObjectMetaObj ObjectMeta := λ x,
  labels ← view x.(o_meta_Labels);
  annotations ← view x.(o_meta_Annotations);
  mret (MkObjectMeta x.(o_meta_Namespace) x.(o_meta_Name) x.(o_meta_Generation)
          (default ∅ labels) (default ∅ annotations)).

#[global] Instance view_Requirement : View (cell := cell) RequirementObj LabelSelectorRequirement := λ x,
  values ← view x.(o_req_Values);
  mret (MkLabelSelectorRequirement x.(o_req_Key) x.(o_req_Operator) values).

#[global] Instance view_LabelSelector : View (cell := cell) LabelSelectorObj LabelSelector := λ x,
  labels ← view x.(o_sel_MatchLabels);
  exprs ← view x.(o_sel_MatchExpressions);
  mret (MkLabelSelector (default ∅ labels) exprs).

Section Views.
Context `{JsonParse}.

(** The document, if there is one; raw bytes that are no JSON have no reading. *)
Definition document (raw : list ascii) : rd cell (option value) := λ h,
  match raw with
  | [] => Some (None, ∅)
  | _ => match json_Unmarshal (String.string_of_list_ascii raw) with
         | Ok v => Some (Some v, ∅)
         | Err _ => None
         end
  end.

#[global] Instance view_JSON : View (cell := cell) JSONObj (option value) := λ x,
  raw ← view x.(o_json_Raw);
  document raw.

#[global] Instance view_AuthSection : View (cell := cell) AuthSectionObj AuthSection := λ x,
  enable ← view x.(o_auth_Enable);
  passwordSecretRef ← view x.(o_auth_PasswordSecretRef);
  mret (MkAuthSection enable passwordSecretRef).

#[global] Instance view_BLESection : View (cell := cell) BLESectionObj BLESection := λ x,
  enable ← view x.(o_ble_Enable);
  mret (MkBLESection enable).

#[global] Instance view_CloudSection : View (cell := cell) CloudSectionObj CloudSection := λ x,
  enable ← view x.(o_cloud_Enable);
  mret (MkCloudSection enable).

#[global] Instance view_FirmwareSection : View (cell := cell) FirmwareSectionObj FirmwareSection := λ x,
  autoUpdate ← view x.(o_fw_AutoUpdate);
  mret (MkFirmwareSection autoUpdate).

#[global] Instance view_FirmwareUpdateAttempt : View (cell := cell) FirmwareUpdateAttemptObj FirmwareUpdateAttempt := λ x,
  t ← view x.(o_fua_Time);
  mret (MkFirmwareUpdateAttempt t x.(o_fua_From) x.(o_fua_Target) x.(o_fua_Error)
  x.(o_fua_Refused)).

#[global] Instance view_MQTTSection : View (cell := cell) MQTTSectionObj MQTTSection := λ x,
  enable ← view x.(o_mqtt_Enable);
  mret (MkMQTTSection enable x.(o_mqtt_Server)).

#[global] Instance view_NightMode : View (cell := cell) NightModeObj NightMode := λ x,
  enable ← view x.(o_nm_Enable);
  brightness ← view x.(o_nm_Brightness);
  activeBetween ← view x.(o_nm_ActiveBetween);
  mret (MkNightMode enable brightness activeBetween).

#[global] Instance view_ScheduleCallSpec : View (cell := cell) ScheduleCallSpecObj ScheduleCallSpec := λ x,
  params ← view x.(o_cs_Params);
  mret (MkScheduleCallSpec x.(o_cs_Method) (mjoin params)).

#[global] Instance view_ScheduleJobSpec : View (cell := cell) ScheduleJobSpecObj ScheduleJobSpec := λ x,
  enable ← view x.(o_js_Enable);
  calls ← view x.(o_js_Calls);
  mret (MkScheduleJobSpec enable x.(o_js_Timespec) calls).

#[global] Instance view_ScheduleSection : View (cell := cell) ScheduleSectionObj ScheduleSection := λ x,
  jobs ← view x.(o_sched_Jobs);
  mret (MkScheduleSection jobs).

#[global] Instance view_SwitchSection : View (cell := cell) SwitchSectionObj SwitchSection := λ x,
  initialState ← view x.(o_sw_InitialState);
  autoOn ← view x.(o_sw_AutoOn);
  autoOnDelay ← view x.(o_sw_AutoOnDelay);
  autoOff ← view x.(o_sw_AutoOff);
  autoOffDelay ← view x.(o_sw_AutoOffDelay);
  powerLimit ← view x.(o_sw_PowerLimit);
  voltageLimit ← view x.(o_sw_VoltageLimit);
  currentLimit ← view x.(o_sw_CurrentLimit);
  autorecoverVoltageErrors ← view x.(o_sw_AutorecoverVoltageErrors);
  mret (MkSwitchSection initialState autoOn autoOnDelay autoOff autoOffDelay powerLimit
  voltageLimit currentLimit autorecoverVoltageErrors).

#[global] Instance view_SystemSection : View (cell := cell) SystemSectionObj SystemSection := λ x,
  ecoMode ← view x.(o_sys_EcoMode);
  discoverable ← view x.(o_sys_Discoverable);
  timezone ← view x.(o_sys_Timezone);
  latitude ← view x.(o_sys_Latitude);
  longitude ← view x.(o_sys_Longitude);
  sntp ← view x.(o_sys_SNTPServer);
  debugLevel ← view x.(o_sys_DebugLevel);
  mret (MkSystemSection ecoMode discoverable timezone latitude longitude sntp debugLevel).

#[global] Instance view_UISection : View (cell := cell) UISectionObj UISection := λ x,
  led ← view x.(o_ui_LEDMode);
  nightMode ← view x.(o_ui_NightMode);
  buttonInMode ← view x.(o_ui_ButtonInMode);
  mret (MkUISection led nightMode buttonInMode).

#[global] Instance view_WSSection : View (cell := cell) WSSectionObj WSSection := λ x,
  enable ← view x.(o_ws_Enable);
  mret (MkWSSection enable).

#[global] Instance view_WifiAP : View (cell := cell) WifiAPObj WifiAP := λ x,
  enable ← view x.(o_ap_Enable);
  rangeExtender ← view x.(o_ap_RangeExtender);
  mret (MkWifiAP enable rangeExtender).

#[global] Instance view_WifiNetwork : View (cell := cell) WifiNetworkObj WifiNetwork := λ x,
  enable ← view x.(o_net_Enable);
  passSecretRef ← view x.(o_net_PassSecretRef);
  mret (MkWifiNetwork enable x.(o_net_SSID) passSecretRef).

#[global] Instance view_WifiRoam : View (cell := cell) WifiRoamObj WifiRoam := λ x,
  rssi ← view x.(o_roam_RSSIThreshold);
  interval ← view x.(o_roam_Interval);
  mret (MkWifiRoam rssi interval).

#[global] Instance view_WifiSection : View (cell := cell) WifiSectionObj WifiSection := λ x,
  sta ← view x.(o_wifi_Sta);
  sta1 ← view x.(o_wifi_Sta1);
  ap ← view x.(o_wifi_AP);
  roam ← view x.(o_wifi_Roam);
  mret (MkWifiSection sta sta1 ap roam).

#[global] Instance view_ProfileConfig : View (cell := cell) ProfileConfigObj ProfileConfig := λ x,
  system ← view x.(o_cfg_System);
  name ← view x.(o_cfg_Name);
  mqtt ← view x.(o_cfg_MQTT);
  cloud ← view x.(o_cfg_Cloud);
  ble ← view x.(o_cfg_BLE);
  ws ← view x.(o_cfg_WS);
  auth ← view x.(o_cfg_Auth);
  sw ← view x.(o_cfg_Switch);
  wifi ← view x.(o_cfg_Wifi);
  firmware ← view x.(o_cfg_Firmware);
  schedules ← view x.(o_cfg_Schedules);
  ui ← view x.(o_cfg_UI);
  mret (MkProfileConfig system name mqtt cloud ble ws auth sw wifi firmware schedules ui).

#[global] Instance view_ShellyProfileSpec : View (cell := cell) ShellyProfileSpecObj ShellyProfileSpec := λ x,
  selector ← view x.(o_ps_Selector);
  config ← view x.(o_ps_Config);
  rebootWindow ← view x.(o_ps_RebootWindow);
  updateWindow ← view x.(o_ps_UpdateWindow);
  mret (MkShellyProfileSpec selector x.(o_ps_Priority) x.(o_ps_Mode) config
  x.(o_ps_RebootWhenRequired) rebootWindow x.(o_ps_UpdateWhenAvailable) updateWindow).

#[global] Instance view_ShellyDeviceStatus : View (cell := cell) ShellyDeviceStatusObj ShellyDeviceStatus := λ x,
  lastFirmwareUpdate ← view x.(o_st_LastFirmwareUpdate);
  lastSeen ← view x.(o_st_LastSeen);
  driftedSections ← view x.(o_st_DriftedSections);
  conditions ← view x.(o_st_Conditions);
  mret (MkShellyDeviceStatus x.(o_st_Address) x.(o_st_MAC) x.(o_st_Model) x.(o_st_App)
  x.(o_st_Gen) x.(o_st_Firmware) x.(o_st_AvailableFirmware) x.(o_st_AuthEnabled)
  x.(o_st_RestartRequired) lastFirmwareUpdate x.(o_st_DeviceName) x.(o_st_Online) lastSeen
  x.(o_st_MatchedProfile) driftedSections conditions).

#[global] Instance view_ShellyDevice : View (cell := cell) ShellyDeviceObj (TypeMeta * ShellyDevice) := λ x,
  meta ← view x.(o_dev_Meta);
  status ← view x.(o_dev_Status);
  mret (x.(o_dev_TypeMeta), MkShellyDevice meta x.(o_dev_Spec) status).

#[global] Instance view_ShellyDeviceList
  : View (cell := cell) ShellyDeviceListObj (TypeMeta * ListMeta * list (TypeMeta * ShellyDevice)) := λ x,
  meta ← view x.(o_dl_ListMeta);
  items ← view x.(o_dl_Items);
  mret (x.(o_dl_TypeMeta), meta, items).

#[global] Instance view_ShellyProfile
  : View (cell := cell) ShellyProfileObj (TypeMeta * ObjectMeta * ShellyProfileSpec) := λ x,
  meta ← view x.(o_prof_Meta);
  spec ← view x.(o_prof_Spec);
  mret (x.(o_prof_TypeMeta), meta, spec).

#[global] Instance view_ShellyProfileList
  : View (cell := cell) ShellyProfileListObj
      (TypeMeta * ListMeta * list (TypeMeta * ObjectMeta * ShellyProfileSpec)) := λ x,
  meta ← view x.(o_pl_ListMeta);
  items ← view x.(o_pl_Items);
  mret (x.(o_pl_TypeMeta), meta, items).
End Views.
