(* ===== verification/DeepCopy.v ===== *)
(** * Deep copies (api/v1alpha1/zz_generated.deepcopy.go)

    The generated functions on objects in memory, and that they do what the
    controllers rely on when they take [base := dev.DeepCopy()], mutate [dev] and
    send the difference: the copy reads the same and shares no memory with the
    original, so that no write through the one is seen through the other.

    [T_DeepCopyInto x] returns the struct that is assigned through [out]: the
    shallow copy [out = in] with the references the body replaces. *)

From stdpp Require Import prelude gmap strings pretty sorting list.
From Stdlib Require Import Ascii.
From S2P Require Import Prelude Json Api Diff Shelly Effects Wire Memory Objects.

(** The [DeepCopyInto] methods of apimachinery and apiextensions that the generated
    code calls. *)
Class Machinery : Type := {
  ObjectMeta_DeepCopyInto : ObjectMetaObj → mem cell ObjectMetaObj;
  ListMeta_DeepCopyInto : ListMetaObj → mem cell ListMetaObj;
  LabelSelector_DeepCopyInto : LabelSelectorObj → mem cell LabelSelectorObj;
  Condition_DeepCopyInto : Condition → mem cell Condition;
  Time_DeepCopyInto : TimeObj → mem cell TimeObj;
  Time_DeepCopy : ptr TimeObj → mem cell (ptr TimeObj);
  JSON_DeepCopyInto : JSONObj → mem cell JSONObj;
}.

Section DeepCopy.
Context `{Machinery}.

(** ** Structs without references *)

Definition NameSection_DeepCopyInto (x : NameSection) : mem cell NameSection := mret x.

Definition NameSection_DeepCopy : ptr NameSection → mem cell (ptr NameSection) := new_copy NameSection_DeepCopyInto.

Definition RebootWindow_DeepCopyInto (x : RebootWindow) : mem cell RebootWindow := mret x.

Definition RebootWindow_DeepCopy : ptr RebootWindow → mem cell (ptr RebootWindow) := new_copy RebootWindow_DeepCopyInto.

Definition SecretKeyRef_DeepCopyInto (x : SecretKeyRef) : mem cell SecretKeyRef := mret x.

Definition SecretKeyRef_DeepCopy : ptr SecretKeyRef → mem cell (ptr SecretKeyRef) := new_copy SecretKeyRef_DeepCopyInto.

Definition ShellyDeviceSpec_DeepCopyInto (x : ShellyDeviceSpec) : mem cell ShellyDeviceSpec := mret x.

Definition ShellyDeviceSpec_DeepCopy : ptr ShellyDeviceSpec → mem cell (ptr ShellyDeviceSpec) := new_copy ShellyDeviceSpec_DeepCopyInto.

(** ** Sections and specs *)

Definition AuthSection_DeepCopyInto (x : AuthSectionObj) : mem cell AuthSectionObj :=
  enable ← new_assign x.(o_auth_Enable);
  passwordSecretRef ← new_assign x.(o_auth_PasswordSecretRef);
  mret (MkAuthSectionObj enable passwordSecretRef).

Definition AuthSection_DeepCopy : ptr AuthSectionObj → mem cell (ptr AuthSectionObj) :=
  new_copy AuthSection_DeepCopyInto.

Definition BLESection_DeepCopyInto (x : BLESectionObj) : mem cell BLESectionObj :=
  enable ← new_assign x.(o_ble_Enable);
  mret (MkBLESectionObj enable).

Definition BLESection_DeepCopy : ptr BLESectionObj → mem cell (ptr BLESectionObj) :=
  new_copy BLESection_DeepCopyInto.

Definition CloudSection_DeepCopyInto (x : CloudSectionObj) : mem cell CloudSectionObj :=
  enable ← new_assign x.(o_cloud_Enable);
  mret (MkCloudSectionObj enable).

Definition CloudSection_DeepCopy : ptr CloudSectionObj → mem cell (ptr CloudSectionObj) :=
  new_copy CloudSection_DeepCopyInto.

Definition FirmwareSection_DeepCopyInto (x : FirmwareSectionObj)
  : mem cell FirmwareSectionObj :=
  autoUpdate ← new_assign x.(o_fw_AutoUpdate);
  mret (MkFirmwareSectionObj autoUpdate).

Definition FirmwareSection_DeepCopy : ptr FirmwareSectionObj → mem cell (ptr FirmwareSectionObj) :=
  new_copy FirmwareSection_DeepCopyInto.

Definition FirmwareUpdateAttempt_DeepCopyInto (x : FirmwareUpdateAttemptObj)
  : mem cell FirmwareUpdateAttemptObj :=
  t ← Time_DeepCopyInto x.(o_fua_Time);
  mret (MkFirmwareUpdateAttemptObj t x.(o_fua_From) x.(o_fua_Target) x.(o_fua_Error)
  x.(o_fua_Refused)).

Definition FirmwareUpdateAttempt_DeepCopy : ptr FirmwareUpdateAttemptObj → mem cell (ptr FirmwareUpdateAttemptObj) :=
  new_copy FirmwareUpdateAttempt_DeepCopyInto.

Definition MQTTSection_DeepCopyInto (x : MQTTSectionObj) : mem cell MQTTSectionObj :=
  enable ← new_assign x.(o_mqtt_Enable);
  mret (MkMQTTSectionObj enable x.(o_mqtt_Server)).

Definition MQTTSection_DeepCopy : ptr MQTTSectionObj → mem cell (ptr MQTTSectionObj) :=
  new_copy MQTTSection_DeepCopyInto.

Definition NightMode_DeepCopyInto (x : NightModeObj) : mem cell NightModeObj :=
  enable ← new_assign x.(o_nm_Enable);
  brightness ← new_assign x.(o_nm_Brightness);
  activeBetween ← make_assign x.(o_nm_ActiveBetween);
  mret (MkNightModeObj enable brightness activeBetween).

Definition NightMode_DeepCopy : ptr NightModeObj → mem cell (ptr NightModeObj) :=
  new_copy NightMode_DeepCopyInto.

Definition ScheduleCallSpec_DeepCopyInto (x : ScheduleCallSpecObj)
  : mem cell ScheduleCallSpecObj :=
  params ← new_copy JSON_DeepCopyInto x.(o_cs_Params);
  mret (MkScheduleCallSpecObj x.(o_cs_Method) params).

Definition ScheduleCallSpec_DeepCopy : ptr ScheduleCallSpecObj → mem cell (ptr ScheduleCallSpecObj) :=
  new_copy ScheduleCallSpec_DeepCopyInto.

Definition ScheduleJobSpec_DeepCopyInto (x : ScheduleJobSpecObj)
  : mem cell ScheduleJobSpecObj :=
  enable ← new_assign x.(o_js_Enable);
  calls ← make_copy ScheduleCallSpec_DeepCopyInto x.(o_js_Calls);
  mret (MkScheduleJobSpecObj enable x.(o_js_Timespec) calls).

Definition ScheduleJobSpec_DeepCopy : ptr ScheduleJobSpecObj → mem cell (ptr ScheduleJobSpecObj) :=
  new_copy ScheduleJobSpec_DeepCopyInto.

Definition ScheduleSection_DeepCopyInto (x : ScheduleSectionObj)
  : mem cell ScheduleSectionObj :=
  jobs ← make_copy ScheduleJobSpec_DeepCopyInto x.(o_sched_Jobs);
  mret (MkScheduleSectionObj jobs).

Definition ScheduleSection_DeepCopy : ptr ScheduleSectionObj → mem cell (ptr ScheduleSectionObj) :=
  new_copy ScheduleSection_DeepCopyInto.

Definition SwitchSection_DeepCopyInto (x : SwitchSectionObj) : mem cell SwitchSectionObj :=
  initialState ← new_assign x.(o_sw_InitialState);
  autoOn ← new_assign x.(o_sw_AutoOn);
  autoOnDelay ← new_assign x.(o_sw_AutoOnDelay);
  autoOff ← new_assign x.(o_sw_AutoOff);
  autoOffDelay ← new_assign x.(o_sw_AutoOffDelay);
  powerLimit ← new_assign x.(o_sw_PowerLimit);
  voltageLimit ← new_assign x.(o_sw_VoltageLimit);
  currentLimit ← new_assign x.(o_sw_CurrentLimit);
  autorecoverVoltageErrors ← new_assign x.(o_sw_AutorecoverVoltageErrors);
  mret (MkSwitchSectionObj initialState autoOn autoOnDelay autoOff autoOffDelay powerLimit
  voltageLimit currentLimit autorecoverVoltageErrors).

Definition SwitchSection_DeepCopy : ptr SwitchSectionObj → mem cell (ptr SwitchSectionObj) :=
  new_copy SwitchSection_DeepCopyInto.

Definition SystemSection_DeepCopyInto (x : SystemSectionObj) : mem cell SystemSectionObj :=
  ecoMode ← new_assign x.(o_sys_EcoMode);
  discoverable ← new_assign x.(o_sys_Discoverable);
  timezone ← new_assign x.(o_sys_Timezone);
  latitude ← new_assign x.(o_sys_Latitude);
  longitude ← new_assign x.(o_sys_Longitude);
  sntp ← new_assign x.(o_sys_SNTPServer);
  debugLevel ← new_assign x.(o_sys_DebugLevel);
  mret (MkSystemSectionObj ecoMode discoverable timezone latitude longitude sntp debugLevel).

Definition SystemSection_DeepCopy : ptr SystemSectionObj → mem cell (ptr SystemSectionObj) :=
  new_copy SystemSection_DeepCopyInto.

Definition UISection_DeepCopyInto (x : UISectionObj) : mem cell UISectionObj :=
  led ← new_assign x.(o_ui_LEDMode);
  nightMode ← new_copy NightMode_DeepCopyInto x.(o_ui_NightMode);
  buttonInMode ← new_assign x.(o_ui_ButtonInMode);
  mret (MkUISectionObj led nightMode buttonInMode).

Definition UISection_DeepCopy : ptr UISectionObj → mem cell (ptr UISectionObj) :=
  new_copy UISection_DeepCopyInto.

Definition WSSection_DeepCopyInto (x : WSSectionObj) : mem cell WSSectionObj :=
  enable ← new_assign x.(o_ws_Enable);
  mret (MkWSSectionObj enable).

Definition WSSection_DeepCopy : ptr WSSectionObj → mem cell (ptr WSSectionObj) :=
  new_copy WSSection_DeepCopyInto.

Definition WifiAP_DeepCopyInto (x : WifiAPObj) : mem cell WifiAPObj :=
  enable ← new_assign x.(o_ap_Enable);
  rangeExtender ← new_assign x.(o_ap_RangeExtender);
  mret (MkWifiAPObj enable rangeExtender).

Definition WifiAP_DeepCopy : ptr WifiAPObj → mem cell (ptr WifiAPObj) :=
  new_copy WifiAP_DeepCopyInto.

Definition WifiNetwork_DeepCopyInto (x : WifiNetworkObj) : mem cell WifiNetworkObj :=
  enable ← new_assign x.(o_net_Enable);
  passSecretRef ← new_assign x.(o_net_PassSecretRef);
  mret (MkWifiNetworkObj enable x.(o_net_SSID) passSecretRef).

Definition WifiNetwork_DeepCopy : ptr WifiNetworkObj → mem cell (ptr WifiNetworkObj) :=
  new_copy WifiNetwork_DeepCopyInto.

Definition WifiRoam_DeepCopyInto (x : WifiRoamObj) : mem cell WifiRoamObj :=
  rssi ← new_assign x.(o_roam_RSSIThreshold);
  interval ← new_assign x.(o_roam_Interval);
  mret (MkWifiRoamObj rssi interval).

Definition WifiRoam_DeepCopy : ptr WifiRoamObj → mem cell (ptr WifiRoamObj) :=
  new_copy WifiRoam_DeepCopyInto.

Definition WifiSection_DeepCopyInto (x : WifiSectionObj) : mem cell WifiSectionObj :=
  sta ← new_copy WifiNetwork_DeepCopyInto x.(o_wifi_Sta);
  sta1 ← new_copy WifiNetwork_DeepCopyInto x.(o_wifi_Sta1);
  ap ← new_copy WifiAP_DeepCopyInto x.(o_wifi_AP);
  roam ← new_copy WifiRoam_DeepCopyInto x.(o_wifi_Roam);
  mret (MkWifiSectionObj sta sta1 ap roam).

Definition WifiSection_DeepCopy : ptr WifiSectionObj → mem cell (ptr WifiSectionObj) :=
  new_copy WifiSection_DeepCopyInto.

Definition ProfileConfig_DeepCopyInto (x : ProfileConfigObj) : mem cell ProfileConfigObj :=
  system ← new_copy SystemSection_DeepCopyInto x.(o_cfg_System);
  name ← new_assign x.(o_cfg_Name);
  mqtt ← new_copy MQTTSection_DeepCopyInto x.(o_cfg_MQTT);
  cloud ← new_copy CloudSection_DeepCopyInto x.(o_cfg_Cloud);
  ble ← new_copy BLESection_DeepCopyInto x.(o_cfg_BLE);
  ws ← new_copy WSSection_DeepCopyInto x.(o_cfg_WS);
  auth ← new_copy AuthSection_DeepCopyInto x.(o_cfg_Auth);
  sw ← new_copy SwitchSection_DeepCopyInto x.(o_cfg_Switch);
  wifi ← new_copy WifiSection_DeepCopyInto x.(o_cfg_Wifi);
  firmware ← new_copy FirmwareSection_DeepCopyInto x.(o_cfg_Firmware);
  schedules ← new_copy ScheduleSection_DeepCopyInto x.(o_cfg_Schedules);
  ui ← new_copy UISection_DeepCopyInto x.(o_cfg_UI);
  mret (MkProfileConfigObj system name mqtt cloud ble ws auth sw wifi firmware schedules ui).

Definition ProfileConfig_DeepCopy : ptr ProfileConfigObj → mem cell (ptr ProfileConfigObj) :=
  new_copy ProfileConfig_DeepCopyInto.

Definition ShellyProfileSpec_DeepCopyInto (x : ShellyProfileSpecObj)
  : mem cell ShellyProfileSpecObj :=
  selector ← new_copy LabelSelector_DeepCopyInto x.(o_ps_Selector);
  config ← ProfileConfig_DeepCopyInto x.(o_ps_Config);
  rebootWindow ← new_assign x.(o_ps_RebootWindow);
  updateWindow ← new_assign x.(o_ps_UpdateWindow);
  mret (MkShellyProfileSpecObj selector x.(o_ps_Priority) x.(o_ps_Mode) config
  x.(o_ps_RebootWhenRequired) rebootWindow x.(o_ps_UpdateWhenAvailable) updateWindow).

Definition ShellyProfileSpec_DeepCopy : ptr ShellyProfileSpecObj → mem cell (ptr ShellyProfileSpecObj) :=
  new_copy ShellyProfileSpec_DeepCopyInto.

Definition ShellyDeviceStatus_DeepCopyInto (x : ShellyDeviceStatusObj)
  : mem cell ShellyDeviceStatusObj :=
  lastFirmwareUpdate ← new_copy FirmwareUpdateAttempt_DeepCopyInto x.(o_st_LastFirmwareUpdate);
  lastSeen ← Time_DeepCopy x.(o_st_LastSeen);
  driftedSections ← make_assign x.(o_st_DriftedSections);
  conditions ← make_copy Condition_DeepCopyInto x.(o_st_Conditions);
  mret (MkShellyDeviceStatusObj x.(o_st_Address) x.(o_st_MAC) x.(o_st_Model) x.(o_st_App)
  x.(o_st_Gen) x.(o_st_Firmware) x.(o_st_AvailableFirmware) x.(o_st_AuthEnabled)
  x.(o_st_RestartRequired) lastFirmwareUpdate x.(o_st_DeviceName) x.(o_st_Online) lastSeen
  x.(o_st_MatchedProfile) driftedSections conditions).

Definition ShellyDeviceStatus_DeepCopy : ptr ShellyDeviceStatusObj → mem cell (ptr ShellyDeviceStatusObj) :=
  new_copy ShellyDeviceStatus_DeepCopyInto.

(** ** Objects and lists *)

Definition ShellyDevice_DeepCopyInto (x : ShellyDeviceObj) : mem cell ShellyDeviceObj :=
  meta ← ObjectMeta_DeepCopyInto x.(o_dev_Meta);
  status ← ShellyDeviceStatus_DeepCopyInto x.(o_dev_Status);
  mret (MkShellyDeviceObj x.(o_dev_TypeMeta) meta x.(o_dev_Spec) status).

Definition ShellyDevice_DeepCopy : ptr ShellyDeviceObj → mem cell (ptr ShellyDeviceObj) :=
  new_copy ShellyDevice_DeepCopyInto.

Definition ShellyDeviceList_DeepCopyInto (x : ShellyDeviceListObj) : mem cell ShellyDeviceListObj :=
  meta ← ListMeta_DeepCopyInto x.(o_dl_ListMeta);
  items ← make_copy ShellyDevice_DeepCopyInto x.(o_dl_Items);
  mret (MkShellyDeviceListObj x.(o_dl_TypeMeta) meta items).

Definition ShellyDeviceList_DeepCopy
  : ptr ShellyDeviceListObj → mem cell (ptr ShellyDeviceListObj) :=
  new_copy ShellyDeviceList_DeepCopyInto.

Definition ShellyProfile_DeepCopyInto (x : ShellyProfileObj) : mem cell ShellyProfileObj :=
  meta ← ObjectMeta_DeepCopyInto x.(o_prof_Meta);
  spec ← ShellyProfileSpec_DeepCopyInto x.(o_prof_Spec);
  mret (MkShellyProfileObj x.(o_prof_TypeMeta) meta spec).

Definition ShellyProfile_DeepCopy : ptr ShellyProfileObj → mem cell (ptr ShellyProfileObj) :=
  new_copy ShellyProfile_DeepCopyInto.

Definition ShellyProfileList_DeepCopyInto (x : ShellyProfileListObj) : mem cell ShellyProfileListObj :=
  meta ← ListMeta_DeepCopyInto x.(o_pl_ListMeta);
  items ← make_copy ShellyProfile_DeepCopyInto x.(o_pl_Items);
  mret (MkShellyProfileListObj x.(o_pl_TypeMeta) meta items).

Definition ShellyProfileList_DeepCopy
  : ptr ShellyProfileListObj → mem cell (ptr ShellyProfileListObj) :=
  new_copy ShellyProfileList_DeepCopyInto.

(** ** [runtime.Object] *)

(** A value of the interface: a pointer with its type. *)
Inductive object : Type :=
| ADevice (p : ptr ShellyDeviceObj)
| ADeviceList (p : ptr ShellyDeviceListObj)
| AProfile (p : ptr ShellyProfileObj)
| AProfileList (p : ptr ShellyProfileListObj).

(** [if c := in.DeepCopy(); c != nil { return c }; return nil]: the interface is
    nil when the pointer is. *)
Definition boxed {A : Type} (box : ptr A → object) (c : ptr A) : option object :=
  match c with Nil => None | Ref _ => Some (box c) end.

Definition ShellyDevice_DeepCopyObject (p : ptr ShellyDeviceObj) : mem cell (option object) :=
  c ← ShellyDevice_DeepCopy p; mret (boxed ADevice c).
Definition ShellyDeviceList_DeepCopyObject (p : ptr ShellyDeviceListObj) : mem cell (option object) :=
  c ← ShellyDeviceList_DeepCopy p; mret (boxed ADeviceList c).
Definition ShellyProfile_DeepCopyObject (p : ptr ShellyProfileObj) : mem cell (option object) :=
  c ← ShellyProfile_DeepCopy p; mret (boxed AProfile c).
Definition ShellyProfileList_DeepCopyObject (p : ptr ShellyProfileListObj) : mem cell (option object) :=
  c ← ShellyProfileList_DeepCopy p; mret (boxed AProfileList c).

Definition DeepCopyObject (o : object) : mem cell (option object) :=
  match o with
  | ADevice p => ShellyDevice_DeepCopyObject p
  | ADeviceList p => ShellyDeviceList_DeepCopyObject p
  | AProfile p => ShellyProfile_DeepCopyObject p
  | AProfileList p => ShellyProfileList_DeepCopyObject p
  end.
End DeepCopy.

(** ** Structs are copied field by field *)

(** The traversal of a struct is framed because its fields' are. *)
Ltac frame_struct v :=
  let x := fresh "x" in intros x;
  let t := eval red in (v x) in change (Framed t); apply _.

(** Move what is known about the copies made so far to the heap [h']. *)
Ltac later base Hs :=
  repeat match goal with
  | Hf : freshly base ?h ?r ?p |- _ =>
      lazymatch type of Hs with
      | h ⊆ ?h' => apply (freshly_mono r base base h h' p (reflexivity base) Hs) in Hf
      end
  end.

Ltac copy_fields base Hsub :=
  repeat
    (apply extends_bind;
     lazymatch goal with
     | |- extends ?h (?f ?x) _ =>
         match goal with
         | Hr : reads base (view x) _ |- _ =>
             eapply extends_mono;
               [exact (copies (f := f) h x _ (reads_mono _ base h _ Hsub Hr))|];
             let y := fresh "y" in let h1 := fresh "h" in let Hs := fresh "Hs" in
             let Hy := fresh "Hy" in
             intros y h1 Hs Hy; later base Hs;
             apply (freshly_mono _ base h h1 h1 _ Hsub (reflexivity h1)) in Hy;
             let Hsub' := fresh "Hsub" in
             pose proof (transitivity Hsub Hs) as Hsub'; clear Hs Hsub; rename Hsub' into Hsub
         end
     end).

Ltac copy_struct v :=
  let h := fresh "h" in let x := fresh "x" in let p := fresh "p" in
  let Hp := fresh "Hp" in let Hsub := fresh "Hsub" in
  intros h x p Hp; 
  let t := eval red in (v x) in change (reads h t p) in Hp;
  repeat (let Hr := fresh "Hr" in let q := fresh "q" in apply reads_bind in Hp as (q & Hr & Hp));
  apply reads_ret in Hp; subst p;
  assert (Hsub : h ⊆ h) by reflexivity;
  lazymatch goal with
  | |- extends h ?m ?Q => let t := eval red in m in change (extends h t Q)
  end;
  copy_fields h Hsub; apply extends_ret;
  lazymatch goal with
  | |- freshly ?b ?h' (view ?y) ?p => let t := eval red in (v y) in change (freshly b h' t p)
  end;
  repeat (eapply freshly_bind; [eassumption|]); apply freshly_ret.

(** Values without references are copied by assignment. *)
Lemma framed_plain {A : Type} : FramedView (H := plain) A A.
Proof. intros x. apply framed_ret. Qed.

Lemma copier_plain {A : Type} : Copier (H := plain) (mret : A → mem cell A).
Proof. intros h x p Hp. apply reads_ret in Hp as ->. apply extends_ret, freshly_ret. Qed.

#[global] Instance framed_map : FramedView (gmap string string) (gmap string string) := framed_plain.
#[global] Instance framed_bool : FramedView bool bool := framed_plain.
#[global] Instance framed_Z : FramedView Z Z := framed_plain.
#[global] Instance framed_string : FramedView string string := framed_plain.
#[global] Instance framed_ascii : FramedView ascii ascii := framed_plain.
#[global] Instance framed_SecretKeyRef : FramedView SecretKeyRef SecretKeyRef := framed_plain.
#[global] Instance framed_NameSection : FramedView NameSection NameSection := framed_plain.
#[global] Instance framed_RebootWindow : FramedView RebootWindow RebootWindow := framed_plain.
#[global] Instance framed_ShellyDeviceSpec : FramedView ShellyDeviceSpec ShellyDeviceSpec := framed_plain.
#[global] Instance framed_Condition : FramedView Condition Condition := framed_plain.

#[global] Instance assign_bool : Copier (mret : bool → mem cell bool) := copier_plain.
#[global] Instance assign_Z : Copier (mret : Z → mem cell Z) := copier_plain.
#[global] Instance assign_string : Copier (mret : string → mem cell string) := copier_plain.
#[global] Instance assign_SecretKeyRef : Copier (mret : SecretKeyRef → mem cell SecretKeyRef) := copier_plain.
#[global] Instance assign_NameSection : Copier (mret : NameSection → mem cell NameSection) := copier_plain.
#[global] Instance assign_RebootWindow : Copier (mret : RebootWindow → mem cell RebootWindow) := copier_plain.
#[global] Instance assign_ShellyDeviceSpec : Copier (mret : ShellyDeviceSpec → mem cell ShellyDeviceSpec) := copier_plain.

#[global] Instance framed_Time : FramedView TimeObj time.
Proof. frame_struct view_Time. Qed.
#[global] Instance framed_ListMeta : FramedView ListMetaObj ListMeta.
Proof. frame_struct view_ListMeta. Qed.
#[global] Instance framed_ObjectMeta : FramedView ObjectMetaObj ObjectMeta.
Proof. frame_struct view_ObjectMeta. Qed.
#[global] Instance framed_Requirement : FramedView RequirementObj LabelSelectorRequirement.
Proof. frame_struct view_Requirement. Qed.
#[global] Instance framed_LabelSelector : FramedView LabelSelectorObj LabelSelector.
Proof. frame_struct view_LabelSelector. Qed.

Section Copies.
Context `{JsonParse, Machinery}.

#[global] Instance framed_document raw : Framed (document raw).
Proof.
  intros h p F. unfold document. destruct raw; [|destruct (json_Unmarshal _); [|done]];
    (intros [= <- <-]; split; [set_solver|done]).
Qed.

#[global] Instance framed_JSON : FramedView JSONObj (option value).
Proof. frame_struct view_JSON. Qed.
End Copies.

(** The libraries' own [DeepCopyInto] make deep copies. *)
Class MachineryLaws `{JsonParse, Machinery} : Prop := {
  ObjectMeta_copies :: Copier ObjectMeta_DeepCopyInto;
  ListMeta_copies :: Copier ListMeta_DeepCopyInto;
  LabelSelector_copies :: Copier LabelSelector_DeepCopyInto;
  Condition_copies :: Copier Condition_DeepCopyInto;
  Time_copies :: Copier Time_DeepCopyInto;
  Time_ptr_copies :: Copier Time_DeepCopy;
  JSON_copies :: Copier JSON_DeepCopyInto;
}.

Section Structs.
Context `{MachineryLaws}.

#[global] Instance framed_AuthSection : FramedView AuthSectionObj AuthSection.
Proof. frame_struct view_AuthSection. Qed.
#[global] Instance copier_AuthSection : Copier AuthSection_DeepCopyInto.
Proof. copy_struct view_AuthSection. Qed.

#[global] Instance framed_BLESection : FramedView BLESectionObj BLESection.
Proof. frame_struct view_BLESection. Qed.
#[global] Instance copier_BLESection : Copier BLESection_DeepCopyInto.
Proof. copy_struct view_BLESection. Qed.

#[global] Instance framed_CloudSection : FramedView CloudSectionObj CloudSection.
Proof. frame_struct view_CloudSection. Qed.
#[global] Instance copier_CloudSection : Copier CloudSection_DeepCopyInto.
Proof. copy_struct view_CloudSection. Qed.

#[global] Instance framed_FirmwareSection : FramedView FirmwareSectionObj FirmwareSection.
Proof. frame_struct view_FirmwareSection. Qed.
#[global] Instance copier_FirmwareSection : Copier FirmwareSection_DeepCopyInto.
Proof. copy_struct view_FirmwareSection. Qed.

#[global] Instance framed_FirmwareUpdateAttempt : FramedView FirmwareUpdateAttemptObj FirmwareUpdateAttempt.
Proof. frame_struct view_FirmwareUpdateAttempt. Qed.
#[global] Instance copier_FirmwareUpdateAttempt : Copier FirmwareUpdateAttempt_DeepCopyInto.
Proof. copy_struct view_FirmwareUpdateAttempt. Qed.

#[global] Instance framed_MQTTSection : FramedView MQTTSectionObj MQTTSection.
Proof. frame_struct view_MQTTSection. Qed.
#[global] Instance copier_MQTTSection : Copier MQTTSection_DeepCopyInto.
Proof. copy_struct view_MQTTSection. Qed.

#[global] Instance framed_NightMode : FramedView NightModeObj NightMode.
Proof. frame_struct view_NightMode. Qed.
#[global] Instance copier_NightMode : Copier NightMode_DeepCopyInto.
Proof. copy_struct view_NightMode. Qed.

#[global] Instance framed_ScheduleCallSpec : FramedView ScheduleCallSpecObj ScheduleCallSpec.
Proof. frame_struct view_ScheduleCallSpec. Qed.
#[global] Instance copier_ScheduleCallSpec : Copier ScheduleCallSpec_DeepCopyInto.
Proof. copy_struct view_ScheduleCallSpec. Qed.

#[global] Instance framed_ScheduleJobSpec : FramedView ScheduleJobSpecObj ScheduleJobSpec.
Proof. frame_struct view_ScheduleJobSpec. Qed.
#[global] Instance copier_ScheduleJobSpec : Copier ScheduleJobSpec_DeepCopyInto.
Proof. copy_struct view_ScheduleJobSpec. Qed.

#[global] Instance framed_ScheduleSection : FramedView ScheduleSectionObj ScheduleSection.
Proof. frame_struct view_ScheduleSection. Qed.
#[global] Instance copier_ScheduleSection : Copier ScheduleSection_DeepCopyInto.
Proof. copy_struct view_ScheduleSection. Qed.

#[global] Instance framed_SwitchSection : FramedView SwitchSectionObj SwitchSection.
Proof. frame_struct view_SwitchSection. Qed.
#[global] Instance copier_SwitchSection : Copier SwitchSection_DeepCopyInto.
Proof. copy_struct view_SwitchSection. Qed.

#[global] Instance framed_SystemSection : FramedView SystemSectionObj SystemSection.
Proof. frame_struct view_SystemSection. Qed.
#[global] Instance copier_SystemSection : Copier SystemSection_DeepCopyInto.
Proof. copy_struct view_SystemSection. Qed.

#[global] Instance framed_UISection : FramedView UISectionObj UISection.
Proof. frame_struct view_UISection. Qed.
#[global] Instance copier_UISection : Copier UISection_DeepCopyInto.
Proof. copy_struct view_UISection. Qed.

#[global] Instance framed_WSSection : FramedView WSSectionObj WSSection.
Proof. frame_struct view_WSSection. Qed.
#[global] Instance copier_WSSection : Copier WSSection_DeepCopyInto.
Proof. copy_struct view_WSSection. Qed.

#[global] Instance framed_WifiAP : FramedView WifiAPObj WifiAP.
Proof. frame_struct view_WifiAP. Qed.
#[global] Instance copier_WifiAP : Copier WifiAP_DeepCopyInto.
Proof. copy_struct view_WifiAP. Qed.

#[global] Instance framed_WifiNetwork : FramedView WifiNetworkObj WifiNetwork.
Proof. frame_struct view_WifiNetwork. Qed.
#[global] Instance copier_WifiNetwork : Copier WifiNetwork_DeepCopyInto.
Proof. copy_struct view_WifiNetwork. Qed.

#[global] Instance framed_WifiRoam : FramedView WifiRoamObj WifiRoam.
Proof. frame_struct view_WifiRoam. Qed.
#[global] Instance copier_WifiRoam : Copier WifiRoam_DeepCopyInto.
Proof. copy_struct view_WifiRoam. Qed.

#[global] Instance framed_WifiSection : FramedView WifiSectionObj WifiSection.
Proof. frame_struct view_WifiSection. Qed.
#[global] Instance copier_WifiSection : Copier WifiSection_DeepCopyInto.
Proof. copy_struct view_WifiSection. Qed.

#[global] Instance framed_ProfileConfig : FramedView ProfileConfigObj ProfileConfig.
Proof. frame_struct view_ProfileConfig. Qed.
#[global] Instance copier_ProfileConfig : Copier ProfileConfig_DeepCopyInto.
Proof. copy_struct view_ProfileConfig. Qed.

#[global] Instance framed_ShellyProfileSpec : FramedView ShellyProfileSpecObj ShellyProfileSpec.
Proof. frame_struct view_ShellyProfileSpec. Qed.
#[global] Instance copier_ShellyProfileSpec : Copier ShellyProfileSpec_DeepCopyInto.
Proof. copy_struct view_ShellyProfileSpec. Qed.

#[global] Instance framed_ShellyDeviceStatus : FramedView ShellyDeviceStatusObj ShellyDeviceStatus.
Proof. frame_struct view_ShellyDeviceStatus. Qed.
#[global] Instance copier_ShellyDeviceStatus : Copier ShellyDeviceStatus_DeepCopyInto.
Proof. copy_struct view_ShellyDeviceStatus. Qed.

#[global] Instance framed_ShellyDevice : FramedView ShellyDeviceObj _.
Proof. frame_struct view_ShellyDevice. Qed.
#[global] Instance copier_ShellyDevice : Copier ShellyDevice_DeepCopyInto.
Proof. copy_struct view_ShellyDevice. Qed.

#[global] Instance framed_ShellyDeviceList : FramedView ShellyDeviceListObj _.
Proof. frame_struct view_ShellyDeviceList. Qed.
#[global] Instance copier_ShellyDeviceList : Copier ShellyDeviceList_DeepCopyInto.
Proof. copy_struct view_ShellyDeviceList. Qed.

#[global] Instance framed_ShellyProfile : FramedView ShellyProfileObj _.
Proof. frame_struct view_ShellyProfile. Qed.
#[global] Instance copier_ShellyProfile : Copier ShellyProfile_DeepCopyInto.
Proof. copy_struct view_ShellyProfile. Qed.

#[global] Instance framed_ShellyProfileList : FramedView ShellyProfileListObj _.
Proof. frame_struct view_ShellyProfileList. Qed.
#[global] Instance copier_ShellyProfileList : Copier ShellyProfileList_DeepCopyInto.
Proof. copy_struct view_ShellyProfileList. Qed.

End Structs.

(** ** Isolation *)

(** What an object in memory stands for. *)
Inductive content : Type :=
| DeviceContent (d : TypeMeta * ShellyDevice)
| DeviceListContent (d : TypeMeta * ListMeta * list (TypeMeta * ShellyDevice))
| ProfileContent (d : TypeMeta * ObjectMeta * ShellyProfileSpec)
| ProfileListContent (d : TypeMeta * ListMeta * list (TypeMeta * ObjectMeta * ShellyProfileSpec)).

(** [h2] is [h1] after writes to the cells of [F] and allocations. *)
Definition only_through (F : gset loc) (h1 h2 : heap cell) : Prop :=
  ∀ l, l ∈ dom h1 → l ∉ F → h2 !! l = h1 !! l.

Section Isolation.
Context `{MachineryLaws}.

(** The content of an object, nil for a nil pointer and for a nil interface. *)
Definition read_object (o : option object) : rd cell (option content) :=
  match o with
  | None => mret None
  | Some (ADevice p) => v ← view p; mret (DeviceContent <$> v)
  | Some (ADeviceList p) => v ← view p; mret (DeviceListContent <$> v)
  | Some (AProfile p) => v ← view p; mret (ProfileContent <$> v)
  | Some (AProfileList p) => v ← view p; mret (ProfileListContent <$> v)
  end.

#[local] Instance framed_object o : Framed (read_object o).
Proof. destruct o as [[]|]; apply _. Qed.

(** One case of the dispatch. *)
Lemma boxed_copies {A P} `{!View A P, !FramedView A P, !Cell cell A} (f : A → mem cell A)
  `{!Copier f} (box : ptr A → object) (c : P → content) h p v :
  (∀ q, read_object (Some (box q)) = (w ← view q; mret (c <$> w))) →
  reads h (read_object (Some (box p))) v →
  extends h (q ← new_copy f p; mret (boxed box q)) (λ o h', freshly h h' (read_object o) v).
Proof.
  intros Hbox Hv. rewrite Hbox in Hv. apply reads_bind in Hv as (w & Hw & ->%reads_ret).
  apply extends_bind. eapply extends_mono; [by apply (copies (f := new_copy f))|].
  intros q h' Hs Hq. apply extends_ret. unfold boxed. destruct q as [|l].
  - destruct Hq as (F & [= <- _] & _). apply freshly_ret.
  - rewrite Hbox. eapply freshly_bind; [exact Hq|apply freshly_ret].
Qed.

Lemma copies_object h o v :
  reads h (read_object (Some o)) v →
  extends h (DeepCopyObject o) (λ c h', freshly h h' (read_object c) v).
Proof.
  intros Hv. destruct o as [p|p|p|p].
  - by apply (boxed_copies _ ADevice DeviceContent).
  - by apply (boxed_copies _ ADeviceList DeviceListContent).
  - by apply (boxed_copies _ AProfile ProfileContent).
  - by apply (boxed_copies _ AProfileList ProfileListContent).
Qed.

(** C9: a deep copy is equal and independent.  For every API object in memory
    that can be read at all (a device, a profile or a list of either, with all
    their sections, whatever they share), [DeepCopyObject] returns a copy that
    reads the same, having changed nothing that was there; copy and original have
    no cell in common, so that whatever is later written through the original
    ([dev.Status...], conditions updated in place) the copy still reads what the
    original was, and the other way round.  This is what [base := dev.DeepCopy()]
    before a patch is for. *)
Theorem DeepCopyObject_isolates h o v F (Hread : read_object (Some o) h = Some (v, F)) :
  ∃ c h' F', DeepCopyObject o h = Some (c, h') ∧ read_object c h' = Some (v, F') ∧
    h ⊆ h' ∧ F ## F' ∧
    (∀ h2, only_through F h' h2 → read_object c h2 = Some (v, F')) ∧
    (∀ h2, only_through F' h' h2 → read_object (Some o) h2 = Some (v, F)).
Proof.
  destruct (copies_object h o v) as (c & h' & Hc & Hs & F' & Hc' & Hdisj); [by exists F|].
  destruct (framed _ _ _ Hread) as [HF Hframe]. destruct (framed _ _ _ Hc') as [HF' Hframe'].
  pose proof (subseteq_dom _ _ Hs) as Hdom.
  exists c, h', F'. split_and!; [done..|set_solver| |].
  - intros h2 Hw. apply Hframe'. intros l Hl. apply Hw; [set_solver|set_solver].
  - intros h2 Hw. apply Hframe. intros l Hl. assert (Hl0 : l ∈ dom h) by set_solver.
    rewrite Hw by set_solver. apply elem_of_dom in Hl0 as [x Hx]. rewrite Hx.
    by eapply lookup_weaken.
Qed.
End Isolation.
