(* ===== verification/Jobs.v ===== *)
(** * Schedule jobs: the firmware and schedule sections
      (internal/controller/firmware.go and schedule.go)

    Two pseudo-sections are backed by the device's schedule jobs.  The firmware
    section owns the jobs that call [Shelly.Update]; the schedule section owns
    every other job.  This file holds the planning half of both, which is pure:
    the findings and the convergence plan.  Executing a plan is in Apply.v;
    what it does to a device is shown here on an abstract store of jobs
    ([exec_plan]). *)

From stdpp Require Import prelude gmap strings pretty sorting list.
From Stdlib Require Import Ascii.
From S2P Require Import Prelude Json Api Diff Shelly.

Definition sectionFirmware : string := "firmware".
Definition sectionSchedule : string := "schedule".
Definition autoUpdateTimespec : string := "0 0 0 * * SUN,MON,TUE,WED,THU,FRI,SAT".
Definition shellyUpdateMethod : string := "Shelly.Update".

(** ** Firmware section *)

Definition firmwareEnableOf (p : ShellyProfile) : option bool :=
  p.(prof_Spec).(ps_Config).(cfg_Firmware) ≫= fw_AutoUpdate.

Definition isUpdateJob (j : ScheduleJob) : bool :=
  existsb (λ c, String.eqb c.(sc_Method) shellyUpdateMethod) j.(job_Calls).

(** An update call whose [stage] is present and not the string "stable". *)
Definition non_stable_call (c : ScheduleCall) : bool :=
  if String.eqb c.(sc_Method) shellyUpdateMethod then
    match c.(sc_Params) !! "stage" with
    | Some (VStr s) => negb (String.eqb s "stable")
    | Some _ => true
    | None => false
    end
  else false.

Definition hasNonStableUpdateCall (j : ScheduleJob) : bool :=
  existsb non_stable_call j.(job_Calls).

Fixpoint firmwareOffenders (want : bool) (jobs : list ScheduleJob) : list Z * bool :=
  match jobs with
  | [] => ([], false)
  | j :: rest =>
      let '(offenders, hasCompliant) := firmwareOffenders want rest in
      if negb (isUpdateJob j) then (offenders, hasCompliant)
      else if want && j.(job_Enable) && negb (hasNonStableUpdateCall j)
      then (offenders, true)
      else (j.(job_ID) :: offenders, hasCompliant)
  end.

Definition job_path (id : Z) : string := "job:" +:+ itoa id.

(** The finding of one job, if any. *)
Definition firmware_job_finding (want : bool) (j : ScheduleJob) : list Finding :=
  if negb (isUpdateJob j) then []
  else if hasNonStableUpdateCall j then
    [MkFinding sectionFirmware (job_path j.(job_ID))
       (VStr "no non-stable Shelly.Update job") (VStr "non-stable stage")]
  else if negb want then
    [MkFinding sectionFirmware (job_path j.(job_ID))
       (VStr "no Shelly.Update job") (VStr "present")]
  else if negb j.(job_Enable) then
    [MkFinding sectionFirmware (job_path j.(job_ID)) (VStr "enabled") (VStr "disabled")]
  else [].

Definition firmwareFindings (want : bool) (jobs : list ScheduleJob) : list Finding :=
  concat (firmware_job_finding want <$> jobs) ++
  (if want && negb (firmwareOffenders want jobs).2
   then [MkFinding sectionFirmware "autoUpdate" (VBool true) (VBool false)]
   else []).

(** The job [applyFirmware] creates. *)
Definition autoUpdateJob : ScheduleJob :=
  MkScheduleJob 0 true autoUpdateTimespec
    [MkScheduleCall shellyUpdateMethod {["stage" := VStr "stable"]}].

(** ** Schedule section *)

Definition scheduleSectionOf (p : ShellyProfile) : option ScheduleSection :=
  p.(prof_Spec).(ps_Config).(cfg_Schedules).

Definition enableOf (spec : ScheduleJobSpec) : bool :=
  match spec.(js_Enable) with None => true | Some b => b end.

(** Simple case folding, as far as an ASCII text without the letter k can tell:
    ASCII letters fold to lower case and U+017F (bytes C5 BF) folds to s. *)
Fixpoint fold_case (s : string) : string :=
  match s with
  | EmptyString => EmptyString
  | String c rest =>
      match rest with
      | String d rest' =>
          if (N_of_ascii c =? 197)%N && (N_of_ascii d =? 191)%N
          then String "s" (fold_case rest')
          else String (ascii_lower c) (fold_case rest)
      | EmptyString => String (ascii_lower c) EmptyString
      end
  end.

(** [strings.EqualFold(s, shellyUpdateMethod)]. *)
Definition is_update_method (s : string) : bool :=
  String.eqb (fold_case s) (fold_case shellyUpdateMethod).

Definition specIsUpdateJob (spec : ScheduleJobSpec) : bool :=
  existsb (λ c, is_update_method c.(cs_Method)) spec.(js_Calls).

(** The params map of a declared call, nil ([None]) when decoding fails. *)
Definition spec_params (c : ScheduleCallSpec) : option obj :=
  match c.(cs_Params) with
  | Some raw => unmarshal_map raw
  | None => Some ∅
  end.

Fixpoint specCalls (calls : list ScheduleCallSpec) : res error (list ScheduleCall) :=
  match calls with
  | [] => Ok []
  | c :: rest =>
      match spec_params c with
      | None => Err (errorf ("schedule: unmarshalling params for " +:+ c.(cs_Method)))
      | Some params =>
          try out := specCalls rest in
          Ok (MkScheduleCall c.(cs_Method) params :: out)
      end
  end.

Section Schedule.
Context `{JsonText}.

Definition normaliseParams (p : obj) : string :=
  if decide (size p = 0) then "{}"
  else match json_Marshal (VObj p) with Ok text => text | Err _ => "" end.

(** A failed decode leaves the declared params nil here. *)
Definition callsMatch (deviceCall : ScheduleCall) (specCall : ScheduleCallSpec) : bool :=
  String.eqb deviceCall.(sc_Method) specCall.(cs_Method) &&
  String.eqb (normaliseParams deviceCall.(sc_Params))
             (normaliseParams (default ∅ (spec_params specCall))).

(** The call lists match: same length, and call by call. *)
Fixpoint all_calls_match (dcs : list ScheduleCall) (scs : list ScheduleCallSpec) : bool :=
  match dcs, scs with
  | [], [] => true
  | d :: dcs, s :: scs => callsMatch d s && all_calls_match dcs scs
  | _, _ => false
  end.

Definition jobSpecMatchesDevice (job : ScheduleJob) (spec : ScheduleJobSpec) : bool :=
  String.eqb job.(job_Timespec) spec.(js_Timespec) &&
  all_calls_match job.(job_Calls) spec.(js_Calls).

Inductive action_kind : Type := ACreate | ADelete | AUpdate.

Record scheduleAction : Type := MkAction {
  act_kind : action_kind;
  act_id : Z;
  act_job : ScheduleJob;
  act_finding : Finding;
}.

(** The inner loop of the first pass: the first unmatched device job with the
    declared content, and the [deviceMatched] flags with it set. *)
Fixpoint match_spec (spec : ScheduleJobSpec) (owned : list (ScheduleJob * bool))
  : option (ScheduleJob * list (ScheduleJob * bool)) :=
  match owned with
  | [] => None
  | (dj, flag) :: rest =>
      if negb flag && jobSpecMatchesDevice dj spec then Some (dj, (dj, true) :: rest)
      else match match_spec spec rest with
           | Some (j, rest') => Some (j, (dj, flag) :: rest')
           | None => None
           end
  end.

Definition update_action (dj : ScheduleJob) (wantEnable : bool) : scheduleAction :=
  MkAction AUpdate dj.(job_ID)
    (MkScheduleJob dj.(job_ID) wantEnable dj.(job_Timespec) dj.(job_Calls))
    (MkFinding sectionSchedule (job_path dj.(job_ID) +:+ ":enable")
       (VBool wantEnable) (VBool dj.(job_Enable))).

(** First pass: update actions, the [matched] flags of the specs and the
    [deviceMatched] flags of the device jobs. *)
Fixpoint first_pass (specs : list ScheduleJobSpec) (owned : list (ScheduleJob * bool))
  : list scheduleAction * list bool * list (ScheduleJob * bool) :=
  match specs with
  | [] => ([], [], owned)
  | spec :: rest =>
      let '(acts, m, owned') :=
        if specIsUpdateJob spec then ([], false, owned)
        else match match_spec spec owned with
             | None => ([], false, owned)
             | Some (dj, owned') =>
                 (if Bool.eqb dj.(job_Enable) (enableOf spec) then []
                  else [update_action dj (enableOf spec)], true, owned')
             end in
      let '(acts', ms, owned'') := first_pass rest owned' in
      (acts ++ acts', m :: ms, owned'')
  end.

(** The create action of spec number [si]; the job's ID is the sentinel
    [-1 - si] from which [applySchedule] recovers the spec. *)
Definition create_action (si : nat) (spec : ScheduleJobSpec) : scheduleAction :=
  MkAction ACreate 0
    (MkScheduleJob (-1 - Z.of_nat si) (enableOf spec) spec.(js_Timespec) [])
    (MkFinding sectionSchedule
       ("spec:" +:+ itoa (Z.of_nat si) +:+ ":timespec=" +:+ spec.(js_Timespec))
       (VStr "present") (VStr "absent")).

Fixpoint create_pass (si : nat) (specs : list ScheduleJobSpec) (matched : list bool)
  : list scheduleAction :=
  match specs, matched with
  | spec :: specs, m :: matched =>
      (if m then [] else if specIsUpdateJob spec then [] else [create_action si spec])
      ++ create_pass (S si) specs matched
  | _, _ => []
  end.

Definition delete_action (dj : ScheduleJob) : scheduleAction :=
  MkAction ADelete dj.(job_ID) dj
    (MkFinding sectionSchedule (job_path dj.(job_ID)) (VStr "absent") (VStr "present")).

Definition delete_pass (owned : list (ScheduleJob * bool)) : list scheduleAction :=
  delete_action <$> (filter (λ jf, jf.2 = false) owned).*1.

Definition owned_jobs (deviceJobs : list ScheduleJob) : list ScheduleJob :=
  filter (λ j, isUpdateJob j = false) deviceJobs.

Definition scheduleActions (section : option ScheduleSection)
  (deviceJobs : list ScheduleJob) : list scheduleAction :=
  match section with
  | None => []
  | Some sec =>
      let ownedJobs := owned_jobs deviceJobs in
      let '(updates, matched, flags) :=
        first_pass sec.(sched_Jobs) ((λ j, (j, false)) <$> ownedJobs) in
      updates ++ create_pass 0 sec.(sched_Jobs) matched ++ delete_pass flags
  end.
End Schedule.

#[global] Arguments specIsUpdateJob : simpl never.
#[global] Arguments isUpdateJob : simpl never.
#[global] Arguments hasNonStableUpdateCall : simpl never.

(** ** Firmware: findings and plan agree *)

(** A job that satisfies the firmware section, or is outside it. *)
Definition firmware_ok (want : bool) (j : ScheduleJob) : bool :=
  negb (isUpdateJob j) ||
  (want && j.(job_Enable) && negb (hasNonStableUpdateCall j)).

(** A job that keeps the device on stable firmware. *)
Definition firmware_compliant (want : bool) (j : ScheduleJob) : bool :=
  isUpdateJob j && want && j.(job_Enable) && negb (hasNonStableUpdateCall j).

Lemma firmware_job_finding_nil want j :
  firmware_job_finding want j = [] ↔ firmware_ok want j = true.
Proof.
  unfold firmware_job_finding, firmware_ok.
  destruct (isUpdateJob j), (hasNonStableUpdateCall j), want, (job_Enable j); simpl; done.
Qed.

Lemma firmwareOffenders_spec want jobs :
  firmwareOffenders want jobs =
  (job_ID <$> filter (λ j, firmware_ok want j = false) jobs,
   existsb (firmware_compliant want) jobs).
Proof.
  induction jobs as [|j jobs IH]; simpl; [done|].
  rewrite filter_cons, IH.
  assert (Hok : firmware_ok want j = negb (isUpdateJob j) ||
    (want && job_Enable j && negb (hasNonStableUpdateCall j))) by done.
  assert (Hc : firmware_compliant want j =
    isUpdateJob j && want && job_Enable j && negb (hasNonStableUpdateCall j)) by done.
  rewrite Hok, Hc. clear Hok Hc.
  destruct (isUpdateJob j), (hasNonStableUpdateCall j), want, (job_Enable j); done.
Qed.

Lemma concat_nil {A} (ls : list (list A)) : concat ls = [] ↔ ∀ l, l ∈ ls → l = [].
Proof.
  induction ls as [|l ls IH]; simpl; [set_solver|].
  rewrite app_nil, IH. set_solver.
Qed.

Lemma firmwareFindings_nil want jobs :
  firmwareFindings want jobs = [] ↔
  (∀ j, j ∈ jobs → firmware_ok want j = true) ∧
  (want = true → ∃ j, j ∈ jobs ∧ firmware_compliant want j = true).
Proof.
  unfold firmwareFindings. rewrite app_nil, concat_nil, firmwareOffenders_spec. simpl. f_equiv.
  - split.
    + intros Hall j Hj. apply firmware_job_finding_nil, Hall, list_elem_of_fmap. eauto.
    + intros Hall l (j & -> & Hj)%list_elem_of_fmap. by apply firmware_job_finding_nil, Hall.
  - destruct want; simpl; [|by split].
    destruct (existsb (firmware_compliant true) jobs) eqn:E; simpl.
    + split; [|done]. intros _ _. apply existsb_exists in E as (j & Hj & Hc).
      exists j. by rewrite list_elem_of_In.
    + split; [done|]. intros Hex. destruct (Hex eq_refl) as (j & Hj & Hc).
      rewrite list_elem_of_In in Hj.
      assert (existsb (firmware_compliant true) jobs = true) by (apply existsb_exists; eauto).
      congruence.
Qed.

(** ** Schedule: content keys *)

Section ScheduleFacts.
Context `{JsonText}.

(** What content matching compares: the timespec and the normalised calls. *)
Abbreviation content := (string * list (string * string))%type.

Definition jkey (j : ScheduleJob) : content :=
  (j.(job_Timespec), (λ c, (c.(sc_Method), normaliseParams c.(sc_Params))) <$> j.(job_Calls)).

Definition skey (s : ScheduleJobSpec) : content :=
  (s.(js_Timespec),
   (λ c, (c.(cs_Method), normaliseParams (default ∅ (spec_params c)))) <$> s.(js_Calls)).

Lemma jobSpecMatchesDevice_key j s :
  jobSpecMatchesDevice j s = bool_decide (jkey j = skey s).
Proof.
  unfold jobSpecMatchesDevice, jkey, skey.
  assert (Hc : ∀ dcs scs, all_calls_match dcs scs = bool_decide (
    ((λ c, (c.(sc_Method), normaliseParams c.(sc_Params))) <$> dcs) =
    ((λ c, (c.(cs_Method), normaliseParams (default ∅ (spec_params c)))) <$> scs))).
  { induction dcs as [|d dcs IH]; intros [|s' scs]; csimpl; [done..|].
    rewrite IH. unfold callsMatch. 
    apply Bool.eq_iff_eq_true. rewrite !andb_true_iff, !bool_decide_eq_true, !String.eqb_eq.
    split; [intros [[-> ->] ->]; done|]. intros [= -> -> ->]. done. }
  rewrite Hc. apply Bool.eq_iff_eq_true.
  rewrite andb_true_iff, !bool_decide_eq_true, String.eqb_eq.
  split; [by intros [-> ->]|]. by intros [= -> ->].
Qed.

(** Specs the section manages. *)
Definition managed (specs : list ScheduleJobSpec) : list ScheduleJobSpec :=
  filter (λ s, specIsUpdateJob s = false) specs.

(** The enable flags declared for content [c], in order. *)
Definition declared (c : content) (specs : list ScheduleJobSpec) : list bool :=
  enableOf <$> filter (λ s, skey s = c) (managed specs).

(** The enable flags the device has for content [c], in order. *)
Definition present (c : content) (owned : list ScheduleJob) : list bool :=
  job_Enable <$> filter (λ j, jkey j = c) owned.

(** The device's jobs are exactly the declared ones, with the declared flags. *)
Definition aligned (specs : list ScheduleJobSpec) (owned : list ScheduleJob) : Prop :=
  ∀ c, present c owned = declared c specs.

(** ** The first pass, with the wanted enable flag kept per matched job *)

Abbreviation flags := (list (ScheduleJob * option bool)).

Definition erase (fl : flags) : list (ScheduleJob * bool) :=
  (λ jo, (jo.1, bool_decide (is_Some jo.2))) <$> fl.

(** Give the first unmatched job with content [c] the flag [e]. *)
Fixpoint set_first (c : content) (e : bool) (fl : flags) : option (ScheduleJob * flags) :=
  match fl with
  | [] => None
  | (j, o) :: rest =>
      if negb (bool_decide (is_Some o)) && bool_decide (jkey j = c)
      then Some (j, (j, Some e) :: rest)
      else match set_first c e rest with
           | Some (j', rest') => Some (j', (j, o) :: rest')
           | None => None
           end
  end.

Fixpoint keyed_pass (specs : list ScheduleJobSpec) (fl : flags)
  : list scheduleAction * list bool * flags :=
  match specs with
  | [] => ([], [], fl)
  | spec :: rest =>
      let '(acts, m, fl') :=
        if specIsUpdateJob spec then ([], false, fl)
        else match set_first (skey spec) (enableOf spec) fl with
             | None => ([], false, fl)
             | Some (dj, fl') =>
                 (if Bool.eqb dj.(job_Enable) (enableOf spec) then []
                  else [update_action dj (enableOf spec)], true, fl')
             end in
      let '(acts', ms, fl'') := keyed_pass rest fl' in
      (acts ++ acts', m :: ms, fl'')
  end.

Lemma match_spec_set_first spec fl :
  match_spec spec (erase fl) =
  match set_first (skey spec) (enableOf spec) fl with
  | Some (j, fl') => Some (j, erase fl')
  | None => None
  end.
Proof.
  induction fl as [|[j o] fl IH]; [done|].
  change (erase ((j, o) :: fl)) with ((j, bool_decide (is_Some o)) :: erase fl).
  cbn [match_spec set_first]. rewrite jobSpecMatchesDevice_key, IH.
  destruct (negb _ && _); [done|]. by destruct (set_first _ _ fl) as [[j' fl']|].
Qed.

Lemma first_pass_keyed specs : ∀ fl,
  first_pass specs (erase fl) =
  let '(a, m, fl') := keyed_pass specs fl in (a, m, erase fl').
Proof.
  induction specs as [|spec specs IH]; intros fl; simpl; [done|].
  destruct (specIsUpdateJob spec).
  - rewrite IH. by destruct (keyed_pass specs fl) as [[? ?] ?].
  - rewrite match_spec_set_first.
    destruct (set_first _ _ fl) as [[dj fl']|];
      rewrite IH; by destruct (keyed_pass specs _) as [[? ?] ?].
Qed.

(** ** Matching, content by content *)

(** The flags of the jobs with content [c], in device order. *)
Definition flags_of (c : content) (fl : flags) : list (option bool) :=
  (filter (λ jo, jkey jo.1 = c) fl).*2.

(** Fill the unset flags from the left. *)
Fixpoint fill (os : list (option bool)) (es : list bool) : list (option bool) :=
  match os, es with
  | [], _ => []
  | Some e :: os, es => Some e :: fill os es
  | None :: os, e :: es => Some e :: fill os es
  | None :: os, [] => None :: fill os []
  end.

Definition unset (os : list (option bool)) : nat := length (filter (λ o, o = None) os).

Lemma unset_cons o os :
  unset (o :: os) = (match o with None => 1 | Some _ => 0 end) + unset os.
Proof. unfold unset. by destruct o. Qed.

Lemma fill_nil os : fill os [] = os.
Proof. induction os as [|[e|] os IH]; simpl; by rewrite ?IH. Qed.

Lemma fill_cons os e es : fill (fill os [e]) es = fill os (e :: es).
Proof.
  induction os as [|[e'|] os IH]; simpl; [done|by rewrite IH|by rewrite fill_nil].
Qed.

Lemma unset_fill os e : 0 < unset os → unset (fill os [e]) = pred (unset os).
Proof.
  unfold unset. induction os as [|[e'|] os IH]; simpl; [lia|exact IH|]. by rewrite fill_nil.
Qed.

Lemma fill_full os e : unset os = 0 → fill os [e] = os.
Proof. unfold unset. induction os as [|[e'|] os IH]; simpl; [done| |done]. intros. by rewrite IH. Qed.

Lemma fill_replicate n es :
  fill (replicate n None) es =
  (Some <$> take n es) ++ replicate (n - length es) None.
Proof.
  revert es. induction n as [|n IH]; intros [|e es]; simpl; [done..| |].
  - by rewrite fill_nil.
  - by rewrite IH.
Qed.

Lemma unset_replicate n : unset (replicate n None) = n.
Proof. unfold unset. induction n as [|n IH]; simpl; by rewrite ?IH. Qed.

(** [set_first] fills the first unset flag of its content and no other. *)
Lemma set_first_flags c e fl c' :
  match set_first c e fl with
  | Some (j, fl') =>
      fl'.*1 = fl.*1 ∧ jkey j = c ∧ 0 < unset (flags_of c fl) ∧
      flags_of c' fl' = if decide (c' = c) then fill (flags_of c fl) [e] else flags_of c' fl
  | None => unset (flags_of c fl) = 0
  end.
Proof.
  unfold flags_of. induction fl as [|[j o] fl IH]; [done|]. cbn [set_first].
  rewrite !(filter_cons _ (j, o) fl). cbn [fst].
  destruct (negb (bool_decide (is_Some o)) && bool_decide (jkey j = c)) eqn:E.
  - apply andb_true_iff in E as [Ho Hj]. reflect_bools. 
    assert (o = None) as -> by (by apply eq_None_not_Some).
    rewrite !(filter_cons _ (j, Some e) fl). cbn [fst].
    rewrite (decide_True _ _ Hj). csimpl. split_and!; [done|done|unfold unset; simpl; lia|].
    rewrite Hj. destruct (decide (c' = c)) as [->|Hne].
    + rewrite decide_True by done. csimpl. by rewrite fill_nil.
    + by rewrite !decide_False by congruence.
  - destruct (set_first c e fl) as [[j' fl']|].
    + destruct IH as (Hf & Hj' & Hu & IH). revert IH. rewrite !(filter_cons _ (j, o) fl'). cbn [fst]. csimpl.
      intros IH. split_and!; [by f_equal|done| |].
      * destruct (decide (jkey j = c)); [|done]. rewrite fmap_cons, unset_cons. lia.
      * revert IH. destruct (decide (c' = c)) as [->|Hne]; intros IH.
        -- destruct (decide (jkey j = c)) as [Hj|Hj]; [|done].
           destruct o as [eo|]; [|by rewrite (bool_decide_eq_true_2 _ Hj) in E].
           csimpl. by rewrite IH.
        -- destruct (decide (jkey j = c')); csimpl; by rewrite IH.
    + destruct (decide (jkey j = c)) as [Hj|Hj]; [|done].
      destruct o as [eo|]; [|by rewrite (bool_decide_eq_true_2 _ Hj) in E].
      by rewrite fmap_cons, unset_cons.
Qed.

(** The specs the first pass left unmatched. *)
Fixpoint unmatched (specs : list ScheduleJobSpec) (ms : list bool) : list ScheduleJobSpec :=
  match specs, ms with
  | s :: specs, m :: ms =>
      if m then unmatched specs ms
      else if specIsUpdateJob s then unmatched specs ms
      else s :: unmatched specs ms
  | _, _ => []
  end.

Lemma declared_cons c s specs :
  declared c (s :: specs) =
  if specIsUpdateJob s then declared c specs
  else if decide (skey s = c) then enableOf s :: declared c specs else declared c specs.
Proof.
  unfold declared, managed. rewrite filter_cons.
  destruct (specIsUpdateJob s); simpl; [done|]. rewrite filter_cons. by case_decide.
Qed.

Lemma keyed_pass_flags specs : ∀ fl,
  let '(acts, ms, fl') := keyed_pass specs fl in
  length ms = length specs ∧ fl'.*1 = fl.*1 ∧
  ∀ c, flags_of c fl' = fill (flags_of c fl) (declared c specs) ∧
       enableOf <$> filter (λ s, skey s = c) (unmatched specs ms) =
         drop (unset (flags_of c fl)) (declared c specs).
Proof.
  induction specs as [|spec specs IH]; intros fl; simpl.
  { split_and!; [done..|]. intros c. change (declared c []) with (@nil bool).
    by rewrite fill_nil, drop_nil. }
  destruct (specIsUpdateJob spec) eqn:Hup.
  { specialize (IH fl). destruct (keyed_pass specs fl) as [[acts ms] fl'].
    destruct IH as (Hl & Hf & IH). cbn [unmatched length]. rewrite ?Hup.
    split_and!; [by rewrite Hl|done|]. intros c. by rewrite declared_cons, Hup. }
  pose proof (λ c, set_first_flags (skey spec) (enableOf spec) fl c) as Hset.
  destruct (set_first (skey spec) (enableOf spec) fl) as [[dj fl1]|].
  - specialize (IH fl1). destruct (keyed_pass specs fl1) as [[acts ms] fl'].
    destruct IH as (Hl & Hf & IH). cbn [unmatched length].
    destruct (Hset (skey spec)) as (Hf1 & _). split_and!; [by rewrite Hl|congruence|].
    intros c. rewrite declared_cons, Hup. destruct (IH c) as [IH1 IH2].
    destruct (Hset c) as (_ & _ & Hpos & Hfl). rewrite IH1, IH2, Hfl.
    destruct (decide (c = skey spec)) as [->|Hne].
    + rewrite decide_True by done. rewrite fill_cons. split; [done|].
      rewrite unset_fill by done. by destruct (unset (flags_of (skey spec) fl)); [lia|].
    + rewrite decide_False by done. done.
  - specialize (IH fl). destruct (keyed_pass specs fl) as [[acts ms] fl'].
    destruct IH as (Hl & Hf & IH). cbn [unmatched length]. rewrite ?Hup.
    split_and!; [by rewrite Hl|done|]. intros c. rewrite declared_cons, Hup. destruct (IH c) as [IH1 IH2]. rewrite IH1.
    rewrite filter_cons. destruct (decide (skey spec = c)) as [<-|Hne]; [|done].
    specialize (Hset (skey spec)). rewrite Hset in *. csimpl. rewrite IH2. split; [|done].
    by rewrite <-fill_cons, fill_full.
Qed.

(** ** Which updates the first pass plans *)

Lemma set_first_elem c e fl j fl' :
  set_first c e fl = Some (j, fl') →
  (j, Some e) ∈ fl' ∧ (∀ x, x ∈ fl → is_Some x.2 → x ∈ fl') ∧
  (∀ x, x ∈ fl' → x = (j, Some e) ∨ x ∈ fl).
Proof.
  revert fl'. induction fl as [|[j' o] fl IH]; intros fl'; cbn [set_first]; [done|].
  case_match eqn:E; intros ?; simplify_eq.
  - apply andb_true_iff in E as [Ho _]. reflect_bools. split_and!; [constructor| |].
    + intros x Hx Hs. apply elem_of_cons in Hx as [->|Hx]; [done|by constructor].
    + intros x Hx. apply elem_of_cons in Hx as [->|Hx]; [by left|]. right. by constructor.
  - destruct (set_first c e fl) as [[j1 fl1]|]; simplify_eq.
    destruct (IH fl1 eq_refl) as (H1 & H2 & H3). split_and!; [by constructor| |].
    + intros x Hx Hs. apply elem_of_cons in Hx as [->|Hx]; constructor. by apply H2.
    + intros x Hx. apply elem_of_cons in Hx as [->|Hx]; [right; constructor|].
      destruct (H3 x Hx) as [?|?]; [by left|]. right. by constructor.
Qed.

Lemma keyed_pass_updates specs : ∀ fl,
  let '(acts, ms, fl') := keyed_pass specs fl in
  (∀ a, a ∈ acts → ∃ j e, a = update_action j e ∧ (j, Some e) ∈ fl' ∧ j.(job_Enable) ≠ e) ∧
  (∀ j e, (j, Some e) ∈ fl' →
     (j, Some e) ∈ fl ∨ j.(job_Enable) = e ∨ update_action j e ∈ acts) ∧
  (∀ x, x ∈ fl → is_Some x.2 → x ∈ fl').
Proof.
  induction specs as [|spec specs IH]; intros fl; simpl.
  { split_and!; [by intros a ?%elem_of_nil|by left|done]. }
  destruct (specIsUpdateJob spec).
  { specialize (IH fl). by destruct (keyed_pass specs fl) as [[acts ms] fl']. }
  destruct (set_first (skey spec) (enableOf spec) fl) as [[dj fl1]|] eqn:Hset.
  2:{ specialize (IH fl). by destruct (keyed_pass specs fl) as [[acts ms] fl']. }
  destruct (set_first_elem _ _ _ _ _ Hset) as (Hin & Hkeep & Hnew).
  specialize (IH fl1). destruct (keyed_pass specs fl1) as [[acts ms] fl'].
  destruct IH as (IH1 & IH2 & IH3). split_and!.
  - intros a [Ha|Ha]%elem_of_app; [|by apply IH1].
    destruct (Bool.eqb (job_Enable dj) (enableOf spec)) eqn:E; [by apply elem_of_nil in Ha|].
    apply list_elem_of_singleton in Ha as ->. exists dj, (enableOf spec). split_and!; [done| |].
    + apply IH3; [done|]. eauto.
    + by apply Bool.eqb_false_iff.
  - intros j e Hj. destruct (IH2 j e Hj) as [Hj1|[?|Ha]]; [|by auto|].
    + destruct (Hnew _ Hj1) as [[= -> ->]|?]; [|by left].
      destruct (Bool.eqb (job_Enable dj) (enableOf spec)) eqn:E.
      * right; left. by apply Bool.eqb_prop.
      * right; right. constructor.
    + right; right. rewrite elem_of_app. by right.
  - intros x Hx Hs. apply IH3; [by apply Hkeep|done].
Qed.

Lemma create_pass_unmatched specs : ∀ n ms,
  length ms = length specs →
  create_pass n specs ms = [] ↔ unmatched specs ms = [].
Proof.
  induction specs as [|s specs IH]; intros n [|m ms] Hl; simplify_eq/=; [done|].
  destruct m; simpl; [by apply IH|]. destruct (specIsUpdateJob s); simpl; [by apply IH|done].
Qed.

Lemma erase_fresh (l : list ScheduleJob) :
  erase ((λ j, (j, None)) <$> l) = (λ j, (j, false)) <$> l.
Proof. unfold erase. by rewrite <-list_fmap_compose. Qed.

Lemma flags_of_fresh c (l : list ScheduleJob) :
  flags_of c ((λ j, (j, None)) <$> l) = replicate (length (present c l)) None.
Proof.
  unfold flags_of, present. induction l as [|j l IH]; [done|]. csimpl.
  rewrite !filter_cons. cbn [fst]. case_decide; csimpl; [by f_equal|done].
Qed.

(** Entries of a flag list, content by content. *)
Lemma flags_jobs c fl : (filter (λ jo : ScheduleJob * option bool, jkey jo.1 = c) fl).*1 =
  filter (λ j, jkey j = c) fl.*1.
Proof.
  induction fl as [|[j o] fl IH]; [done|]. csimpl. rewrite !filter_cons. cbn [fst].
  case_decide; csimpl; by rewrite ?IH.
Qed.

(** ** The plan, described content by content *)

(** [fl] assigns to each owned job, in order, the flag the plan gives it ([None]:
    deleted), and [rest] are the specs to create. *)
Record plan_of (sec : ScheduleSection) (jobs : list ScheduleJob)
  (ups : list scheduleAction) (ms : list bool) (fl : flags) : Prop := {
  plan_eq : scheduleActions (Some sec) jobs =
    ups ++ create_pass 0 sec.(sched_Jobs) ms
    ++ (delete_action <$> (filter (λ jo : ScheduleJob * option bool, jo.2 = None) fl).*1);
  plan_len : length ms = length sec.(sched_Jobs);
  plan_jobs : fl.*1 = owned_jobs jobs;
  plan_flags c : flags_of c fl =
    (Some <$> take (length (present c (owned_jobs jobs))) (declared c sec.(sched_Jobs))) ++
    replicate (length (present c (owned_jobs jobs)) - length (declared c sec.(sched_Jobs))) None;
  plan_rest c : enableOf <$> filter (λ s, skey s = c) (unmatched sec.(sched_Jobs) ms) =
    drop (length (present c (owned_jobs jobs))) (declared c sec.(sched_Jobs));
  plan_ups a : a ∈ ups → ∃ j e, a = update_action j e ∧ (j, Some e) ∈ fl ∧ j.(job_Enable) ≠ e;
  plan_set j e : (j, Some e) ∈ fl → j.(job_Enable) = e ∨ update_action j e ∈ ups;
}.

Lemma delete_pass_erase fl :
  delete_pass (erase fl) =
  delete_action <$> (filter (λ jo : ScheduleJob * option bool, jo.2 = None) fl).*1.
Proof.
  unfold delete_pass, erase. f_equal. induction fl as [|[j o] fl IH]; [done|].
  rewrite fmap_cons, !filter_cons. cbn [fst snd].
  destruct o as [e|]; repeat case_decide; try done; csimpl; by f_equal.
Qed.

Lemma plan_exists sec jobs : ∃ ups ms fl, plan_of sec jobs ups ms fl.
Proof.
  set (fl0 := (λ j, (j, @None bool)) <$> owned_jobs jobs).
  pose proof (keyed_pass_flags sec.(sched_Jobs) fl0) as Hfl.
  pose proof (keyed_pass_updates sec.(sched_Jobs) fl0) as Hup.
  pose proof (first_pass_keyed sec.(sched_Jobs) fl0) as Hfirst.
  destruct (keyed_pass (sched_Jobs sec) fl0) as [[ups ms] fl].
  destruct Hfl as (Hlen & Hjobs & Hfl), Hup as (Hup1 & Hup2 & _).
  exists ups, ms, fl. split; [|done| | | |done|].
  - unfold scheduleActions. rewrite <-erase_fresh. fold fl0. rewrite Hfirst.
    by rewrite delete_pass_erase.
  - rewrite Hjobs. subst fl0. rewrite <-list_fmap_compose. apply list_fmap_id.
  - intros c. destruct (Hfl c) as [-> _]. subst fl0. by rewrite flags_of_fresh, fill_replicate.
  - intros c. destruct (Hfl c) as [_ ->]. subst fl0. by rewrite flags_of_fresh, unset_replicate.
  - intros j e Hj. destruct (Hup2 j e Hj) as [Hf|?]; [|done].
    apply list_elem_of_fmap in Hf as (? & ? & _). done.
Qed.

(** ** The plan is empty exactly when the device is aligned *)

(** The owned jobs with content [c] are the entries of [fl] with that content. *)
Lemma plan_entries sec jobs ups ms fl c :
  plan_of sec jobs ups ms fl →
  filter (λ j, jkey j = c) (owned_jobs jobs) =
  (filter (λ jo : ScheduleJob * option bool, jkey jo.1 = c) fl).*1.
Proof. intros Hp. by rewrite flags_jobs, (plan_jobs _ _ _ _ _ Hp). Qed.

(** Every entry keeps its flag, content by content. *)
Lemma present_flags sec jobs ups ms fl c :
  plan_of sec jobs ups ms fl → (∀ jo, jo ∈ fl → jo.2 = Some jo.1.(job_Enable)) →
  Some <$> present c (owned_jobs jobs) = flags_of c fl.
Proof.
  intros Hp Hset. unfold present, flags_of.
  rewrite (plan_entries _ _ _ _ _ _ Hp), <-!list_fmap_compose.
  apply list_fmap_ext. intros i jo Hi. simpl. symmetry. apply Hset.
  apply list_elem_of_lookup_2, list_elem_of_filter in Hi. naive_solver.
Qed.

Lemma plan_nil_aligned sec jobs ups ms fl :
  plan_of sec jobs ups ms fl → scheduleActions (Some sec) jobs = [] →
  aligned sec.(sched_Jobs) (owned_jobs jobs).
Proof.
  intros Hp Hnil c. rewrite (plan_eq _ _ _ _ _ Hp) in Hnil.
  apply app_nil in Hnil as [Hups [Hcr Hdel]%app_nil].
  apply create_pass_unmatched in Hcr; [|by eapply plan_len].
  assert (Hset : ∀ jo, jo ∈ fl → jo.2 = Some jo.1.(job_Enable)).
  { intros [j [e|]] Hj; simpl.
    - destruct (plan_set _ _ _ _ _ Hp j e Hj) as [<-|Hf]; [done|].
      rewrite Hups in Hf. by apply elem_of_nil in Hf.
    - exfalso. apply (elem_of_nil (delete_action j)). rewrite <-Hdel.
      apply list_elem_of_fmap. exists j. split; [done|]. apply list_elem_of_fmap.
      exists (j, None). split; [done|]. by apply list_elem_of_filter. }
  pose proof (present_flags _ _ _ _ _ c Hp Hset) as Hpr.
  rewrite (plan_flags _ _ _ _ _ Hp) in Hpr.
  pose proof (plan_rest _ _ _ _ _ Hp c) as Hrest. rewrite Hcr in Hrest.
  apply (f_equal length) in Hrest. rewrite length_drop in Hrest. simpl in Hrest.
  assert (Hl : length (present c (owned_jobs jobs)) ≤ length (declared c (sched_Jobs sec))).
  { apply (f_equal length) in Hpr as Hlen.
    destruct (decide (length (present c (owned_jobs jobs)) ≤ length (declared c (sched_Jobs sec))));
      [done|]. exfalso.
    assert (Hin : None ∈ Some <$> present c (owned_jobs jobs)).
    { rewrite Hpr, elem_of_app. right. apply elem_of_replicate. split; [done|lia]. }
    by apply list_elem_of_fmap in Hin as (? & ? & _). }
  rewrite (proj2 (Nat.sub_0_le _ _)), app_nil_r, take_ge in Hpr by lia.
  by apply (inj (fmap Some)) in Hpr.
Qed.

Lemma aligned_plan_nil sec jobs ups ms fl :
  plan_of sec jobs ups ms fl → aligned sec.(sched_Jobs) (owned_jobs jobs) →
  scheduleActions (Some sec) jobs = [].
Proof.
  intros Hp Hal.
  assert (Hset : ∀ jo, jo ∈ fl → jo.2 = Some jo.1.(job_Enable)).
  { intros [j o] Hj. pose proof (plan_flags _ _ _ _ _ Hp (jkey j)) as Hfl.
    rewrite <-Hal, Nat.sub_diag, take_ge, app_nil_r in Hfl by lia.
    unfold present, flags_of in Hfl.
    rewrite (plan_entries _ _ _ _ _ _ Hp), <-!list_fmap_compose in Hfl.
    assert (Hin : (j, o) ∈ filter (λ jo : ScheduleJob * option bool, jkey jo.1 = jkey j) fl)
      by by apply list_elem_of_filter.
    apply list_elem_of_lookup in Hin as [i Hi].
    apply (f_equal (lookup i)) in Hfl. rewrite !list_lookup_fmap, Hi in Hfl. by injection Hfl. }
  rewrite (plan_eq _ _ _ _ _ Hp). apply app_nil; split; [|apply app_nil; split].
  - apply nil_iff_no_elem. intros a Ha.
    destruct (plan_ups _ _ _ _ _ Hp a Ha) as (j & e & _ & Hj & Hne).
    apply Hset in Hj. simplify_eq/=.
  - apply create_pass_unmatched; [by eapply plan_len|]. apply nil_iff_no_elem. intros s Hs.
    pose proof (plan_rest _ _ _ _ _ Hp (skey s)) as Hrest. rewrite Hal, drop_ge in Hrest by lia.
    apply fmap_nil_inv in Hrest. apply (elem_of_nil s). rewrite <-Hrest.
    by apply list_elem_of_filter.
  - apply nil_iff_no_elem. intros a (j & -> & Hj)%list_elem_of_fmap.
    apply list_elem_of_fmap in Hj as ([j' o] & -> & Hj).
    apply list_elem_of_filter in Hj as [Ho Hj]. apply Hset in Hj. simpl in *. congruence.
Qed.

Lemma scheduleActions_nil sec jobs :
  scheduleActions (Some sec) jobs = [] ↔ aligned sec.(sched_Jobs) (owned_jobs jobs).
Proof.
  destruct (plan_exists sec jobs) as (ups & ms & fl & Hp).
  split; [by eapply plan_nil_aligned|by eapply aligned_plan_nil].
Qed.

(** ** Executing a plan on a job store *)

Definition with_enable (e : bool) (j : ScheduleJob) : ScheduleJob :=
  MkScheduleJob j.(job_ID) e j.(job_Timespec) j.(job_Calls).

(** What the device does on Schedule.Update, Schedule.Delete and Schedule.Create. *)
Definition store_update (job : ScheduleJob) (jobs : list ScheduleJob) : list ScheduleJob :=
  (λ j, if decide (j.(job_ID) = job.(job_ID)) then job else j) <$> jobs.

Definition store_delete (id : Z) (jobs : list ScheduleJob) : list ScheduleJob :=
  filter (λ j, j.(job_ID) ≠ id) jobs.

Definition store_create (id : Z) (job : ScheduleJob) (jobs : list ScheduleJob)
  : list ScheduleJob :=
  jobs ++ [MkScheduleJob id job.(job_Enable) job.(job_Timespec) job.(job_Calls)].

(** The job [applySchedule] creates for a spec. *)
Definition job_of_spec (spec : ScheduleJobSpec) (calls : list ScheduleCall) : ScheduleJob :=
  MkScheduleJob 0 (enableOf spec) spec.(js_Timespec) calls.

(** One action on the store, with the next free id; [None] when the spec index or
    its params are bad. *)
Definition exec_action (sec : ScheduleSection) (st : list ScheduleJob * Z) (a : scheduleAction)
  : option (list ScheduleJob * Z) :=
  match a.(act_kind) with
  | ACreate =>
      spec ← sec.(sched_Jobs) !! Z.to_nat (-1 - a.(act_job).(job_ID));
      match specCalls spec.(js_Calls) with
      | Ok calls => Some (store_create st.2 (job_of_spec spec calls) st.1, (st.2 + 1)%Z)
      | Err _ => None
      end
  | AUpdate => Some (store_update a.(act_job) st.1, st.2)
  | ADelete => Some (store_delete a.(act_id) st.1, st.2)
  end.

Fixpoint exec_plan (sec : ScheduleSection) (acts : list scheduleAction)
  (st : list ScheduleJob * Z) : option (list ScheduleJob * Z) :=
  match acts with
  | [] => Some st
  | a :: acts => st' ← exec_action sec st a; exec_plan sec acts st'
  end.

Lemma exec_plan_app sec a1 a2 st :
  exec_plan sec (a1 ++ a2) st = exec_plan sec a1 st ≫= exec_plan sec a2.
Proof.
  revert st. induction a1 as [|a a1 IH]; intros st; simpl; [done|].
  destruct (exec_action sec st a); simpl; [apply IH|done].
Qed.

(** *** Updates *)

Definition updated (tgt : ScheduleJob → bool) (acts : list scheduleAction) (j : ScheduleJob)
  : ScheduleJob :=
  if decide (j.(job_ID) ∈ act_id <$> acts) then with_enable (tgt j) j else j.

Lemma id_inj (jobs : list ScheduleJob) j j' :
  NoDup (job_ID <$> jobs) → j ∈ jobs → j' ∈ jobs → j.(job_ID) = j'.(job_ID) → j = j'.
Proof.
  intros Hnd (i & Hi)%list_elem_of_lookup (i' & Hi')%list_elem_of_lookup Heq.
  assert (i = i') as ->; [|congruence].
  eapply (NoDup_lookup _ _ _ (job_ID j) Hnd); rewrite list_lookup_fmap, ?Hi, ?Hi'; simpl; congruence.
Qed.

Lemma exec_updates sec jobs next tgt acts :
  NoDup (job_ID <$> jobs) →
  (∀ a, a ∈ acts → ∃ j, j ∈ jobs ∧ a = update_action j (tgt j)) →
  exec_plan sec acts (jobs, next) = Some (updated tgt acts <$> jobs, next).
Proof.
  intros Hnd. induction acts as [|a acts IH] using rev_ind; intros Hacts.
  { simpl. unfold updated. do 2 f_equal. symmetry.
    rewrite <-(list_fmap_id jobs) at 2. apply list_fmap_ext. intros i j _.
    rewrite decide_False; [done|]. apply not_elem_of_nil. }
  rewrite exec_plan_app, IH; [|intros; apply Hacts, elem_of_app; by left].
  destruct (Hacts a) as (j0 & Hj0 & ->); [apply elem_of_app; right; constructor|].
  simpl. do 2 f_equal. unfold store_update. rewrite <-list_fmap_compose.
  apply list_fmap_ext. intros i j Hj. apply list_elem_of_lookup_2 in Hj.
  unfold updated, compose. rewrite fmap_app.
  assert (Hid : job_ID (if decide (job_ID j ∈ act_id <$> acts) then with_enable (tgt j) j else j)
    = job_ID j) by by case_decide.
  rewrite Hid. simpl. destruct (decide (job_ID j = job_ID j0)) as [Heq|Hne].
  - pose proof (id_inj _ _ _ Hnd Hj Hj0 Heq) as <-. rewrite decide_True; [done|].
    rewrite elem_of_app. right. constructor.
  - apply decide_ext. rewrite elem_of_app, list_elem_of_singleton. naive_solver.
Qed.

(** *** Creates *)

(** The jobs created for [specs], numbered from [next]. *)
Inductive created : list ScheduleJobSpec → Z → list ScheduleJob → Z → Prop :=
| created_nil next : created [] next [] next
| created_cons s specs calls next jobs next' :
    specCalls s.(js_Calls) = Ok calls →
    created specs (next + 1) jobs next' →
    created (s :: specs) next
      (MkScheduleJob next (enableOf s) s.(js_Timespec) calls :: jobs) next'.

Lemma exec_create_action sec st n s calls :
  sec.(sched_Jobs) !! n = Some s → specCalls s.(js_Calls) = Ok calls →
  exec_action sec st (create_action n s) =
  Some (store_create st.2 (job_of_spec s calls) st.1, (st.2 + 1)%Z).
Proof.
  intros Hs Hc. unfold exec_action, create_action. cbn [act_kind act_job job_ID].
  replace (Z.to_nat (-1 - (-1 - Z.of_nat n))) with n by lia.
  rewrite Hs. simpl. by rewrite Hc.
Qed.

Lemma exec_creates sec : ∀ specs ms n jobs next,
  (∀ i s, specs !! i = Some s → sec.(sched_Jobs) !! (n + i) = Some s) →
  (∀ s, s ∈ specs → ∃ calls, specCalls s.(js_Calls) = Ok calls) →
  ∃ new next', created (unmatched specs ms) next new next' ∧
    exec_plan sec (create_pass n specs ms) (jobs, next) = Some (jobs ++ new, next').
Proof.
  induction specs as [|s specs IH]; intros ms n jobs next Hsec Hcalls; simpl.
  { exists [], next. rewrite app_nil_r. split; [constructor|done]. }
  destruct ms as [|m ms]; simpl.
  { exists [], next. rewrite app_nil_r. split; [constructor|done]. }
  assert (Hsec' : ∀ i s', specs !! i = Some s' → sec.(sched_Jobs) !! (S n + i) = Some s').
  { intros i s' Hi. rewrite <-(Hsec (S i) s' Hi). f_equal. lia. }
  assert (Hcalls' : ∀ s, s ∈ specs → ∃ calls, specCalls s.(js_Calls) = Ok calls).
  { intros s' Hs'. apply Hcalls. by constructor. }
  destruct m; [by apply IH|]. destruct (specIsUpdateJob s); [by apply IH|].
  destruct (Hcalls s) as [calls Hc]; [constructor|].
  rewrite <-app_comm_cons, app_nil_l. cbn [exec_plan].
  rewrite (exec_create_action sec _ n s calls); [|rewrite <-(Hsec 0 s eq_refl); f_equal; lia|done].
  cbn [mbind option_bind fst snd].
  destruct (IH ms (S n) (store_create next (job_of_spec s calls) jobs) (next + 1)%Z Hsec' Hcalls')
    as (new & next' & Hnew & ->).
  eexists (_ :: new), next'. split; [by econstructor|].
  unfold store_create. simpl. by rewrite <-app_assoc.
Qed.

Lemma created_ids specs next new next' :
  created specs next new next' → ∀ j, j ∈ new → (next <= j.(job_ID))%Z.
Proof.
  induction 1 as [|s specs calls next jobs next' Hc Hcr IH]; intros j.
  - by intros ?%elem_of_nil.
  - intros [->|Hj]%elem_of_cons; simpl; [lia|]. specialize (IH j Hj). lia.
Qed.

(** *** Deletes *)

Lemma exec_deletes sec js : ∀ jobs next,
  exec_plan sec (delete_action <$> js) (jobs, next) =
  Some (filter (λ j, j.(job_ID) ∉ job_ID <$> js) jobs, next).
Proof.
  induction js as [|d js IH]; intros jobs next; csimpl.
  { do 2 f_equal. symmetry. apply filter_all. intros j _. apply not_elem_of_nil. }
  rewrite IH. do 2 f_equal. unfold store_delete. rewrite list_filter_filter.
  apply list_filter_iff. intros j. rewrite elem_of_cons. tauto.
Qed.

(** *** The store after the plan *)

(** The flag the plan gives a job. *)
Definition flag_map (fl : flags) : gmap Z (option bool) :=
  list_to_map ((λ jo, (jo.1.(job_ID), jo.2)) <$> fl).

Definition target (fl : flags) (j : ScheduleJob) : bool :=
  default false (mjoin (flag_map fl !! j.(job_ID))).

Lemma flag_map_spec fl j o :
  NoDup (job_ID <$> fl.*1) → (j, o) ∈ fl → flag_map fl !! j.(job_ID) = Some o.
Proof.
  intros Hnd Hj. apply elem_of_list_to_map_1.
  - revert Hnd. by rewrite <-!list_fmap_compose.
  - apply list_elem_of_fmap. by exists (j, o).
Qed.

(** The owned jobs the plan keeps, with their new flags. *)
Definition kept (fl : flags) : list ScheduleJob :=
  omap (λ jo, (λ e, with_enable e jo.1) <$> jo.2) fl.

Lemma present_kept c fl :
  present c (kept fl) = omap id (flags_of c fl).
Proof.
  unfold present, kept, flags_of. induction fl as [|[j [e|]] fl IH]; [done| |].
  - csimpl. rewrite (filter_cons _ (j, Some e)). cbn [fst].
    rewrite (filter_cons _ (with_enable e j)).
    change (jkey (with_enable e j)) with (jkey j). case_decide; csimpl; by rewrite IH.
  - csimpl. rewrite (filter_cons _ (j, None)). cbn [fst]. case_decide; csimpl; by rewrite IH.
Qed.

Lemma omap_flags n (es : list bool) k :
  omap id ((Some <$> take n es) ++ replicate k None) = take n es.
Proof.
  rewrite omap_app. assert (omap id (replicate k (@None bool)) = []) as ->.
  { by induction k. }
  rewrite app_nil_r. induction (take n es) as [|e l IH]; csimpl; [done|]. by rewrite IH.
Qed.

(** Deleted ids of a plan. *)
Definition dropped (fl : flags) : list Z :=
  job_ID <$> (filter (λ jo : ScheduleJob * option bool, jo.2 = None) fl).*1.

Lemma elem_of_dropped fl id : id ∈ dropped fl ↔ ∃ j, (j, None) ∈ fl ∧ id = j.(job_ID).
Proof.
  unfold dropped. rewrite list_elem_of_fmap. split.
  - intros (j & -> & Hj). apply list_elem_of_fmap in Hj as ([j' o] & -> & Hj).
    apply list_elem_of_filter in Hj as [Ho Hj]. simpl in Ho. subst o. by exists j'.
  - intros (j & Hj & ->). exists j. split; [done|]. apply list_elem_of_fmap. exists (j, None).
    split; [done|]. by apply list_elem_of_filter.
Qed.

Lemma kept_from (up : ScheduleJob → ScheduleJob) (dr : list Z) fl :
  (∀ j, (up j).(job_ID) = j.(job_ID)) →
  (∀ j e, (j, Some e) ∈ fl → up j = with_enable e j ∧ j.(job_ID) ∉ dr) →
  (∀ j, (j, None) ∈ fl → j.(job_ID) ∈ dr) →
  filter (λ j, j.(job_ID) ∉ dr) (up <$> fl.*1) = kept fl.
Proof.
  intros Hid. induction fl as [|[j o] fl IH]; intros Hs Hn; [done|]. csimpl.
  assert (Htl : filter (λ j, job_ID j ∉ dr) (up <$> fl.*1) = kept fl).
  { apply IH; intros; [apply Hs|apply Hn]; by constructor. }
  rewrite filter_cons, Hid, Htl. unfold kept. csimpl. destruct o as [e|]; csimpl.
  - destruct (Hs j e (list_elem_of_here _ _)) as [-> Hd]. by rewrite decide_True.
  - rewrite decide_False; [done|]. intros Hd. apply Hd, Hn. constructor.
Qed.

Lemma updated_id tgt ups j : job_ID (updated tgt ups j) = job_ID j.
Proof. unfold updated. by case_decide. Qed.

Lemma updated_calls tgt ups j : job_Calls (updated tgt ups j) = job_Calls j.
Proof. unfold updated. by case_decide. Qed.

Lemma kept_eq sec jobs ups ms fl :
  plan_of sec jobs ups ms fl → NoDup (job_ID <$> fl.*1) →
  filter (λ j, j.(job_ID) ∉ dropped fl) (updated (target fl) ups <$> fl.*1) = kept fl.
Proof.
  intros Hp Hnd. apply kept_from.
  - apply updated_id.
  - intros j e Hj. pose proof (flag_map_spec _ _ _ Hnd Hj) as Hm. split.
    + unfold updated, target. rewrite Hm. simpl. case_decide as Hd; [done|].
      destruct (plan_set _ _ _ _ _ Hp j e Hj) as [<-|Hin]; [by destruct j|].
      exfalso. apply Hd, list_elem_of_fmap. by exists (update_action j e).
    + rewrite elem_of_dropped. intros (j' & Hj' & Heq).
      apply (flag_map_spec _ _ _ Hnd) in Hj'. rewrite <-Heq, Hm in Hj'. done.
  - intros j Hj. apply elem_of_dropped. by exists j.
Qed.

(** Jobs created for specs the schedule section manages. *)
Lemma created_facts specs next new next' :
  created specs next new next' → (∀ s, s ∈ specs → specIsUpdateJob s = false) →
  (next <= next')%Z ∧ NoDup (job_ID <$> new) ∧
  (∀ j, j ∈ new → (next <= j.(job_ID) < next')%Z ∧ isUpdateJob j = false) ∧
  ∀ c, present c new = enableOf <$> filter (λ s, skey s = c) specs.
Proof.
  induction 1 as [next|s specs calls next jobs next' Hc Hcr IH]; intros Hs.
  { split_and!; [lia|constructor|by intros j ?%elem_of_nil|done]. }
  destruct IH as (Hle & Hnd & Hj & Hpr); [intros; apply Hs; by constructor|].
  assert (Hk : jkey (MkScheduleJob next (enableOf s) (js_Timespec s) calls) = skey s ∧
               isUpdateJob (MkScheduleJob next (enableOf s) (js_Timespec s) calls) = false).
  { specialize (Hs s (list_elem_of_here _ _)). unfold specIsUpdateJob, isUpdateJob, jkey, skey in *.
    simpl. clear -Hc Hs. revert calls Hc Hs. induction (js_Calls s) as [|sc scs IHc]; intros calls; simpl.
    - intros [= <-]. done.
    - destruct (spec_params sc) as [ps|] eqn:Hps; [|done].
      destruct (specCalls scs) as [out|]; simpl; [|done]. intros [= <-] [Hm Hr]%orb_false_iff.
      destruct (IHc out eq_refl Hr) as [[= Hk] Hu]. csimpl. split; [by rewrite Hk|].
      rewrite Hu, orb_false_r. destruct (String.eqb (cs_Method sc) shellyUpdateMethod) eqn:E; [|done].
      apply String.eqb_eq in E. rewrite E in Hm. done. }
  destruct Hk as [Hk Hu]. split_and!.
  - lia.
  - csimpl. constructor; [|done]. intros (j & Heq & Hin)%list_elem_of_fmap.
    destruct (Hj j Hin) as [? _]. lia.
  - intros j [->|Hin]%elem_of_cons; simpl; [split; [lia|done]|].
    destruct (Hj j Hin). split; [lia|done].
  - intros c. unfold present in *. rewrite !filter_cons, Hk. case_decide; csimpl; by rewrite Hpr.
Qed.

Lemma unmatched_managed specs ms s : s ∈ unmatched specs ms → specIsUpdateJob s = false.
Proof.
  revert ms. induction specs as [|s' specs IH]; intros [|[] ms]; simpl; try by intros ?%elem_of_nil.
  - apply IH.
  - destruct (specIsUpdateJob s') eqn:E; [apply IH|]. intros [->|?]%elem_of_cons; [done|by eapply IH].
Qed.

(** The store after the plan: the updated jobs that are not dropped, then the new
    ones. *)
Definition after_plan (fl : flags) (ups : list scheduleAction) (jobs new : list ScheduleJob)
  : list ScheduleJob :=
  filter (λ j, j.(job_ID) ∉ dropped fl) (updated (target fl) ups <$> jobs) ++ new.

Section AfterPlan.
Context (sec : ScheduleSection) (jobs : list ScheduleJob) (next : Z).
Context (Hnd : NoDup (job_ID <$> jobs)) (Hlt : ∀ j, j ∈ jobs → (j.(job_ID) < next)%Z).
Context ups ms fl (Hp : plan_of sec jobs ups ms fl).

Lemma plan_owned j o : (j, o) ∈ fl → j ∈ jobs ∧ isUpdateJob j = false.
Proof.
  intros Hj. assert (Hin : j ∈ owned_jobs jobs).
  { rewrite <-(plan_jobs _ _ _ _ _ Hp). apply list_elem_of_fmap. by exists (j, o). }
  apply list_elem_of_filter in Hin. tauto.
Qed.

Lemma plan_nodup : NoDup (job_ID <$> fl.*1).
Proof.
  rewrite (plan_jobs _ _ _ _ _ Hp). eapply sublist_NoDup; [exact Hnd|].
  apply fmap_sublist, sublist_filter.
Qed.

Lemma dropped_owned j : j ∈ jobs → j.(job_ID) ∈ dropped fl → isUpdateJob j = false.
Proof.
  intros Hj (j' & Hj' & Heq)%elem_of_dropped. destruct (plan_owned _ _ Hj') as [Hin Hu].
  by rewrite (id_inj _ _ _ Hnd Hj Hin Heq).
Qed.

Lemma updated_firmware j :
  j ∈ jobs → isUpdateJob j = true → updated (target fl) ups j = j.
Proof.
  intros Hj Hu. unfold updated. rewrite decide_False; [done|].
  intros (a & Heq & Ha)%list_elem_of_fmap.
  destruct (plan_ups _ _ _ _ _ Hp a Ha) as (j' & e & -> & Hj' & _).
  destruct (plan_owned _ _ Hj') as [Hin Hu']. simpl in Heq.
  rewrite (id_inj _ _ _ Hnd Hj Hin Heq) in Hu. congruence.
Qed.

Lemma exec_plan_eq :
  (∀ s, s ∈ sec.(sched_Jobs) → ∃ calls, specCalls s.(js_Calls) = Ok calls) →
  ∃ new next', created (unmatched sec.(sched_Jobs) ms) next new next' ∧
    exec_plan sec (scheduleActions (Some sec) jobs) (jobs, next) =
      Some (after_plan fl ups jobs new, next').
Proof.
  intros Hcalls.
  assert (Hups : exec_plan sec ups (jobs, next) = Some (updated (target fl) ups <$> jobs, next)).
  { apply exec_updates; [done|]. intros a Ha.
    destruct (plan_ups _ _ _ _ _ Hp a Ha) as (j & e & -> & Hj & _). exists j.
    split; [by eapply plan_owned|]. unfold target. by rewrite (flag_map_spec _ _ _ plan_nodup Hj). }
  destruct (exec_creates sec sec.(sched_Jobs) ms 0 (updated (target fl) ups <$> jobs) next)
    as (new & next' & Hnew & Hcr); [done|done|].
  exists new, next'. split; [done|].
  rewrite (plan_eq _ _ _ _ _ Hp), exec_plan_app, Hups. cbn [mbind option_bind].
  rewrite exec_plan_app, Hcr. cbn [mbind option_bind]. rewrite exec_deletes.
  fold (dropped fl). do 2 f_equal. unfold after_plan. rewrite filter_app. f_equal.
  apply filter_all. intros j Hj (j' & Hj' & Heq)%elem_of_dropped.
  apply (created_ids _ _ _ _ Hnew) in Hj. destruct (plan_owned _ _ Hj') as [Hin _].
  apply Hlt in Hin. lia.
Qed.

Lemma after_plan_owned new :
  (∀ j, j ∈ new → isUpdateJob j = false) →
  owned_jobs (after_plan fl ups jobs new) = kept fl ++ new.
Proof.
  intros Hnew. unfold after_plan, owned_jobs. rewrite filter_app. f_equal; [|by apply filter_all].
  rewrite filter_comm, filter_fmap_comm.
  - fold (owned_jobs jobs). rewrite <-(plan_jobs _ _ _ _ _ Hp). by eapply kept_eq, plan_nodup.
  - intros j _. unfold isUpdateJob. by rewrite updated_calls.
Qed.

Lemma after_plan_firmware new :
  (∀ j, j ∈ new → isUpdateJob j = false) →
  filter (λ j, isUpdateJob j = true) (after_plan fl ups jobs new) =
  filter (λ j, isUpdateJob j = true) jobs.
Proof.
  intros Hnew. unfold after_plan. rewrite filter_app.
  rewrite (filter_none _ new) by (intros j Hj; rewrite Hnew; done). rewrite app_nil_r.
  rewrite filter_comm, filter_fmap_comm
    by (intros j _; unfold isUpdateJob; by rewrite updated_calls).
  assert (updated (target fl) ups <$> filter (λ j, isUpdateJob j = true) jobs =
          filter (λ j, isUpdateJob j = true) jobs) as ->.
  { rewrite <-(list_fmap_id (filter _ jobs)) at 2. apply list_fmap_ext. intros i j Hj.
    apply list_elem_of_lookup_2, list_elem_of_filter in Hj as [Hu Hj]. by apply updated_firmware. }
  apply filter_all. intros j [Hu Hj]%list_elem_of_filter Hd.
  by rewrite (dropped_owned j Hj Hd) in Hu.
Qed.

Lemma after_plan_aligned new next' :
  created (unmatched sec.(sched_Jobs) ms) next new next' →
  aligned sec.(sched_Jobs) (kept fl ++ new).
Proof.
  intros Hnew c. destruct (created_facts _ _ _ _ Hnew) as (_ & _ & _ & Hpres);
    [intros s; apply unmatched_managed|].
  unfold present. rewrite filter_app, fmap_app. fold (present c (kept fl)) (present c new).
  rewrite present_kept, Hpres, (plan_flags _ _ _ _ _ Hp), (plan_rest _ _ _ _ _ Hp), omap_flags.
  apply take_drop.
Qed.

Lemma after_plan_ids new next' :
  created (unmatched sec.(sched_Jobs) ms) next new next' →
  (∀ j, j ∈ after_plan fl ups jobs new → (j.(job_ID) < next')%Z) ∧
  NoDup (job_ID <$> after_plan fl ups jobs new).
Proof.
  intros Hnew. destruct (created_facts _ _ _ _ Hnew) as (Hle & Hndn & Hj & _);
    [intros s; apply unmatched_managed|].
  assert (Hold : ∀ j, j ∈ filter (λ j, job_ID j ∉ dropped fl) (updated (target fl) ups <$> jobs) →
    (job_ID j < next)%Z).
  { intros j [_ (j' & -> & Hin)%list_elem_of_fmap]%list_elem_of_filter. rewrite updated_id. by apply Hlt. }
  split.
  - intros j [Hin|Hin]%elem_of_app; [apply Hold in Hin; lia|apply Hj in Hin as [? _]; lia].
  - unfold after_plan. rewrite fmap_app. apply NoDup_app. split_and!; [| |done].
    + eapply sublist_NoDup; [|apply fmap_sublist, sublist_filter].
      rewrite <-list_fmap_compose. erewrite list_fmap_ext; [exact Hnd|].
      intros i j _. apply updated_id.
    + intros id (j & -> & Hin)%list_elem_of_fmap (j' & Heq & Hin')%list_elem_of_fmap.
      apply Hold in Hin. apply Hj in Hin' as [? _]. lia.
Qed.
End AfterPlan.

(** Executing the plan on a store with distinct ids leaves it aligned, and leaves
    the firmware section's jobs alone. *)
Lemma exec_plan_aligned sec jobs next :
  NoDup (job_ID <$> jobs) → (∀ j, j ∈ jobs → (j.(job_ID) < next)%Z) →
  (∀ s, s ∈ sec.(sched_Jobs) → ∃ calls, specCalls s.(js_Calls) = Ok calls) →
  ∃ jobs' next',
    exec_plan sec (scheduleActions (Some sec) jobs) (jobs, next) = Some (jobs', next') ∧
    aligned sec.(sched_Jobs) (owned_jobs jobs') ∧
    filter (λ j, isUpdateJob j = true) jobs' = filter (λ j, isUpdateJob j = true) jobs ∧
    (∀ j, j ∈ jobs' → (j.(job_ID) < next')%Z) ∧ NoDup (job_ID <$> jobs').
Proof.
  intros Hnd Hlt Hcalls. destruct (plan_exists sec jobs) as (ups & ms & fl & Hp).
  destruct (exec_plan_eq sec jobs next Hnd Hlt ups ms fl Hp Hcalls) as (new & next' & Hnew & Hex).
  destruct (created_facts _ _ _ _ Hnew) as (_ & _ & Hj & _); [intros s; apply unmatched_managed|].
  exists (after_plan fl ups jobs new), next'. split; [done|].
  rewrite (after_plan_owned sec jobs Hnd ups ms fl Hp) by (intros j Hin; by apply Hj).
  split_and!.
  - by eapply after_plan_aligned.
  - eapply after_plan_firmware; [done..|]. intros j Hin. by apply Hj.
  - eapply after_plan_ids; done.
  - eapply after_plan_ids; done.
Qed.

(** ** Theorems *)

(** C13: the schedule plan converges.  On a device whose job ids are distinct and
    below the next one it will assign, and for specs whose params decode,
    executing the plan (updates, then creates, then deletes) succeeds; planning
    again finds nothing to do; and the jobs of the firmware section are exactly
    what they were. *)
Theorem schedule_plan_converges sec jobs next
  (Hnd : NoDup (job_ID <$> jobs)) (Hlt : ∀ j, j ∈ jobs → (j.(job_ID) < next)%Z)
  (Hcalls : ∀ s, s ∈ sec.(sched_Jobs) → ∃ calls, specCalls s.(js_Calls) = Ok calls) :
  ∃ jobs' next',
    exec_plan sec (scheduleActions (Some sec) jobs) (jobs, next) = Some (jobs', next') ∧
    scheduleActions (Some sec) jobs' = [] ∧
    filter (λ j, isUpdateJob j = true) jobs' = filter (λ j, isUpdateJob j = true) jobs.
Proof.
  destruct (exec_plan_aligned sec jobs next Hnd Hlt Hcalls) as (jobs' & next' & ? & ? & ? & _).
  exists jobs', next'. by rewrite scheduleActions_nil.
Qed.

(** Planning is content-based.  The plan is empty exactly when, for every
    content (timespec and normalised calls), the device's non-firmware jobs with
    that content carry the enable flags declared for it, in order and in number:
    duplicates are counted, unmanaged update specs are ignored, and neither ids
    nor the interleaving of different contents matter. *)
Theorem scheduleActions_in_sync sec jobs :
  scheduleActions (Some sec) jobs = [] ↔
  ∀ c, job_Enable <$> filter (λ j, jkey j = c) (filter (λ j, isUpdateJob j = false) jobs) =
       enableOf <$> filter (λ s, skey s = c)
         (filter (λ s, specIsUpdateJob s = false) sec.(sched_Jobs)).
Proof. apply scheduleActions_nil. Qed.
End ScheduleFacts.

(** Observe and enforce agree on firmware.  There is nothing to report
    exactly when enforcement has nothing to do: no job to delete and, if
    auto-update is wanted, a compliant job already there. *)
Theorem firmware_observe_enforce_agree (want : bool) (jobs : list ScheduleJob) :
  firmwareFindings want jobs = [] ↔
  (firmwareOffenders want jobs).1 = [] ∧
  (want && negb (firmwareOffenders want jobs).2 = false).
Proof.
  rewrite firmwareFindings_nil, firmwareOffenders_spec. simpl. f_equiv.
  - split.
    + intros Hall. rewrite filter_none; [done|]. intros j Hj. by rewrite Hall.
    + intros Hnil%fmap_nil_inv j Hj. destruct (firmware_ok want j) eqn:E; [done|].
      exfalso. apply (elem_of_nil j). rewrite <-Hnil. by apply list_elem_of_filter.
  - destruct want; simpl; [|by split]. rewrite negb_false_iff, existsb_exists.
    setoid_rewrite <-list_elem_of_In. naive_solver.
Qed.

Lemma foldl_store_delete ids : ∀ jobs,
  foldl (λ js i, store_delete i js) jobs ids = filter (λ j, job_ID j ∉ ids) jobs.
Proof.
  induction ids as [|i ids IH]; intros jobs; simpl.
  - symmetry. apply filter_all. intros j _. apply not_elem_of_nil.
  - rewrite IH. unfold store_delete. rewrite list_filter_filter.
    apply list_filter_iff. intros j. rewrite elem_of_cons. tauto.
Qed.

(** Deleting the offenders leaves the jobs the section accepts. *)
Lemma delete_offenders want jobs :
  NoDup (job_ID <$> jobs) →
  foldl (λ js i, store_delete i js) jobs
    (job_ID <$> filter (λ j, firmware_ok want j = false) jobs) =
  filter (λ j, firmware_ok want j = true) jobs.
Proof.
  intros Hnd. rewrite foldl_store_delete. apply filter_ext_in. intros j Hj. split.
  - intros Hn. destruct (firmware_ok want j) eqn:E; [done|]. exfalso. apply Hn.
    apply list_elem_of_fmap. exists j. split; [done|]. by apply list_elem_of_filter.
  - intros Hok (j' & Heq & [Hbad Hj']%list_elem_of_filter)%list_elem_of_fmap.
    rewrite (id_inj _ _ _ Hnd Hj Hj' Heq) in Hok. congruence.
Qed.

(** Deleting the offenders and adding the missing job. *)
Lemma firmware_plan_clean (want : bool) (jobs : list ScheduleJob) (id : Z)
  (Hnd : NoDup (job_ID <$> jobs)) :
  let '(offenders, hasCompliant) := firmwareOffenders want jobs in
  let jobs1 := foldl (λ js i, store_delete i js) jobs offenders in
  let jobs2 := if want && negb hasCompliant then store_create id autoUpdateJob jobs1 else jobs1 in
  firmwareFindings want jobs2 = [] ∧
  owned_jobs jobs2 = owned_jobs jobs.
Proof.
  rewrite firmwareOffenders_spec. cbv zeta.
  rewrite (delete_offenders want jobs Hnd). set (jobs1 := filter _ jobs).
  assert (Howned : owned_jobs jobs1 = owned_jobs jobs).
  { subst jobs1. unfold owned_jobs. apply list_filter_filter_l.
    intros j Hu. unfold firmware_ok. by rewrite Hu. }
  assert (Hok1 : ∀ j, j ∈ jobs1 → firmware_ok want j = true)
    by by intros j [? _]%list_elem_of_filter.
  destruct (want && negb (existsb (firmware_compliant want) jobs)) eqn:Hc; split.
  - apply firmwareFindings_nil. unfold store_create. reflect_bools. subst want. split.
    + intros j [Hj|Hj%list_elem_of_singleton]%elem_of_app; [by apply Hok1|by subst j].
    + intros _. eexists. split; [apply elem_of_app; right; constructor|done].
  - unfold store_create, owned_jobs. rewrite filter_app. fold (owned_jobs jobs1).
    rewrite Howned. by rewrite app_nil_r.
  - apply firmwareFindings_nil. split; [done|]. intros ->. simpl in Hc.
    apply negb_false_iff, existsb_exists in Hc as (j & Hj & Hcj).
    exists j. split; [|done]. apply list_elem_of_filter. rewrite list_elem_of_In.
    split; [|done]. unfold firmware_compliant, firmware_ok in *.
    destruct (isUpdateJob j), (job_Enable j), (hasNonStableUpdateCall j); done.
  - done.
Qed.

(** Converging firmware.  Deleting the offending jobs and, when auto-update is
    wanted and no compliant job exists, adding the standard daily job leaves
    nothing to report; jobs outside the section survive. *)
Theorem firmware_plan_converges (want : bool) (jobs : list ScheduleJob) (id : Z)
  (Hnd : NoDup (job_ID <$> jobs)) :
  let '(offenders, hasCompliant) := firmwareOffenders want jobs in
  let jobs1 := foldl (λ js i, store_delete i js) jobs offenders in
  let jobs2 := if want && negb hasCompliant then store_create id autoUpdateJob jobs1 else jobs1 in
  firmwareFindings want jobs2 = [] ∧
  owned_jobs jobs2 = owned_jobs jobs.
Proof. by apply firmware_plan_clean. Qed.
