(* ===== verification/DeviceView.v ===== *)
(** * What the device promises the operator

    An abstract device: a configuration, whether it asks for a password and which,
    and a store of schedule jobs with the next free id.  [Backed] is the interface
    the operator's programs run against: every device call is the fake device's
    step.  Each method of the client is then an operation on the abstract device,
    as long as the concrete one [shows] it. *)

From stdpp Require Import prelude gmap strings pretty sorting list.
From Stdlib Require Import SpecFloat Ascii.
From S2P Require Import Prelude Json Floats Api Diff Shelly Effects Render Client Decode Rpc Digest FakeDevice Wire Jobs.

(** ** The interface *)

(** A handler whose device operations are those of the device [get s] (at every
    host: the operator talks to one device here), as far as JSON can carry them
    and the device lets the client in; that makes clients with the password it is
    asked for, and that ranges over maps in some order; what goes to the cluster
    leaves the device alone. *)
Class Backed `{Sha256} {S : Type} (hd : handler S) (get : S → Device) : Prop := {
  backed_call c m p a s :
    jsonable (request_doc m (VObj <$> p)) → accepts (get s) c = true →
    (hd (OCall c m p a) s).1 = (device_call (get s) c m p a).1 ∧
    get (hd (OCall c m p a) s).2 = (device_call (get s) c m p a).2;
  backed_probe host s :
    (hd (OProbe host) s).1 =
      match to_DeviceInfo (handleProbe (get s)) with
      | Ok info => Ok info
      | Err e => Err (errorf ("shelly: probe " +:+ host +:+ ": decode: " +:+ e))
      end ∧
    get (hd (OProbe host) s).2 = get s;
  backed_client addr pw s :
    (hd (OClient addr pw) s).1.(cl_password) = pw ∧ get (hd (OClient addr pw) s).2 = get s;
  backed_range m s :
    range_order (hd (ORange m) s).1 m ∧ get (hd (ORange m) s).2 = get s;
  backed_event n t r m s : get (hd (OEvent n t r m) s).2 = get s;
  backed_now s : get (hd ONow s).2 = get s;
  backed_patch base dev s : get (hd (OStatusPatch base dev) s).2 = get s;
}.

(** The device itself as the environment, with a cluster that accepts every
    write and holds nothing. *)
Definition device_handler `{Sha256} : handler Device := λ o d,
  match o as o' return resp o' * Device with
  | OCall c m p a => device_call d c m p a
  | OProbe host =>
      (match to_DeviceInfo (handleProbe d) with
       | Ok info => Ok info
       | Err e => Err (errorf ("shelly: probe " +:+ host +:+ ": decode: " +:+ e))
       end, d)
  | ORange m => ((map_to_list m).*1, d)
  | OGetDevice _ _ => (Err (MkError ENotFound "not found"), d)
  | OListDevices _ => (Ok [], d)
  | OListProfiles _ => (Ok [], d)
  | OGetConfigMap _ _ => (Err (MkError ENotFound "not found"), d)
  | OGetSecret _ _ => (Err (MkError ENotFound "not found"), d)
  | OPatch _ dev => (Ok dev, d)
  | OStatusPatch _ dev => (Ok dev, d)
  | OEvent _ _ _ _ => (tt, d)
  | ONow => (0%Z, d)
  | ORandom => (S754_zero false, d)
  | OClient addr pw => (MkClient 0 addr pw, d)
  | ONewClient addr pw => (MkClient 0 addr pw, d)
  | OClaim _ _ => (false, d)
  | OCreate dev => (Ok dev, d)
  | OUpdate dev => (Ok dev, d)
  | OStatusUpdate dev => (Ok dev, d)
  | OCreateConfigMap _ _ _ _ => (Ok tt, d)
  | OUpdateConfigMap _ _ _ => (Ok tt, d)
  | OProbeAll _ _ => (([], false), d)
  | OTick => (false, d)
  end.

#[export] Instance device_handler_backed `{Sha256} : Backed device_handler id.
Proof. split; intros; first [done|split; done|split; [unfold range_order; reflexivity|done]]. Qed.

(** ** Abstract devices *)

Record view : Type := MkView {
  v_id : string;
  v_ha1 : string;
  v_config : gmap string obj;
  v_jobs : list ScheduleJob;
  v_next : Z;
}.

(** What the operator reads as the configuration. *)
Definition v_actual (v : view) : actual_config := VObj <$> v.(v_config).

Definition v_authOn (v : view) : bool := negb (String.eqb v.(v_ha1) "").

(** Ids are positive, distinct, and below the next one, which is far from the
    limit of exact integers. *)
Definition ids_ok (jobs : list ScheduleJob) (next : Z) : Prop :=
  NoDup (job_ID <$> jobs) ∧ (∀ j, j ∈ jobs → (0 < j.(job_ID) < next)%Z) ∧ (0 < next < 2 ^ 53)%Z.

(** The device takes writes and answers reads. *)
Definition cooperative (s : Setup) : Prop :=
  s.(fd_SetConfigError) = "" ∧ s.(fd_IgnoreSetConfig) = false
  ∧ (s.(fd_GetConfigErrorAfter) ≤ 0)%Z ∧ (Z.abs s.(fd_Gen) < 2 ^ 53)%Z.

(** A job that JSON can carry. *)
Definition job_json (job : ScheduleJob) : Prop :=
  utf8 job.(job_Timespec) = true ∧ jsonable (json_calls job.(job_Calls)).

(** A stored job reads as [job]; the device spells the id it gave it. *)
Definition job_view (j : obj) (job : ScheduleJob) : Prop :=
  to_ScheduleJob (VObj j) = Ok job ∧ is_Some (j !! "id").

Record shows (d : Device) (v : view) : Prop := {
  shows_cooperative : cooperative d.(fd_setup);
  shows_id : d.(fd_setup).(fd_ID) = v.(v_id);
  shows_ha1 : d.(fd_ha1) = v.(v_ha1);
  shows_config : d.(fd_config) = v.(v_config);
  shows_jobs : Forall2 job_view d.(fd_schedules) v.(v_jobs);
  shows_next : d.(fd_nextSchedID) = v.(v_next);
  shows_ids : ids_ok v.(v_jobs) v.(v_next);
  shows_text : utf8 v.(v_id) = true;
  shows_json j : j ∈ v.(v_jobs) → job_json j;
}.

(** The client's credentials are good for the device. *)
Definition admitted_by `{Sha256} (v : view) (c : Client) : Prop :=
  v.(v_ha1) = "" ∨ c.(cl_password) ≠ "" ∧ v.(v_ha1) = device_ha1 v.(v_id) c.(cl_password).

(** *** Operations *)

Definition v_set_config (comp : string) (p : obj) (v : view) : view :=
  MkView v.(v_id) v.(v_ha1) (<[comp := merge (default ∅ (v.(v_config) !! comp)) p]> v.(v_config))
    v.(v_jobs) v.(v_next).

Definition v_set_ha1 (h : string) (v : view) : view :=
  MkView v.(v_id) h v.(v_config) v.(v_jobs) v.(v_next).

Definition v_set_jobs (jobs : list ScheduleJob) (next : Z) (v : view) : view :=
  MkView v.(v_id) v.(v_ha1) v.(v_config) jobs next.

(** ** Jobs on the wire *)

(** Decoding to an int and converting the float64 agree. *)
Lemma json_int_trunc f z : json_int f = Some z → trunc f = z.
Proof.
  unfold json_int. destruct (float_int f) as [n|] eqn:Hf; [|done].
  destruct (_ && _) eqn:Hr; [|done]. intros [= <-].
  destruct f as [s| | |s m e]; cbn [float_int] in Hf; [by simplify_eq|done..|]. cbn [trunc].
  assert (Hw : whole s m e = n) by (unfold whole; destruct (0 <=? e)%Z; [|case_match]; by simplify_eq).
  by rewrite Hw, Hr.
Qed.

(** The members of a shown job. *)
Lemma job_view_inv j job :
  job_view j job ↔
  (to_int (member j "id") = Ok job.(job_ID) ∧ to_bool (member j "enable") = Ok job.(job_Enable)
   ∧ to_string (member j "timespec") = Ok job.(job_Timespec)
   ∧ to_slice to_ScheduleCall (member j "calls") = Ok job.(job_Calls)) ∧ is_Some (j !! "id").
Proof.
  unfold job_view, to_ScheduleJob. cbn [to_map unmarshal_map res_bind].
  repeat setoid_rewrite res_bind_Ok. destruct job. cbn. naive_solver.
Qed.

(** A job shown with a positive id has it as its id. *)
Lemma job_view_id j job :
  job_view j job → (0 < job.(job_ID))%Z → idOf (index j "id") = job.(job_ID).
Proof.
  intros Hj Hpos. apply job_view_inv in Hj as ((Hid & _) & [v Hv]).
  rewrite (member_exact _ _ _ Hv) in Hid. unfold index. rewrite Hv. cbn [default].
  unfold to_int in Hid. destruct v; simplify_eq; [lia|].
  cbn. destruct (json_int f) eqn:Hf; simplify_eq. by apply json_int_trunc.
Qed.


Lemma to_slice_Forall2 {A B} (f : value → res string A) (g : B → value) xs ys :
  Forall2 (λ x y, f (g x) = Ok y) xs ys → to_slice f (VArr (g <$> xs)) = Ok ys.
Proof. cbn. induction 1 as [|x y xs ys Hxy _ IH]; [done|]. cbn. by rewrite Hxy, IH. Qed.

(** The parameters the client sends, as a stored job. *)
Lemma create_params_lookup job :
  let p := create_params job in
  index p "enable" = VBool job.(job_Enable) ∧ index p "timespec" = VStr job.(job_Timespec)
  ∧ index p "calls" = json_calls job.(job_Calls).
Proof. done. Qed.

Lemma lookup_merge_leaf (d s : obj) k v :
  s !! k = Some v → as_map v = None → merge d s !! k = Some v.
Proof. intros Hk Hv. rewrite merge_lookup, Hk. by destruct v. Qed.

(** A stored job that carries the parameters shows the job. *)
Lemma job_view_params (j : obj) id job :
  (Z.abs id < 2 ^ 53)%Z → j !! "id" = Some (vint id) →
  (∀ k v, create_params job !! k = Some v → j !! k = Some v) →
  job_view j (MkScheduleJob id job.(job_Enable) job.(job_Timespec) job.(job_Calls)).
Proof.
  intros Hid Hj Hk. apply job_view_inv. cbn [job_ID job_Enable job_Timespec job_Calls].
  rewrite (member_exact _ _ _ Hj), to_int_vint by done.
  rewrite (member_exact _ _ _ (Hk "enable" (VBool (job_Enable job)) eq_refl)),
    (member_exact _ _ _ (Hk "timespec" (VStr (job_Timespec job)) eq_refl)),
    (member_exact _ _ _ (Hk "calls" (json_calls (job_Calls job)) eq_refl)).
  split_and!; [done..|apply to_slice_calls|by eexists].
Qed.

Lemma create_params_keys job k v :
  create_params job !! k = Some v → as_map v = None ∧ k ≠ "id".
Proof.
  unfold create_params. intros Hk.
  repeat (apply lookup_insert_Some in Hk as [[<- <-]|[_ Hk]]; [done|]).
  apply lookup_singleton_Some in Hk as [<- <-]. done.
Qed.

Lemma job_view_created next job :
  (Z.abs next < 2 ^ 53)%Z →
  job_view (<["id" := vint next]> (merge ∅ (create_params job)))
    (MkScheduleJob next job.(job_Enable) job.(job_Timespec) job.(job_Calls)).
Proof.
  intros Hn. apply job_view_params; [done|apply lookup_insert_eq|].
  intros k v Hk. destruct (create_params_keys _ _ _ Hk) as [Hv Hne].
  rewrite lookup_insert_ne by done. by apply lookup_merge_leaf.
Qed.

Lemma job_view_updated j job :
  (Z.abs job.(job_ID) < 2 ^ 53)%Z → job_view (merge j (update_params job)) job.
Proof.
  intros Hn. destruct job as [id en ts calls]. apply (job_view_params _ id (MkScheduleJob id en ts calls) Hn).
  - apply lookup_merge_leaf; [|done]. apply lookup_insert_eq.
  - intros k v Hk. destruct (create_params_keys _ _ _ Hk) as [Hv Hne].
    apply lookup_merge_leaf; [|done]. unfold update_params. by rewrite lookup_insert_ne.
Qed.

(** *** Finding a job *)

Lemma find_job_view id js jobs :
  Forall2 job_view js jobs → (∀ j, j ∈ jobs → (0 < j.(job_ID))%Z) →
  find_job id js = fst <$> list_find (λ j, j.(job_ID) = id) jobs.
Proof.
  intros Hv Hpos. induction Hv as [|j job js jobs Hj Hv IH]; [done|]. cbn.
  rewrite (job_view_id j job Hj) by (apply Hpos; constructor).
  destruct (Z.eqb_spec (job_ID job) id); case_decide; try done.
  rewrite IH by (intros; apply Hpos; by constructor).
  by destruct (list_find _ jobs) as [[]|].
Qed.

Lemma find_job_present jobs id :
  id ∈ job_ID <$> jobs →
  ∃ i job, list_find (λ j, j.(job_ID) = id) jobs = Some (i, job) ∧ jobs !! i = Some job
         ∧ job.(job_ID) = id.
Proof.
  intros (job & -> & Hin)%list_elem_of_fmap.
  destruct (list_find_elem_of (λ j, j.(job_ID) = job.(job_ID)) jobs job Hin eq_refl) as [[i j] Hf].
  exists i, j. pose proof Hf as Hf'. apply list_find_Some in Hf' as (? & ? & _). done.
Qed.

(** In a store with distinct ids, changing the job at the index of an id is
    changing the job with that id; likewise for removing it. *)
Section Store.
Context (jobs : list ScheduleJob) (Hnd : NoDup (job_ID <$> jobs)).

Lemma index_unique i j job job' :
  jobs !! i = Some job → jobs !! j = Some job' → job.(job_ID) = job'.(job_ID) → i = j.
Proof.
  intros Hi Hj Heq. eapply NoDup_lookup; [exact Hnd|..]; rewrite list_lookup_fmap.
  - by rewrite Hi.
  - by rewrite Hj, Heq.
Qed.

Lemma store_update_alter i old job :
  jobs !! i = Some old → old.(job_ID) = job.(job_ID) →
  store_update job jobs = alter (λ _, job) i jobs.
Proof.
  intros Hi Hid. apply list_eq. intros j. unfold store_update. rewrite list_lookup_fmap.
  destruct (decide (i = j)) as [<-|Hne].
  - rewrite list_lookup_alter_eq, Hi. cbn. by rewrite decide_True.
  - rewrite list_lookup_alter_ne by done. destruct (jobs !! j) as [job'|] eqn:Hj; [|done]. cbn.
    rewrite decide_False; [done|]. intros Heq. apply Hne. eapply index_unique; [done..|congruence].
Qed.

Lemma store_delete_index i job :
  jobs !! i = Some job → store_delete job.(job_ID) jobs = take i jobs ++ drop (S i) jobs.
Proof.
  intros Hi. unfold store_delete.
  rewrite <-(take_drop_middle jobs i job Hi) at 1. rewrite list.filter_app, filter_cons.
  rewrite decide_False by naive_solver. f_equal; apply filter_all; intros j Hj Heq.
  - apply list_elem_of_lookup in Hj as [k Hk]. apply lookup_take_Some in Hk as [Hk Hlt].
    pose proof (index_unique _ _ _ _ Hk Hi Heq). lia.
  - apply list_elem_of_lookup in Hj as [k Hk]. rewrite lookup_drop in Hk.
    pose proof (index_unique _ _ _ _ Hk Hi Heq). lia.
Qed.
End Store.

(** ** Method names *)

Lemma TrimSuffix_app (s t : string) : TrimSuffix (s +:+ t) t = s.
Proof.
  unfold TrimSuffix. rewrite (proj2 (HasSuffix_spec _ _)) by eauto.
  rewrite str_length_app. replace (_ - _) with (String.length s) by lia. apply substring_app.
Qed.

(** Writes are dispatched to their handler, whatever the component. *)
Lemma dispatch_SetConfig d m params :
  HasSuffix m ".SetConfig" = true → dispatch spelled d m params = handleSetConfig spelled d m params.
Proof.
  intros Hm. unfold dispatch. rewrite Hm.
  repeat (match goal with
          | |- context [String.eqb m ?s] =>
              destruct (String.eqb_spec m s) as [->|_]; [discriminate Hm|]
          end; cbn [andb]); done.
Qed.

(** Component names the operator writes and the device stores alike. *)
Definition plain_component (s : string) : Prop := s ∈ fixed_names ∨ uiKeyRe s = true.

Lemma component_namespace_lower s :
  plain_component s → ToLower (component_namespace s) = s.
Proof.
  intros [Hs|Hs].
  - unfold fixed_names in Hs. repeat (apply elem_of_cons in Hs as [->|Hs]; [done|]).
    by apply elem_of_nil in Hs.
  - unfold component_namespace. destruct (componentMethods !! s) as [ns|] eqn:Hns.
    + exfalso. apply (uiKeyRe_fixed s Hs).
      apply elem_of_list_to_map_2, (list_elem_of_fmap_2 fst) in Hns. cbn in Hns. set_solver.
    + eapply ToLower_ToUpper_ui. exact Hs.
Qed.

(** ** Requests JSON can carry *)

Lemma utf8_word s : str_all is_word s = true → utf8 s = true.
Proof.
  intros Hs. apply utf8_ascii. eapply str_all_impl; [|exact Hs]. intros c. unfold is_word, is_ascii.
  rewrite !orb_true_iff, !andb_true_iff, N.ltb_lt, !N.leb_le, N.eqb_eq. lia.
Qed.

Lemma ui_rest_ascii s : ∀ b, ui_rest b s = true → str_all is_ascii s = true.
Proof.
  induction s as [|c s IH]; intros b; cbn [ui_rest str_all]; [done|].
  destruct (String.eqb_spec (String c s) "_ui") as [[= -> ->]|_]; [done|].
  rewrite !andb_true_iff. intros [Hc Hs]. split; [|by eapply IH]. revert Hc. unfold is_lower_alnum, is_ascii.
  rewrite orb_true_iff, !andb_true_iff, N.ltb_lt, !N.leb_le. lia.
Qed.

Lemma upper_ascii c : is_ascii c = true → is_ascii (ascii_upper c) = true.
Proof. destruct c as [[] [] [] [] [] [] [] []]; done. Qed.

Lemma component_method_utf8 s :
  plain_component s → utf8 (component_namespace s +:+ ".SetConfig") = true.
Proof.
  intros Hs. apply utf8_ascii. rewrite str_all_app. apply andb_true_iff. split; [|done].
  destruct Hs as [Hs|Hs].
  - unfold fixed_names in Hs. repeat (apply elem_of_cons in Hs as [->|Hs]; [done|]).
    by apply elem_of_nil in Hs.
  - unfold component_namespace. destruct (componentMethods !! s) as [ns|] eqn:Hns.
    + exfalso. apply (uiKeyRe_fixed s Hs).
      apply elem_of_list_to_map_2, (list_elem_of_fmap_2 fst) in Hns. cbn in Hns. set_solver.
    + apply ui_rest_ascii in Hs. clear Hns.
      induction s as [|c s IH]; [done|]. cbn in Hs |- *. apply andb_true_iff in Hs as [Hc Hs].
      rewrite upper_ascii by done. by apply IH.
Qed.

Lemma jsonable_create job : job_json job → jsonable (VObj (create_params job)).
Proof.
  intros [Ht Hc]. unfold create_params. do 2 (apply jsonable_insert; [done|by constructor|]).
  by apply jsonable_singleton.
Qed.

Lemma jsonable_auth `{Sha256, !Sha256Law} id password :
  utf8 id = true → jsonable (VObj (auth_params id password)).
Proof.
  intros Hid. unfold auth_params. do 2 (apply jsonable_insert; [done|by constructor|]).
  apply jsonable_singleton; [done|]. destruct (String.eqb password ""); constructor.
  apply utf8_word, sha256hex_word.
Qed.

(** The identity the device answers a probe with. *)
Lemma deviceInfo_decodes d :
  (Z.abs d.(fd_setup).(fd_Gen) < 2 ^ 53)%Z →
  to_DeviceInfo (handleProbe d) =
  let s := d.(fd_setup) in
  Ok (MkDeviceInfo s.(fd_ID) s.(fd_MAC) s.(fd_Model) s.(fd_Gen) s.(fd_Firmware) s.(fd_App)
        (AuthEnabled d) s.(fd_Name)).
Proof.
  intros Hg. unfold to_DeviceInfo, handleProbe. cbn [to_map unmarshal_map res_bind].
  assert (Hm : ∀ m : obj, member m "gen" = vint (fd_Gen (fd_setup d)) →
    member m "id" = VStr (fd_ID (fd_setup d)) → member m "mac" = VStr (fd_MAC (fd_setup d)) →
    member m "model" = VStr (fd_Model (fd_setup d)) →
    member m "fw_id" = VStr (fd_Firmware (fd_setup d)) →
    member m "app" = VStr (fd_App (fd_setup d)) → member m "auth_en" = VBool (AuthEnabled d) →
    to_string (member m "name") = Ok (fd_Name (fd_setup d)) →
    to_DeviceInfo (VObj m) = Ok (MkDeviceInfo (fd_ID (fd_setup d)) (fd_MAC (fd_setup d))
      (fd_Model (fd_setup d)) (fd_Gen (fd_setup d)) (fd_Firmware (fd_setup d))
      (fd_App (fd_setup d)) (AuthEnabled d) (fd_Name (fd_setup d)))).
  { intros m H1 H2 H3 H4 H5 H6 H7 H8. unfold to_DeviceInfo. cbn [to_map unmarshal_map res_bind].
    rewrite H1, H2, H3, H4, H5, H6, H7, H8, to_int_vint by done. done. }
  apply Hm; try done. change (member (deviceInfo d) "name") with
    (if String.eqb (fd_Name (fd_setup d)) "" then VNull else VStr (fd_Name (fd_setup d))).
  by destruct (String.eqb_spec (fd_Name (fd_setup d)) "") as [->|].
Qed.

(** ** The client's methods on the abstract device *)

Section Methods.
Context `{Sha256} {S : Type} (hd : handler S) (get : S → Device) `{!Backed hd get}.
Abbreviation view_of s v := (shows (get s) v).

Lemma accepts_admitted d v c : shows d v → admitted_by v c → accepts d c = true.
Proof.
  intros Hd Hc. unfold accepts. rewrite (shows_ha1 _ _ Hd), (shows_id _ _ Hd).
  destruct Hc as [->|[Hp%String.eqb_neq ->]]; [done|]. rewrite Hp, String.eqb_refl. apply orb_true_r.
Qed.

(** A result that decodes. *)
Lemma outcome_ok {A} c m (zero : A) f v a :
  f v = Ok a → call_outcome c m zero (Some f) (http_reply (Result v)) = Ok a.
Proof. intros Hf. unfold call_outcome. cbn. by rewrite Hf. Qed.

(** A call the device admits: its reply decides. *)
Lemma call_view c m p a s v (Q : res error (answer_type a) → S → Prop) :
  view_of s v → admitted_by v c →
  utf8 m = true → (∀ q, p = Some q → jsonable (VObj q)) →
  (∀ s', let '(r, d') := dispatch spelled (record_call (MkCall m (VObj <$> p)) (get s)) m (VObj <$> p) in
         get s' = d' → Q (call_outcome c m (zero_answer a) (decode_answer a) (http_reply r)) s') →
  ends hd (perform (OCall c m p a)) s Q.
Proof.
  intros Hv Hc Hm Hp HQ. apply ends_perform.
  destruct (backed_call c m p a s) as [Hr Hd]; [by apply jsonable_request|by eapply accepts_admitted|].
  rewrite Hr. specialize (HQ (hd (OCall c m p a) s).2). revert Hd HQ. unfold device_call, serve_call.
  rewrite (accepts_admitted _ _ _ Hv Hc).
  destruct (dispatch spelled _ m _) as [r d']. cbn. auto.
Qed.

Lemma shows_record k d v : shows d v → shows (record_call k d) v.
Proof. by intros []. Qed.

Lemma shows_actual d v : shows d v → VObj <$> d.(fd_config) = v_actual v.
Proof. intros Hd. unfold v_actual. by rewrite (shows_config _ _ Hd). Qed.

Lemma GetConfig_view c s v :
  view_of s v → admitted_by v c →
  succeeds hd (GetConfig c) s (λ a s', a = v_actual v ∧ view_of s' v).
Proof.
  intros Hv Hc. unfold GetConfig. apply (call_view c "Shelly.GetConfig" None AnsConfig s v); [done..|]. intros s'.
  unfold dispatch. cbn [String.eqb Ascii.eqb Bool.eqb]. unfold handleGetConfig.
  destruct (shows_cooperative _ _ Hv) as (_ & _ & Hg & _). cbn [fd_setup record_call].
  rewrite (proj2 (Z.ltb_ge _ _) Hg). cbn [andb]. intros Hs'.
  exists (v_actual v). rewrite Hs', <-(shows_actual _ _ Hv). split_and!; [done..|].
  destruct Hv. by split.
Qed.

Lemma ListSchedules_view c s v :
  view_of s v → admitted_by v c →
  succeeds hd (ListSchedules c) s (λ jobs s', jobs = v_jobs v ∧ view_of s' v).
Proof.
  intros Hv Hc. unfold ListSchedules. apply (call_view c "Schedule.List" None AnsJobs s v); [done..|]. intros s'.
  cbn [dispatch String.eqb Ascii.eqb Bool.eqb andb]. intros Hs'.
  exists (v_jobs v). rewrite Hs'. split_and!; [|done|by apply shows_record].
  apply outcome_ok.
  change (to_slice to_ScheduleJob (VArr (VObj <$> fd_schedules (get s))) = Ok (v_jobs v)).
  apply to_slice_Forall2. eapply Forall2_impl; [exact (shows_jobs _ _ Hv)|]. by intros j job [? _].
Qed.

Lemma CreateSchedule_view c job s v :
  view_of s v → admitted_by v c → job.(job_Calls) ≠ [] → job_json job → (v_next v + 1 < 2 ^ 53)%Z →
  succeeds hd (CreateSchedule c job) s (λ _ s',
    view_of s' (v_set_jobs (store_create (v_next v) job (v_jobs v)) (v_next v + 1) v)).
Proof.
  intros Hv Hc Hne Hjson Hlt. unfold CreateSchedule. destruct (job_Calls job) as [|c0 cs] eqn:Hcalls; [done|].
  destruct (shows_ids _ _ Hv) as (Hnd & Hids & Hnext).
  apply (call_view c "Schedule.Create" (Some (create_params job)) AnsJobID s v);
    [done..|intros ? [= <-]; by apply jsonable_create|]. intros s'.
  cbn [dispatch String.eqb Ascii.eqb Bool.eqb andb fmap option_fmap option_map].
  unfold handleScheduleCreate. cbn [unmarshal to_map unmarshal_map].
  destruct (create_params_lookup job) as (_ & -> & ->). cbn [is_nil orb json_calls]. intros Hs'.
  cbn [fd_nextSchedID record_call fd_schedules] in *. rewrite (shows_next _ _ Hv) in *.
  exists (v_next v). rewrite Hs'. split.
  - apply outcome_ok. change (to_int (vint (v_next v)) = Ok (v_next v)). apply to_int_vint. lia.
  - destruct Hv. split; cbn; [done..| |lia| |done|].
    + apply Forall2_app; [done|]. constructor; [|constructor]. apply job_view_created. lia.
    + split_and!; [| |lia|lia].
      * unfold store_create. rewrite fmap_app. apply NoDup_app. cbn. split_and!; [done| |apply NoDup_singleton].
        intros id (j & -> & Hj)%list_elem_of_fmap Heq%list_elem_of_singleton. apply Hids in Hj. lia.
      * intros j [Hj|Hj%list_elem_of_singleton]%elem_of_app; [apply Hids in Hj; lia|].
        subst j. cbn. lia.
    + intros j [Hin|Hin%list_elem_of_singleton]%elem_of_app; [by apply shows_json0|by subst j].
Qed.

(** Updating and deleting a job that is there. *)
Lemma UpdateSchedule_view c job s v :
  view_of s v → admitted_by v c → job.(job_Calls) ≠ [] → job_json job →
  job.(job_ID) ∈ job_ID <$> v_jobs v →
  succeeds hd (UpdateSchedule c job) s (λ _ s',
    view_of s' (v_set_jobs (store_update job (v_jobs v)) (v_next v) v)).
Proof.
  intros Hv Hc Hne Hjson Hin. unfold UpdateSchedule. destruct (job_Calls job) as [|c0 cs] eqn:Hcalls; [done|].
  destruct (shows_ids _ _ Hv) as (Hnd & Hids & Hnext).
  destruct (find_job_present _ _ Hin) as (i & old & Hfind & Hi & Hid).
  assert (Hpos : (0 < job_ID job < v_next v)%Z).
  { rewrite <-Hid. apply Hids. by eapply list_elem_of_lookup_2. }
  apply (call_view c "Schedule.Update" (Some (update_params job)) AnsNone s v); [done..| |].
  { intros ? [= <-]. apply jsonable_insert; [done|apply jsonable_vint; lia|by apply jsonable_create]. }
  intros s'.
  cbn [dispatch String.eqb Ascii.eqb Bool.eqb andb fmap option_fmap option_map].
  unfold handleScheduleUpdate.
  assert (unmarshal (to_Update spelled) (Some (VObj (update_params job))) =
    Ok (Some (job_ID job), Some (job_Enable job), Some (job_Timespec job), json_calls (job_Calls job))) as ->.
  { change ((try id := (try a := to_int (vint (job_ID job)) in Ok (Some a)) in
      Ok (id, Some (job_Enable job), Some (job_Timespec job), json_calls (job_Calls job))) =
      Ok (Some (job_ID job), Some (job_Enable job), Some (job_Timespec job), json_calls (job_Calls job))).
    by rewrite to_int_vint by lia. }
  cbn [fd_schedules record_call fd_nextSchedID].
  rewrite (find_job_view _ _ _ (shows_jobs _ _ Hv)) by (intros j Hj; apply Hids in Hj; lia).
  rewrite Hfind. cbn [fmap option_fmap option_map fst unmarshal to_map unmarshal_map]. intros Hs'.
  exists tt. rewrite Hs'. split; [done|]. destruct Hv. split; cbn; [done..| |done| |done|].
  - rewrite (store_update_alter _ Hnd i old job) by done.
    apply Forall2_alter; [done|]. intros j j' Hj Hj' _. apply job_view_updated. lia.
  - unfold store_update. split_and!; [| |lia|lia].
    + replace (job_ID <$> _) with (job_ID <$> v_jobs v); [done|].
      rewrite <-list_fmap_compose. apply list_fmap_ext. intros k j Hj. cbn. by case_decide.
    + intros j (j' & -> & Hj')%list_elem_of_fmap. case_decide; [lia|by apply Hids].
  - intros j (j' & -> & Hj')%list_elem_of_fmap. case_decide; [done|by apply shows_json0].
Qed.

Lemma DeleteSchedule_view c id s v :
  view_of s v → admitted_by v c → id ∈ job_ID <$> v_jobs v →
  succeeds hd (DeleteSchedule c id) s (λ _ s',
    view_of s' (v_set_jobs (store_delete id (v_jobs v)) (v_next v) v)).
Proof.
  intros Hv Hc Hin. unfold DeleteSchedule.
  destruct (shows_ids _ _ Hv) as (Hnd & Hids & Hnext).
  destruct (find_job_present _ _ Hin) as (i & old & Hfind & Hi & <-).
  assert (Hpos : (0 < job_ID old < v_next v)%Z) by (apply Hids; by eapply list_elem_of_lookup_2).
  apply (call_view c "Schedule.Delete" (Some {["id" := vint (job_ID old)]}) AnsNone s v); [done..| |].
  { intros ? [= <-]. apply jsonable_singleton; [done|apply jsonable_vint; lia]. }
  intros s'. cbn [dispatch String.eqb Ascii.eqb Bool.eqb andb fmap option_fmap option_map].
  unfold handleScheduleDelete.
  assert (unmarshal (to_id spelled) (Some (VObj {["id" := vint (job_ID old)]})) = Ok (Some (job_ID old))) as ->.
  { change ((try a := to_int (vint (job_ID old)) in Ok (Some a)) = Ok (Some (job_ID old))).
    by rewrite to_int_vint by lia. }
  cbn [fd_schedules record_call fd_nextSchedID].
  rewrite (find_job_view _ _ _ (shows_jobs _ _ Hv)) by (intros j Hj; apply Hids in Hj; lia).
  rewrite Hfind. cbn [fmap option_fmap option_map fst]. intros Hs'.
  exists tt. rewrite Hs'. split; [done|]. destruct Hv. split; cbn; [done..| |done| |done|].
  - rewrite (store_delete_index _ Hnd i old) by done.
    apply Forall2_app; [by apply Forall2_take|by apply Forall2_drop].
  - unfold store_delete. split_and!; [| |lia|lia].
    + eapply sublist_NoDup; [exact Hnd|]. apply fmap_sublist, sublist_filter.
    + intros j [_ Hj]%list_elem_of_filter. by apply Hids.
  - intros j [_ Hj]%list_elem_of_filter. by apply shows_json0.
Qed.

(** Writing a component. *)
Lemma handleSetConfig_view d v m params id config comp :
  shows d v → unmarshal (to_SetConfig spelled) params = Ok (id, Some config) →
  comp = ToLower (TrimSuffix m ".SetConfig")
         +:+ match id with Some n => ":" +:+ itoa n | None => "" end →
  ∃ d', handleSetConfig spelled d m params = (set_config_reply d', d') ∧
        shows d' (v_set_config comp config v).
Proof.
  intros Hv Hp Hcomp. destruct (shows_cooperative _ _ Hv) as (He & Hi & _).
  unfold handleSetConfig. rewrite He, Hi, Hp. cbn [String.eqb negb].
  assert (match id with Some n => _ | None => _ end = comp) as ->.
  { rewrite Hcomp. destruct id; [done|]. by rewrite str_app_nil_r. }
  eexists. split; [done|]. destruct Hv. split; cbn; try done. by rewrite shows_config0.
Qed.

Lemma SetConfig_view c comp config s v :
  view_of s v → admitted_by v c → plain_component comp → jsonable (VObj config) →
  succeeds hd (SetConfig c comp (Some config)) s
    (λ _ s', view_of s' (v_set_config comp config v)).
Proof.
  intros Hv Hc Hcomp Hj. unfold SetConfig. set (m := component_namespace comp +:+ ".SetConfig").
  apply (call_view c m (Some {["config" := VObj config]}) AnsRestart s v);
    [done..|by apply component_method_utf8|intros ? [= <-]; by apply jsonable_singleton|]. intros s'.
  rewrite dispatch_SetConfig by (apply HasSuffix_spec; eauto).
  destruct (handleSetConfig_view (record_call (MkCall m (Some (VObj {["config" := VObj config]}))) (get s))
    v m (Some (VObj {["config" := VObj config]})) None config comp) as (d' & Hh & Hd').
  - by apply shows_record.
  - done.
  - unfold m. by rewrite TrimSuffix_app, component_namespace_lower, str_app_nil_r.
  - cbn [fmap option_fmap option_map]. rewrite Hh. intros Hs'.
    eexists. rewrite Hs'. split; [by apply outcome_ok|done].
Qed.

Lemma SetSwitchConfig_view c n config s v :
  view_of s v → admitted_by v c → (Z.abs n < 2 ^ 53)%Z → jsonable (VObj config) →
  succeeds hd (SetSwitchConfig c n (Some config)) s
    (λ _ s', view_of s' (v_set_config ("switch:" +:+ itoa n) config v)).
Proof.
  intros Hv Hc Hn Hj. unfold SetSwitchConfig. set (p := {["id" := vint n; "config" := config_value (Some config)]}).
  apply (call_view c "Switch.SetConfig" (Some p) AnsRestart s v); [done..| |].
  { intros ? [= <-]. apply jsonable_insert; [done|by apply jsonable_vint|by apply jsonable_singleton]. }
  intros s'. rewrite dispatch_SetConfig by done.
  destruct (handleSetConfig_view (record_call (MkCall "Switch.SetConfig" (Some (VObj p))) (get s))
    v "Switch.SetConfig" (Some (VObj p)) (Some n) config ("switch:" +:+ itoa n)) as (d' & Hh & Hd').
  - by apply shows_record.
  - change ((try id := (try a := to_int (vint n) in Ok (Some a)) in Ok (id, Some config)) =
      Ok (Some n, Some config)). by rewrite to_int_vint.
  - done.
  - cbn [fmap option_fmap option_map]. rewrite Hh. intros Hs'.
    eexists. rewrite Hs'. split; [by apply outcome_ok|done].
Qed.

(** The hash SetAuth leaves behind: none, or the one of the password. *)
Definition auth_hash (id password : string) : string :=
  if String.eqb password "" then "" else device_ha1 id password.

Lemma device_ha1_nonempty `{!Sha256Law} id password : device_ha1 id password ≠ "".
Proof.
  intros Hempty. pose proof (sha256hex_length ("admin:" +:+ id +:+ ":" +:+ password)) as Hl.
  unfold device_ha1 in Hempty. by rewrite Hempty in Hl.
Qed.

Lemma SetAuth_view `{!Sha256Law} c password s v :
  view_of s v → admitted_by v c →
  succeeds hd (SetAuth c (v_id v) password) s
    (λ _ s', view_of s' (v_set_ha1 (auth_hash (v_id v) password) v)).
Proof.
  intros Hv Hc. unfold SetAuth.
  apply (call_view c "Shelly.SetAuth" (Some (auth_params (v_id v) password)) AnsNone s v);
    [done..|intros ? [= <-]; apply jsonable_auth, (shows_text _ _ Hv)|].
  intros s'. cbn [dispatch String.eqb Ascii.eqb Bool.eqb andb fmap option_fmap option_map].
  unfold handleSetAuth, auth_hash.
  assert (unmarshal (to_SetAuth spelled) (Some (VObj (auth_params (v_id v) password))) =
    Ok ("admin", v_id v, if String.eqb password "" then None
                         else Some (device_ha1 (v_id v) password))) as ->.
  { unfold auth_params. by destruct (String.eqb password ""). }
  cbn [fd_setup record_call]. rewrite (shows_id _ _ Hv), !String.eqb_refl. cbn [negb orb].
  destruct (String.eqb password "").
  - intros Hs'. exists tt. rewrite Hs'. split; [done|]. destruct Hv. by split.
  - rewrite (proj2 (String.eqb_neq _ _)).
    + intros Hs'. exists tt. rewrite Hs'. split; [done|]. destruct Hv. by split.
    + apply device_ha1_nonempty.
Qed.

Lemma Probe_view host s v :
  view_of s v →
  succeeds hd (Probe host) s (λ info s', info.(di_ID) = v_id v
    ∧ info.(di_AuthEnabled) = v_authOn v ∧ view_of s' v).
Proof.
  intros Hv. apply (ends_perform hd (OProbe host)). destruct (backed_probe host s) as [Hr Hd].
  rewrite Hd. destruct (shows_cooperative _ _ Hv) as (_ & _ & _ & Hgen).
  rewrite deviceInfo_decodes in Hr by done. eexists. split; [exact Hr|]. cbn. unfold v_authOn, AuthEnabled.
  by rewrite <-(shows_id _ _ Hv), <-(shows_ha1 _ _ Hv).
Qed.
Lemma Reboot_view c s v :
  view_of s v → admitted_by v c → succeeds hd (Reboot c) s (λ _ s', view_of s' v).
Proof.
  intros Hv Hc. unfold Reboot. apply (call_view c "Shelly.Reboot" None AnsNone s v); [done..|].
  intros s'. cbn [dispatch String.eqb Ascii.eqb Bool.eqb andb fmap option_fmap option_map].
  intros Hs'. exists tt. rewrite Hs'. split; [done|]. destruct Hv. by split.
Qed.
End Methods.
