(* ===== verification/DeviceStore.v ===== *)
(** * The fake device keeps its job store sound

    Whatever requests it is sent, with whatever credentials and bodies in which the
    id is spelled once, the device of server.go keeps the ids of its schedule jobs
    positive, distinct and below the id it hands out next, so that a job id means
    one job. *)

From stdpp Require Import prelude gmap strings pretty sorting list.
From Stdlib Require Import SpecFloat.
From S2P Require Import Prelude Json Api Diff Shelly Effects Render Client Decode Rpc Digest FakeDevice Wire Jobs DeviceView.

Definition job_id (j : obj) : Z := idOf (index j "id").

Definition store_ok (d : Device) : Prop :=
  NoDup (job_id <$> d.(fd_schedules))
  ∧ (∀ j, j ∈ d.(fd_schedules) → (0 < job_id j < d.(fd_nextSchedID))%Z)
  ∧ (0 < d.(fd_nextSchedID))%Z.

Lemma idOf_vint z : (Z.abs z < 2 ^ 53)%Z → idOf (vint z) = z.
Proof.
  intros Hz. pose proof (to_int_vint z Hz) as Hi. unfold to_int, vint in Hi |- *. cbn.
  destruct (json_int (float64_of_Z z)) as [n|] eqn:Hn; simplify_eq.
  by apply json_int_trunc in Hn as ->.
Qed.

(** A fresh job, at start-up or by Schedule.Create. *)
Lemma job_id_fresh next (m : obj) :
  (0 < next < 2 ^ 53)%Z → job_id (<["id" := vint next]> m) = next.
Proof. intros Hn. unfold job_id, index. rewrite lookup_insert_eq. apply idOf_vint. lia. Qed.

Lemma seed_jobs_ok jobs : ∀ next,
  (0 < next)%Z → (next + Z.of_nat (length jobs) ≤ 2 ^ 53)%Z →
  let '(js, next') := seed_jobs next jobs in
  next' = (next + Z.of_nat (length jobs))%Z ∧ NoDup (job_id <$> js)
  ∧ ∀ j, j ∈ js → (next ≤ job_id j < next')%Z.
Proof.
  induction jobs as [|j jobs IH]; intros next Hpos Hlt; cbn [seed_jobs length].
  { split; [lia|]. split; [constructor|]. by intros j ?%elem_of_nil. }
  cbn [length] in Hlt. specialize (IH (next + 1)%Z ltac:(lia) ltac:(lia)).
  destruct (seed_jobs (next + 1) jobs) as [js next'] eqn:Hs. destruct IH as (-> & Hnd & Hb).
  split; [lia|]. assert (Hid : job_id (<["id" := vint next]> (merge ∅ j)) = next) by (apply job_id_fresh; lia).
  split.
  - rewrite fmap_cons, Hid. constructor; [|done].
    intros (j' & Heq & Hj')%list_elem_of_fmap. apply Hb in Hj'. lia.
  - intros j' [->|Hj']%elem_of_cons; [rewrite Hid; lia|]. apply Hb in Hj'. lia.
Qed.

(** ** Spellings *)

(** A way to pick the member for a tag: one of those whose names fold to it. *)
Definition picks (pick : obj → string → option value) : Prop :=
  ∀ m k, fold_name k = k →
  match pick m k with
  | Some v => ∃ n, fold_name n = k ∧ m !! n = Some v
  | None => ∀ n, fold_name n = k → m !! n = None
  end.

Lemma spelled_picks : picks spelled.
Proof.
  intros m k Hk. unfold spelled. destruct (m !! k) as [v|] eqn:Hm; [by exists k|].
  destruct (filter _ (map_to_list m)) as [|[n v] l] eqn:Hf; cbn.
  - intros n Hn. destruct (m !! n) as [v|] eqn:Hv; [|done]. exfalso. apply (elem_of_nil (n, v)).
    rewrite <- Hf. apply list_elem_of_filter. split; [done|]. by apply elem_of_map_to_list.
  - assert (Hin : (n, v) ∈ filter (λ kv : string * value, fold_name kv.1 = k) (map_to_list m))
      by (rewrite Hf; constructor).
    apply list_elem_of_filter in Hin as [Hn Hv]. exists n. split; [done|]. by apply elem_of_map_to_list.
Qed.

(** The id is spelled in one way. *)
Definition one_id (m : obj) : Prop :=
  ∀ n n', fold_name n = "id" → fold_name n' = "id" → is_Some (m !! n) → is_Some (m !! n') → n = n'.

(** The same, computed. *)
Definition one_id_b (m : obj) : bool :=
  (length (filter (λ kv : string * value, fold_name kv.1 = "id") (map_to_list m)) <=? 1)%nat.

Lemma one_id_b_sound m : one_id_b m = true → one_id m.
Proof.
  intros Hb%Nat.leb_le n n' Hn Hn' [v Hv] [v' Hv'].
  assert (Hin : (n, v) ∈ filter (λ kv : string * value, fold_name kv.1 = "id") (map_to_list m))
    by (apply list_elem_of_filter; split; [done|by apply elem_of_map_to_list]).
  assert (Hin' : (n', v') ∈ filter (λ kv : string * value, fold_name kv.1 = "id") (map_to_list m))
    by (apply list_elem_of_filter; split; [done|by apply elem_of_map_to_list]).
  destruct (filter _ (map_to_list m)) as [|kv [|kv' l]]; [by apply elem_of_nil in Hin| |cbn in Hb; lia].
  apply list_elem_of_singleton in Hin, Hin'. congruence.
Qed.

(** Schedule.Update keeps the id of the job it finds: the id it merges, if it has
    the name of the job's own, is the one it searched for. *)
Lemma job_id_updated pick (j raw : obj) v id e t c :
  picks pick → one_id raw → job_id j = id → to_map v = Ok raw →
  to_Update pick v = Ok (Some id, e, t, c) → job_id (merge j raw) = id.
Proof.
  intros Hpick Hone Hj Hraw. unfold to_Update. rewrite Hraw. cbn [res_bind]. repeat setoid_rewrite res_bind_Ok.
  intros (o & Hid & ? & _ & ? & _ & [= -> _ _ _]). unfold job_id, index, got in *. rewrite merge_lookup.
  specialize (Hpick raw "id" eq_refl). destruct (pick raw "id") as [v'|]; [|done].
  destruct Hpick as (n & Hn & Hv). destruct (raw !! "id") as [w|] eqn:Hw; [|done].
  assert (n = "id") as -> by (by apply Hone; [..|eexists|eexists]).
  rewrite Hv in Hw. injection Hw as <-. destruct v' as [| |f| | |]; try done. cbn in Hid.
  destruct (json_int f) as [z|] eqn:Hz; [|done]. injection Hid as ->. cbn. by apply json_int_trunc.
Qed.

Lemma find_job_Some id jobs i :
  find_job id jobs = Some i → ∃ j, jobs !! i = Some j ∧ job_id j = id.
Proof.
  revert i. induction jobs as [|j jobs IH]; intros i; cbn; [done|].
  destruct (Z.eqb_spec (idOf (index j "id")) id) as [Heq|_].
  - intros [= <-]. eauto.
  - intros (i' & Hi & ->)%fmap_Some. by apply IH.
Qed.

Lemma store_ok_update d i j raw id :
  store_ok d → fd_schedules d !! i = Some j → job_id j = id → job_id (merge j raw) = id →
  store_ok (set_schedules (alter (λ j, merge j raw) i (fd_schedules d)) (fd_nextSchedID d) d).
Proof.
  intros (Hnd & Hb & Hpos) Hi Hj Hm.
  assert (Hids : job_id <$> alter (λ j, merge j raw) i (fd_schedules d) = job_id <$> fd_schedules d).
  { apply list_eq. intros k. rewrite !list_lookup_fmap. destruct (decide (i = k)) as [<-|Hne].
    - rewrite list_lookup_alter_eq, Hi. cbn. congruence.
    - by rewrite list_lookup_alter_ne. }
  split; cbn; [by rewrite Hids|]. split; [|done].
  intros j' Hj'. apply (list_elem_of_fmap_2 job_id) in Hj'. rewrite Hids in Hj'.
  apply list_elem_of_fmap in Hj' as (k & -> & Hk). by apply Hb.
Qed.

Lemma store_ok_delete d i :
  store_ok d →
  store_ok (set_schedules (take i (fd_schedules d) ++ drop (S i) (fd_schedules d))
              (fd_nextSchedID d) d).
Proof.
  intros (Hnd & Hb & Hpos).
  assert (Hsub : take i (fd_schedules d) ++ drop (S i) (fd_schedules d) `sublist_of` fd_schedules d).
  { rewrite <-(take_drop i (fd_schedules d)) at 3. apply sublist_app; [done|].
    replace (S i) with (i + 1) by lia. rewrite <-drop_drop. apply sublist_drop. }
  split; cbn; [eapply sublist_NoDup; [exact Hnd|by apply fmap_sublist]|]. split; [|done].
  intros j Hj. apply Hb. by eapply elem_of_sublist.
Qed.

(** One request: the store stays sound, and at most one id is used up. *)
Lemma dispatch_ok pick d m params :
  picks pick → (∀ raw, unmarshal to_map params = Ok raw → one_id raw) →
  store_ok d → (fd_nextSchedID d < 2 ^ 53)%Z →
  store_ok (dispatch pick d m params).2 ∧
  (fd_nextSchedID (dispatch pick d m params).2 ≤ fd_nextSchedID d + 1)%Z.
Proof.
  intros Hpick Hone Hok Hlt. assert (Hsame : store_ok d ∧ (fd_nextSchedID d ≤ fd_nextSchedID d + 1)%Z) by (split; [done|lia]).
  unfold dispatch. repeat (case_match; [cbn [snd]|]); try done.
  - unfold handleGetConfig. by case_match.
  - unfold handleSetAuth. repeat case_match; done.
  - unfold handleUpdate. by case_match.
  - unfold handleScheduleCreate. repeat case_match; try done. cbn. split; [|lia].
    destruct Hok as (Hnd & Hb & Hpos). split; cbn.
    + rewrite fmap_app. apply NoDup_app. split; [done|].
      split; [|apply NoDup_singleton]. intros z (j & -> & Hj)%list_elem_of_fmap.
      cbn. rewrite list_elem_of_singleton, job_id_fresh by lia. apply Hb in Hj. lia.
    + split; [|lia]. intros j. rewrite elem_of_app, list_elem_of_singleton.
      intros [Hj| ->]; [apply Hb in Hj; lia|]. rewrite job_id_fresh by lia. lia.
  - unfold handleScheduleUpdate. destruct (unmarshal (to_Update pick) params) as [[[[[id|] e] t] c]|] eqn:Hu; try done.
    destruct (find_job id (fd_schedules d)) as [i|] eqn:Hf; [|done].
    destruct (unmarshal to_map params) as [raw|] eqn:Hr; [|done]. cbn [snd]. split; [|cbn; lia].
    destruct (find_job_Some _ _ _ Hf) as (j & Hi & Hj). eapply store_ok_update; [done..|].
    destruct params as [p|]; [|done]. cbn in Hu, Hr. by eapply job_id_updated; eauto.
  - unfold handleScheduleDelete. repeat case_match; try done. cbn [snd]. split; [|cbn; lia].
    by apply store_ok_delete.
  - unfold handleSetConfig. repeat case_match; done.
Qed.

(** ** Requests in sequence *)

Section Serve.
Context `{Fmt, Sha256}.

(** A request: its Authorization header, its body, and which member of the body
    each struct field gets. *)
Record incoming : Type := MkIncoming {
  in_header : string;
  in_body : res string value;
  in_pick : obj → string → option value;
}.

Definition one_id_request (req : incoming) : Prop :=
  match req.(in_body) with
  | Ok (VObj m) => ∀ n p, m !! n = Some (VObj p) → one_id p
  | _ => True
  end.

Definition one_id_request_b (req : incoming) : bool :=
  match req.(in_body) with
  | Ok (VObj m) =>
      forallb (λ kv : string * value, match kv.2 with VObj p => one_id_b p | _ => true end) (map_to_list m)
  | _ => true
  end.

Lemma one_id_request_b_sound req : one_id_request_b req = true → one_id_request req.
Proof.
  unfold one_id_request_b, one_id_request. repeat case_match; try done. rewrite forallb_forall.
  intros Hall n p Hp. apply one_id_b_sound. apply (Hall (n, VObj p)).
  by apply list_elem_of_In, elem_of_map_to_list.
Qed.

(** The device after a sequence of requests. *)
Definition served (d : Device) (reqs : list incoming) : Device :=
  foldl (λ d req, (handleRPC req.(in_pick) d req.(in_header) req.(in_body)).2) d reqs.

Lemma to_request_params pick b m method params :
  picks pick → to_map b = Ok m → to_request pick b = Ok (method, params) →
  ∀ v, params = Some v → ∃ n, m !! n = Some v.
Proof.
  intros Hpick Hm. unfold to_request. rewrite Hm. cbn [res_bind]. repeat setoid_rewrite res_bind_Ok.
  intros (? & _ & ? & _ & [= _ <-]) v Hv. specialize (Hpick m "params" eq_refl). rewrite Hv in Hpick.
  destruct Hpick as (n & _ & Hn). by exists n.
Qed.

Lemma handleRPC_ok d req :
  picks req.(in_pick) → one_id_request req → store_ok d → (fd_nextSchedID d < 2 ^ 53)%Z →
  store_ok (handleRPC req.(in_pick) d req.(in_header) req.(in_body)).2 ∧
  (fd_nextSchedID (handleRPC req.(in_pick) d req.(in_header) req.(in_body)).2 ≤ fd_nextSchedID d + 1)%Z.
Proof.
  destruct req as [header body pick]. cbn. intros Hpick Hone Hok Hlt. unfold handleRPC.
  case_match; [by split; [|cbn; lia]|].
  destruct (try v := body in to_request pick v) as [[m params]|e] eqn:Hreq; [|by split; [|cbn; lia]].
  assert (Hp : ∀ raw, unmarshal to_map params = Ok raw → one_id raw).
  { intros raw Hraw. destruct params as [v|]; [|done]. destruct body as [b|]; [|done]. cbn in Hreq, Hraw.
    destruct (to_map b) as [o|] eqn:Ho; [|by unfold to_request in Hreq; rewrite Ho in Hreq].
    destruct (to_request_params _ _ _ _ _ Hpick Ho Hreq v eq_refl) as [n Hn].
    destruct v as [| | | | |p]; try done; injection Hraw as <-; [by intros ? ? _ _ [? ?]|].
    destruct b as [| | | | |o']; try done; injection Ho as <-; [done|]. by apply (Hone n). }
  unfold serve_call.
  pose proof (dispatch_ok pick (record_call (MkCall m params) d) m params Hpick Hp Hok Hlt) as Hd.
  by destruct (dispatch pick _ m params).
Qed.

Lemma served_ok reqs : ∀ d,
  Forall (λ req, picks req.(in_pick) ∧ one_id_request req) reqs →
  store_ok d → (fd_nextSchedID d + Z.of_nat (length reqs) ≤ 2 ^ 53)%Z → store_ok (served d reqs).
Proof.
  induction reqs as [|req reqs IH]; intros d Hall Hok Hlt; cbn [served foldl]; [done|].
  cbn [length] in Hlt. apply Forall_cons in Hall as [[Hpick Hone] Hall].
  destruct (handleRPC_ok d req Hpick Hone Hok) as [Hok' Hle]; [lia|].
  apply IH; [done..|lia].
Qed.

(** C25: job ids identify jobs.  A device started with any setup and then sent
    any sequence of requests, accepted or not, keeps the ids of its schedule
    jobs positive, pairwise distinct and below the next id it will hand out (as
    long as ids stay exact in float64, the JSON number type), provided that no
    object in a request spells the id in two ways.  Names match the handlers'
    struct tags up to case, and whichever member a field gets of several that do,
    the claim holds. *)
Theorem served_store_ok (setup : Setup) (updates : option obj) (restart : bool) (reqs : list incoming)
  (Hreqs : Forall (λ req, picks req.(in_pick) ∧ one_id_request req) reqs)
  (Hroom : (1 + Z.of_nat (length setup.(fd_InitialSchedules)) + Z.of_nat (length reqs) ≤ 2 ^ 53)%Z) :
  store_ok (served (New setup updates restart) reqs).
Proof.
  pose proof (seed_jobs_ok setup.(fd_InitialSchedules) 1 ltac:(lia) ltac:(lia)) as Hseed.
  unfold New. destruct (seed_jobs 1 _) as [js next]. destruct Hseed as (-> & Hnd & Hb).
  apply served_ok; [done| |cbn; lia]. split; cbn; [done|]. split; [|lia].
  intros j Hj. apply Hb in Hj. lia.
Qed.
End Serve.
