(* ===== verification/Fleet.v ===== *)
(** * Resolution helpers (internal/fleet) and registry stamping

    Desired names, admin and wifi passwords and registry entries, read from
    ConfigMaps and Secrets, and [stampRegistry] of the device controller, which
    writes the registry's labels and note onto the device object. *)

From stdpp Require Import prelude gmap strings pretty sorting list.
From S2P Require Import Prelude Json Api Labels Diff Shelly Effects.

Record RegistryEntry : Type := MkRegistryEntry {
  re_Name : string;
  re_Room : string;
  re_Type : string;
  re_Note : string;
  re_Labels : gmap string string;
}.

Definition zero_entry : RegistryEntry := MkRegistryEntry "" "" "" "" ∅.

(** [json.Unmarshal] of a registry entry's text. *)
Class RegistryJson : Type := {
  unmarshal_entry : string → res error RegistryEntry;
}.

(** apimachinery's [validation.IsQualifiedName]: no complaints. *)
Class QualifiedNames : Type := {
  IsQualifiedName : string → bool;
}.

Record WifiPasswords : Type := MkWifiPasswords {
  wp_Sta : string;
  wp_Sta1 : string;
}.

Definition no_passwords : WifiPasswords := MkWifiPasswords "" "".

(** The zero value of a missing key. *)
Definition get_or_empty (m : gmap string string) (k : string) : string := default "" (m !! k).

Definition is_NotFound (e : error) : bool :=
  match e.(err_kind_of) with ENotFound => true | _ => false end.

Definition is_Conflict (e : error) : bool :=
  match e.(err_kind_of) with EConflict => true | _ => false end.

Section Fleet.
Context `{Fmt, RegistryJson, QualifiedNames}.

(** [reader] is false for a nil [client.Reader]. *)
Definition ResolveRegistry (reader : bool) (dev : ShellyDevice) (registryName : string)
  : prog (res error RegistryEntry) :=
  if String.eqb registryName "" || negb reader then Ret (Ok zero_entry)
  else
    cm <- perform (OGetConfigMap (dev_Namespace dev) registryName) ;;
    match cm with
    | Err e =>
        if is_NotFound e then Ret (Ok zero_entry)
        else Ret (Err (wrap ("reading registry " +:+ dev_Namespace dev +:+ "/" +:+ registryName) e))
    | Ok data =>
        let raw := get_or_empty data (dev_Name dev) in
        if String.eqb raw "" then Ret (Ok zero_entry)
        else match unmarshal_entry raw with
             | Err e => Ret (Err (wrap ("parsing registry entry for " +:+ dev_Name dev) e))
             | Ok entry => Ret (Ok entry)
             end
    end.

Definition name_from_map (reader : bool) (dev : ShellyDevice) (nameMapName : string)
  : prog (res error string) :=
  if String.eqb nameMapName "" || negb reader then Ret (Ok "")
  else
    cm <- perform (OGetConfigMap (dev_Namespace dev) nameMapName) ;;
    match cm with
    | Err e =>
        if is_NotFound e then Ret (Ok "")
        else Ret (Err (wrap ("reading name map " +:+ dev_Namespace dev +:+ "/" +:+ nameMapName) e))
    | Ok data => Ret (Ok (get_or_empty data (dev_Name dev)))
    end.

Definition ResolveName (reader : bool) (dev : ShellyDevice) (nameMapName registryName : string)
  : prog (res error string) :=
  if negb (String.eqb dev.(dev_Spec).(ds_DisplayName) "")
  then Ret (Ok dev.(dev_Spec).(ds_DisplayName))
  else if negb (String.eqb registryName "") && reader then
    entry <-? ResolveRegistry reader dev registryName ;;
    if negb (String.eqb entry.(re_Name) "") then Ret (Ok entry.(re_Name))
    else name_from_map reader dev nameMapName
  else name_from_map reader dev nameMapName.

Definition secretValue (namespace : string) (ref : SecretKeyRef) (what : string)
  : prog (res error string) :=
  secret <- perform (OGetSecret namespace ref.(ref_Name)) ;;
  match secret with
  | Err e => Ret (Err (wrap ("reading " +:+ what +:+ " secret " +:+ namespace +:+ "/" +:+ ref.(ref_Name)) e))
  | Ok data =>
      match data !! ref.(ref_Key) with
      | Some v => Ret (Ok v)
      | None => Ret (Err (errorf (what +:+ " secret " +:+ namespace +:+ "/" +:+ ref.(ref_Name)
                                  +:+ " has no key " +:+ fmt_q ref.(ref_Key))))
      end
  end.

Definition ResolvePassword (reader : bool) (namespace : string) (auth : option AuthSection)
  : prog (res error string) :=
  match auth ≫= auth_PasswordSecretRef with
  | Some ref => if reader then secretValue namespace ref "password" else Ret (Ok "")
  | None => Ret (Ok "")
  end.

(** One network's password; a network without a ref resolves to "". *)
Definition network_password (namespace : string) (n : option WifiNetwork) (what : string)
  : prog (res error string) :=
  match n ≫= net_PassSecretRef with
  | Some ref => secretValue namespace ref what
  | None => Ret (Ok "")
  end.

Definition ResolveWifiPasswords (reader : bool) (namespace : string) (wifi : option WifiSection)
  : prog (res error WifiPasswords) :=
  match wifi with
  | Some w =>
      if reader then
        sta <-? network_password namespace w.(wifi_Sta) "wifi sta password" ;;
        sta1 <-? network_password namespace w.(wifi_Sta1) "wifi sta1 password" ;;
        Ret (Ok (MkWifiPasswords sta sta1))
      else Ret (Ok no_passwords)
  | None => Ret (Ok no_passwords)
  end.

(** ** stampRegistry (shellydevice_controller.go) *)

(** The labels the registry owns and may delete. *)
Definition owned_label (k : string) : bool :=
  String.eqb k LabelRoom || String.eqb k LabelAppliance || HasPrefix k LabelRegistryPrefix.

Definition registryOwnedLabels (labels : gmap string string) : list string :=
  [LabelRoom; LabelAppliance] ++
  filter (λ k, HasPrefix k LabelRegistryPrefix = true) (map_to_list labels).*1.

(** [want]: the labels an entry declares. *)
Definition wanted_labels (entry : RegistryEntry) : gmap string string :=
  let want := ∅ in
  let want := if negb (String.eqb entry.(re_Room) "")
              then <[LabelRoom := SanitizeLabel entry.(re_Room)]> want else want in
  let want := if negb (String.eqb entry.(re_Type) "")
              then <[LabelAppliance := SanitizeLabel entry.(re_Type)]> want else want in
  map_fold (λ k v want,
    if IsQualifiedName (LabelRegistryPrefix +:+ k)
    then <[LabelRegistryPrefix +:+ k := SanitizeLabel v]> want else want) want entry.(re_Labels).

Definition wanted_annotations (entry : RegistryEntry) : gmap string string :=
  if negb (String.eqb entry.(re_Note) "") then {[AnnotationNote := entry.(re_Note)]} else ∅.

(** Some wanted key has another value ([""] when absent). *)
Definition differs_from (have want : gmap string string) : bool :=
  map_fold (λ k v acc, negb (String.eqb (get_or_empty have k) v) || acc) false want.

Definition registry_changed (meta : ObjectMeta) (want wantAnn : gmap string string) : bool :=
  differs_from meta.(meta_Labels) want
  || existsb (λ k, bool_decide (want !! k = None) &&
                   bool_decide (is_Some (meta.(meta_Labels) !! k)))
       (registryOwnedLabels meta.(meta_Labels))
  || differs_from meta.(meta_Annotations) wantAnn
  || bool_decide (wantAnn !! AnnotationNote = None) &&
     bool_decide (is_Some (meta.(meta_Annotations) !! AnnotationNote)).

(** [maps.Copy(labels, want)], then delete what the registry no longer provides. *)
Definition stamped_labels (labels want : gmap string string) : gmap string string :=
  let merged := want ∪ labels in
  foldr (λ k m, if decide (want !! k = None) then delete k m else m) merged
    (registryOwnedLabels merged).

Definition stamped_annotations (anns wantAnn : gmap string string) : gmap string string :=
  let merged := wantAnn ∪ anns in
  if decide (wantAnn !! AnnotationNote = None) then delete AnnotationNote merged else merged.

Definition stamped_meta (meta : ObjectMeta) (entry : RegistryEntry) : ObjectMeta :=
  set_meta_Annotations (stamped_annotations meta.(meta_Annotations) (wanted_annotations entry))
    (set_meta_Labels (stamped_labels meta.(meta_Labels) (wanted_labels entry)) meta).

(** The error, if any, and the device object as it then is in memory. *)
Definition stampRegistry (reader : bool) (registryName : string) (dev : ShellyDevice)
  : prog (option error * ShellyDevice) :=
  r <- ResolveRegistry reader dev registryName ;;
  match r with
  | Err e => Ret (Some (wrap "reading registry" e), dev)
  | Ok entry =>
      if negb (registry_changed dev.(dev_Meta) (wanted_labels entry) (wanted_annotations entry))
      then Ret (None, dev)
      else
        let dev' := set_dev_Meta (stamped_meta dev.(dev_Meta) entry) dev in
        p <- perform (OPatch dev dev') ;;
        match p with
        | Ok server => Ret (None, server)
        | Err e => if is_Conflict e then Ret (None, dev')
                   else Ret (Some (wrap "stamping registry labels" e), dev')
        end
  end.
End Fleet.

#[global] Arguments registryOwnedLabels : simpl never.
#[global] Arguments wanted_labels : simpl never.

(** ** Lemmas *)

Lemma elem_of_registryOwnedLabels labels k :
  k ∈ registryOwnedLabels labels ↔
  k = LabelRoom ∨ k = LabelAppliance ∨
  (HasPrefix k LabelRegistryPrefix = true ∧ is_Some (labels !! k)).
Proof.
  unfold registryOwnedLabels. rewrite elem_of_app, !elem_of_cons, elem_of_nil,
    list_elem_of_filter, list_elem_of_fmap.
  assert ((∃ y, k = y.1 ∧ y ∈ map_to_list labels) ↔ is_Some (labels !! k)) as ->; [|tauto].
  split.
  - intros ([k' v] & -> & Hin%elem_of_map_to_list). by exists v.
  - intros [v Hv]. exists (k, v). by rewrite elem_of_map_to_list.
Qed.

Lemma owned_label_iff k :
  owned_label k = true ↔
  k = LabelRoom ∨ k = LabelAppliance ∨ HasPrefix k LabelRegistryPrefix = true.
Proof. unfold owned_label. rewrite !orb_true_iff, !String.eqb_eq. tauto. Qed.

Lemma foldr_delete_lookup (want m : gmap string string) ks k :
  foldr (λ k m, if decide (want !! k = None) then delete k m else m) m ks !! k =
  if decide (k ∈ ks ∧ want !! k = None) then None else m !! k.
Proof.
  induction ks as [|i ks IH]; cbn [foldr].
  { rewrite decide_False; [done|]. by rewrite elem_of_nil; intros [? ?]. }
  destruct (decide (want !! i = None)) as [Hi|Hi].
  - destruct (decide (i = k)) as [->|Hne].
    + rewrite lookup_delete_eq, decide_True; [done|]. split; [constructor|done].
    + rewrite lookup_delete_ne, IH by done.
      apply decide_ext. rewrite elem_of_cons. naive_solver.
  - rewrite IH. apply decide_ext. rewrite elem_of_cons. naive_solver.
Qed.

(** What the labels become, key by key. *)
Lemma stamped_labels_lookup labels want k :
  stamped_labels labels want !! k =
  match want !! k with
  | Some v => Some v
  | None => if owned_label k then None else labels !! k
  end.
Proof.
  unfold stamped_labels. rewrite foldr_delete_lookup.
  destruct (want !! k) as [v|] eqn:Hw.
  - rewrite decide_False by naive_solver. by apply lookup_union_Some_l.
  - rewrite lookup_union_r by done.
    destruct (owned_label k) eqn:Ho.
    + destruct (labels !! k) as [v|] eqn:Hl; [|by case_decide].
      rewrite decide_True; [done|]. split; [|done].
      apply elem_of_registryOwnedLabels. apply owned_label_iff in Ho as [?|[?|?]]; [auto..|].
      right; right. split; [done|]. rewrite lookup_union_r by done. eauto.
    + rewrite decide_False; [done|]. intros [Hin _]. apply elem_of_registryOwnedLabels in Hin.
      apply (eq_true_false_abs (owned_label k)); [|done]. apply owned_label_iff. tauto.
Qed.

Lemma differs_from_false have want :
  differs_from have want = false ↔
  ∀ k v, want !! k = Some v → get_or_empty have k = v.
Proof.
  unfold differs_from. induction want as [|k v want Hk IH] using map_ind.
  { rewrite map_fold_empty. split; [|done]. intros _ k v Hk. by rewrite lookup_empty in Hk. }
  rewrite map_fold_insert_L; [|intros; rewrite !orb_assoc; f_equal; apply orb_comm|done].
  rewrite orb_false_iff, negb_false_iff, String.eqb_eq, IH. split.
  - intros [H1 H2] i w [[<- <-]|[_ ?]]%lookup_insert_Some; eauto.
  - intros Hall. split; [apply Hall; by rewrite lookup_insert_eq|].
    intros i w Hi. apply Hall. rewrite lookup_insert_ne; [done|]. congruence.
Qed.

Section FleetFacts.
Context `{Fmt, RegistryJson, QualifiedNames}.

(** A conditional insertion of an owned key keeps every key owned. *)
Lemma owned_put (c : bool) i v (m : gmap string string) :
  owned_label i = true → (∀ k, is_Some (m !! k) → owned_label k = true) →
  ∀ k, is_Some ((if c then <[i := v]> m else m) !! k) → owned_label k = true.
Proof.
  intros Hi Hm k. destruct c; [|apply Hm]. rewrite lookup_insert_is_Some.
  intros [<-|[_ ?]]; auto.
Qed.

Lemma wanted_labels_owned entry k :
  is_Some (wanted_labels entry !! k) → owned_label k = true.
Proof.
  unfold wanted_labels. cbv zeta. revert k.
  induction (re_Labels entry) as [|i v m Hi IH] using map_ind.
  { rewrite map_fold_empty. apply owned_put; [done|]. apply owned_put; [done|].
    intros k [? Hk]. by rewrite lookup_empty in Hk. }
  rewrite map_fold_insert_L; [| |done].
  2:{ intros k1 k2 v1 v2 acc Hne _ _.
      destruct (IsQualifiedName (_ +:+ k1)), (IsQualifiedName (_ +:+ k2)); try done.
      apply insert_insert_ne. intros Heq%str_app_inj_l. done. }
  apply owned_put; [|done]. apply owned_label_iff. right; right. apply HasPrefix_app.
Qed.

Lemma stamped_annotations_lookup anns entry k :
  stamped_annotations anns (wanted_annotations entry) !! k =
  if decide (k = AnnotationNote)
  then wanted_annotations entry !! AnnotationNote else anns !! k.
Proof.
  unfold stamped_annotations, wanted_annotations.
  destruct (negb (String.eqb (re_Note entry) "")); destruct (decide (k = AnnotationNote)) as [->|Hk].
  - rewrite lookup_singleton_eq. rewrite decide_False by done.
    by rewrite (lookup_union_Some_l _ _ _ (re_Note entry)) by by rewrite lookup_singleton_eq.
  - rewrite lookup_singleton_eq. rewrite decide_False by done.
    by rewrite lookup_union_r by by rewrite lookup_singleton_ne.
  - rewrite lookup_empty, decide_True by done. apply lookup_delete_eq.
  - rewrite lookup_empty, decide_True by done. rewrite lookup_delete_ne by done.
    by rewrite lookup_union_r by apply lookup_empty.
Qed.

(** ** Theorems *)

(** After stamping, the labels are the entry's where it declares one, the
    registry's other labels (room, appliance and everything under the registry
    prefix) are gone, and every other label, in particular the discovery labels
    model, app and gen that profile selectors match on, is exactly what it was;
    of the annotations only the note is written. *)
Theorem stamped_meta_spec (meta : ObjectMeta) (entry : RegistryEntry) :
  let meta' := stamped_meta meta entry in
  (∀ k, meta'.(meta_Labels) !! k =
        match wanted_labels entry !! k with
        | Some v => Some v
        | None => if owned_label k then None else meta.(meta_Labels) !! k
        end) ∧
  (∀ k, k ∈ [LabelModel; LabelApp; LabelGen] →
        meta'.(meta_Labels) !! k = meta.(meta_Labels) !! k) ∧
  (∀ k, meta'.(meta_Annotations) !! k =
        if decide (k = AnnotationNote) then wanted_annotations entry !! AnnotationNote
        else meta.(meta_Annotations) !! k).
Proof.
  simpl. split_and!.
  - apply stamped_labels_lookup.
  - intros k Hk. rewrite stamped_labels_lookup.
    assert (owned_label k = false) as Ho.
    { by repeat (apply elem_of_cons in Hk as [->|Hk]; [done|]); apply elem_of_nil in Hk. }
    destruct (wanted_labels entry !! k) eqn:Hw; [|by rewrite Ho].
    rewrite (wanted_labels_owned entry k) in Ho; [done|]. eauto.
  - apply stamped_annotations_lookup.
Qed.

(** Stamping settles.  Once a device carries the stamped metadata, the next
    reconcile with the same entry finds nothing to change and sends no patch. *)
Theorem stamp_settles (meta : ObjectMeta) (entry : RegistryEntry) :
  registry_changed (stamped_meta meta entry) (wanted_labels entry) (wanted_annotations entry)
  = false.
Proof.
  pose proof (stamped_labels_lookup meta.(meta_Labels) (wanted_labels entry)) as Hl.
  pose proof (stamped_annotations_lookup meta.(meta_Annotations) entry) as Ha.
  unfold registry_changed. cbn [meta_Labels meta_Annotations stamped_meta set_meta_Labels
    set_meta_Annotations].
  set (labels := stamped_labels _ _) in *. set (anns := stamped_annotations _ _) in *.
  assert (differs_from labels (wanted_labels entry) = false) as ->.
  { apply differs_from_false. intros k v Hk. unfold get_or_empty. by rewrite Hl, Hk. }
  assert (differs_from anns (wanted_annotations entry) = false) as ->.
  { apply differs_from_false. intros k v Hk. unfold get_or_empty. rewrite Ha.
    unfold wanted_annotations in *. destruct (negb _); [|by rewrite lookup_empty in Hk].
    apply lookup_singleton_Some in Hk as [<- <-]. by rewrite decide_True, lookup_singleton_eq. }
  rewrite orb_false_l, orb_false_r. apply orb_false_iff. split.
  - apply not_true_is_false. rewrite existsb_exists. intros (k & Hin & Hk). apply andb_true_iff in Hk.
    rewrite <-list_elem_of_In, elem_of_registryOwnedLabels in Hin.
    destruct Hk as [Hk1 Hk2]; reflect_bools. rewrite Hl, Hk1 in Hk2.
    rewrite (proj2 (owned_label_iff k)) in Hk2 by tauto. by destruct Hk2.
  - rewrite Ha, decide_True by done. destruct (wanted_annotations entry !! AnnotationNote); [done|].
    by rewrite andb_true_l, bool_decide_eq_false_2 by (intros [? ?]; done).
Qed.
End FleetFacts.
