(* ===== verification/Apply.v ===== *)
(** * Enforcement (internal/controller/apply.go, firmware.go, schedule.go and
      [enforceAndRecheck] of shellydevice_controller.go)

    The effectful half of enforcement: evaluating the pseudo-sections against the
    device, writing the drifted sections in [ApplyOrder], and re-reading the
    device to verify. *)

From stdpp Require Import prelude gmap strings pretty sorting list.
From S2P Require Import Prelude Json Api Diff Order Match Render Shelly Effects Client Jobs Fleet.

(** The reconciler's configuration (its immutable fields); [Reader] and
    [Recorder] are interfaces that may be nil. *)
Record Settings : Type := MkSettings {
  rs_Reader : bool;
  rs_Recorder : bool;
  rs_NameMapName : string;
  rs_RegistryName : string;
  rs_Interval : duration;
  rs_UpdateSpacing : duration;
}.

Definition sectionAuth : string := "auth".
Definition sectionWifi : string := "wifi".

Record applyResult : Type := MkApplyResult {
  ar_applied : list string;
  ar_restartRequired : bool;
}.

(** [if r.Recorder != nil { r.Recorder.Event(...) }]. *)
Definition record_event (r : Settings) (dev : ShellyDevice) (t : event_type)
  (reason message : string) : prog unit :=
  if r.(rs_Recorder) then perform (OEvent (dev_Name dev) t reason message) else Ret tt.

(** ** Pseudo-section findings *)

Definition authEnableOf (p : ShellyProfile) : option bool :=
  p.(prof_Spec).(ps_Config).(cfg_Auth) ≫= auth_Enable.

Definition appendAuthFinding (p : ShellyProfile) (fs : list Finding) (authNow : bool)
  : list Finding :=
  match authEnableOf p with
  | Some want =>
      if Bool.eqb want authNow then fs
      else fs ++ [MkFinding sectionAuth "enable" (VBool want) (VBool authNow)]
  | None => fs
  end.

Definition appendFirmwareFindings (c : Client) (p : ShellyProfile) (fs : list Finding)
  : prog (res error (list Finding)) :=
  match firmwareEnableOf p with
  | None => Ret (Ok fs)
  | Some want =>
      jobs <-? ListSchedules c ;;
      Ret (Ok (fs ++ firmwareFindings want jobs))
  end.

Section Apply.
Context `{JsonText, Sha256, StrConv, Fmt}.

Definition appendScheduleFindings (c : Client) (p : ShellyProfile) (fs : list Finding)
  : prog (res error (list Finding)) :=
  match scheduleSectionOf p with
  | None => Ret (Ok fs)
  | Some sec =>
      jobs <-? ListSchedules c ;;
      Ret (Ok (fs ++ (act_finding <$> scheduleActions (Some sec) jobs)))
  end.

(** ** Writers *)

(** A loop over steps that stops at the first error. *)
Fixpoint each {A : Type} (f : A → prog (res error unit)) (l : list A) : prog (res error unit) :=
  match l with
  | [] => Ret (Ok tt)
  | x :: l' => _ <-? f x ;; each f l'
  end.

(** [if err != nil { return fmt.Errorf(prefix: %w) }]. *)
Definition wrapping {A : Type} (prefix : string) (p : prog (res error A)) : prog (res error A) :=
  r <- p ;;
  Ret (match r with Ok a => Ok a | Err e => Err (wrap prefix e) end).

Definition delete_job (c : Client) (id : Z) : prog (res error unit) :=
  wrapping ("deleting schedule job " +:+ itoa id) (DeleteSchedule c id).

Definition applyFirmware (c : Client) (want : bool) : prog (res error unit) :=
  jobs <-? wrapping "listing schedule jobs" (ListSchedules c) ;;
  let '(offenders, hasCompliant) := firmwareOffenders want jobs in
  _ <-? each (delete_job c) offenders ;;
  if want && negb hasCompliant then
    _ <-? wrapping "creating auto-update job" (CreateSchedule c autoUpdateJob) ;;
    Ret (Ok tt)
  else Ret (Ok tt).

(** One action of the schedule plan. *)
Definition apply_action (c : Client) (sec : ScheduleSection) (a : scheduleAction)
  : prog (res error unit) :=
  match a.(act_kind) with
  | ACreate =>
      let si := (-1 - a.(act_job).(job_ID))%Z in
      if ((si <? 0) || (Z.of_nat (length sec.(sched_Jobs)) <=? si))%Z
      then Ret (Err (errorf ("schedule: internal: invalid spec index " +:+ itoa si)))
      else match sec.(sched_Jobs) !! Z.to_nat si with
           | None => Ret (Err (errorf ("schedule: internal: invalid spec index " +:+ itoa si)))
           | Some spec =>
               match specCalls spec.(js_Calls) with
               | Err e => Ret (Err e)
               | Ok calls =>
                   _ <-? wrapping ("creating schedule job " +:+ fmt_q spec.(js_Timespec))
                           (CreateSchedule c
                              (MkScheduleJob 0 (enableOf spec) spec.(js_Timespec) calls)) ;;
                   Ret (Ok tt)
               end
           end
  | AUpdate =>
      wrapping ("updating schedule job " +:+ itoa a.(act_id)) (UpdateSchedule c a.(act_job))
  | ADelete => delete_job c a.(act_id)
  end.

Definition applySchedule (c : Client) (p : ShellyProfile) : prog (res error unit) :=
  match scheduleSectionOf p with
  | None => Ret (Ok tt)
  | Some sec =>
      jobs <-? wrapping "listing schedule jobs" (ListSchedules c) ;;
      each (apply_action c sec) (scheduleActions (Some sec) jobs)
  end.

(** [m["pass"] = pass] in the network object under [key], if both are there. *)
Definition inject (key pass : string) (out : obj) : obj :=
  if String.eqb pass "" then out
  else match out !! key with
       | Some (VObj m) => <[key := VObj (<["pass" := VStr pass]> m)]> out
       | _ => out
       end.

Definition wifiPayload (rendered : option obj) (pw : WifiPasswords) : obj :=
  inject "sta1" pw.(wp_Sta1) (inject "sta" pw.(wp_Sta) (default ∅ rendered)).

(** The device id for [Shelly.SetAuth], and the call. *)
Definition apply_auth (c : Client) (dev : ShellyDevice) (authEnable : option bool)
  (password : string) : prog (res error bool) :=
  let targetOn := match authEnable with Some b => b | None => false end in
  if targetOn && String.eqb password "" then
    Ret (Err (errorf "auth: no password available (set spec.config.auth.passwordSecretRef)"))
  else
    info <-? wrapping "auth: probing for device id" (Probe dev.(dev_Status).(st_Address)) ;;
    let pw := if targetOn then password else "" in
    _ <-? wrapping "auth" (SetAuth c info.(di_ID) pw) ;;
    Ret (Ok false).

(** One iteration of [applyFindings]: the section's restart flag. *)
Definition apply_section (c : Client) (dev : ShellyDevice) (desired : desired_config)
  (authEnable fwEnable : option bool) (password : string) (wifiPw : WifiPasswords)
  (profile : ShellyProfile) (section : string) : prog (res error bool) :=
  if String.eqb section sectionAuth then apply_auth c dev authEnable password
  else if String.eqb section sectionFirmware then
    match fwEnable with
    | None => Ret (Err (errorf "firmware: section drifted but profile does not manage it"))
    | Some want =>
        _ <-? wrapping "firmware" (applyFirmware c want) ;; Ret (Ok false)
    end
  else if String.eqb section sectionSchedule then
    match scheduleSectionOf profile with
    | None => Ret (Err (errorf "schedule: section drifted but profile does not manage it"))
    | Some _ =>
        _ <-? wrapping "schedule" (applySchedule c profile) ;; Ret (Ok false)
    end
  else if String.eqb section sectionWifi then
    wrapping section (SetConfig c section (Some (wifiPayload (desired !! section) wifiPw)))
  else if HasPrefix section "switch:" then
    match Atoi (TrimPrefix section "switch:") with
    | None => Ret (Err (errorf (section +:+ ": bad component id")))
    | Some id => wrapping section (SetSwitchConfig c id (desired !! section))
    end
  else wrapping section (SetConfig c section (desired !! section)).

Fixpoint apply_sections (f : string → prog (res error bool)) (sections : list string)
  (acc : applyResult) : prog (applyResult * option error) :=
  match sections with
  | [] => Ret (acc, None)
  | s :: rest =>
      r <- f s ;;
      match r with
      | Err e => Ret (acc, Some e)
      | Ok restart =>
          apply_sections f rest
            (MkApplyResult (acc.(ar_applied) ++ [s]) (acc.(ar_restartRequired) || restart))
      end
  end.

Definition applyFindings (c : Client) (dev : ShellyDevice) (desired : desired_config)
  (findings : list Finding) (authEnable fwEnable : option bool) (password : string)
  (wifiPw : WifiPasswords) (profile : ShellyProfile) : prog (applyResult * option error) :=
  apply_sections (apply_section c dev desired authEnable fwEnable password wifiPw profile)
    (ApplyOrder (Sections findings)) (MkApplyResult [] false).

(** ** Apply, then verify *)

(** The error of [enforceAndRecheck]: a failed write, or a [recheckError]. *)
Inductive enforce_error : Type :=
| ApplyError (e : error)
| RecheckError (e : error).

Definition rechecking {A : Type} (prefix : string) (p : prog (res error A))
  : prog (res enforce_error A) :=
  r <- p ;;
  Ret (match r with Ok a => Ok a | Err e => Err (RecheckError (wrap prefix e)) end).

(** The auth state once the applied sections are in. *)
Definition auth_after (profile : ShellyProfile) (applied : list string) (authNow : bool) : bool :=
  if decide (sectionAuth ∈ applied)
  then match authEnableOf profile with Some e => e | None => authNow end
  else authNow.

(** The verification half: a fresh read of the device, evaluated in full. *)
Definition recheck (dev : ShellyDevice) (profile : ShellyProfile)
  (desiredName password : string) (authNow : bool) : prog (res enforce_error (list Finding)) :=
  c <- perform (OClient dev.(dev_Status).(st_Address) password) ;;
  actual <-? rechecking "re-checking after enforcement" (GetConfig c) ;;
  order <- perform (ORange actual) ;;
  let desired := Render profile.(prof_Spec).(ps_Config) desiredName order actual in
  match Diff desired actual with
  | Err e => Ret (Err (RecheckError (wrap "parsing device config after enforcement" (errorf e))))
  | Ok fs =>
      let fs := appendAuthFinding profile fs authNow in
      fs <-? rechecking "re-checking schedule jobs after enforcement"
               (appendFirmwareFindings c profile fs) ;;
      rechecking "re-checking schedule section jobs after enforcement"
        (appendScheduleFindings c profile fs)
  end.

(** Sections written, fresh auth state, and the findings or the error. *)
Definition enforceAndRecheck (r : Settings) (c : Client) (dev : ShellyDevice)
  (profile : ShellyProfile) (desired : desired_config) (desiredName password : string)
  (wifiPw : WifiPasswords) (findings : list Finding) (authNow : bool)
  : prog (list string * bool * res enforce_error (list Finding)) :=
  a <- applyFindings c dev desired findings (authEnableOf profile) (firmwareEnableOf profile)
         password wifiPw profile ;;
  let '(result, applyErr) := a in
  (match result.(ar_applied) with
   | [] => Ret tt
   | applied => record_event r dev EventNormal "DriftCorrected"
                  ("applied sections: " +:+ Join applied ", ")
   end) ;;;
  (if result.(ar_restartRequired)
   then record_event r dev EventNormal "RestartRequired"
          "a configuration change requires a device restart to take effect"
   else Ret tt) ;;;
  match applyErr with
  | Some e => Ret (result.(ar_applied), authNow, Err (ApplyError e))
  | None =>
      let authNow := auth_after profile result.(ar_applied) authNow in
      fs <- recheck dev profile desiredName password authNow ;;
      Ret (result.(ar_applied), authNow, fs)
  end.
End Apply.
