(* ===== verification/Cidr.v ===== *)
(** * Expanding the configured subnets (internal/discovery/cidr.go)

    [ExpandCIDRs] walks each prefix address by address and gives up beyond
    [maxSweepHosts]; the theorem equates it with the direct description of the
    hosts of a prefix, which also shows that the walk always ends.  Parsing the
    text of a prefix is [net/netip]'s. *)

From stdpp Require Import prelude strings pretty list numbers.
From S2P Require Import Prelude Json Api Shelly.

(** ** net/netip *)

(** An address is its 32-bit value; an IPv6 prefix is only ever rejected, so its
    address is not kept. *)
Inductive Prefix : Type :=
| Prefix4 (addr bits : Z)
| Prefix6.

Class Netip : Type := {
  ParsePrefix : string → res string Prefix;
}.

(** [ParsePrefix] only returns prefixes with a 32-bit address and 0 to 32 bits. *)
Class NetipLaws `{Netip} : Prop := {
  ParsePrefix_range s addr bits :
    ParsePrefix s = Ok (Prefix4 addr bits) → (0 ≤ addr < 2 ^ 32 ∧ 0 ≤ bits ≤ 32)%Z;
}.

(** The number of addresses of a prefix. *)
Definition block (bits : Z) : Z := (2 ^ (32 - bits))%Z.

(** [p.Masked().Addr()]. *)
Definition Masked (addr bits : Z) : Z := (addr / block bits * block bits)%Z.

(** [p.Contains(a)]; [None] is the zero Addr, which no prefix contains. *)
Definition Contains (addr bits : Z) (a : option Z) : bool :=
  match a with Some a => (a / block bits =? addr / block bits)%Z | None => false end.

(** [a.Next()]: the zero Addr after 255.255.255.255. *)
Definition Next (a : Z) : option Z := if (a + 1 <? 2 ^ 32)%Z then Some (a + 1)%Z else None.

(** [a.String()]: dotted decimal. *)
Definition Addr_String (a : Z) : string :=
  itoa (a / 2 ^ 24) +:+ "." +:+ itoa (a / 2 ^ 16 mod 256) +:+ "."
  +:+ itoa (a / 2 ^ 8 mod 256) +:+ "." +:+ itoa (a mod 256).

(** ** cidr.go *)

Definition maxSweepHosts : nat := Z.to_nat 4096.

Definition isLastInPrefix (a : Z) (addr bits : Z) : bool := negb (Contains addr bits (Next a)).

Definition too_many : error :=
  errorf ("discovery: CIDRs expand to more than " +:+ itoa (Z.of_nat maxSweepHosts) +:+ " hosts").

(** The inner loop, from address [a] with [hosts] so far.  It ends at the cap, so
    the cap bounds the steps ([walk_spec]). *)
Fixpoint walk (fuel : nat) (first bits : Z) (a : option Z) (hosts : list string)
  : res error (list string) :=
  match fuel with
  | O => Ok hosts
  | S fuel =>
      match a with
      | Some x =>
          if negb (Contains first bits a) then Ok hosts
          else if (bits <? 31)%Z && ((x =? first)%Z || isLastInPrefix x first bits)
          then walk fuel first bits (Next x) hosts
          else
            let hosts := hosts ++ [Addr_String x] in
            if bool_decide (maxSweepHosts < length hosts) then Err too_many
            else walk fuel first bits (Next x) hosts
      | None => Ok hosts
      end
  end.

(** The cap's worth of hosts, two skipped edges, the step that exceeds the cap
    and the one that leaves the prefix. *)
Definition walk_fuel : nat := maxSweepHosts + 4.

Section Expand.
Context `{Fmt, Netip}.

Fixpoint expand (cidrs : list string) (hosts : list string) : res error (list string) :=
  match cidrs with
  | [] => Ok hosts
  | c :: cidrs =>
      match ParsePrefix c with
      | Err e => Err (wrap ("discovery: bad CIDR " +:+ fmt_q c) (errorf e))
      | Ok Prefix6 => Err (errorf ("discovery: only IPv4 CIDRs supported, got " +:+ fmt_q c))
      | Ok (Prefix4 addr bits) =>
          let first := Masked addr bits in
          try hosts := walk walk_fuel first bits (Some first) hosts in
          expand cidrs hosts
      end
  end.

Definition ExpandCIDRs (cidrs : list string) : res error (list string) := expand cidrs [].
End Expand.

(** ** The hosts of a prefix, described directly *)

(** All its addresses; without the first and the last when it is shorter than /31. *)
Definition prefix_hosts (first bits : Z) : list Z :=
  if (bits <? 31)%Z then seqZ (first + 1) (block bits - 2) else seqZ first (block bits).

(** [hosts] extended by [more], unless that exceeds the cap. *)
Definition capped (hosts more : list string) : res error (list string) :=
  if bool_decide (maxSweepHosts < length (hosts ++ more)) then Err too_many
  else Ok (hosts ++ more).

Lemma block_pos bits : (0 ≤ bits ≤ 32)%Z → (0 < block bits)%Z.
Proof. intros Hb. apply Z.pow_pos_nonneg; lia. Qed.

Section Walk.
Context (first bits : Z).
Context (Hbits : (0 ≤ bits ≤ 32)%Z) (Hfirst : (0 ≤ first < 2 ^ 32)%Z).
Context (Hmasked : (first mod block bits = 0)%Z).

Let last : Z := (first + block bits - 1)%Z.

Lemma block_divides : ∃ n, (2 ^ 32 = n * block bits)%Z.
Proof.
  exists (2 ^ bits)%Z. unfold block. rewrite <-Z.pow_add_r by lia. f_equal. lia.
Qed.

Lemma last_range : (last < 2 ^ 32)%Z.
Proof.
  destruct block_divides as [n Hn]. pose proof (block_pos bits Hbits). unfold last.
  pose proof (Z.div_mod first (block bits)) as Hdm. rewrite Hmasked in Hdm.
  assert (Hlt : (first / block bits < n)%Z) by (apply Z.div_lt_upper_bound; lia). nia.
Qed.

Lemma Contains_range a : Contains first bits (Some a) = true ↔ (first ≤ a ≤ last)%Z.
Proof.
  pose proof (block_pos bits Hbits). cbn. rewrite Z.eqb_eq. unfold last.
  pose proof (Z.div_mod first (block bits)) as Hdm. rewrite Hmasked in Hdm.
  split.
  - intros Heq. pose proof (Z.div_mod a (block bits)).
    pose proof (Z.mod_pos_bound a (block bits)). nia.
  - intros Ha. symmetry. apply (Z.div_unique _ _ _ (a - first)); lia.
Qed.

Lemma Contains_Next a :
  (first ≤ a ≤ last)%Z → Contains first bits (Next a) = bool_decide (a < last)%Z.
Proof.
  intros Ha. pose proof last_range. unfold Next. destruct (Z.ltb_spec (a + 1) (2 ^ 32)).
  - case_bool_decide.
    + apply Contains_range. lia.
    + apply not_true_iff_false. rewrite Contains_range. lia.
  - rewrite bool_decide_eq_false_2 by lia. done.
Qed.

(** What is left to emit from [a] on. *)
Definition emitted (a : Z) : bool :=
  negb ((bits <? 31)%Z && ((a =? first)%Z || (a =? last)%Z)).

Definition rest (a : Z) : list string :=
  Addr_String <$> filter emitted (seqZ a (last + 1 - a)).

Lemma rest_end : rest (last + 1) = [].
Proof. unfold rest. by rewrite Z.sub_diag. Qed.

Lemma rest_step a :
  (a ≤ last)%Z → rest a = (if emitted a then [Addr_String a] else []) ++ rest (a + 1).
Proof.
  intros Ha. unfold rest. rewrite seqZ_cons by lia.
  replace (last + 1 - (a + 1))%Z with (Z.pred (last + 1 - a)) by lia.
  replace (Z.succ a) with (a + 1)%Z by lia. rewrite filter_cons. by destruct (emitted a).
Qed.

(** How many edges are still to be skipped from [a] on. *)
Definition skips (a : Z) : nat :=
  if (bits <? 31)%Z then (if (a =? first)%Z then 2 else if (a <=? last)%Z then 1 else 0) else 0.

Lemma capped_app hosts more more' :
  capped hosts (more ++ more') =
  if bool_decide (maxSweepHosts < length (hosts ++ more)) then Err too_many
  else capped (hosts ++ more) more'.
Proof.
  unfold capped. rewrite !app_assoc. case_bool_decide as Hl; case_bool_decide as Hl'; try done.
  exfalso. revert Hl Hl'. rewrite !length_app. lia.
Qed.

Lemma capped_nil hosts : length hosts ≤ maxSweepHosts → capped hosts [] = Ok hosts.
Proof. intros Hl. unfold capped. rewrite app_nil_r. by rewrite bool_decide_eq_false_2 by lia. Qed.

(** The address the loop is at: [a] itself inside the prefix, or one behind it. *)
Definition at_addr (a : Z) (o : option Z) : Prop :=
  (o = Some a ∧ first ≤ a ≤ last ∨ a = last + 1 ∧ Contains first bits o = false)%Z.

Lemma at_addr_next a : (first ≤ a ≤ last)%Z → at_addr (a + 1) (Next a).
Proof.
  intros Ha. pose proof last_range as Hlr. unfold at_addr.
  destruct (decide (a = last)) as [->|Hne].
  - right. rewrite Contains_Next by done. by rewrite bool_decide_eq_false_2 by lia.
  - left. unfold Next. rewrite (proj2 (Z.ltb_lt _ _)) by lia. split; [done|lia].
Qed.

Lemma isLast_last a : (first ≤ a ≤ last)%Z → isLastInPrefix a first bits = (a =? last)%Z.
Proof.
  intros Ha. unfold isLastInPrefix. rewrite Contains_Next by done.
  case_bool_decide; symmetry; [apply Z.eqb_neq|apply Z.eqb_eq]; lia.
Qed.

Lemma skips_step a :
  (first ≤ a ≤ last)%Z → skips (a + 1) + (if emitted a then 0 else 1) ≤ skips a.
Proof.
  intros Ha. unfold skips, emitted. destruct (bits <? 31)%Z eqn:Hb; cbn [andb negb]; [|lia].
  destruct (Z.eqb_spec a first), (Z.eqb_spec a last), (Z.eqb_spec (a + 1) first),
    (Z.leb_spec (a + 1) last), (Z.leb_spec a last); cbn; lia.
Qed.

Lemma walk_spec fuel : ∀ a o hosts,
  at_addr a o → length hosts ≤ maxSweepHosts →
  maxSweepHosts - length hosts + skips a + 2 ≤ fuel →
  walk fuel first bits o hosts = capped hosts (rest a).
Proof.
  induction fuel as [|fuel IH]; intros a o hosts Ho Hl Hf; [lia|]. cbn [walk].
  destruct Ho as [[-> Ha]|[-> Hc]].
  2: { rewrite rest_end, capped_nil by done. destruct o; [|done]. by rewrite Hc. }
  rewrite (proj2 (Contains_range a) Ha), isLast_last by done. cbn [negb].
  pose proof (skips_step a Ha) as Hs. pose proof (at_addr_next a Ha) as Hnext.
  rewrite rest_step by lia. unfold emitted in *. destruct (_ && _); cbn [negb] in *.
  - apply IH; [done|done|lia].
  - rewrite capped_app. case_bool_decide as Hcap; [done|].
    apply IH; [done|lia|]. rewrite length_app in *. cbn in *. lia.
Qed.

Lemma rest_first : rest first = Addr_String <$> prefix_hosts first bits.
Proof.
  pose proof (block_pos bits Hbits) as Hpos. unfold rest, prefix_hosts. f_equal.
  replace (last + 1 - first)%Z with (block bits) by (unfold last; lia).
  destruct (Z.ltb_spec bits 31) as [Hb|Hb].
  - assert (Hbig : (4 ≤ block bits)%Z).
    { unfold block. change 4%Z with (2 ^ 2)%Z. apply Z.pow_le_mono_r; lia. }
    replace (block bits) with (1 + ((block bits - 2) + 1))%Z at 1 by lia.
    rewrite !seqZ_app, !list.filter_app by lia.
    rewrite (filter_none emitted (seqZ first 1)), (filter_all emitted (seqZ (first + 1) _)),
      (filter_none emitted (seqZ _ 1)); [by rewrite app_nil_r|..].
    all: intros x [? ?]%elem_of_seqZ; unfold emitted; rewrite (proj2 (Z.ltb_lt _ _) Hb).
    all: destruct (Z.eqb_spec x first), (Z.eqb_spec x last); cbn; try done;
      unfold last in *; try lia; by intros [].
  - apply filter_all. intros x _. unfold emitted. by rewrite (proj2 (Z.ltb_ge _ _) Hb).
Qed.
End Walk.

Lemma Masked_range addr bits :
  (0 ≤ addr < 2 ^ 32)%Z → (0 ≤ bits ≤ 32)%Z →
  (0 ≤ Masked addr bits < 2 ^ 32 ∧ Masked addr bits mod block bits = 0)%Z.
Proof.
  intros Ha Hb. pose proof (block_pos bits Hb). unfold Masked.
  pose proof (Z.div_mod addr (block bits)). pose proof (Z.mod_pos_bound addr (block bits)).
  pose proof (Z.div_pos addr (block bits)). split; [nia|]. apply Z.mod_mul. lia.
Qed.

Section Spec.
Context `{Fmt, Netip, !NetipLaws}.

(** The expansion described directly: the first bad prefix or the first prefix that
    exceeds the cap decides. *)
Fixpoint expand_spec (cidrs : list string) (hosts : list string) : res error (list string) :=
  match cidrs with
  | [] => Ok hosts
  | c :: cidrs =>
      match ParsePrefix c with
      | Err e => Err (wrap ("discovery: bad CIDR " +:+ fmt_q c) (errorf e))
      | Ok Prefix6 => Err (errorf ("discovery: only IPv4 CIDRs supported, got " +:+ fmt_q c))
      | Ok (Prefix4 addr bits) =>
          try hosts := capped hosts (Addr_String <$> prefix_hosts (Masked addr bits) bits) in
          expand_spec cidrs hosts
      end
  end.

Lemma walk_prefix addr bits hosts :
  (0 ≤ addr < 2 ^ 32)%Z → (0 ≤ bits ≤ 32)%Z → length hosts ≤ maxSweepHosts →
  walk walk_fuel (Masked addr bits) bits (Some (Masked addr bits)) hosts =
  capped hosts (Addr_String <$> prefix_hosts (Masked addr bits) bits).
Proof.
  intros Ha Hb Hl. destruct (Masked_range addr bits Ha Hb) as [Hm Hm0].
  rewrite <-rest_first by done. apply walk_spec; try done.
  - left. pose proof (block_pos bits Hb). split; [done|lia].
  - unfold walk_fuel, skips. repeat case_match; lia.
Qed.

(** C30: [ExpandCIDRs] returns exactly the hosts of the prefixes, in order: every
    address of a prefix, without its network and broadcast addresses when it is
    shorter than /31, also at the end of the address space; a malformed or IPv6
    prefix, or more than 4096 hosts in all, is an error.  The address-by-address
    loop ends within the fuel whatever the prefix lengths (a /0 included). *)
Theorem ExpandCIDRs_correct cidrs : ExpandCIDRs cidrs = expand_spec cidrs [].
Proof.
  unfold ExpandCIDRs. assert (Hl : length (@nil string) ≤ maxSweepHosts) by (cbn; lia).
  revert Hl. generalize (@nil string). induction cidrs as [|c cidrs IH]; intros hosts Hl; [done|].
  cbn [expand expand_spec]. destruct (ParsePrefix c) as [[addr bits|]|e] eqn:Hp; [|done..].
  destruct (ParsePrefix_range _ _ _ Hp) as [Ha Hb]. rewrite walk_prefix by done.
  unfold capped. case_bool_decide; [done|]. cbn. apply IH. lia.
Qed.
End Spec.
