(* ===== verification/Discovery.v ===== *)
(** * Discovery (internal/discovery)

    The sweeper: probe every target with bounded concurrency, record the answers
    as ShellyDevice objects, and mark long-unseen devices offline.  The concurrent
    part, [probeAll], is a step relation over the launching loop and its
    goroutines; the rest is a program over the operations of Effects.v, in which
    [probeAll] is one operation. *)

From stdpp Require Import prelude gmap strings pretty sorting list relations.
From Stdlib Require Import Ascii.
From S2P Require Import Prelude Json Api Labels Diff Shelly Effects Client Cidr.

(** ** probe.go *)

Definition defaultProbeConcurrency : Z := 32.

(** What a goroutine appends for its target. *)
Definition probe_result (answer : string → res error DeviceInfo) (target : string)
  : list Found :=
  match answer target with
  | Err _ => []
  | Ok info =>
      if String.eqb info.(di_MAC) "" || (info.(di_Gen) <? 2)%Z then []
      else [MkFound target info]
  end.

Module Probing.

(** The launching loop (targets left; whether the first of them has passed the
    check of the context and waits for a slot of the semaphore), the goroutines
    holding a slot, the collected answers, and whether the context is done. *)
Record state : Type := MkState {
  todo : list string;
  admitted : bool;
  running : list string;
  found : list Found;
  done_ctx : bool;
}.

Inductive step (concurrency : nat) (answer : string → res error DeviceInfo)
  : state → state → Prop :=
| step_admit t ts run fs :         (* ctx.Err() == nil *)
    step concurrency answer (MkState (t :: ts) false run fs false)
      (MkState (t :: ts) true run fs false)
| step_break t ts run fs :         (* if ctx.Err() != nil { break } *)
    step concurrency answer (MkState (t :: ts) false run fs true) (MkState [] false run fs true)
| step_launch t ts run fs d :      (* sem <- struct{}{}; go func(target) *)
    length run < concurrency →
    step concurrency answer (MkState (t :: ts) true run fs d) (MkState ts false (run ++ [t]) fs d)
| step_finish ts ad run1 t run2 fs d :  (* append under mu; <-sem *)
    step concurrency answer (MkState ts ad (run1 ++ t :: run2) fs d)
      (MkState ts ad (run1 ++ run2) (fs ++ probe_result answer t) d)
| step_cancel ts ad run fs :
    step concurrency answer (MkState ts ad run fs false) (MkState ts ad run fs true).

Definition initial (targets : list string) : state := MkState targets false [] [] false.

(** [wg.Wait()] returns: nothing left to launch, nothing running. *)
Definition all_done (s : state) : Prop := s.(todo) = [] ∧ s.(running) = [].
End Probing.

(** [if concurrency < 1]. *)
Definition probe_slots (concurrency : Z) : nat :=
  Z.to_nat (if (concurrency <? 1)%Z then defaultProbeConcurrency else concurrency).

(** ** upsert.go *)

(** [int32(n)]. *)
Definition int32 (n : Z) : Z := ((n + 2 ^ 31) mod 2 ^ 32 - 2 ^ 31)%Z.


(** [have[k]] is the empty string when absent. *)
Definition hasLabels (have want : gmap string string) : bool :=
  forallb (λ kv, String.eqb (default "" (have !! kv.1)) kv.2) (map_to_list want).

Definition zero_status : ShellyDeviceStatus :=
  MkShellyDeviceStatus "" "" "" "" 0 "" "" false false None "" false None "" [] [].

(** The object of a device seen for the first time. *)
Definition new_device (namespace name : string) (labels : gmap string string) : ShellyDevice :=
  MkShellyDevice (MkObjectMeta namespace name 0 labels ∅) (MkShellyDeviceSpec false "" "")
    zero_status.

Definition found_labels (f : Found) : gmap string string :=
  DeviceLabels f.(f_Info).(di_Model) f.(f_Info).(di_App) (int32 f.(f_Info).(di_Gen)).

(** [maps.Copy(dev.Labels, labels)]. *)
Definition copy_labels (labels : gmap string string) (dev : ShellyDevice) : ShellyDevice :=
  set_dev_Meta (set_meta_Labels (labels ∪ dev_Labels dev) dev.(dev_Meta)) dev.

(** The discovery-owned fields, one by one. *)
Definition refresh (now : time) (f : Found) (dev : ShellyDevice) : ShellyDevice :=
  upd_status (set_st_LastSeen (Some now))
  (upd_status (set_st_Online true)
  (upd_status (set_st_DeviceName f.(f_Info).(di_Name))
  (upd_status (set_st_AuthEnabled f.(f_Info).(di_AuthEnabled))
  (upd_status (set_st_Firmware f.(f_Info).(di_Firmware))
  (upd_status (set_st_Gen (int32 f.(f_Info).(di_Gen)))
  (upd_status (set_st_App f.(f_Info).(di_App))
  (upd_status (set_st_Model f.(f_Info).(di_Model))
  (upd_status (set_st_MAC f.(f_Info).(di_MAC))
  (upd_status (set_st_Address f.(f_Host)) dev))))))))).

Definition is_kind (k : err_kind) (e : error) : bool := bool_decide (e.(err_kind_of) = k).

(** The object to refresh, as the API server has it: [Ok None] ends with no error. *)
Definition obtain_device (namespace name : string) (labels : gmap string string)
  : prog (res error (option ShellyDevice)) :=
  got <- perform (OGetDevice namespace name) ;;
  match got with
  | Err e =>
      if is_kind ENotFound e then
        created <- perform (OCreate (new_device namespace name labels)) ;;
        Ret match created with
            | Ok dev => Ok (Some dev)
            | Err e => if is_kind EAlreadyExists e then Ok None
                       else Err (wrap ("discovery: create " +:+ name) e)
            end
      else Ret (Err (wrap ("discovery: get " +:+ name) e))
  | Ok dev =>
      if hasLabels (dev_Labels dev) labels then Ret (Ok (Some dev))
      else
        updated <- perform (OUpdate (copy_labels labels dev)) ;;
        Ret match updated with
            | Ok dev => Ok (Some dev)
            | Err e => Err (wrap ("discovery: update labels " +:+ name) e)
            end
  end.

Definition applyDevice (namespace : string) (now : time) (f : Found) : prog (res error unit) :=
  let name := DeviceObjectName f.(f_Info).(di_MAC) in
  obtained <-? obtain_device namespace name (found_labels f) ;;
  match obtained with
  | None => Ret (Ok tt)
  | Some dev =>
      updated <- perform (OStatusUpdate (refresh now f dev)) ;;
      Ret match updated with
          | Ok _ => Ok tt
          | Err e => if is_kind EConflict e then Ok tt
                     else Err (wrap ("discovery: update status " +:+ name) e)
          end
  end.

(** ** stale.go *)

(** [errors.Join]: nil for no errors; [errors.As] looks through all of them. *)
Definition errors_Join (errs : list error) : option error :=
  match errs with
  | [] => None
  | _ => Some (MkError
                 (from_option err_kind_of EOther
                    (head (filter (λ e, e.(err_kind_of) ≠ EOther) errs)))
                 (Join (err_text <$> errs) (String "010"%char "")))
  end.

(** At or before the cutoff, and still shown online. *)
Definition stale (cutoff : time) (dev : ShellyDevice) : bool :=
  dev.(dev_Status).(st_Online) &&
  match dev.(dev_Status).(st_LastSeen) with
  | None => false
  | Some seen => negb (cutoff <? seen)%Z
  end.

Definition go_offline (dev : ShellyDevice) : ShellyDevice := upd_status (set_st_Online false) dev.

Fixpoint mark_each (cutoff : time) (items : list ShellyDevice) (errs : list error)
  : prog (list error) :=
  match items with
  | [] => Ret errs
  | dev :: items =>
      if negb (stale cutoff dev) then mark_each cutoff items errs
      else
        r <- perform (OStatusUpdate (go_offline dev)) ;;
        mark_each cutoff items
          match r with
          | Ok _ => errs
          | Err e => if is_kind EConflict e then errs
                     else errs ++ [wrap ("discovery: mark " +:+ dev_Name dev +:+ " offline") e]
          end
  end.

Definition markStale (namespace : string) (cutoff : time) : prog (option error) :=
  listed <- perform (OListDevices namespace) ;;
  match listed with
  | Err e => Ret (Some (wrap "discovery: list devices" e))
  | Ok items => errs <- mark_each cutoff items [] ;; Ret (errors_Join errs)
  end.

(** ** sweeper.go *)

Record Sweeper : Type := MkSweeper {
  sw_Namespace : string;
  sw_CIDRs : list string;
  sw_ExtraHosts : list string;
  sw_Interval : duration;
  sw_ProbeTimeout : duration;
  sw_Concurrency : Z;
  sw_OfflineAfter : duration;
  sw_targets : list string;      (* nil is the empty list *)
}.

Section Sweep.
Context `{Fmt, Netip}.

(** The defaults [init] fills in. *)
Definition init_settings (s : Sweeper) : Sweeper :=
  let interval := if (s.(sw_Interval) <=? 0)%Z then (5 * Minute)%Z else s.(sw_Interval) in
  let timeout := if (s.(sw_ProbeTimeout) <=? 0)%Z then (3 * Second)%Z else s.(sw_ProbeTimeout) in
  let concurrency :=
    if (s.(sw_Concurrency) <=? 0)%Z then defaultProbeConcurrency else s.(sw_Concurrency) in
  let offline := if (s.(sw_OfflineAfter) <=? 0)%Z then int64 (3 * interval) else s.(sw_OfflineAfter) in
  let offline := if (offline <? Second)%Z then Second else offline in
  MkSweeper s.(sw_Namespace) s.(sw_CIDRs) s.(sw_ExtraHosts) interval timeout concurrency
    offline s.(sw_targets).

Definition set_targets (targets : list string) (s : Sweeper) : Sweeper :=
  MkSweeper s.(sw_Namespace) s.(sw_CIDRs) s.(sw_ExtraHosts) s.(sw_Interval) s.(sw_ProbeTimeout)
    s.(sw_Concurrency) s.(sw_OfflineAfter) targets.

(** [init]: the sweeper as it leaves it, and its error; the HTTP client it creates
    is behind [OProbeAll]. *)
Definition init (s : Sweeper) : Sweeper * option error :=
  let s := init_settings s in
  match s.(sw_targets) with
  | [] =>
      match ExpandCIDRs s.(sw_CIDRs) with
      | Err e => (s, Some e)
      | Ok hosts => (set_targets (hosts ++ s.(sw_ExtraHosts)) s, None)
      end
  | _ => (s, None)
  end.

Fixpoint apply_each (namespace : string) (now : time) (fs : list Found) (errs : list error)
  : prog (list error) :=
  match fs with
  | [] => Ret errs
  | f :: fs =>
      r <- applyDevice namespace now f ;;
      apply_each namespace now fs (match r with Ok _ => errs | Err e => errs ++ [e] end)
  end.

Definition context_canceled : error := errorf "context canceled".

(** The part after probing. *)
Definition record_sweep (s : Sweeper) (now : time) (found : list Found) : prog (option error) :=
  errs <- apply_each s.(sw_Namespace) now found [] ;;
  marked <- markStale s.(sw_Namespace) (now - s.(sw_OfflineAfter))%Z ;;
  Ret (errors_Join (errs ++ option_list marked)).

(** One sweep; the sweeper as [init] leaves it is returned too. *)
Definition RunOnce (s : Sweeper) : prog (Sweeper * option error) :=
  let '(s, err) := init s in
  match err with
  | Some e => Ret (s, Some e)
  | None =>
      now <- perform ONow ;;
      probed <- perform (OProbeAll s.(sw_targets) s.(sw_Concurrency)) ;;
      let '(found, cancelled) := probed in
      if (cancelled : bool) then Ret (s, Some context_canceled)
      else
        err <- record_sweep s now found ;;
        Ret (s, err)
  end.

(** The loop of [Start], for at most [n] sweeps: [None] when it is still running
    after them.  A sweep's error is logged. *)
Fixpoint sweep_loop (n : nat) (s : Sweeper) : prog (option (option error)) :=
  match n with
  | O => Ret None
  | S n =>
      r <- RunOnce s ;;
      tick <- perform OTick ;;
      if (tick : bool) then sweep_loop n r.1 else Ret (Some None)
  end.

Definition Start (n : nat) (s : Sweeper) : prog (option (option error)) :=
  let '(s, err) := init s in
  match err with
  | Some e => Ret (Some (Some e))
  | None => sweep_loop n s
  end.
End Sweep.
