(* ===== verification/Sweeping.v ===== *)
(** * What a discovery sweep does

    The concurrent probing: bounded, complete and terminating.  The cluster
    writes of a sweep: which objects and fields it touches, that one failing
    device does not stop the others, and exactly which devices go offline. *)

From stdpp Require Import prelude gmap strings pretty sorting list relations.
From S2P Require Import Prelude Json Api Labels Diff Shelly Effects Client Cidr Discovery.

(** ** Probing *)

Section Probing.
Import Probing.
Context (n : nat) (answer : string → res error DeviceInfo).

(** Every target is waiting, running, finished, or dropped by a cancellation;
    the answers collected are those of the finished ones. *)
Definition accounted (targets : list string) (s : state) : Prop :=
  length s.(running) ≤ n ∧
  ∃ fin dropped,
    s.(todo) ++ s.(running) ++ fin ++ dropped ≡ₚ targets
    ∧ (s.(done_ctx) = false → dropped = [])
    ∧ s.(found) = fin ≫= probe_result answer.

Lemma accounted_step targets s s' :
  step n answer s s' → accounted targets s → accounted targets s'.
Proof.
  intros Hs (Hn & fin & dropped & Hp & Hd & Hf).
  destruct Hs as [t ts run fs|t ts run fs|t ts run fs d Hlt|ts ad run1 t run2 fs d|ts ad run fs];
    cbn in *; split; cbn.
  - done.
  - by exists fin, dropped.
  - done.
  - exists fin, (t :: ts ++ dropped). split_and!; [|done|done]. rewrite <-Hp. solve_Permutation.
  - rewrite length_app. cbn. lia.
  - exists fin, dropped. split_and!; [|done|done]. rewrite <-Hp. solve_Permutation.
  - rewrite !length_app in *. cbn in *. lia.
  - exists (fin ++ [t]), dropped. split_and!; [|done|].
    + rewrite <-Hp. solve_Permutation.
    + rewrite bind_app, Hf. cbn. by rewrite app_nil_r.
  - done.
  - exists fin, dropped. by split_and!.
Qed.

Lemma accounted_reachable targets s :
  rtc (step n answer) (initial targets) s → accounted targets s.
Proof.
  intros Hr. assert (H0 : accounted targets (initial targets)).
  { split; [cbn; lia|]. exists [], []. cbn. rewrite !app_nil_r. by split_and!. }
  induction Hr as [|x y z Hxy _ IH] in H0 |- *; [done|]. apply IH. by eapply accounted_step.
Qed.

(** C28: probing collects exactly the devices that answered.  In every reachable
    state at most [n] probes are running and what is collected so far are answers
    of distinct targets; when the loop and its goroutines are done and the context
    was not cancelled, every target has been probed exactly once and the result is,
    up to order, the Gen2+ devices with a MAC among the answers. *)
Theorem probeAll_collects targets s :
  rtc (step n answer) (initial targets) s →
  length s.(running) ≤ n ∧ s.(found) ⊆+ targets ≫= probe_result answer ∧
  (all_done s → s.(done_ctx) = false → s.(found) ≡ₚ targets ≫= probe_result answer).
Proof.
  intros (Hn & fin & dropped & Hp & Hd & ->)%accounted_reachable. split; [done|]. split.
  - rewrite <-Hp, !bind_app. etrans; [apply (submseteq_inserts_r (dropped ≫= probe_result answer)); reflexivity|].
    by do 2 apply submseteq_inserts_l.
  - intros [Ht Hr] Hc. rewrite Ht, Hr, (Hd Hc), !app_nil_r in Hp. cbn in Hp. by rewrite Hp.
Qed.

(** Steps left: admit, launch and finish per target still to launch, finish per
    goroutine, and one cancellation. *)
Definition budget (s : state) : nat :=
  3 * length s.(todo) + length s.(running) + (if s.(admitted) then 0 else 1)
  + (if s.(done_ctx) then 0 else 1).

Lemma step_budget s s' : step n answer s s' → budget s' < budget s.
Proof. destruct 1; unfold budget; cbn; rewrite ?length_app; cbn; lia. Qed.

Lemma step_progress s : 1 ≤ n → all_done s ∨ ∃ s', step n answer s s'.
Proof.
  intros Hn. destruct s as [ts ad run fs d]. destruct run as [|r run].
  - destruct ts as [|t ts]; [by left|]. right. destruct ad; [|destruct d].
    + eexists. apply step_launch. cbn. lia.
    + eexists. apply step_break.
    + eexists. apply step_admit.
  - right. eexists. exact (step_finish n answer ts ad [] r run fs d).
Qed.
End Probing.

(** The number of slots [probeAll] uses is never zero. *)
Lemma probe_slots_pos concurrency : 1 ≤ probe_slots concurrency.
Proof. unfold probe_slots, defaultProbeConcurrency. destruct (Z.ltb_spec concurrency 1); lia. Qed.

(** C29: probing ends, whatever concurrency is configured.  No reachable state is
    stuck before the loop and its goroutines are done, and no run takes more steps
    than three times the number of targets plus two. *)
Theorem probeAll_terminates concurrency answer targets s k :
  nsteps (Probing.step (probe_slots concurrency) answer) k (Probing.initial targets) s →
  k ≤ 3 * length targets + 2 ∧
  (Probing.all_done s ∨ ∃ s', Probing.step (probe_slots concurrency) answer s s').
Proof.
  intros Hk. split; [|apply step_progress, probe_slots_pos].
  enough (Hb : k + budget s ≤ budget (Probing.initial targets)) by (unfold budget in *; cbn in *; lia).
  induction Hk as [|k x y z Hxy _ IH]; [done|]. apply step_budget in Hxy. lia.
Qed.

(** ** Writes to the cluster *)

(** The status fields the device controller owns. *)
Definition controller_status (st : ShellyDeviceStatus) :=
  (st.(st_AvailableFirmware), st.(st_RestartRequired), st.(st_LastFirmwareUpdate),
   st.(st_MatchedProfile), st.(st_DriftedSections), st.(st_Conditions)).

Definition discovery_labels : list string := [LabelModel; LabelApp; LabelGen].

(** The API server handed out this object. *)
Definition obtained (h : list event) (dev : ShellyDevice) : Prop :=
  (∃ ns name, Ev (OGetDevice ns name) (Ok dev) ∈ h)
  ∨ (∃ d, Ev (OCreate d) (Ok dev) ∈ h) ∨ (∃ d, Ev (OUpdate d) (Ok dev) ∈ h)
  ∨ (∃ ns items, Ev (OListDevices ns) (Ok items) ∈ h ∧ dev ∈ items).

(** What a sweep may do: create an object only for a name the server does not know,
    with an empty spec and status; update only discovery's labels; in a status
    update change none of the controller's fields; and never call, patch, or read
    a credential. *)
Definition sweep_op (h : list event) (o : op) : Prop :=
  match o with
  | OCreate dev =>
      (∃ e, Ev (OGetDevice (dev_Namespace dev) (dev_Name dev)) (Err e) ∈ h
            ∧ e.(err_kind_of) = ENotFound)
      ∧ dev.(dev_Spec) = MkShellyDeviceSpec false "" "" ∧ dev.(dev_Status) = zero_status
  | OUpdate dev =>
      ∃ base, obtained h base
        ∧ dev.(dev_Spec) = base.(dev_Spec) ∧ dev.(dev_Status) = base.(dev_Status)
        ∧ dev_Name dev = dev_Name base ∧ dev_Namespace dev = dev_Namespace base
        ∧ dev_Annotations dev = dev_Annotations base
        ∧ ∀ k, k ∉ discovery_labels → dev_Labels dev !! k = dev_Labels base !! k
  | OStatusUpdate dev =>
      ∃ base, obtained h base
        ∧ dev.(dev_Meta) = base.(dev_Meta) ∧ dev.(dev_Spec) = base.(dev_Spec)
        ∧ controller_status dev.(dev_Status) = controller_status base.(dev_Status)
  | OCall _ _ _ _ | OPatch _ _ | OStatusPatch _ _ | OGetSecret _ _ | OClient _ _ => False
  | OCreateConfigMap _ _ _ _ | OUpdateConfigMap _ _ _ => False
  | _ => True
  end.

Lemma found_labels_other f k : k ∉ discovery_labels → found_labels f !! k = None.
Proof.
  intros Hk. unfold found_labels, DeviceLabels, discovery_labels in *.
  rewrite !not_elem_of_cons in Hk. destruct Hk as (H1 & H2 & H3 & _).
  by rewrite !lookup_insert_ne, lookup_singleton_ne by congruence.
Qed.

Lemma suffix_elem {A} (l l' : list A) x : suffix l l' → x ∈ l → x ∈ l'.
Proof. intros [k ->] Hx. apply elem_of_app. by right. Qed.

Section Writes.
Context `{Fmt, Netip}.
Abbreviation wps := (wp sweep_op (λ _ _, True)).

Lemma obtain_device_owns ns f h :
  wps h (obtain_device ns (DeviceObjectName f.(f_Info).(di_MAC)) (found_labels f))
    (λ h' r, match r with Ok (Some dev) => obtained h' dev | _ => True end).
Proof.
  unfold obtain_device. cbn. split; [done|]. intros [dev|e] _; cbn.
  - case_match; cbn; [left; do 2 eexists; constructor|]. split.
    + exists dev. split_and!; [left; do 2 eexists; constructor|reflexivity..|].
      intros k Hk. cbn. rewrite lookup_union_r; [done|by apply found_labels_other].
    + intros [dev'|e] _; cbn; [|done]. right; right; left. eexists. constructor.
  - unfold is_kind. case_bool_decide as He; cbn; [|done]. split.
    + split; [|done]. exists e. split; [constructor|done].
    + intros [dev'|e'] _; cbn; [|by destruct (bool_decide _)]. right; left. eexists. constructor.
Qed.

Lemma applyDevice_owns ns now f h : wps h (applyDevice ns now f) (λ _ _, True).
Proof.
  unfold applyDevice. rewrite wp_bind_ok. eapply wp_mono, obtain_device_owns.
  intros h' [[dev|]|e] Hdev; cbn; [|done..]. split; [|done].
  by exists dev.
Qed.

Lemma apply_each_owns ns now fs : ∀ errs h,
  wps h (apply_each ns now fs errs) (λ _ _, True).
Proof.
  induction fs as [|f fs IH]; intros errs h; [done|]. cbn [apply_each]. rewrite wp_bind.
  eapply wp_mono, applyDevice_owns. intros h' r _. apply IH.
Qed.

Lemma mark_each_owns cutoff items : ∀ errs h,
  (∀ dev, dev ∈ items → obtained h dev) →
  wps h (mark_each cutoff items errs) (λ _ _, True).
Proof.
  induction items as [|dev items IH]; intros errs h Hob; [done|]. cbn [mark_each].
  case_match; [apply IH; intros; apply Hob; by constructor|]. cbn. split.
  - exists dev. split_and!; [|done..]. apply Hob. constructor.
  - intros r _. apply IH. intros d Hd. assert (Hold : obtained h d) by (apply Hob; by constructor).
    unfold obtained in *. setoid_rewrite elem_of_cons. naive_solver.
Qed.

(** C24: a sweep stays within discovery's part of the objects, on every path and
    whatever the API server answers: it creates an object only after a NotFound for
    its name, with an empty spec and status; a metadata update changes discovery's
    three labels only; a status update leaves every field the device controller owns
    as the API server last returned it; and it makes no authenticated call. *)
Theorem sweep_writes_owned s : wps [] (RunOnce s) (λ _ _, True).
Proof.
  unfold RunOnce. destruct (init s) as [s' [e|]]; [done|]. cbn. split; [done|]. intros now _.
  split; [done|]. intros [fs []] _; [done|]. unfold record_sweep. rewrite !wp_bind.
  eapply wp_mono, apply_each_owns. intros h errs _. unfold markStale. cbn [perform bind].
  split; [done|]. intros [items|e] _; [|done]. cbn [bind]. rewrite !wp_bind.
  eapply wp_mono, mark_each_owns; [done|]. intros dev Hdev. right; right; right.
  do 2 eexists. split; [constructor|done].
Qed.
End Writes.

(** ** Which devices a sweep reaches, and which go offline *)

(** A device is only written offline if the server listed it as stale. *)
Definition offline_op (ns : string) (cutoff : time) (h : list event) (o : op) : Prop :=
  match o with
  | OStatusUpdate dev =>
      dev.(dev_Status).(st_Online) = true
      ∨ ∃ items base, Ev (OListDevices ns) (Ok items) ∈ h ∧ base ∈ items
          ∧ stale cutoff base = true ∧ dev = go_offline base
  | _ => True
  end.

(** Refreshing writes devices online. *)
Definition online_op (o : op) : Prop :=
  match o with OStatusUpdate dev => dev.(dev_Status).(st_Online) = true | _ => True end.

Section Reach.
Context (ns : string) (cutoff : time).
Abbreviation wpo := (wp (offline_op ns cutoff) (λ _ _, True)).

(** The object of [f] was looked up. *)
Definition reached (h : list event) (f : Found) : Prop :=
  ∃ a, Ev (OGetDevice ns (DeviceObjectName f.(f_Info).(di_MAC))) a ∈ h.

Lemma online_program {A} (p : prog A) h :
  emits online_op p → wpo h p (λ h' _, suffix h h').
Proof.
  intros He. eapply wp_mono, (wp_emits _ _ (λ _, True) online_op); [by intros h' a []| |done|done].
  intros h' o _ _ Ho. split; [|done]. destruct o; try done. by left.
Qed.

Lemma applyDevice_emits now f : emits online_op (applyDevice ns now f).
Proof.
  unfold applyDevice, obtain_device. apply emits_bind_ok.
  - split; [exact I|]. intros [dev|e]; simpl; case_match; try exact I; split; done.
  - intros [dev|]; [|exact I]. split; [reflexivity|]. intros; exact I.
Qed.

Lemma applyDevice_reaches now f h :
  wpo h (applyDevice ns now f) (λ h' _, suffix h h' ∧ reached h' f).
Proof.
  destruct (applyDevice_emits now f) as [_ He]. split; [done|]. intros a _.
  eapply wp_mono, online_program, He. intros h' r Hs. split.
  - etrans; [|exact Hs]. by apply suffix_cons_r.
  - exists a. eapply suffix_elem; [exact Hs|constructor].
Qed.

Lemma reached_suffix h h' f : suffix h h' → reached h f → reached h' f.
Proof. intros Hs [a Ha]. exists a. by eapply suffix_elem. Qed.

Lemma apply_each_reaches now fs : ∀ errs h,
  wpo h (apply_each ns now fs errs) (λ h' _, suffix h h' ∧ ∀ f, f ∈ fs → reached h' f).
Proof.
  induction fs as [|f fs IH]; intros errs h; cbn [apply_each].
  { split; [done|]. intros f Hf. by apply elem_of_nil in Hf. }
  rewrite wp_bind. eapply wp_mono, applyDevice_reaches. intros h1 r [Hs1 Hf1].
  eapply wp_mono, IH. intros h2 errs' [Hs2 Hfs]. split; [by etrans|].
  intros g [->|Hg]%elem_of_cons; [by eapply reached_suffix|by apply Hfs].
Qed.

(** The stale ones of [items] were written offline, or tried to be. *)
Lemma mark_each_reaches all items : ∀ errs h,
  Ev (OListDevices ns) (Ok all) ∈ h → (∀ dev, dev ∈ items → dev ∈ all) →
  wpo h (mark_each cutoff items errs)
    (λ h' _, suffix h h' ∧ ∀ dev, dev ∈ items → stale cutoff dev = true →
             ∃ a, Ev (OStatusUpdate (go_offline dev)) a ∈ h').
Proof.
  induction items as [|dev items IH]; intros errs h Hall Hin; cbn [mark_each].
  { split; [done|]. intros f Hf. by apply elem_of_nil in Hf. }
  assert (Hin' : ∀ d, d ∈ items → d ∈ all) by (intros; apply Hin; by constructor).
  destruct (stale cutoff dev) eqn:Hst; cbn [negb].
  - cbn. split.
    + right. exists all, dev. split_and!; [done|apply Hin; constructor|done..].
    + intros r _. eapply wp_mono, IH; [|by constructor|done].
      intros h' errs' [Hs Hrest]. split; [etrans; [|exact Hs]; by apply suffix_cons_r|].
      intros d [->|Hd]%elem_of_cons Hsd; [|by apply Hrest].
      exists r. eapply suffix_elem; [exact Hs|constructor].
  - eapply wp_mono, IH; [|done..]. intros h' errs' [Hs Hrest]. split; [done|].
    intros d [->|Hd]%elem_of_cons Hsd; [congruence|by apply Hrest].
Qed.

Lemma markStale_reaches h :
  wpo h (markStale ns cutoff)
    (λ h' _, suffix h h' ∧ ∃ listed, Ev (OListDevices ns) listed ∈ h' ∧
       ∀ items dev, listed = Ok items → dev ∈ items → stale cutoff dev = true →
       ∃ a, Ev (OStatusUpdate (go_offline dev)) a ∈ h').
Proof.
  unfold markStale. cbn [perform bind]. split; [done|]. intros [items|e] _; cbn [bind].
  - rewrite wp_bind. eapply wp_mono, (mark_each_reaches items); [|constructor|done].
    intros h' errs [Hs Hm]. cbn. split; [etrans; [|exact Hs]; by apply suffix_cons_r|].
    exists (Ok items). split; [eapply suffix_elem; [exact Hs|constructor]|].
    intros items' dev [= <-]. apply Hm.
  - split; [by apply suffix_cons_r|]. exists (Err e). split; [constructor|done].
Qed.
End Reach.

(** C27: after probing, a sweep reaches every device, whatever fails on the way:
    each device that answered is looked up (one failing object does not stop the
    others), the objects are listed, and every listed device that is stale at the
    cutoff is written offline.  No other device is ever written offline. *)
Theorem sweep_reaches_all s now fs :
  let cutoff := (now - s.(sw_OfflineAfter))%Z in
  wp (offline_op s.(sw_Namespace) cutoff) (λ _ _, True) [] (record_sweep s now fs)
    (λ h _, (∀ f, f ∈ fs → reached s.(sw_Namespace) h f) ∧
       ∃ listed, Ev (OListDevices s.(sw_Namespace)) listed ∈ h ∧
         ∀ items dev, listed = Ok items → dev ∈ items → stale cutoff dev = true →
         ∃ a, Ev (OStatusUpdate (go_offline dev)) a ∈ h).
Proof.
  intros cutoff. unfold record_sweep. rewrite wp_bind. eapply wp_mono, apply_each_reaches.
  intros h errs [_ Hf]. rewrite wp_bind. eapply wp_mono, markStale_reaches.
  intros h' marked [Hs Hm]. cbn. split; [|exact Hm]. intros f Hin.
  by eapply reached_suffix, Hf.
Qed.

(** ** Refreshed devices stay online *)

(** The stored object: [metav1.Time] is written in whole seconds. *)
Definition wire_time (t : time) : time := (t / Second * Second)%Z.

Definition stored (dev : ShellyDevice) : ShellyDevice :=
  upd_status (λ st, set_st_LastSeen (wire_time <$> st.(st_LastSeen)) st) dev.

Lemma init_window `{Fmt, Netip} s s' : init s = (s', None) → (Second ≤ s'.(sw_OfflineAfter))%Z.
Proof.
  intros Hi. enough (Hs : (Second ≤ (init_settings s).(sw_OfflineAfter))%Z).
  { revert Hi. unfold init. repeat case_match; intros; by simplify_eq. }
  unfold init_settings. cbn [sw_OfflineAfter]. destruct (Z.ltb_spec
    (if (sw_OfflineAfter s <=? 0)%Z
     then int64 (3 * (if (sw_Interval s <=? 0)%Z then 5 * Minute else sw_Interval s))
     else sw_OfflineAfter s) Second); lia.
Qed.

(** C31: a device a sweep has just refreshed is never stale in that sweep, although
    its time of last contact is stored in whole seconds and whatever the flags say:
    [init] leaves an offline window of at least one second, also where the default of
    three intervals overflows. *)
Theorem refreshed_stays_online `{Fmt, Netip} s s' now f dev :
  init s = (s', None) → stale (now - s'.(sw_OfflineAfter)) (stored (refresh now f dev)) = false.
Proof.
  intros Hw%init_window. unfold stale. cbn. rewrite negb_false_iff. apply Z.ltb_lt.
  unfold wire_time. pose proof (Z.div_mod now Second). pose proof (Z.mod_pos_bound now Second).
  unfold Second in *. lia.
Qed.

(** ** The loop of Start *)

Section Start.
Context `{Fmt, Netip}.

Lemma init_settings_again s : init_settings (init_settings s) = init_settings s.
Proof.
  unfold init_settings. cbn [sw_Namespace sw_CIDRs sw_ExtraHosts sw_Interval sw_ProbeTimeout
    sw_Concurrency sw_OfflineAfter sw_targets].
  set (i := if (sw_Interval s <=? 0)%Z then _ else _). set (t := if (sw_ProbeTimeout s <=? 0)%Z then _ else _).
  set (c := if (sw_Concurrency s <=? 0)%Z then _ else _).
  set (o := if (sw_OfflineAfter s <=? 0)%Z then _ else _).
  set (o' := if (o <? Second)%Z then Second else o).
  assert (Hi : (0 < i)%Z) by (subst i; destruct (Z.leb_spec (sw_Interval s) 0); unfold Minute, Second; lia).
  assert (Ht : (0 < t)%Z) by (subst t; destruct (Z.leb_spec (sw_ProbeTimeout s) 0); unfold Second; lia).
  assert (Hc : (0 < c)%Z) by (subst c; destruct (Z.leb_spec (sw_Concurrency s) 0); unfold defaultProbeConcurrency; lia).
  assert (Ho : (Second ≤ o')%Z) by (subst o'; destruct (Z.ltb_spec o Second); lia).
  assert (HS : (0 < Second)%Z) by (unfold Second; lia).
  rewrite !(proj2 (Z.leb_gt _ _)) by lia. by rewrite (proj2 (Z.ltb_ge _ _)) by lia.
Qed.

(** What [init] computed once is what every later sweep uses. *)
Lemma init_again s s' : init s = (s', None) → init s' = (s', None).
Proof.
  unfold init. set (s1 := init_settings s). assert (H1 : init_settings s1 = s1) by apply init_settings_again.
  assert (Hset : ∀ ts, init_settings (set_targets ts s1) = set_targets ts s1).
  { intros ts. transitivity (set_targets ts (init_settings s1)); [done|by rewrite H1]. }
  destruct (sw_targets s1) as [|t ts] eqn:Ht.
  - destruct (ExpandCIDRs (sw_CIDRs s1)) as [hosts|e] eqn:He; [|done]. intros [= <-]. rewrite Hset.
    cbn [set_targets sw_targets sw_CIDRs sw_ExtraHosts].
    destruct (hosts ++ sw_ExtraHosts s) eqn:Hh; [|done]. rewrite He.
    change (sw_ExtraHosts s1) with (sw_ExtraHosts s). by rewrite Hh.
  - intros [= <-]. rewrite H1. by rewrite Ht.
Qed.

(** The same targets with the same concurrency, every time. *)
Definition probes_targets (s : Sweeper) (o : op) : Prop :=
  match o with OProbeAll ts c => ts = s.(sw_targets) ∧ c = s.(sw_Concurrency) | _ => True end.

Lemma applyDevice_probes s ns now f : emits (probes_targets s) (applyDevice ns now f).
Proof.
  unfold applyDevice. apply emits_bind_ok.
  - split; [done|]. intros [dev|e]; cbn [bind].
    + destruct (hasLabels _ _); [done|]. by split.
    + destruct (is_kind ENotFound e); [by split|done].
  - intros [dev|]; [by split|done].
Qed.

Lemma apply_each_probes s ns now fs : ∀ errs, emits (probes_targets s) (apply_each ns now fs errs).
Proof.
  induction fs as [|f fs IH]; intros errs; [done|]. cbn [apply_each].
  apply emits_bind; [apply applyDevice_probes|]. intros r. apply IH.
Qed.

Lemma mark_each_probes s cutoff items : ∀ errs, emits (probes_targets s) (mark_each cutoff items errs).
Proof.
  induction items as [|d items IH]; intros errs; [done|]. cbn [mark_each].
  destruct (negb (stale cutoff d)); [apply IH|]. split; [done|]. intros r. apply IH.
Qed.

Lemma record_sweep_probes s t now fs : emits (probes_targets s) (record_sweep t now fs).
Proof.
  unfold record_sweep, markStale. apply emits_bind; [apply apply_each_probes|]. intros errs.
  apply emits_bind; [|done]. split; [done|]. intros [items|e]; [|done].
  apply (emits_bind _ (mark_each _ items [])); [apply mark_each_probes|done].
Qed.

Lemma sweep_loop_probes n s : init s = (s, None) → emits (probes_targets s) (sweep_loop n s).
Proof.
  intros Hi. induction n as [|n IH]; [done|]. cbn [sweep_loop]. unfold RunOnce. rewrite Hi.
  cbn [perform bind]. split; [done|]. intros now. split; [done|]. intros [found cancelled].
  assert (Hnext : emits (probes_targets s)
    (tick <- perform OTick ;; if (tick : bool) then sweep_loop n s else Ret (Some None))).
  { split; [done|]. by intros [|]. }
  destruct cancelled; [exact Hnext|].
  apply emits_bind_bind; [apply record_sweep_probes|]. intros err. exact Hnext.
Qed.

(** [Start] probes the same targets in every sweep, the ones [init] computed from
    the flags. *)
Theorem Start_targets n s s' : init s = (s', None) → emits (probes_targets s') (Start n s).
Proof. intros Hi. unfold Start. rewrite Hi. by apply sweep_loop_probes, (init_again s). Qed.
End Start.
