(* ===== verification/Feed.v ===== *)
(** * The exporter feed (internal/exporterfeed)

    The controller that keeps shelly_exporter's [config.yaml] in a ConfigMap: the
    rendering of the online devices' addresses, the reconciliation of the
    ConfigMap and the predicate that skips irrelevant device updates. *)

From stdpp Require Import prelude gmap strings pretty sorting list.
From S2P Require Import Prelude Json Api Diff Shelly Effects Fleet.

(** ** render.go *)

Record Options : Type := MkOptions {
  ListenAddress : string;
  Debug_ : bool;
  DeviceUpdateInterval : Z;
}.

Record exporterConfig : Type := MkExporterConfig {
  ec_ListenAddress : string;
  ec_Debug : bool;
  ec_DeviceUpdateInterval : Z;
  ec_Devices : list string;   (** the [Host] of each [exporterDevice] *)
}.

(** sigs.k8s.io/yaml's [Marshal] of an [exporterConfig]. *)
Class Yaml : Type := {
  yaml_Marshal : exporterConfig → res string string;
}.

(** [slices.Compact]: of consecutive equal elements, the first. *)
Fixpoint Compact (l : list string) : list string :=
  match l with
  | [] => []
  | x :: l' =>
      match l' with
      | [] => [x]
      | y :: _ => if String.eqb x y then Compact l' else x :: Compact l'
      end
  end.

(** The loop's condition. *)
Definition exported (d : ShellyDevice) : bool :=
  d.(dev_Status).(st_Online) && negb (String.eqb d.(dev_Status).(st_Address) "").

Definition hosts_of (devs : list ShellyDevice) : list string :=
  Compact (sort_strings ((λ d, d.(dev_Status).(st_Address)) <$> filter (λ d, exported d = true) devs)).

Definition exporter_config (devs : list ShellyDevice) (opts : Options) : exporterConfig :=
  MkExporterConfig opts.(ListenAddress) opts.(Debug_) opts.(DeviceUpdateInterval) (hosts_of devs).

Definition RenderConfig `{Yaml} (devs : list ShellyDevice) (opts : Options) : res error string :=
  match yaml_Marshal (exporter_config devs opts) with
  | Ok out => Ok out
  | Err e => Err (errorf e)
  end.

(** ** reconciler.go *)

Definition dataKey : string := "config.yaml".

(** Its immutable fields; reads go to [Reader] or, when it is nil, to [Client]:
    the same operation either way. *)
Record FeedReconciler : Type := MkFeedReconciler {
  fr_Namespace : string;
  fr_ConfigMapName : string;
  fr_Options : Options;
}.

Definition feed_labels : gmap string string :=
  {["app.kubernetes.io/managed-by" := "shelly-operator"]}.

Definition reconcile_feed `{Yaml} (r : FeedReconciler) : prog (option error) :=
  let ns := r.(fr_Namespace) in
  let name := r.(fr_ConfigMapName) in
  devs <- perform (OListDevices ns) ;;
  match devs with
  | Err e => Ret (Some (wrap "exporterfeed: list devices" e))
  | Ok items =>
      match RenderConfig items r.(fr_Options) with
      | Err e => Ret (Some (wrap "exporterfeed: render" e))
      | Ok rendered =>
          cm <- perform (OGetConfigMap ns name) ;;
          match cm with
          | Err e =>
              if is_NotFound e then
                created <- perform (OCreateConfigMap ns name feed_labels {[dataKey := rendered]}) ;;
                Ret (match created with
                     | Ok _ => None
                     | Err e => Some (wrap ("exporterfeed: create " +:+ name) e)
                     end)
              else Ret (Some (wrap ("exporterfeed: get " +:+ name) e))
          | Ok data =>
              if String.eqb (get_or_empty data dataKey) rendered then Ret None
              else
                updated <- perform (OUpdateConfigMap ns name (<[dataKey := rendered]> data)) ;;
                Ret (match updated with
                     | Ok _ => None
                     | Err e => Some (wrap ("exporterfeed: update " +:+ name) e)
                     end)
          end
      end
  end.

(** [UpdateFunc] of the predicate in SetupWithManager. *)
Definition relevant (oldDev newDev : ShellyDevice) : bool :=
  negb (Bool.eqb oldDev.(dev_Status).(st_Online) newDev.(dev_Status).(st_Online)) ||
  negb (String.eqb oldDev.(dev_Status).(st_Address) newDev.(dev_Status).(st_Address)).

(** ** The rendered list *)

(** Strictly increasing. *)
Abbreviation increasing := (StronglySorted (λ a b : string, str_lt a b = true)).

Lemma elem_of_Compact l x : x ∈ Compact l ↔ x ∈ l.
Proof.
  induction l as [|y l IH]; [done|]. cbn [Compact]. destruct l as [|z l].
  - done.
  - destruct (String.eqb_spec y z) as [->|Hne]; rewrite ?elem_of_cons, IH; rewrite ?elem_of_cons; naive_solver.
Qed.

Lemma str_lt_total a b : str_lt a b = false → a ≠ b → str_lt b a = true.
Proof.
  intros Hab Hne. destruct (str_lt b a) eqn:Hba; [done|]. exfalso. apply Hne.
  by apply str_lt_antisym.
Qed.

Lemma Compact_increasing l :
  StronglySorted (not_after str_lt) l → increasing (Compact l).
Proof.
  induction l as [|y l IH]; intros Hs; [constructor|].
  apply StronglySorted_inv in Hs as [Hs Hy]. specialize (IH Hs). cbn [Compact].
  destruct l as [|z l]; [by repeat constructor|].
  destruct (String.eqb_spec y z) as [->|Hne]; [done|]. constructor; [done|].
  apply Forall_forall. intros x Hx. apply (elem_of_Compact (z :: l)) in Hx.
  rewrite Forall_forall in Hy. pose proof (Hy x Hx) as Hyx. unfold not_after in *.
  apply str_lt_total; [done|]. intros ->. apply elem_of_cons in Hx as [->|Hx]; [done|].
  apply StronglySorted_inv in Hs as [_ Hz]. rewrite Forall_forall in Hz.
  apply Hne, str_lt_antisym; [by apply Hz|]. apply Hy. constructor.
Qed.

Lemma increasing_ext l1 l2 :
  increasing l1 → increasing l2 → (∀ x, x ∈ l1 ↔ x ∈ l2) → l1 = l2.
Proof.
  assert (Hlt : ∀ a b, str_lt a b = true → str_lt b a = false) by (intros; by apply weak_asym).
  revert l2. induction l1 as [|x l1 IH]; intros l2 H1 H2 Heq.
  { destruct l2 as [|y l2]; [done|]. exfalso. apply (elem_of_nil y), Heq. constructor. }
  destruct l2 as [|y l2]; [exfalso; apply (elem_of_nil x), Heq; constructor|].
  apply StronglySorted_inv in H1 as [H1 Hx]. apply StronglySorted_inv in H2 as [H2 Hy].
  rewrite Forall_forall in Hx, Hy.
  assert (Hnx : x ∉ l1) by (intros Hin; apply Hx in Hin; by rewrite str_lt_irrefl in Hin).
  assert (Hny : y ∉ l2) by (intros Hin; apply Hy in Hin; by rewrite str_lt_irrefl in Hin).
  assert (x = y) as <-.
  { destruct (decide (x = y)) as [?|Hne]; [done|]. exfalso.
    assert (Hxl : x ∈ l2) by (pose proof (proj1 (Heq x) (list_elem_of_here _ _)); set_solver).
    assert (Hyl : y ∈ l1) by (pose proof (proj2 (Heq y) (list_elem_of_here _ _)); set_solver).
    apply Hx in Hyl. apply Hy, Hlt in Hxl. congruence. }
  f_equal. apply IH; [done..|]. intros z. specialize (Heq z). rewrite !elem_of_cons in Heq.
  split; intros Hz; destruct (decide (z = x)) as [->|]; naive_solver.
Qed.

Lemma elem_of_hosts devs h :
  h ∈ hosts_of devs ↔ ∃ d, d ∈ devs ∧ exported d = true ∧ h = d.(dev_Status).(st_Address).
Proof.
  unfold hosts_of, sort_strings. rewrite elem_of_Compact, elem_of_sort_by, list_elem_of_fmap.
  split; [intros (d & -> & [He Hd]%list_elem_of_filter); eauto|].
  intros (d & Hd & He & ->). exists d. split; [done|]. by apply list_elem_of_filter.
Qed.

Lemma hosts_increasing devs : increasing (hosts_of devs).
Proof. apply Compact_increasing. exact (sort_by_sorted str_lt _). Qed.

Lemma hosts_ext devs devs' :
  (∀ h, (∃ d, d ∈ devs ∧ exported d = true ∧ h = d.(dev_Status).(st_Address)) ↔
        (∃ d, d ∈ devs' ∧ exported d = true ∧ h = d.(dev_Status).(st_Address))) →
  hosts_of devs = hosts_of devs'.
Proof.
  intros Heq. apply increasing_ext; [apply hosts_increasing..|].
  intros h. by rewrite !elem_of_hosts.
Qed.

(** An irrelevant update leaves the list alone. *)
Lemma hosts_irrelevant devs1 old new devs2 :
  relevant old new = false → hosts_of (devs1 ++ old :: devs2) = hosts_of (devs1 ++ new :: devs2).
Proof.
  unfold relevant. intros [Hon Haddr]%orb_false_iff. apply negb_false_iff in Hon, Haddr.
  apply Bool.eqb_prop in Hon. apply String.eqb_eq in Haddr.
  unfold hosts_of. do 2 f_equal. rewrite !list.filter_app, !filter_cons, !fmap_app. f_equal.
  unfold exported. rewrite Hon, Haddr. case_decide; [|done]. csimpl. by rewrite Haddr.
Qed.

(** ** The ConfigMap against a cluster *)

(** A cluster: the devices of each namespace and the ConfigMaps' data. *)
Record cluster : Type := MkCluster {
  cl_devices : gmap string (list ShellyDevice);
  cl_maps : gmap (string * string) (gmap string string);
}.

Definition set_map (key : string * string) (data : gmap string string) (k : cluster) : cluster :=
  MkCluster k.(cl_devices) (<[key := data]> k.(cl_maps)).

(** A handler that serves lists and ConfigMaps from a cluster, and fails only where
    the API server must: creating an object that exists, updating one that does
    not. *)
Class Serves {S : Type} (hd : handler S) (get : S → cluster) : Prop := {
  serves_list ns s :
    hd (OListDevices ns) s = (Ok (default [] ((get s).(cl_devices) !! ns)), s);
  serves_get ns name s :
    hd (OGetConfigMap ns name) s =
      (match (get s).(cl_maps) !! (ns, name) with
       | Some data => Ok data
       | None => Err (MkError ENotFound "not found")
       end, s);
  serves_create ns name labels data s :
    match (get s).(cl_maps) !! (ns, name) with
    | None =>
        (hd (OCreateConfigMap ns name labels data) s).1 = Ok tt ∧
        get (hd (OCreateConfigMap ns name labels data) s).2 = set_map (ns, name) data (get s)
    | Some _ => hd (OCreateConfigMap ns name labels data) s = (Err (errorf "already exists"), s)
    end;
  serves_update ns name data s :
    match (get s).(cl_maps) !! (ns, name) with
    | Some _ =>
        (hd (OUpdateConfigMap ns name data) s).1 = Ok tt ∧
        get (hd (OUpdateConfigMap ns name data) s).2 = set_map (ns, name) data (get s)
    | None => hd (OUpdateConfigMap ns name data) s = (Err (MkError ENotFound "not found"), s)
    end;
}.

(** The ConfigMap holds the rendering of the current devices. *)
Definition feed_settled `{Yaml} (r : FeedReconciler) (k : cluster) : Prop :=
  ∃ data rendered, k.(cl_maps) !! (r.(fr_Namespace), r.(fr_ConfigMapName)) = Some data ∧
    RenderConfig (default [] (k.(cl_devices) !! r.(fr_Namespace))) r.(fr_Options) = Ok rendered ∧
    get_or_empty data dataKey = rendered.

Section Feed.
Context `{Yaml} {S : Type} (hd : handler S) (get : S → cluster) `{!Serves hd get}.

(** Nothing but the feed's own key changed. *)
Definition only_feed_key (r : FeedReconciler) (k k' : cluster) : Prop :=
  k'.(cl_devices) = k.(cl_devices) ∧
  (∀ key, key ≠ (r.(fr_Namespace), r.(fr_ConfigMapName)) → k'.(cl_maps) !! key = k.(cl_maps) !! key) ∧
  ∀ data, k.(cl_maps) !! (r.(fr_Namespace), r.(fr_ConfigMapName)) = Some data →
    ∃ data', k'.(cl_maps) !! (r.(fr_Namespace), r.(fr_ConfigMapName)) = Some data' ∧
      ∀ key, key ≠ dataKey → data' !! key = data !! key.

(** A settled feed is left alone. *)
Lemma reconcile_settled r s :
  feed_settled r (get s) → ends hd (reconcile_feed r) s (λ e s', e = None ∧ s' = s).
Proof.
  intros (data & rendered & Hmap & Hr & Hkey). unfold reconcile_feed.
  apply ends_bind, (ends_perform hd (OListDevices _)). rewrite serves_list. cbn [fst snd]. rewrite Hr.
  apply ends_bind, (ends_perform hd (OGetConfigMap _ _)). rewrite serves_get. cbn [fst snd]. rewrite Hmap.
  rewrite Hkey, String.eqb_refl. by apply ends_ret.
Qed.

Lemma reconcile_reaches r s rendered :
  RenderConfig (default [] ((get s).(cl_devices) !! r.(fr_Namespace))) r.(fr_Options) = Ok rendered →
  ends hd (reconcile_feed r) s (λ e s',
    e = None ∧ feed_settled r (get s') ∧ only_feed_key r (get s) (get s')).
Proof.
  intros Hr. unfold reconcile_feed. set (key := (fr_Namespace r, fr_ConfigMapName r)).
  apply ends_bind, (ends_perform hd (OListDevices _)). rewrite serves_list. cbn [fst snd]. rewrite Hr.
  apply ends_bind, (ends_perform hd (OGetConfigMap _ _)). rewrite serves_get. cbn [fst snd].
  destruct ((get s).(cl_maps) !! key) as [data|] eqn:Hmap; fold key; rewrite Hmap.
  - destruct (String.eqb_spec (get_or_empty data dataKey) rendered) as [Heq|Hne].
    + apply ends_ret. split; [done|]. split; [by exists data, rendered|].
      split; [done|]. split; [done|]. intros d Hd. fold key in Hd |- *. by exists d.
    + apply ends_bind, (ends_perform hd (OUpdateConfigMap _ _ _)).
      pose proof (serves_update (fr_Namespace r) (fr_ConfigMapName r) (<[dataKey := rendered]> data) s) as Hup.
      fold key in Hup. rewrite Hmap in Hup. destruct Hup as [Hok Hget].
      rewrite Hok. apply ends_ret. split; [done|]. rewrite Hget. split.
      * exists (<[dataKey := rendered]> data), rendered. unfold get_or_empty. cbn.
        by rewrite !lookup_insert_eq.
      * split; [done|]. split; [intros k Hk; cbn; by rewrite lookup_insert_ne|].
        intros d Hd. fold key in Hd. rewrite Hmap in Hd. injection Hd as <-. cbn. rewrite lookup_insert_eq.
        eexists. split; [done|]. intros k Hk. by rewrite lookup_insert_ne.
  - cbn [is_NotFound err_kind_of]. apply ends_bind, (ends_perform hd (OCreateConfigMap _ _ _ _)).
    pose proof (serves_create (fr_Namespace r) (fr_ConfigMapName r) feed_labels {[dataKey := rendered]} s) as Hcr.
    fold key in Hcr. rewrite Hmap in Hcr. destruct Hcr as [Hok Hget].
    rewrite Hok. apply ends_ret. split; [done|]. rewrite Hget. split.
    + exists {[dataKey := rendered]}, rendered. unfold get_or_empty. cbn. by rewrite !lookup_insert_eq.
    + split; [done|]. split; [intros k Hk; cbn; by rewrite lookup_insert_ne|].
      intros d Hd. fold key in Hd. congruence.
Qed.

(** ** Theorems *)

(** The rendered device list is canonical.  It holds exactly the nonempty
    addresses of the online devices, in strictly increasing order (so each once),
    and so does not depend on the order in which the devices are listed. *)
Theorem RenderConfig_canonical (devs : list ShellyDevice) (opts : Options) :
  let hosts := ec_Devices (exporter_config devs opts) in
  StronglySorted (λ a b, str_lt a b = true) hosts ∧
  (∀ h, h ∈ hosts ↔ h ≠ "" ∧ ∃ d, d ∈ devs ∧ d.(dev_Status).(st_Online) = true ∧ d.(dev_Status).(st_Address) = h) ∧
  (∀ devs', devs ≡ₚ devs' → RenderConfig devs opts = RenderConfig devs' opts).
Proof.
  cbn zeta. split; [apply hosts_increasing|]. split.
  - intros h. cbn [exporter_config ec_Devices]. rewrite elem_of_hosts. unfold exported. split.
    + intros (d & Hd & [Hon Hne%negb_true_iff%String.eqb_neq]%andb_true_iff & ->). eauto 6.
    + intros (Hne & d & Hd & Hon & <-). exists d. split; [done|]. split; [|done].
      rewrite Hon. by rewrite (proj2 (String.eqb_neq _ _) Hne).
  - intros devs' Hp. unfold RenderConfig, exporter_config. rewrite (hosts_ext devs devs'); [done|].
    intros h. by setoid_rewrite Hp.
Qed.

(** C20: the feed reaches its ConfigMap and stays there, against an API server that
    refuses to create what exists and to update what does not.  One reconcile
    creates or corrects the ConfigMap so that its [config.yaml] is the rendering of
    the current devices, without an error and touching no other key and no other
    object; a second reconcile writes nothing; and an update event the predicate
    drops cannot make it stale. *)
Theorem reconcile_feed_settles r s rendered
  (Hr : RenderConfig (default [] ((get s).(cl_devices) !! r.(fr_Namespace))) r.(fr_Options) = Ok rendered) :
  ends hd (reconcile_feed r) s (λ e s',
    e = None ∧ feed_settled r (get s') ∧ only_feed_key r (get s) (get s') ∧
    ends hd (reconcile_feed r) s' (λ e' s'', e' = None ∧ s'' = s') ∧
    ∀ devs1 old new devs2,
      (get s').(cl_devices) !! r.(fr_Namespace) = Some (devs1 ++ old :: devs2) →
      relevant old new = false →
      feed_settled r (MkCluster (<[r.(fr_Namespace) := devs1 ++ new :: devs2]> (get s').(cl_devices))
                        (get s').(cl_maps))).
Proof.
  eapply ends_mono; [by eapply reconcile_reaches|]. intros e s' (-> & Hset & Honly).
  split_and!; [done..|by apply reconcile_settled|].
  intros devs1 old new devs2 Hdevs Hrel. destruct Hset as (data & out & Hmap & Hout & Hkey).
  exists data, out. cbn. split; [done|]. split; [|done]. rewrite lookup_insert_eq. cbn.
  rewrite Hdevs in Hout. cbn in Hout. unfold RenderConfig, exporter_config in *.
  by rewrite <-(hosts_irrelevant devs1 old new devs2 Hrel).
Qed.
End Feed.
