(* ===== verification/Metrics.v ===== *)
(** * Fleet-health metrics (internal/metrics/devices.go)

    The Prometheus collector: one sample per device and gauge family, from the
    device objects and the registry. *)

From stdpp Require Import prelude gmap strings pretty sorting list.
From S2P Require Import Prelude Json Api Diff Shelly Effects Fleet.

(** The metric descriptions. *)
Inductive Desc : Type :=
| descOnline
| descInSync
| descUpdateAvailable
| descRestartRequired
| descFirmwareUpdateRefused.

#[export] Instance Desc_eq_dec : EqDecision Desc.
Proof. solve_decision. Defined.

Record labels : Type := MkLabels {
  lv_mac : string;
  lv_name : string;
  lv_room : string;
  lv_appliance : string;
}.

(** [MustNewConstMetric] with a gauge value, and [NewInvalidMetric]. *)
Inductive Metric : Type :=
| ConstMetric (d : Desc) (value : Z) (l : labels)
| InvalidMetric (d : Desc) (e : error).

Record DeviceCollector : Type := MkDeviceCollector {
  dc_namespace : string;
  dc_registryName : string;
}.

Definition Describe : list Desc :=
  [descOnline; descInSync; descUpdateAvailable; descRestartRequired; descFirmwareUpdateRefused].

Definition boolToFloat (b : bool) : Z := if b then 1%Z else 0%Z.

Fixpoint inSyncValue (conditions : list Condition) : Z :=
  match conditions with
  | [] => 0%Z
  | c :: conditions =>
      if String.eqb c.(cond_Type) ConditionInSync
      then match c.(cond_Status) with ConditionTrue => 1%Z | _ => 0%Z end
      else inSyncValue conditions
  end.

Definition updateRefused (dev : ShellyDevice) : bool :=
  match dev.(dev_Status).(st_LastFirmwareUpdate) with
  | Some a => a.(fua_Refused) && negb (String.eqb a.(fua_Target) "")
              && String.eqb a.(fua_Target) dev.(dev_Status).(st_AvailableFirmware)
  | None => false
  end.

(** The first nonempty one. *)
Definition or_else (a b : string) : string := if String.eqb a "" then b else a.

Definition mac_label (dev : ShellyDevice) : string := or_else dev.(dev_Status).(st_MAC) (dev_Name dev).

Section Metrics.
Context `{RegistryJson}.

Definition labelValues (c : DeviceCollector) (dev : ShellyDevice) : prog labels :=
  entry <- ResolveRegistry true dev c.(dc_registryName) ;;
  let entry := match entry with Ok e => e | Err _ => zero_entry end in
  let name := or_else dev.(dev_Spec).(ds_DisplayName)
                (or_else entry.(re_Name) (or_else dev.(dev_Status).(st_DeviceName) (dev_Name dev))) in
  Ret (MkLabels (mac_label dev) name entry.(re_Room) entry.(re_Type)).

(** The values of one device, in the order they are sent. *)
Definition gauges (dev : ShellyDevice) : list (Desc * Z) :=
  [(descOnline, boolToFloat dev.(dev_Status).(st_Online));
   (descInSync, inSyncValue dev.(dev_Status).(st_Conditions));
   (descUpdateAvailable, boolToFloat (negb (String.eqb dev.(dev_Status).(st_AvailableFirmware) "")));
   (descRestartRequired, boolToFloat dev.(dev_Status).(st_RestartRequired));
   (descFirmwareUpdateRefused, boolToFloat (updateRefused dev))].

(** The loop of Collect. *)
Fixpoint collect_each (c : DeviceCollector) (devs : list ShellyDevice) : prog (list Metric) :=
  match devs with
  | [] => Ret []
  | dev :: devs =>
      l <- labelValues c dev ;;
      rest <- collect_each c devs ;;
      Ret (((λ dv, ConstMetric dv.1 dv.2 l) <$> gauges dev) ++ rest)
  end.

(** What is sent on the channel, in order. *)
Definition Collect (c : DeviceCollector) : prog (list Metric) :=
  list <- perform (OListDevices c.(dc_namespace)) ;;
  match list with
  | Err e => Ret [InvalidMetric descOnline (wrap "listing ShellyDevices" e)]
  | Ok items => collect_each c items
  end.

(** ** What a scrape should contain *)

(** [x] is the first nonempty string of [l], or its last one. *)
Definition first_of (l : list string) (x : string) : Prop :=
  ∃ before after, l = before ++ x :: after ∧ Forall (λ s, s = "") before ∧ (x ≠ "" ∨ after = []).

(** What a gauge asserts of a device. *)
Definition asserts (dev : ShellyDevice) (d : Desc) : Prop :=
  let st := dev.(dev_Status) in
  match d with
  | descOnline => st.(st_Online) = true
  | descInSync =>
      ∃ before c after, st.(st_Conditions) = before ++ c :: after ∧
        Forall (λ c', c'.(cond_Type) ≠ "InSync") before ∧
        c.(cond_Type) = "InSync" ∧ c.(cond_Status) = ConditionTrue
  | descUpdateAvailable => st.(st_AvailableFirmware) ≠ ""
  | descRestartRequired => st.(st_RestartRequired) = true
  | descFirmwareUpdateRefused =>
      ∃ a, st.(st_LastFirmwareUpdate) = Some a ∧ a.(fua_Refused) = true ∧
        a.(fua_Target) ≠ "" ∧ a.(fua_Target) = st.(st_AvailableFirmware)
  end.

(** Its value is 1 when that is so and 0 when it is not. *)
Definition gauge_value (dev : ShellyDevice) (d : Desc) (v : Z) : Prop :=
  (v = 1%Z ∧ asserts dev d) ∨ (v = 0%Z ∧ ¬ asserts dev d).

(** The labels of a device with this registry entry. *)
Definition labelled (dev : ShellyDevice) (entry : RegistryEntry) (l : labels) : Prop :=
  first_of [dev.(dev_Status).(st_MAC); dev_Name dev] l.(lv_mac) ∧
  first_of [dev.(dev_Spec).(ds_DisplayName); entry.(re_Name); dev.(dev_Status).(st_DeviceName); dev_Name dev]
    l.(lv_name) ∧
  l.(lv_room) = entry.(re_Room) ∧ l.(lv_appliance) = entry.(re_Type).

(** The entry the registry has for the device; an empty one when it cannot be
    read. *)
Definition registry_says {S : Type} (hd : handler S) (c : DeviceCollector) (dev : ShellyDevice)
  (entry : RegistryEntry) : Prop :=
  ∃ s h, match (run hd (ResolveRegistry true dev c.(dc_registryName)) s h).1.1 with
         | Ok e => entry = e
         | Err _ => entry = zero_entry
         end.

(** The samples of one device: five families, one set of labels. *)
Definition device_block {S : Type} (hd : handler S) (c : DeviceCollector) (dev : ShellyDevice)
  (ms : list Metric) : Prop :=
  ∃ entry l v1 v2 v3 v4 v5,
    ms = [ConstMetric descOnline v1 l; ConstMetric descInSync v2 l; ConstMetric descUpdateAvailable v3 l;
          ConstMetric descRestartRequired v4 l; ConstMetric descFirmwareUpdateRefused v5 l] ∧
    registry_says hd c dev entry ∧ labelled dev entry l ∧
    gauge_value dev descOnline v1 ∧ gauge_value dev descInSync v2 ∧ gauge_value dev descUpdateAvailable v3 ∧
    gauge_value dev descRestartRequired v4 ∧ gauge_value dev descFirmwareUpdateRefused v5.

(** The series of a sample: its family and labels. *)
Definition series (m : Metric) : option (Desc * labels) :=
  match m with
  | ConstMetric d _ l => Some (d, l)
  | InvalidMetric _ _ => None
  end.

(** Reads of the cluster. *)
Definition cluster_read (o : op) : Prop :=
  match o with OListDevices _ | OGetConfigMap _ _ => True | _ => False end.

Lemma cluster_read_ResolveRegistry b dev n : emits cluster_read (ResolveRegistry b dev n).
Proof. unfold ResolveRegistry. case_match; [done|]. split; [done|]. intros a. cbn. repeat case_match; exact I. Qed.

Lemma collect_each_reads c devs : emits cluster_read (collect_each c devs).
Proof.
  induction devs as [|dev devs IH]; [done|]. apply emits_bind.
  { apply emits_bind; [apply cluster_read_ResolveRegistry|done]. }
  intros l. by apply emits_bind.
Qed.

(** *** Labels *)

Lemma first_of_skip l x : first_of l x → first_of ("" :: l) x.
Proof. intros (before & after & -> & Hb & Hx). exists ("" :: before), after. split_and!; [done| |done]. by constructor. Qed.

Lemma first_of_or_else a l x : l ≠ [] → first_of l x → first_of (a :: l) (or_else a x).
Proof.
  intros Hne Hx. unfold or_else. destruct (String.eqb_spec a "") as [->|Ha]; [by apply first_of_skip|].
  exists [], l. split_and!; [done|by constructor|by left].
Qed.

Lemma first_of_last x : first_of [x] x.
Proof. exists [], []. split_and!; [done|by constructor|by right]. Qed.

Lemma first_of_unique l x y : first_of l x → first_of l y → x = y.
Proof.
  intros (b1 & a1 & -> & Hb1 & Hx) (b2 & a2 & Heq & Hb2 & Hy).
  revert b2 Heq Hb2. induction Hb1 as [|s b1 -> _ IH]; intros b2 Heq Hb2.
  - destruct b2 as [|s b2]; [by injection Heq|]. apply Forall_cons in Hb2 as [-> Hb2].
    injection Heq as -> ->. destruct Hx as [Hx|Hx]; [done|]. by destruct b2.
  - destruct b2 as [|s b2]; [|apply Forall_cons in Hb2 as [-> Hb2]; injection Heq; eauto].
    injection Heq as <- <-. destruct Hy as [Hy|Hy]; [done|]. by destruct b1.
Qed.

Lemma mac_label_first dev : first_of [dev.(dev_Status).(st_MAC); dev_Name dev] (mac_label dev).
Proof. apply first_of_or_else; [done|apply first_of_last]. Qed.

(** *** Values *)

Lemma boolToFloat_value dev d (b : bool) :
  (b = true ↔ asserts dev d) → gauge_value dev d (boolToFloat b).
Proof. intros Hb. destruct b; [left|right]; (split; [done|]); [by apply Hb|by intros ?%Hb]. Qed.

Lemma inSyncValue_value dev : gauge_value dev descInSync (inSyncValue dev.(dev_Status).(st_Conditions)).
Proof.
  unfold gauge_value. cbn. induction (st_Conditions (dev_Status dev)) as [|c cs IH]; cbn.
  { right. split; [done|]. intros (b & c & a & Heq & _). by destruct b. }
  unfold ConditionInSync in *. destruct (String.eqb_spec (cond_Type c) "InSync") as [Ht|Ht].
  - assert (Hfirst : (∃ before c' after, c :: cs = before ++ c' :: after ∧
        Forall (λ c'', c''.(cond_Type) ≠ "InSync") before ∧ c'.(cond_Type) = "InSync" ∧
        c'.(cond_Status) = ConditionTrue) ↔ c.(cond_Status) = ConditionTrue).
    { split; [|intros Hs; exists [], c, cs; by split_and!].
      intros (b & c' & a & Heq & Hb & Ht' & Hs). destruct b as [|c0 b]; [by injection Heq as -> _|].
      injection Heq as -> _. by apply Forall_cons in Hb as [? _]. }
    rewrite Hfirst. destruct (cond_Status c); auto; right; split; done || discriminate.
  - destruct IH as [[-> (b & c' & a & -> & Hb & Hc)]|[-> Hno]]; [left|right]; (split; [done|]).
    + exists (c :: b), c', a. split_and!; [done| |apply Hc..]. by constructor.
    + intros (b & c' & a & Heq & Hb & Ht' & Hs). apply Hno. destruct b as [|c0 b].
      * injection Heq as -> _. done.
      * injection Heq as -> ->. apply Forall_cons in Hb as [_ Hb]. by exists b, c', a.
Qed.

Lemma updateRefused_asserts dev : updateRefused dev = true ↔ asserts dev descFirmwareUpdateRefused.
Proof.
  unfold updateRefused. cbn. destruct (st_LastFirmwareUpdate (dev_Status dev)) as [a|]; [|naive_solver].
  rewrite !andb_true_iff, negb_true_iff, String.eqb_eq, String.eqb_neq. naive_solver.
Qed.

Lemma gauges_block {S : Type} (hd : handler S) c dev entry l :
  registry_says hd c dev entry → labelled dev entry l →
  device_block hd c dev ((λ dv, ConstMetric dv.1 dv.2 l) <$> gauges dev).
Proof.
  intros He Hl. exists entry, l. do 5 eexists. split; [reflexivity|]. split_and!; [done|done|..].
  - by apply boolToFloat_value.
  - apply inSyncValue_value.
  - apply boolToFloat_value. rewrite negb_true_iff. apply String.eqb_neq.
  - by apply boolToFloat_value.
  - apply boolToFloat_value, updateRefused_asserts.
Qed.

(** *** The scrape *)

Section Runs.
Context {S : Type} (hd : handler S).

Lemma labelValues_labelled c dev s :
  ends hd (labelValues c dev) s (λ l _, ∃ entry, registry_says hd c dev entry ∧ labelled dev entry l).
Proof.
  apply ends_bind. intros h. pose proof (eq_refl (run hd (ResolveRegistry true dev (dc_registryName c)) s h)) as Hrun.
  destruct (run hd _ s h) as [[r s'] h'] eqn:Hr in Hrun at 2 |- *. intros h2. cbn [run].
  set (entry := match r with Ok e => e | Err _ => zero_entry end).
  exists entry. split; [exists s, h; rewrite Hr; by destruct r|].
  split_and!; [apply mac_label_first| |done..]. cbn [lv_name].
  do 3 (apply first_of_or_else; [done|]). apply first_of_last.
Qed.

Lemma collect_each_blocks c devs : ∀ s,
  ends hd (collect_each c devs) s (λ out _,
    ∃ blocks, out = concat blocks ∧ Forall2 (device_block hd c) devs blocks).
Proof.
  induction devs as [|dev devs IH]; intros s; cbn [collect_each].
  { apply ends_ret. exists []. by split. }
  apply ends_bind. eapply ends_mono; [apply labelValues_labelled|]. intros l s1 (entry & He & Hl).
  apply ends_bind. eapply ends_mono; [apply IH|]. intros rest s2 (blocks & -> & Hb).
  apply ends_ret. eexists (_ :: blocks). split; [done|]. constructor; [by eapply gauges_block|done].
Qed.
End Runs.

(** Distinct devices have distinct series. *)
Lemma blocks_distinct {S : Type} (hd : handler S) c devs blocks :
  Forall2 (device_block hd c) devs blocks → NoDup (mac_label <$> devs) → NoDup (series <$> concat blocks).
Proof.
  assert (Hmac : ∀ dev ms x, device_block hd c dev ms → x ∈ series <$> ms →
    ∃ d l, x = Some (d, l) ∧ lv_mac l = mac_label dev).
  { intros dev ms x (entry & l & v1 & v2 & v3 & v4 & v5 & -> & _ & [Hm _] & _) Hx.
    assert (lv_mac l = mac_label dev) by (eapply first_of_unique; [exact Hm|apply mac_label_first]).
    cbn in Hx. set_unfold in Hx. naive_solver. }
  induction 1 as [|dev ms devs blocks Hb Hrest IH]; intros Hnd; [constructor|].
  cbn [concat]. rewrite fmap_app. apply NoDup_cons in Hnd as [Hdev Hnd].
  apply NoDup_app. split; [|split; [|by apply IH]].
  - destruct Hb as (entry & l & v1 & v2 & v3 & v4 & v5 & -> & _).
    apply (NoDup_fmap_1 (λ o : option (Desc * labels), fst <$> o)). cbn.
    apply (bool_decide_unpack _). reflexivity.
  - intros x Hx Hx'. destruct (Hmac _ _ _ Hb Hx) as (d & l & -> & Hl). apply Hdev. rewrite <- Hl.
    clear -Hmac Hrest Hx'. induction Hrest as [|dev' ms' devs blocks Hb' _ IH]; [by apply elem_of_nil in Hx'|].
    cbn [concat] in Hx'. rewrite fmap_app in Hx'. apply elem_of_app in Hx' as [Hx'|Hx'].
    + destruct (Hmac _ _ _ Hb' Hx') as (d' & l' & [= -> ->] & ->). cbn. by left.
    + cbn. right. by apply IH.
Qed.

(** C22: a scrape is complete, consistent and true.  Whatever the environment
    answers, [Collect] reads the cluster only; when the listing fails it reports
    exactly one invalid metric; otherwise it sends, for every listed device and in
    order, one sample of each of the five families, registry failures
    notwithstanding: online, in sync (its first InSync condition is true), update
    available, restart required, and update refused (the last attempt was refused
    and its target is the firmware still on offer) are 1 when the device's status
    says so and 0 when it does not; the labels are the MAC or else the object's
    name, the first of display name, registry name, device name and object name
    that is not empty, and the registry's room and type; and no two samples are of
    the same series as long as no two devices share a MAC label. *)
Theorem Collect_complete (c : DeviceCollector) :
  emits cluster_read (Collect c) ∧
  ∀ (S : Type) (hd : handler S) (s : S),
  ends hd (Collect c) s (λ out _,
    match (hd (OListDevices c.(dc_namespace)) s).1 with
    | Err e => out = [InvalidMetric descOnline (wrap "listing ShellyDevices" e)]
    | Ok items =>
        (∃ blocks, out = concat blocks ∧ Forall2 (device_block hd c) items blocks) ∧
        (NoDup (mac_label <$> items) → NoDup (series <$> out))
    end).
Proof.
  split.
  { split; [done|]. intros [items|e]; [apply collect_each_reads|done]. }
  intros S hd s. apply ends_bind, (ends_perform hd (OListDevices _)).
  destruct (hd (OListDevices (dc_namespace c)) s) as [[items|e] s1]; cbn [fst snd]; [|by apply ends_ret].
  eapply ends_mono; [apply collect_each_blocks|]. intros out s2 (blocks & -> & Hb).
  split; [by exists blocks|by apply (blocks_distinct hd c)].
Qed.
End Metrics.
