(* ===== verification/Dashboard.v ===== *)
(** * The dashboard (internal/dashboard)

    The read-only web UI: the fleet table, a device's live drift with redacted
    configurations, and the profile table, with the routes they are served under.
    A handler returns what it answers with; for a page that is the data given to
    the HTML template, whose output [render] turns into a response. *)

From stdpp Require Import prelude gmap strings pretty sorting list.
From Stdlib Require Import Ascii.
From S2P Require Import Prelude Json Api Diff Match Render Shelly Effects Client Fleet Metrics.

(** The server's fields; [Reader] is an interface that may be nil. *)
Record Server : Type := MkServer {
  srv_Reader : bool;
  srv_Namespace : string;
  srv_NameMapName : string;
  srv_RegistryName : string;
}.

(** ** Redaction (detail.go) *)

(** One character of a case-insensitive pattern at the head of [s], and what is
    left of [s]: the letter in either case; k and s also match the Kelvin sign
    and the long s, their Unicode case variants. *)
Definition match_char (c : ascii) (s : string) : option string :=
  match s with
  | EmptyString => None
  | String d rest =>
      if Ascii.eqb (ascii_lower d) c then Some rest
      else if Ascii.eqb c "k" && HasPrefix s (String "226" (String "132" (String "170" "")))
      then Some (drop_str 3 s)
      else if Ascii.eqb c "s" && HasPrefix s (String "197" (String "191" ""))
      then Some (drop_str 2 s)
      else None
  end.

Fixpoint match_at (pattern s : string) : bool :=
  match pattern with
  | EmptyString => true
  | String c pattern =>
      match match_char c s with Some rest => match_at pattern rest | None => false end
  end.

Fixpoint match_anywhere (pattern s : string) : bool :=
  match_at pattern s ||
  match s with EmptyString => false | String _ s => match_anywhere pattern s end.

(** [(?i)pass|token|secret|key]. *)
Definition secretKeyPattern (k : string) : bool :=
  match_anywhere "pass" k || match_anywhere "token" k || match_anywhere "secret" k
  || match_anywhere "key" k.

Definition redacted : value := VStr "[redacted]".

Fixpoint redactValue (v : value) : value :=
  match v with
  | VObj m =>
      VObj (map_fold (λ k v acc,
              <[k := if secretKeyPattern k && negb (match v with VNull => true | _ => false end)
                     then redacted else redactValue v]> acc) ∅ m)
  | VArr l => VArr (redactValue <$> l)
  | v => v
  end.

Definition redact_entry (k : string) (v : value) : value :=
  if secretKeyPattern k && negb (match v with VNull => true | _ => false end)
  then redacted else redactValue v.

Definition redactSecrets (m : obj) : obj :=
  map_fold (λ k v acc, <[k := redact_entry k v]> acc) ∅ m.

(** The tree shown for the device's configuration: one entry per component. *)
Definition actual_entry (v : value) : value :=
  match v with VObj m => VObj (redactSecrets m) | v => v end.

Definition appendMsg (existing add : string) : string :=
  if String.eqb existing "" then add else existing +:+ "; " +:+ add.

(** [json.MarshalIndent] with two spaces. *)
Class JsonIndent : Type := {
  json_MarshalIndent : value → res string string;
}.

Definition mustJSON `{JsonIndent} (v : value) : string :=
  match json_MarshalIndent v with
  | Ok b => b
  | Err e => "render error: " +:+ e
  end.

(** ** Rows and views *)

Record deviceView : Type := MkDeviceView {
  dv_Object : string;
  dv_Name : string;
  dv_Model : string;
  dv_Address : string;
  dv_Firmware : string;
  dv_AvailableFirmware : string;
  dv_Profile : string;
  dv_Sync : string;
  dv_SyncClass : string;
  dv_Message : string;
  dv_Gen : Z;
  dv_Online : bool;
  dv_Findings : list Finding;
  dv_Desired : string;
  dv_Actual : string;
}.

Record profileRow : Type := MkProfileRow {
  pr_Name : string;
  pr_Mode : string;
  pr_Priority : Z;
  pr_Matched : nat;
}.

Record fleetRow : Type := MkFleetRow {
  fl_Object : string;
  fl_Name : string;
  fl_Room : string;
  fl_Type : string;
  fl_Model : string;
  fl_Address : string;
  fl_Profile : string;
  fl_Sync : string;
  fl_SyncClass : string;
  fl_Drift : string;
  fl_Update : string;
  fl_Online : bool;
}.

(** [http.NotFound], [http.Error] with a 500, or a page. *)
Inductive page : Type :=
| PageNotFound
| PageError (message : string)
| PageFleet (rows : list fleetRow)
| PageDevice (view : deviceView)
| PageProfiles (rows : list profileRow).

(** A line feed. *)
Definition nl : string := String "010" EmptyString.

Section Dashboard.
Context `{Selectors, Conditions, Fmt, StrConv, RegistryJson, JsonIndent}.

Definition syncState (d : ShellyDevice) : string * string :=
  match FindStatusCondition d.(dev_Status).(st_Conditions) ConditionInSync with
  | None => ("unknown", "unk")
  | Some c =>
      (c.(cond_Reason),
       match c.(cond_Status) with
       | ConditionTrue => "ok"
       | ConditionFalse => "bad"
       | ConditionUnknown => "unk"
       end)
  end.

Definition fleet_row (d : ShellyDevice) : fleetRow :=
  let '(sync, class) := syncState d in
  MkFleetRow (dev_Name d) (or_else d.(dev_Spec).(ds_DisplayName) d.(dev_Status).(st_DeviceName))
    (get_or_empty (dev_Labels d) LabelRoom) (get_or_empty (dev_Labels d) LabelAppliance)
    d.(dev_Status).(st_Model) d.(dev_Status).(st_Address) d.(dev_Status).(st_MatchedProfile)
    sync class (Join d.(dev_Status).(st_DriftedSections) ", ")
    d.(dev_Status).(st_AvailableFirmware) d.(dev_Status).(st_Online).

(** [sort.Slice] by a name: names are unique within a namespace, so there are no
    ties for it to order arbitrarily. *)
Definition handleFleet (s : Server) : prog page :=
  devs <- perform (OListDevices s.(srv_Namespace)) ;;
  Ret (match devs with
       | Err e => PageError e.(err_text)
       | Ok items =>
           PageFleet (sort_by (λ a b, str_lt a.(fl_Object) b.(fl_Object)) (fleet_row <$> items))
       end).

(** [counts[p.Name]++] for the profile of each device. *)
Definition count_profile (profiles : list ShellyProfile) (counts : gmap string nat)
  (d : ShellyDevice) : gmap string nat :=
  match (MatchProfile d profiles).1 with
  | Some p => <[p.(prof_Name) := S (default 0 (counts !! p.(prof_Name)))]> counts
  | None => counts
  end.

Definition profile_row (counts : gmap string nat) (p : ShellyProfile) : profileRow :=
  MkProfileRow p.(prof_Name) p.(prof_Spec).(ps_Mode) p.(prof_Spec).(ps_Priority)
    (default 0 (counts !! p.(prof_Name))).

Definition profile_rows (profiles : list ShellyProfile) (devs : list ShellyDevice)
  : list profileRow :=
  let counts := foldl (count_profile profiles) ∅ devs in
  sort_by (λ a b, str_lt a.(pr_Name) b.(pr_Name)) (profile_row counts <$> profiles).

Definition handleProfiles (s : Server) : prog page :=
  profiles <- perform (OListProfiles s.(srv_Namespace)) ;;
  match profiles with
  | Err e => Ret (PageError e.(err_text))
  | Ok profiles =>
      devs <- perform (OListDevices s.(srv_Namespace)) ;;
      Ret (match devs with
           | Err e => PageError e.(err_text)
           | Ok devs => PageProfiles (profile_rows profiles devs)
           end)
  end.

(** The live part: message, findings and the two redacted trees. *)
Record live : Type := MkLive {
  lv_Message : string;
  lv_Findings : list Finding;
  lv_Desired : string;
  lv_Actual : string;
}.

Definition live_view (dev : ShellyDevice) (profile : ShellyProfile) (name message : string)
  (reader : bool) : prog live :=
  pw <- ResolvePassword reader (dev_Namespace dev) profile.(prof_Spec).(ps_Config).(cfg_Auth) ;;
  let '(password, message) :=
    match pw with
    | Ok p => (p, message)
    | Err e => ("", appendMsg message ("password secret unavailable: " +:+ e.(err_text)))
    end in
  c <- perform (ONewClient dev.(dev_Status).(st_Address) password) ;;
  actual <- GetConfig c ;;
  match actual with
  | Err e => Ret (MkLive (appendMsg message ("live config fetch failed: " +:+ e.(err_text))) [] "" "")
  | Ok actual =>
      order <- perform (ORange actual) ;;
      let desired := Render profile.(prof_Spec).(ps_Config) name order actual in
      let '(message, findings) :=
        match Diff desired actual with
        | Err e => (appendMsg message ("diff failed: " +:+ e), [])
        | Ok fs => (message, fs)
        end in
      Ret (MkLive message findings
             (mustJSON (VObj ((λ m, VObj (redactSecrets m)) <$> desired)))
             (mustJSON (VObj (actual_entry <$> actual))))
  end.

Definition device_view (dev : ShellyDevice) (name : string) (l : live) : deviceView :=
  let '(sync, class) := syncState dev in
  let st := dev.(dev_Status) in
  MkDeviceView (dev_Name dev) name st.(st_Model) st.(st_Address) st.(st_Firmware)
    st.(st_AvailableFirmware) st.(st_MatchedProfile) sync class l.(lv_Message) st.(st_Gen)
    st.(st_Online) l.(lv_Findings) l.(lv_Desired) l.(lv_Actual).

Definition handleDevice (s : Server) (pathName : string) : prog page :=
  g <- perform (OGetDevice s.(srv_Namespace) pathName) ;;
  match g with
  | Err e => Ret (if is_NotFound e then PageNotFound else PageError e.(err_text))
  | Ok dev =>
      let message :=
        match FindStatusCondition dev.(dev_Status).(st_Conditions) ConditionInSync with
        | Some c => c.(cond_Message)
        | None => ""
        end in
      ps <- perform (OListProfiles s.(srv_Namespace)) ;;
      match ps with
      | Err e => Ret (PageError e.(err_text))
      | Ok profiles =>
          n <- ResolveName s.(srv_Reader) dev s.(srv_NameMapName) s.(srv_RegistryName) ;;
          let '(name, message) :=
            match n with
            | Ok name => (name, message)
            | Err e => ("", appendMsg message ("name map unavailable: " +:+ e.(err_text)))
            end in
          match (MatchProfile dev profiles).1 with
          | Some profile =>
              if dev.(dev_Status).(st_Online) && negb (String.eqb dev.(dev_Status).(st_Address) "")
              then l <- live_view dev profile name message s.(srv_Reader) ;;
                   Ret (PageDevice (device_view dev name l))
              else Ret (PageDevice (device_view dev name (MkLive message [] "" "")))
          | None => Ret (PageDevice (device_view dev name (MkLive message [] "" "")))
          end
      end
  end.

(** The routes: a pattern of [http.ServeMux] and its handler, which gets the path
    value [name] where the pattern has one. *)
Definition routes (s : Server) : list (string * (string → prog page)) :=
  [("GET /{$}", λ _, handleFleet s);
   ("GET /device/{name}", λ name, handleDevice s name);
   ("GET /profiles", λ _, handleProfiles s)].
End Dashboard.

(** What is written to the client. *)
Record http_response : Type := MkHttpResponse {
  hr_code : Z;
  hr_type : string;
  hr_body : string;
}.

(** [http.Error]. *)
Definition http_Error (message : string) (code : Z) : http_response :=
  MkHttpResponse code "text/plain; charset=utf-8" (message +:+ nl).

(** [render]: [executed] is what [ExecuteTemplate] wrote into the buffer, or its
    error; nothing of a page that failed is sent. *)
Definition render (executed : res string string) : http_response :=
  match executed with
  | Err e => http_Error e 500
  | Ok buf => MkHttpResponse 200 "text/html; charset=utf-8" buf
  end.

(** ** What redaction hides *)

Lemma redactSecrets_lookup m k : redactSecrets m !! k = redact_entry k <$> m !! k.
Proof.
  unfold redactSecrets. rewrite (map_fold_insert_lookup redact_entry). by destruct (m !! k).
Qed.

Lemma redactValue_obj m : redactValue (VObj m) = VObj (redactSecrets m).
Proof. done. Qed.

(** A value under key [k] somewhere inside another. *)
Inductive occurs (k : string) (w : value) : value → Prop :=
| occurs_here m : m !! k = Some w → occurs k w (VObj m)
| occurs_obj m k' v : m !! k' = Some v → occurs k w v → occurs k w (VObj m)
| occurs_arr l v : v ∈ l → occurs k w v → occurs k w (VArr l).

(** Two values that differ, if at all, in the values of secret keys. *)
Inductive public_eq : value → value → Prop :=
| public_refl v : public_eq v v
| public_arr l l' : Forall2 public_eq l l' → public_eq (VArr l) (VArr l')
| public_obj m m' :
    (∀ k, is_Some (m !! k) ↔ is_Some (m' !! k)) →
    (∀ k v v', m !! k = Some v → m' !! k = Some v' →
       secretKeyPattern k = false ∨ v = VNull ∨ v' = VNull → public_eq v v') →
    public_eq (VObj m) (VObj m').

Lemma redact_hides v : ∀ k w,
  secretKeyPattern k = true → occurs k w (redactValue v) → w = VNull ∨ w = redacted.
Proof.
  induction v as [|b|x|s|l IH|m IH] using value_ind'; intros k w Hk Ho; try by inversion Ho.
  - inversion Ho as [| |? ? Hin Ho']; subst. apply list_elem_of_fmap in Hin as (v' & -> & Hin).
    rewrite Forall_forall in IH. by eapply IH.
  - rewrite redactValue_obj in Ho. inversion Ho as [? Hl|? k' v' Hl Ho'|]; subst;
      rewrite redactSecrets_lookup in Hl; apply fmap_Some in Hl as (u & Hu & ->); unfold redact_entry in *.
    + rewrite Hk. cbn. destruct u; auto.
    + destruct (secretKeyPattern k' && _); [by inversion Ho'|]. by eapply IH.
Qed.

Lemma redact_public v : ∀ v', public_eq v v' → redactValue v = redactValue v'.
Proof.
  induction v as [|b|x|s|l IH|m IH] using value_ind'; intros v' Hp; try by inversion Hp.
  - inversion Hp as [|? l' Hl|]; subst; [done|]. cbn. f_equal. rewrite Forall_forall in IH.
    clear Hp. induction Hl as [|x y l l' Hxy Hl IHl]; [done|]. cbn. f_equal.
    + apply IH; [constructor|done].
    + apply IHl. intros z Hz. apply IH. by constructor.
  - inversion Hp as [| |? m' Hdom Hin]; subst; [done|]. rewrite !redactValue_obj. f_equal.
    apply map_eq. intros k. rewrite !redactSecrets_lookup. specialize (Hdom k). specialize (Hin k).
    destruct (m !! k) as [v|] eqn:Hv, (m' !! k) as [u|] eqn:Hu; try done.
    + cbn. f_equal. unfold redact_entry. specialize (Hin v u eq_refl eq_refl).
      destruct (secretKeyPattern k); cbn [andb].
      * destruct (decide (v = VNull)) as [->|Hvn]; [specialize (Hin ltac:(auto)); by inversion Hin|].
        destruct (decide (u = VNull)) as [->|Hun]; [specialize (Hin ltac:(auto)); by inversion Hin|].
        by destruct v, u.
      * apply (IH k v Hv). auto.
    + destruct Hdom as [[? ?] _]; [eauto|done].
    + destruct Hdom as [_ [? ?]]; [eauto|done].
Qed.

Lemma redact_idempotent v : redactValue (redactValue v) = redactValue v.
Proof.
  induction v as [|b|x|s|l IH|m IH] using value_ind'; try done.
  - cbn. f_equal. rewrite <-list_fmap_compose. rewrite Forall_forall in IH.
    apply list_fmap_ext. intros i v Hv. apply IH. by eapply list_elem_of_lookup_2.
  - rewrite !redactValue_obj. f_equal. apply map_eq. intros k. rewrite !redactSecrets_lookup.
    destruct (m !! k) as [v|] eqn:Hv; [|done]. cbn. f_equal. specialize (IH k v Hv).
    unfold redact_entry. destruct (secretKeyPattern k); cbn [andb]; [by destruct v|done].
Qed.

(** C26: redaction hides secrets.  After [redactSecrets] every value under a key
    that looks secret, at any depth through objects and arrays, is null or the
    placeholder; configurations that differ in secret values only are shown
    identically, so nothing about those values reaches the page; and redacting
    twice is redacting once. *)
Theorem redactSecrets_hides (m : obj) :
  (∀ k w, secretKeyPattern k = true → occurs k w (VObj (redactSecrets m)) → w = VNull ∨ w = redacted) ∧
  (∀ m', public_eq (VObj m) (VObj m') → redactSecrets m = redactSecrets m') ∧
  redactSecrets (redactSecrets m) = redactSecrets m.
Proof.
  split_and!.
  - intros k w Hk Ho. by eapply (redact_hides (VObj m)).
  - intros m' Hp. apply redact_public in Hp. rewrite !redactValue_obj in Hp. by injection Hp.
  - pose proof (redact_idempotent (VObj m)) as Hi. rewrite !redactValue_obj in Hi. by injection Hi.
Qed.

(** ** Reading only *)

(** What the dashboard may do: read the cluster, and read a device's
    configuration with a client of its own. *)
Definition dashboard_read (o : op) : Prop :=
  match o with
  | OListDevices _ | OGetDevice _ _ | OListProfiles _ | OGetConfigMap _ _ | OGetSecret _ _ => True
  | ONewClient _ _ | ORange _ => True
  | OCall _ m p _ => m = "Shelly.GetConfig" ∧ p = None
  | _ => False
  end.

(** [FindStatusCondition] returns the first condition of the type. *)
Class FindsFirst `{Conditions} : Prop := {
  find_first cs ty : FindStatusCondition cs ty = head (filter (λ c, c.(cond_Type) = ty) cs);
}.

Section Facts.
Context `{Selectors, Conditions, Fmt, StrConv, RegistryJson, JsonIndent}.

Local Ltac reads :=
  repeat first
    [ apply emits_bind; [|intros ?] | apply emits_bind_ok; [|intros ?]
    | by apply emits_perform | done | case_match ].

Lemma read_ResolveName b dev m r : emits dashboard_read (ResolveName b dev m r).
Proof. unfold ResolveName, name_from_map, ResolveRegistry. reads. Qed.

Lemma read_ResolvePassword b ns a : emits dashboard_read (ResolvePassword b ns a).
Proof. unfold ResolvePassword, secretValue. reads. Qed.

Lemma read_live_view dev p n m b : emits dashboard_read (live_view dev p n m b).
Proof.
  unfold live_view. apply emits_bind; [apply read_ResolvePassword|]. intros pw.
  destruct (match pw with Ok _ => _ | Err _ => _ end) as [password message]. unfold GetConfig. reads.
Qed.

(** The dashboard only reads.  Whatever route is requested, with whatever
    name, its handler on no path writes to the cluster, sends a device any call
    other than Shelly.GetConfig, or uses the controller's cached clients. *)
Lemma routes_read (s : Server) :
  Forall (λ route, ∀ name, emits dashboard_read (route.2 name)) (routes s).
Proof.
  unfold routes. constructor; [|constructor; [|constructor; [|constructor]]]; cbn [snd]; intros name;
    [unfold handleFleet; by reads| |unfold handleProfiles; by reads].
  unfold handleDevice. apply emits_bind; [by apply emits_perform|]. intros [dev|e]; [|done].
  apply emits_bind; [by apply emits_perform|]. intros [ps|e]; [|done].
  apply emits_bind; [apply read_ResolveName|]. intros n.
  destruct (match n with Ok _ => _ | Err _ => _ end) as [nm msg].
  case_match; [|done]. case_match; [|done]. apply emits_bind; [apply read_live_view|done].
Qed.

(** ** Tables *)

Lemma inSync_found (c : option Condition) cs :
  head (filter (λ c, c.(cond_Type) = ConditionInSync) cs) = c →
  inSyncValue cs = boolToFloat (match c with
    | Some c => bool_decide (c.(cond_Status) = ConditionTrue) | None => false end).
Proof.
  intros <-. induction cs as [|c cs IH]; [done|]. cbn [inSyncValue]. rewrite filter_cons.
  destruct (String.eqb_spec (cond_Type c) ConditionInSync); case_decide; try done.
  cbn. by destruct (cond_Status c).
Qed.

(** The fleet page agrees with the metrics.  It has exactly one row per
    device object, in order of the object names, and a row is marked in sync
    exactly when the device's in-sync gauge reads 1. *)
Theorem handleFleet_rows `{!FindsFirst} {S : Type} (hd : handler S) (srv : Server) (s : S) items
  (Hlist : (hd (OListDevices srv.(srv_Namespace)) s).1 = Ok items) :
  ends hd (handleFleet srv) s (λ p _, ∃ rows, p = PageFleet rows ∧
    fl_Object <$> rows = sort_strings (meta_Name ∘ dev_Meta <$> items) ∧
    ∀ row, row ∈ rows ↔ ∃ d, d ∈ items ∧ row = fleet_row d ∧
      (row.(fl_SyncClass) = "ok" ↔ inSyncValue d.(dev_Status).(st_Conditions) = 1%Z)).
Proof.
  apply ends_bind, (ends_perform hd (OListDevices _)). rewrite Hlist. apply ends_ret.
  eexists. split; [done|]. split.
  - rewrite (sort_by_map fl_Object _ str_lt) by done. rewrite <-list_fmap_compose. unfold sort_strings.
    f_equal. apply list_fmap_ext. intros i d _. cbn. unfold fleet_row. by destruct (syncState d).
  - intros row. rewrite elem_of_sort_by, list_elem_of_fmap. split; [|intros (d & Hd & -> & _); eauto].
    intros (d & -> & Hd). exists d. split; [done|]. split; [done|].
    unfold fleet_row, syncState. rewrite find_first.
    destruct (head _) as [c|] eqn:Hc; rewrite (inSync_found _ _ Hc); cbn; [|by split].
    by destruct (cond_Status c).
Qed.

(** *** Counting *)

Definition governed (profiles : list ShellyProfile) (d : ShellyDevice) : option string :=
  prof_Name <$> (MatchProfile d profiles).1.

Lemma counts_lookup profiles devs n : ∀ acc,
  default 0 (foldl (count_profile profiles) acc devs !! n) =
  default 0 (acc !! n) + length (filter (λ d, governed profiles d = Some n) devs).
Proof.
  induction devs as [|d devs IH]; intros acc; cbn [foldl]; [cbn; lia|].
  rewrite IH, filter_cons. unfold count_profile, governed.
  destruct (MatchProfile d profiles).1 as [p|]; cbn; [|by rewrite decide_False].
  destruct (decide (prof_Name p = n)) as [<-|Hne].
  - rewrite lookup_insert_eq, decide_True by done. cbn. lia.
  - by rewrite lookup_insert_ne, decide_False by congruence.
Qed.

Lemma find_profile_elem ref ps p : find_profile ref ps = Some p → p ∈ ps.
Proof.
  induction ps as [|q ps IH]; [done|]. cbn. case_match; [|intros; constructor; by apply IH].
  intros [= ->]. constructor.
Qed.

Lemma MatchProfile_elem d ps p : (MatchProfile d ps).1 = Some p → p ∈ ps.
Proof.
  unfold MatchProfile. case_match.
  - destruct (find_profile _ ps) as [q|] eqn:Hq; [|done]. intros [= <-]. by eapply find_profile_elem.
  - pose proof (elem_of_match_scan d ps p) as Hm. destruct (match_scan _ ps) as [cands warns].
    cbn in Hm |- *. intros Hh%head_Some_elem_of. rewrite elem_of_sort_by in Hh. by apply Hm.
Qed.

(** Of names that occur once, exactly one is the given one. *)
Lemma one_of_names (ps : list ShellyProfile) n :
  NoDup (prof_Name <$> ps) → n ∈ prof_Name <$> ps →
  sum_list_with (λ p, if decide (prof_Name p = n) then 1 else 0) ps = 1.
Proof.
  induction ps as [|p ps IH]; [by intros _ ?%elem_of_nil|]. rewrite fmap_cons.
  intros [Hp Hnd]%NoDup_cons Hn. cbn. destruct (decide (prof_Name p = n)) as [<-|Hne].
  - assert (sum_list_with (λ q, if decide (prof_Name q = prof_Name p) then 1 else 0) ps = 0) as ->; [|done].
    clear IH Hn Hnd. induction ps as [|q ps IH]; [done|]. rewrite fmap_cons, not_elem_of_cons in Hp.
    destruct Hp as [Hq Hp]. cbn. rewrite decide_False by congruence. by apply IH.
  - apply IH; [done|]. apply elem_of_cons in Hn as [->|?]; done.
Qed.

Lemma sum_list_with_add {A} (f g : A → nat) l :
  sum_list_with (λ x, f x + g x) l = sum_list_with f l + sum_list_with g l.
Proof. induction l as [|x l IH]; cbn; [done|]. rewrite IH. lia. Qed.

Lemma sum_list_with_ext {A} (f g : A → nat) l :
  (∀ x, f x = g x) → sum_list_with f l = sum_list_with g l.
Proof. intros Hfg. induction l as [|x l IH]; cbn; [done|]. by rewrite Hfg, IH. Qed.

Lemma matched_total profiles devs :
  NoDup (prof_Name <$> profiles) →
  sum_list_with (λ p, length (filter (λ d, governed profiles d = Some (prof_Name p)) devs)) profiles
  = length (filter (λ d, is_Some (governed profiles d)) devs).
Proof.
  intros Hnd. induction devs as [|d devs IH].
  { cbn. clear Hnd. induction profiles as [|p ps IHp]; [done|]. exact IHp. }
  rewrite filter_cons. rewrite (sum_list_with_ext _ (λ p,
    (if decide (governed profiles d = Some (prof_Name p)) then 1 else 0)
    + length (filter (λ d, governed profiles d = Some (prof_Name p)) devs))).
  2:{ intros p. rewrite filter_cons. by case_decide. }
  rewrite sum_list_with_add, IH. destruct (governed profiles d) as [n|] eqn:Hg.
  - rewrite decide_True by eauto. cbn [length].
    rewrite (sum_list_with_ext _ (λ p, if decide (prof_Name p = n) then 1 else 0)).
    + rewrite one_of_names; [done|done|]. unfold governed in Hg. apply fmap_Some in Hg as (p & Hp & ->).
      apply list_elem_of_fmap_2. by eapply MatchProfile_elem.
    + intros p. destruct (decide (prof_Name p = n)) as [->|Hne]; [by rewrite decide_True|].
      by rewrite decide_False by congruence.
  - rewrite decide_False by (by intros [? ?]).
    rewrite (sum_list_with_ext _ (λ _, 0)) by (intros p; by case_decide).
    assert (Hzero : ∀ ps : list ShellyProfile, sum_list_with (λ _, 0) ps = 0) by by induction ps.
    by rewrite Hzero.
Qed.

(** The profile page counts every governed device once.  One row per
    profile, in name order; a row's count is the number of devices the profile
    governs (by the matching the controller uses), and the counts add up to the
    number of devices that have a profile. *)
Theorem profile_rows_count (profiles : list ShellyProfile) (devs : list ShellyDevice)
  (Hnd : NoDup (prof_Name <$> profiles)) :
  let rows := profile_rows profiles devs in
  pr_Name <$> rows = sort_strings (prof_Name <$> profiles) ∧
  (∀ row, row ∈ rows ↔ ∃ p, p ∈ profiles ∧
     row = MkProfileRow p.(prof_Name) p.(prof_Spec).(ps_Mode) p.(prof_Spec).(ps_Priority)
             (length (filter (λ d, prof_Name <$> (MatchProfile d profiles).1 = Some p.(prof_Name)) devs))) ∧
  sum_list_with pr_Matched rows =
    length (filter (λ d, is_Some (prof_Name <$> (MatchProfile d profiles).1)) devs).
Proof.
  assert (Hrow : ∀ p, profile_row (foldl (count_profile profiles) ∅ devs) p =
    MkProfileRow p.(prof_Name) p.(prof_Spec).(ps_Mode) p.(prof_Spec).(ps_Priority)
      (length (filter (λ d, governed profiles d = Some p.(prof_Name)) devs))).
  { intros p. unfold profile_row. f_equal. rewrite counts_lookup.
    by rewrite lookup_empty. }
  cbn zeta. unfold profile_rows. split_and!.
  - rewrite (sort_by_map pr_Name _ str_lt) by done. by rewrite <-list_fmap_compose.
  - intros row. rewrite elem_of_sort_by, list_elem_of_fmap. setoid_rewrite Hrow. naive_solver.
  - rewrite sort_by_perm. etrans; [|exact (matched_total profiles devs Hnd)].
    enough (Hsum : ∀ ps, sum_list_with pr_Matched (profile_row (foldl (count_profile profiles) ∅ devs) <$> ps) =
      sum_list_with (λ p, length (filter (λ d, governed profiles d = Some (prof_Name p)) devs)) ps) by apply Hsum.
    induction ps as [|p ps IH]; [done|]. rewrite fmap_cons. cbn [sum_list_with]. by rewrite IH, Hrow.
Qed.
End Facts.
