(* ===== verification/Window.v ===== *)
(** * Daily maintenance windows (internal/controller/rebootwindow.go)

    [withinRebootWindow] decides whether an instant falls in a profile's daily
    window; reboots and firmware updates are only ever sent inside one.
    [parse_15_04] is [time.Parse] on the layout "15:04".  A time zone is the
    function from instants to UTC offsets that [time.LoadLocation] returns. *)

From stdpp Require Import prelude gmap strings pretty sorting list.
From Stdlib Require Import Ascii.
From S2P Require Import Prelude Json Api Shelly.

(** A [time.Location]: seconds east of UTC at an instant. *)
Abbreviation location := (time → Z).

Class Locations : Type := {
  LoadLocation : string → res error location;
}.

Definition UTC : location := λ _, 0%Z.

(** ** Parsing "15:04" *)

Definition digit (c : ascii) : option Z :=
  let n := N_of_ascii c in
  if ((48 <=? n) && (n <=? 57))%N then Some (Z.of_N n - 48)%Z else None.

(** The [time] package's [getnum]: one or two digits, exactly two when fixed. *)
Definition getnum (s : string) (fixed : bool) : option (Z * string) :=
  match s with
  | String c0 rest =>
      match digit c0 with
      | None => None
      | Some d0 =>
          match rest with
          | String c1 rest1 =>
              match digit c1 with
              | Some d1 => Some ((d0 * 10 + d1)%Z, rest1)
              | None => if fixed then None else Some (d0, rest)
              end
          | EmptyString => if fixed then None else Some (d0, rest)
          end
      end
  | EmptyString => None
  end.

(** [time.Parse("15:04", s)]: hour and minute, or an error. *)
Definition parse_15_04 (s : string) : option (Z * Z) :=
  match getnum s false with
  | None => None
  | Some (hour, s1) =>
      if (24 <=? hour)%Z then None
      else match s1 with
           | String c s2 =>
               if Ascii.eqb c ":" then
                 match getnum s2 true with
                 | None => None
                 | Some (mn, rest) =>
                     if (60 <=? mn)%Z then None
                     else if String.eqb rest "" then Some (hour, mn) else None
                 end
               else None
           | EmptyString => None
           end
  end.

Section Window.
Context `{Fmt, Locations}.

Definition parseHHMM (s : string) : res error Z :=
  match parse_15_04 s with
  | None => Err (errorf (fmt_q s +:+ " is not HH:MM"))
  | Some (hour, mn) => Ok (hour * 60 + mn)%Z
  end.

(** [local.Hour()*60 + local.Minute()] for [local := now.In(loc)]. *)
Definition minutes_of_day (loc : location) (now : time) : Z :=
  ((now / Second + loc now) mod 86400 / 60)%Z.

Definition withinRebootWindow (now : time) (w : option RebootWindow) : res error bool :=
  match w with
  | None => Ok true
  | Some w =>
      try loc := (if String.eqb w.(rw_TimeZone) "" then Ok UTC
                  else match LoadLocation w.(rw_TimeZone) with
                       | Ok l => Ok l
                       | Err e => Err (wrap ("reboot window timeZone " +:+ fmt_q w.(rw_TimeZone)) e)
                       end) in
      try start := (match parseHHMM w.(rw_Start) with
                    | Ok m => Ok m | Err e => Err (wrap "reboot window start" e) end) in
      try stop := (match parseHHMM w.(rw_End) with
                   | Ok m => Ok m | Err e => Err (wrap "reboot window end" e) end) in
      let mins := minutes_of_day loc now in
      if (start =? stop)%Z then
        Err (errorf ("reboot window start and end are both " +:+ fmt_q w.(rw_Start)
                     +:+ ", which never opens"))
      else if (start <? stop)%Z then Ok ((start <=? mins) && (mins <? stop))%Z
      else Ok ((start <=? mins) || (mins <? stop))%Z
  end.
End Window.

(** ** Lemmas *)

(** A two-digit decimal. *)
Definition dig (d : Z) : ascii := ascii_of_N (Z.to_N d + 48).
Definition two (n : Z) : string := String (dig (n / 10)) (String (dig (n mod 10)) EmptyString).

(** "HH:MM". *)
Definition HHMM (hour mn : Z) : string := two hour +:+ ":" +:+ two mn.

Lemma digit_range c d : digit c = Some d → (0 <= d <= 9)%Z.
Proof.
  unfold digit. case_match eqn:E; [|done]. intros [= <-].
  apply andb_true_iff in E as [?%N.leb_le ?%N.leb_le]. lia.
Qed.

Lemma digit_dig d : (0 <= d <= 9)%Z → digit (dig d) = Some d.
Proof.
  intros Hd. assert (d = 0 ∨ d = 1 ∨ d = 2 ∨ d = 3 ∨ d = 4 ∨ d = 5 ∨ d = 6 ∨ d = 7 ∨ d = 8 ∨ d = 9)%Z
    as Hc by lia.
  by repeat (destruct Hc as [->|Hc]; [done|]); subst.
Qed.

Lemma getnum_two n rest b : (0 <= n < 100)%Z → getnum (two n +:+ rest) b = Some (n, rest).
Proof.
  intros Hn. unfold two. rewrite !str_app_cons, str_app_nil_l. cbn [getnum].
  assert (0 <= n / 10 <= 9)%Z by (split; [apply Z.div_pos|apply Z.lt_succ_r, Z.div_lt_upper_bound]; lia).
  assert (0 <= n mod 10 <= 9)%Z by (pose proof (Z.mod_pos_bound n 10); lia).
  rewrite !digit_dig by done. do 2 f_equal. pose proof (Z.div_mod n 10). lia.
Qed.

Lemma getnum_nonneg s b n rest : getnum s b = Some (n, rest) → (0 <= n)%Z.
Proof.
  unfold getnum. intros Hg. repeat (case_match; simplify_eq/=);
    repeat match goal with H : digit _ = Some _ |- _ => apply digit_range in H end; lia.
Qed.

Lemma parse_15_04_range s hour mn :
  parse_15_04 s = Some (hour, mn) → (0 <= hour < 24 ∧ 0 <= mn < 60)%Z.
Proof.
  unfold parse_15_04. intros Hp. repeat (case_match; simplify_eq/=).
  repeat match goal with H : getnum _ _ = Some _ |- _ => apply getnum_nonneg in H end.
  reflect_bools. lia.
Qed.

Lemma minutes_of_day_range loc now : (0 <= minutes_of_day loc now < 1440)%Z.
Proof.
  unfold minutes_of_day. set (x := (now / Second + loc now)%Z).
  pose proof (Z.mod_pos_bound x 86400). split; [apply Z.div_pos; lia|].
  apply Z.div_lt_upper_bound; lia.
Qed.

(** The distance from [a] forward to [b] on the clock face. *)
Definition forward (a b : Z) : Z := ((b - a) mod 1440)%Z.

Lemma forward_cases a b :
  (0 <= a < 1440)%Z → (0 <= b < 1440)%Z →
  forward a b = if (a <=? b)%Z then (b - a)%Z else (b - a + 1440)%Z.
Proof.
  intros Ha Hb. unfold forward. case_match; reflect_bools.
  - apply Z.mod_small. lia.
  - symmetry. apply (Z.mod_unique_pos _ _ (-1)); lia.
Qed.

Section WindowFacts.
Context `{Fmt, Locations}.

Lemma parseHHMM_range s m : parseHHMM s = Ok m → (0 <= m < 1440)%Z.
Proof.
  unfold parseHHMM. destruct (parse_15_04 s) as [[hour mn]|] eqn:E; [|done].
  apply parse_15_04_range in E. intros [= <-]. lia.
Qed.

Lemma parse_HHMM hour mn : (0 <= hour < 24)%Z → (0 <= mn < 60)%Z →
  parse_15_04 (HHMM hour mn) = Some (hour, mn).
Proof.
  intros Hh Hm. unfold parse_15_04, HHMM. rewrite getnum_two by lia.
  destruct (24 <=? hour)%Z eqn:E; reflect_bools; [lia|].
  rewrite str_app_cons, str_app_nil_l. cbn [Ascii.eqb Bool.eqb].
  rewrite <-(str_app_nil_r (two mn)), getnum_two by lia.
  destruct (60 <=? mn)%Z eqn:E2; reflect_bools; [lia|done].
Qed.

(** The zone a window is evaluated in. *)
Definition window_zone (w : RebootWindow) : option location :=
  if String.eqb w.(rw_TimeZone) "" then Some UTC
  else match LoadLocation w.(rw_TimeZone) with Ok l => Some l | Err _ => None end.

Lemma withinRebootWindow_cyclic now w b :
  withinRebootWindow now (Some w) = Ok b ↔
  ∃ loc start stop,
    window_zone w = Some loc ∧ parseHHMM w.(rw_Start) = Ok start ∧
    parseHHMM w.(rw_End) = Ok stop ∧ start ≠ stop ∧
    b = bool_decide (forward start (minutes_of_day loc now) < forward start stop)%Z.
Proof.
  assert (Hcy : ∀ loc start stop, (0 <= start < 1440)%Z → (0 <= stop < 1440)%Z → start ≠ stop →
    (if (start <? stop)%Z
     then ((start <=? minutes_of_day loc now) && (minutes_of_day loc now <? stop))%Z
     else ((start <=? minutes_of_day loc now) || (minutes_of_day loc now <? stop))%Z) =
    bool_decide (forward start (minutes_of_day loc now) < forward start stop)%Z).
  { intros loc start stop Hs He Hne. pose proof (minutes_of_day_range loc now) as Hm.
    rewrite !forward_cases by lia. symmetry.
    repeat match goal with |- context [(?a <=? ?b)%Z] => destruct (Z.leb_spec a b) end;
    repeat match goal with |- context [(?a <? ?b)%Z] => destruct (Z.ltb_spec a b) end;
    simpl; first [apply bool_decide_eq_true; lia|apply bool_decide_eq_false; lia|lia]. }
  unfold withinRebootWindow, window_zone.
  destruct (if String.eqb (rw_TimeZone w) "" then _ else _) as [loc|e] eqn:Hloc; simpl.
  2:{ split; [done|]. intros (loc & ? & ? & Hz & _). by repeat case_match; simplify_eq. }
  assert (Hz : (if String.eqb (rw_TimeZone w) "" then Some UTC
    else match LoadLocation (rw_TimeZone w) with Ok l => Some l | Err _ => None end) = Some loc).
  { by repeat case_match; simplify_eq. }
  rewrite Hz. destruct (parseHHMM (rw_Start w)) as [start|e] eqn:Hs; simpl; [|naive_solver].
  destruct (parseHHMM (rw_End w)) as [stop|e] eqn:He; simpl; [|naive_solver].
  apply parseHHMM_range in Hs, He. destruct (Z.eqb_spec start stop) as [->|Hne].
  { split; [done|]. naive_solver. }
  specialize (Hcy loc start stop Hs He Hne). revert Hcy.
  destruct (start <? stop)%Z; intros Hcy; rewrite Hcy; clear Hcy; split;
    try (intros [= <-]; by eauto 10); intros (? & ? & ? & ? & ? & ? & ? & ->); by simplify_eq.
Qed.
End WindowFacts.

(** ** Theorems *)

Section WindowTheorems.
Context `{Fmt, Locations}.

(** C36: a window follows the wall clock of its zone, whatever the zone does.  For a
    window HH:MM-HH:MM with distinct ends in any zone, daylight saving included, at
    any instant to the nanosecond: if the local clock, by the zone's offset at that
    very instant, stands [k] minutes (0 <= k < 1440) and some seconds after the
    start on some day, the window is open exactly when [k] is less than the
    distance from start to end on the clock.  So it opens at its start and stays
    open until its end on every local day, wrapping over midnight or not, and keeps
    its local times when the clocks change. *)
Theorem window_daily (w : RebootWindow) (loc : location) (now h1 m1 h2 m2 day k sub : Z)
  (Hz : window_zone w = Some loc)
  (Hs : w.(rw_Start) = HHMM h1 m1) (He : w.(rw_End) = HHMM h2 m2)
  (H1 : (0 <= h1 < 24 ∧ 0 <= m1 < 60)%Z) (H2 : (0 <= h2 < 24 ∧ 0 <= m2 < 60)%Z)
  (Hne : (h1, m1) ≠ (h2, m2)) (Hk : (0 <= k < 1440)%Z) (Hsub : (0 <= sub < 60)%Z)
  (Hnow : (now / Second + loc now = (day * 1440 + (h1 * 60 + m1) + k) * 60 + sub)%Z) :
  withinRebootWindow now (Some w) =
  Ok (bool_decide (k < forward (h1 * 60 + m1) (h2 * 60 + m2))%Z).
Proof.
  apply withinRebootWindow_cyclic. exists loc, (h1 * 60 + m1)%Z, (h2 * 60 + m2)%Z.
  unfold parseHHMM. rewrite Hs, He, !parse_HHMM by lia.
  split_and!; [done..| |]. { intros Heq. apply Hne. f_equal; lia. }
  match goal with |- _ = bool_decide (?x < _)%Z => enough (x = k) as -> by done end.
  unfold forward, minutes_of_day. rewrite Hnow. set (t := (day * 1440 + (h1 * 60 + m1) + k)%Z).
  assert (Hmin : ((t * 60 + sub) mod 86400 / 60 = t mod 1440)%Z).
  { symmetry. apply (Z.div_unique_pos _ _ _ sub); [done|].
    symmetry. apply (Z.mod_unique_pos _ _ (t / 1440)).
    - pose proof (Z.mod_pos_bound t 1440). lia.
    - pose proof (Z.div_mod t 1440). lia. }
  rewrite Hmin, Zminus_mod_idemp_l. subst t.
  symmetry. apply (Z.mod_unique_pos _ _ day); lia.
Qed.

(** A malformed window is never open: when the zone does not load, an end
    does not parse, or both ends denote the same minute, the answer is an error
    at every instant. *)
Theorem window_malformed (w : RebootWindow) (now : time)
  (Hbad : window_zone w = None ∨ parse_15_04 w.(rw_Start) = None ∨
          parse_15_04 w.(rw_End) = None ∨
          parse_15_04 w.(rw_Start) = parse_15_04 w.(rw_End)) :
  ∃ e, withinRebootWindow now (Some w) = Err e.
Proof.
  destruct (withinRebootWindow now (Some w)) as [b|e] eqn:E; [|by exists e].
  apply withinRebootWindow_cyclic in E as (loc & start & stop & Hz & Hs & He & Hne & _).
  exfalso. unfold parseHHMM in *.
  destruct Hbad as [Hb|[Hb|[Hb|Hb]]]; rewrite ?Hb in *; try done.
  by repeat case_match; simplify_eq.
Qed.
End WindowTheorems.
