(* ===== verification/Update.v ===== *)
(** * Firmware updates (internal/controller/firmwareupdate.go)

    Installing a pending stable firmware: the gates, the fleet-wide slot, the
    persisted attempt and the request.  [claim_locked] is the critical section of
    [claimUpdateSlot]: handlers run it atomically, as the mutex does. *)

From stdpp Require Import prelude gmap strings pretty sorting list.
From S2P Require Import Prelude Json Api Diff Shelly Effects Client Fleet Window Apply.

Definition updateSettle : duration := (20 * Minute)%Z.

(** One cycle's Sys.GetStatus result (shellydevice_controller.go). *)
Record sysRead : Type := MkSysRead {
  sr_restartRequired : bool;
  sr_availableFirmware : string;
  sr_fresh : bool;
}.

Definition updateInFlight (dev : ShellyDevice) (now : time) : bool * duration :=
  match dev.(dev_Status).(st_LastFirmwareUpdate) with
  | None => (false, 0%Z)
  | Some last =>
      if last.(fua_Refused) || negb (String.eqb dev.(dev_Status).(st_Firmware) last.(fua_From))
      then (false, 0%Z)
      else
        let remaining := int64 (updateSettle - time_Sub now last.(fua_Time)) in
        if (remaining <=? 0)%Z then (false, 0%Z) else (true, remaining)
  end.

(** ** The fleet-wide slot *)

(** The latest of the in-memory start and the persisted attempts. *)
Definition latest_start (last : time) (attempts : list time) : time :=
  fold_left (λ latest t, if time_After t latest then t else latest) attempts last.

(** The region under [updateMu]: whether the slot is granted, and the new
    [lastUpdateStart]. *)
Definition claim_locked (spacing : duration) (attempts : list time) (now last : time)
  : bool * time :=
  let latest := latest_start last attempts in
  if negb (IsZero latest) && (time_Sub now latest <? spacing)%Z then (false, last)
  else (true, now).

(** The minimum gap, with its default. *)
Definition spacing_of (r : Settings) : duration :=
  if (r.(rs_UpdateSpacing) <=? 0)%Z then (2 * Minute)%Z else r.(rs_UpdateSpacing).

Definition claimUpdateSlot (r : Settings) (namespace : string) : prog bool :=
  devs <- perform (OListDevices namespace) ;;
  match devs with
  | Err _ => Ret false
  | Ok items =>
      perform (OClaim (spacing_of r)
        (omap (λ d, fua_Time <$> d.(dev_Status).(st_LastFirmwareUpdate)) items))
  end.

(** ** Recording the attempt *)

Definition with_attempt (a : option FirmwareUpdateAttempt) (dev : ShellyDevice) : ShellyDevice :=
  upd_status (set_st_LastFirmwareUpdate a) dev.

(** Whether it was persisted, and the object in memory. *)
Definition recordUpdateAttempt (r : Settings) (dev : ShellyDevice)
  (attempt : FirmwareUpdateAttempt) : prog (bool * ShellyDevice) :=
  let dev' := with_attempt (Some attempt) dev in
  p <- perform (OStatusPatch dev dev') ;;
  match p with
  | Ok server => Ret (true, server)
  | Err _ =>
      let failed :=
        record_event r dev' EventWarning "FirmwareUpdateNotRecorded"
          "could not persist status.lastFirmwareUpdate" ;;;
        Ret (false, with_attempt dev.(dev_Status).(st_LastFirmwareUpdate) dev') in
      g <- perform (OGetDevice (dev_Namespace dev) (dev_Name dev)) ;;
      match g with
      | Err _ => failed
      | Ok fresh =>
          p2 <- perform (OStatusPatch fresh (with_attempt (Some attempt) fresh)) ;;
          match p2 with
          | Ok _ => Ret (true, dev')
          | Err _ => failed
          end
      end
  end.

Section Update.
Context `{Fmt, Locations}.

(** The gates before the slot: profile opt-in, a fresh read with a pending
    version, an open window, and no recent attempt at the same version. *)
Definition update_gates (r : Settings) (dev : ShellyDevice) (profile : ShellyProfile)
  (sys : sysRead) : prog bool :=
  if negb profile.(prof_Spec).(ps_UpdateWhenAvailable) ||
     negb (String.eqb profile.(prof_Spec).(ps_Mode) ModeEnforce) then Ret false
  else if negb sys.(sr_fresh) || String.eqb sys.(sr_availableFirmware) "" then Ret false
  else match profile.(prof_Spec).(ps_UpdateWindow) with
  | None => Ret false
  | Some w =>
      now <- perform ONow ;;
      match withinRebootWindow now (Some w) with
      | Err e =>
          record_event r dev EventWarning "UpdateWindowInvalid"
            ("not updating firmware: " +:+ e.(err_text)) ;;;
          Ret false
      | Ok false => Ret false
      | Ok true =>
          match dev.(dev_Status).(st_LastFirmwareUpdate) with
          | Some last =>
              if negb last.(fua_Refused) &&
                 String.eqb last.(fua_Target) sys.(sr_availableFirmware) then
                now2 <- perform ONow ;;
                Ret (negb (time_Sub now2 last.(fua_Time) <? updateSettle)%Z)
              else Ret true
          | None => Ret true
          end
      end
  end.

(** The request itself, once the attempt is persisted. *)
Definition send_update (r : Settings) (c : Client) (dev : ShellyDevice) (from : string)
  (attempt : FirmwareUpdateAttempt) (sys : sysRead) : prog (bool * ShellyDevice) :=
  callErr <- Update c "stable" ;;
  match callErr with
  | Ok _ =>
      record_event r dev EventNormal "FirmwareUpdateStarted"
        ("requested stable firmware " +:+ sys.(sr_availableFirmware)
         +:+ " (running " +:+ from +:+ ")") ;;;
      Ret (true, dev)
  | Err e =>
      let refused := IsRefusal e in
      let done := MkFirmwareUpdateAttempt attempt.(fua_Time) attempt.(fua_From)
                    attempt.(fua_Target) e.(err_text) refused in
      record_event r dev EventWarning "FirmwareUpdateFailed"
        (if refused
         then "Shelly.Update to " +:+ sys.(sr_availableFirmware) +:+ " refused: " +:+ e.(err_text)
         else "Shelly.Update to " +:+ sys.(sr_availableFirmware)
              +:+ " did not answer cleanly; it may be installing: " +:+ e.(err_text)) ;;;
      rec <- recordUpdateAttempt r dev done ;;
      Ret (negb refused, rec.2)
  end.

(** Whether a request went out that the device may be installing, and the object
    in memory.  [profile] is never nil where it is called. *)
Definition updateIfAvailable (r : Settings) (c : Client) (dev : ShellyDevice)
  (profile : ShellyProfile) (sys : sysRead) : prog (bool * ShellyDevice) :=
  gates <- update_gates r dev profile sys ;;
  if negb gates then Ret (false, dev)
  else
    slot <- claimUpdateSlot r (dev_Namespace dev) ;;
    if negb slot then Ret (false, dev)
    else
      let from := dev.(dev_Status).(st_Firmware) in
      now <- perform ONow ;;
      let attempt := MkFirmwareUpdateAttempt now from sys.(sr_availableFirmware) "" false in
      rec <- recordUpdateAttempt r dev attempt ;;
      let '(recorded, dev) := rec in
      if negb recorded then Ret (false, dev)
      else send_update r c dev from attempt sys.
End Update.
