(* ===== verification/Reconcile.v ===== *)
(** * The device controller (internal/controller/shellydevice_controller.go)

    [Reconcile] and its helpers, as one program over the operations of Effects.v.
    A helper that changes the in-memory device object returns the new object. *)

From stdpp Require Import prelude gmap strings pretty sorting list.
From Stdlib Require Import SpecFloat.
From S2P Require Import Prelude Json Floats Api Diff Order Match Render Shelly Effects Client Jobs Fleet Window Apply Update.

Record ctrl_Result : Type := MkResult {
  RequeueAfter : duration;
}.

Definition no_requeue : ctrl_Result := MkResult 0.

(** ** Jitter *)

(** 0.9 and 0.2 in float64. *)
Definition f09 : spec_float := S754_finite false 8106479329266893 (-53).
Definition f02 : spec_float := S754_finite false 7205759403792794 (-55).

Definition jitter_of (interval : duration) (rand : spec_float) : duration :=
  let d := if (interval <=? 0)%Z then (5 * Minute)%Z else interval in
  trunc (SFmul 53 1024 (float64_of_Z d) (SFadd 53 1024 f09 (SFmul 53 1024 f02 rand))).

Definition jitter (r : Settings) : prog duration :=
  x <- perform ORandom ;; Ret (jitter_of r.(rs_Interval) x).

(** ** The client cache *)

(** The reconciler's mutable fields.  [rst_next] is the next fresh pointer. *)
Record RState : Type := MkRState {
  rst_lastUpdateStart : time;
  rst_clients : gmap string (string * Client);
  rst_next : nat;
}.

(** The region under [clientMu]. *)
Definition deviceClient (addr password : string) (s : RState) : Client * RState :=
  let build :=
    let c := MkClient s.(rst_next) addr password in
    (c, MkRState s.(rst_lastUpdateStart) (<[addr := (password, c)]> s.(rst_clients))
          (S s.(rst_next))) in
  match s.(rst_clients) !! addr with
  | Some (pw, c) => if String.eqb pw password then (c, s) else build
  | None => build
  end.

(** ** Messages *)

Definition withWarnings (msg : string) (warns : list string) : string :=
  match warns with
  | [] => msg
  | _ => msg +:+ " (warnings: " +:+ Join warns "; " +:+ ")"
  end.

Definition appendProfileWarnings (profile : ShellyProfile) (desiredName : string)
  (warns : list string) : list string :=
  let cfg := profile.(prof_Spec).(ps_Config) in
  warns ++
  match cfg.(cfg_Name) with
  | Some n => if n.(name_Managed) && String.eqb desiredName ""
              then ["name managed but unresolvable (no displayName or name-map entry)"] else []
  | None => []
  end ++
  match cfg.(cfg_Wifi) ≫= wifi_Sta with
  | Some sta =>
      (if negb (String.eqb sta.(net_SSID) "") &&
          bool_decide (cfg.(cfg_Wifi) ≫= wifi_Sta1 = None)
       then ["wifi.sta is managed without a wifi.sta1 fallback; a wrong network can strand devices"]
       else []) ++
      match sta.(net_Enable) with
      | Some false =>
          ["wifi.sta is declared disabled; a device without another enabled network will be stranded"]
      | _ => []
      end
  | None => []
  end.

Section Reconcile.
Context `{Selectors, Conditions, Fmt, StrConv, JsonText, Sha256, RegistryJson, QualifiedNames, Locations}.

(** ** finish *)

(** The status [finish] writes. *)
Definition finished (dev : ShellyDevice) (status : ConditionStatus) (reason message : string)
  (findings : list Finding) (matchedProfile : string) : ShellyDevice :=
  upd_status (λ st,
    set_st_Conditions
      (SetStatusCondition st.(st_Conditions)
         (MkCondition ConditionInSync status reason message dev.(dev_Meta).(meta_Generation)
            time_zero))
      (set_st_DriftedSections (Sections findings) (set_st_MatchedProfile matchedProfile st))) dev.

(** What is read through a pointer to element [i] of the object's conditions
    once the object was patched: [SetStatusCondition] wrote [sent] into the same
    array, and decoding the server's answer into the object resets the slice and
    refills that array. *)
Definition through (i : nat) (sent answered : list Condition) : option Condition :=
  match answered !! i with
  | Some c => Some c
  | None => sent !! i
  end.

Definition finish (r : Settings) (dev : ShellyDevice) (status : ConditionStatus)
  (reason message : string) (findings : list Finding) (matchedProfile : string)
  : prog (ctrl_Result * option error) :=
  let prev := condition_index dev.(dev_Status).(st_Conditions) ConditionInSync in
  let sent := finished dev status reason message findings matchedProfile in
  p <- perform (OStatusPatch dev sent) ;;
  match p with
  | Err e => Ret (no_requeue, Some e)
  | Ok dev' =>
      (if match prev ≫= λ i, through i sent.(dev_Status).(st_Conditions)
                               dev'.(dev_Status).(st_Conditions) with
          | None => true
          | Some c => negb (bool_decide (c.(cond_Status) = status)) ||
                      negb (String.eqb c.(cond_Reason) reason)
          end
       then record_event r dev'
              (match status with ConditionFalse => EventWarning | _ => EventNormal end)
              reason message
       else Ret tt) ;;;
      d <- jitter r ;;
      Ret (MkResult d, None)
  end.

(** ** Sys.GetStatus *)

Definition stampSysStatus (r : Settings) (c : Client) (dev : ShellyDevice)
  : prog (sysRead * ShellyDevice) :=
  st <- GetSysStatus c ;;
  match st with
  | Err _ => Ret (MkSysRead false "" false, dev)
  | Ok st =>
      let wantFW := default "" st.(ss_Stable) in
      let read := MkSysRead st.(ss_RestartRequired) wantFW true in
      if String.eqb dev.(dev_Status).(st_AvailableFirmware) wantFW &&
         Bool.eqb dev.(dev_Status).(st_RestartRequired) st.(ss_RestartRequired)
      then Ret (read, dev)
      else
        let dev' := upd_status (λ s, set_st_RestartRequired st.(ss_RestartRequired)
                                       (set_st_AvailableFirmware wantFW s)) dev in
        p <- perform (OStatusPatch dev dev') ;;
        match p with
        | Ok server => Ret (read, server)
        | Err _ =>
            Ret (read, upd_status (λ s,
              set_st_RestartRequired dev.(dev_Status).(st_RestartRequired)
                (set_st_AvailableFirmware dev.(dev_Status).(st_AvailableFirmware) s)) dev')
        end
  end.

(** ** Reboot *)

Definition rebootIfRequested (r : Settings) (c : Client) (dev : ShellyDevice)
  (profile : ShellyProfile) (restartRequired sysStatusFresh : bool) : prog ShellyDevice :=
  if negb profile.(prof_Spec).(ps_RebootWhenRequired) ||
     negb (String.eqb profile.(prof_Spec).(ps_Mode) ModeEnforce) then Ret dev
  else if negb sysStatusFresh || negb restartRequired then Ret dev
  else
    now <- perform ONow ;;
    match withinRebootWindow now profile.(prof_Spec).(ps_RebootWindow) with
    | Err e =>
        record_event r dev EventWarning "RebootWindowInvalid"
          ("not rebooting: " +:+ e.(err_text)) ;;;
        Ret dev
    | Ok false => Ret dev
    | Ok true =>
        err <- Reboot c ;;
        match err with
        | Err e =>
            record_event r dev EventWarning "RebootFailed"
              ("reboot requested but the call did not complete cleanly: " +:+ e.(err_text)) ;;;
            Ret dev
        | Ok _ =>
            record_event r dev EventNormal "Rebooted"
              "rebooted to apply a setting the device reported as needing a restart" ;;;
            let dev' := upd_status (set_st_RestartRequired false) dev in
            p <- perform (OStatusPatch dev dev') ;;
            match p with
            | Ok server => Ret server
            | Err _ =>
                Ret (upd_status (set_st_RestartRequired dev.(dev_Status).(st_RestartRequired)) dev')
            end
        end
    end.

(** ** Enforcement gate *)

(** How [runEnforce] ends: [Done] when Reconcile returns at once, [Continue] with
    the findings left and the device object. *)
Inductive enforcement : Type :=
| Done (result : ctrl_Result * option error)
| Continue (findings : list Finding) (dev : ShellyDevice).

(** The previous cycle already wrote exactly this drift and it came back. *)
Definition damped (dev : ShellyDevice) (findings : list Finding) (warns : list string) : bool :=
  match FindStatusCondition dev.(dev_Status).(st_Conditions) ConditionInSync with
  | None => false
  | Some prev =>
      String.eqb prev.(cond_Reason) ReasonNotConverging &&
      String.eqb prev.(cond_Message) (withWarnings (Summarize findings) warns)
  end.

Definition runEnforce (r : Settings) (c : Client) (dev : ShellyDevice) (profile : ShellyProfile)
  (desired : desired_config) (desiredName password : string) (wifiPw : WifiPasswords)
  (findings : list Finding) (warns : list string) : prog enforcement :=
  let pname := profile.(prof_Name) in
  if damped dev findings warns then
    res <- finish r dev ConditionFalse ReasonNotConverging
             (withWarnings (Summarize findings) warns) findings pname ;;
    Ret (Done res)
  else
    e <- enforceAndRecheck r c dev profile desired desiredName password wifiPw findings
           dev.(dev_Status).(st_AuthEnabled) ;;
    let '(applied, authNow, outcome) := e in
    match outcome with
    | Err (RecheckError err) =>
        if decide (sectionWifi ∈ applied) then
          res <- finish r dev ConditionUnknown ReasonWifiApplied
            (withWarnings ("wifi configuration applied; device no longer reachable at "
               +:+ dev.(dev_Status).(st_Address)
               +:+ " -- it may have moved networks; discovery will update the address when it reappears (ensure --discovery-cidrs covers the new subnet)") warns)
            [] pname ;;
          Ret (Done res)
        else
          res <- finish r dev ConditionUnknown ReasonConfigFetchFailed
                   (withWarnings err.(err_text) warns) [] pname ;;
          Ret (Done res)
    | Err (ApplyError err) =>
        res <- finish r dev ConditionFalse ReasonApplyFailed
                 (withWarnings ("enforcing drifted config: " +:+ err.(err_text)) warns)
                 findings pname ;;
        Ret (Done res)
    | Ok findings' =>
        let dev := upd_status (set_st_AuthEnabled authNow) dev in
        if existsb (λ f, bool_decide (f.(Section_) ∈ applied)) findings' then
          record_event r dev EventWarning "EnforcementNotConverging"
            "device still reports drift in sections that were just written" ;;;
          res <- finish r dev ConditionFalse ReasonNotConverging
                   (withWarnings (Summarize findings') warns) findings' pname ;;
          Ret (Done res)
        else Ret (Continue findings' dev)
    end.

(** ** Reconcile *)

(** [r.finish(ctx, &dev, metav1.ConditionUnknown, reason, msg, nil, profile)]. *)
Definition finish_unknown (r : Settings) (dev : ShellyDevice) (reason msg pname : string)
  : prog (ctrl_Result * option error) :=
  finish r dev ConditionUnknown reason msg [] pname.

(** What GetConfig's error is reported as. *)
Definition fetch_failure (password : string) (e : error) : string * string :=
  if is_AuthError e then
    (ReasonAuthRequired,
     if String.eqb password ""
     then "device requires auth and no password is configured (set spec.config.auth.passwordSecretRef)"
     else "configured password rejected by device; restore the previous password in the Secret or factory-reset the device")
  else (ReasonConfigFetchFailed, "fetching device config: " +:+ e.(err_text)).

(** From the drift check to the end. *)
Definition check_and_enforce (r : Settings) (c : Client) (dev : ShellyDevice)
  (profile : ShellyProfile) (desiredName password : string) (wifiPw : WifiPasswords)
  (warns : list string) (actual : actual_config) (sys : sysRead)
  : prog (ctrl_Result * option error) :=
  let pname := profile.(prof_Name) in
  order <- perform (ORange actual) ;;
  let desired := Render profile.(prof_Spec).(ps_Config) desiredName order actual in
  match Diff desired actual with
  | Err e => finish_unknown r dev ReasonConfigFetchFailed ("parsing device config: " +:+ e) pname
  | Ok fs =>
      let fs := appendAuthFinding profile fs dev.(dev_Status).(st_AuthEnabled) in
      f1 <- appendFirmwareFindings c profile fs ;;
      match f1 with
      | Err e => finish_unknown r dev ReasonConfigFetchFailed
                   ("fetching schedule jobs: " +:+ e.(err_text)) pname
      | Ok fs =>
          f2 <- appendScheduleFindings c profile fs ;;
          match f2 with
          | Err e => finish_unknown r dev ReasonConfigFetchFailed
                       ("fetching schedule jobs for schedule section: " +:+ e.(err_text)) pname
          | Ok findings =>
              outcome <-
                (if String.eqb profile.(prof_Spec).(ps_Mode) ModeEnforce &&
                    negb (bool_decide (findings = [])) && negb dev.(dev_Spec).(ds_Paused)
                 then runEnforce r c dev profile desired desiredName password wifiPw findings warns
                 else Ret (Continue findings dev)) ;;
              match outcome with
              | Done res => Ret res
              | Continue findings dev =>
                  dev <- rebootIfRequested r c dev profile sys.(sr_restartRequired) sys.(sr_fresh) ;;
                  match findings with
                  | [] => finish r dev ConditionTrue ReasonInSync
                            (withWarnings ("configuration matches profile " +:+ pname) warns) [] pname
                  | _ => finish r dev ConditionFalse ReasonDrifted
                           (withWarnings (Summarize findings) warns) findings pname
                  end
              end
          end
      end
  end.

(** The part that talks to the device. *)
Definition reconcile_device (r : Settings) (dev : ShellyDevice) (profile : ShellyProfile)
  (desiredName password : string) (wifiPw : WifiPasswords) (warns : list string)
  : prog (ctrl_Result * option error) :=
  let pname := profile.(prof_Name) in
  c <- perform (OClient dev.(dev_Status).(st_Address) password) ;;
  actual <- GetConfig c ;;
  match actual with
  | Err e => let '(reason, msg) := fetch_failure password e in finish_unknown r dev reason msg pname
  | Ok actual =>
      sd <- stampSysStatus r c dev ;;
      let '(sys, dev) := sd in
      ud <- updateIfAvailable r c dev profile sys ;;
      let '(sent, dev) := ud in
      if sent then Ret (MkResult updateSettle, None)
      else check_and_enforce r c dev profile desiredName password wifiPw warns actual sys
  end.

(** With the profile matched: credentials, name and registry labels first. *)
Definition reconcile_matched (r : Settings) (dev : ShellyDevice) (profile : ShellyProfile)
  (warns : list string) : prog (ctrl_Result * option error) :=
  let pname := profile.(prof_Name) in
  let cfg := profile.(prof_Spec).(ps_Config) in
  password <- ResolvePassword r.(rs_Reader) (dev_Namespace dev) cfg.(cfg_Auth) ;;
  match password with
  | Err e => finish_unknown r dev ReasonCredentialsError e.(err_text) pname
  | Ok password =>
      wifiPw <- ResolveWifiPasswords r.(rs_Reader) (dev_Namespace dev) cfg.(cfg_Wifi) ;;
      match wifiPw with
      | Err e => finish_unknown r dev ReasonCredentialsError e.(err_text) pname
      | Ok wifiPw =>
          name <- ResolveName r.(rs_Reader) dev r.(rs_NameMapName) r.(rs_RegistryName) ;;
          match name with
          | Err e => finish_unknown r dev ReasonConfigFetchFailed e.(err_text) pname
          | Ok desiredName =>
              let warns := appendProfileWarnings profile desiredName warns in
              stamped <- stampRegistry r.(rs_Reader) r.(rs_RegistryName) dev ;;
              let '(err, dev) := stamped in
              match err with
              | Some e => finish_unknown r dev ReasonConfigFetchFailed e.(err_text) pname
              | None => reconcile_device r dev profile desiredName password wifiPw warns
              end
          end
      end
  end.

Definition Reconcile (r : Settings) (namespace name : string) : prog (ctrl_Result * option error) :=
  g <- perform (OGetDevice namespace name) ;;
  match g with
  | Err e => Ret (no_requeue, if is_NotFound e then None else Some e)
  | Ok dev =>
      let matched := dev.(dev_Status).(st_MatchedProfile) in
      if dev.(dev_Spec).(ds_Paused) then
        finish_unknown r dev ReasonPaused "reconciliation paused via spec.paused" matched
      else if negb dev.(dev_Status).(st_Online) then
        finish_unknown r dev ReasonOffline "device offline; skipping drift check" matched
      else
        now <- perform ONow ;;
        match updateInFlight dev now with
        | (true, wait) => Ret (MkResult wait, None)
        | (false, _) =>
            l <- perform (OListProfiles (dev_Namespace dev)) ;;
            match l with
            | Err e => Ret (no_requeue, Some e)
            | Ok profiles =>
                match MatchProfile dev profiles with
                | (None, warns) =>
                    let '(reason, msg) :=
                      if String.eqb dev.(dev_Spec).(ds_ProfileRef) ""
                      then (ReasonNoProfile, "no ShellyProfile matches this device")
                      else (ReasonProfileNotFound,
                            "spec.profileRef " +:+ fmt_q dev.(dev_Spec).(ds_ProfileRef)
                            +:+ " not found") in
                    let msg := match warns with
                               | [] => msg
                               | _ => msg +:+ " (" +:+ Join warns "; " +:+ ")"
                               end in
                    finish_unknown r dev reason msg ""
                | (Some profile, warns) => reconcile_matched r dev profile warns
                end
            end
        end
  end.
End Reconcile.
