(* ===== verification/Converge.v ===== *)
(** * Enforcement reaches the desired state

    Against a cooperative device, one round of enforcement writes every drifted
    section, job and credential, and the verification read that follows finds
    nothing left: [enforceAndRecheck] returns no findings.  The proof runs the
    controller's program on the abstract device of DeviceView.v. *)

From stdpp Require Import prelude gmap strings pretty sorting list.
From Stdlib Require Import Ascii.
From S2P Require Import Prelude Json Api Diff Order Match Render Shelly Effects Client Decode Rpc Digest FakeDevice Wire Jobs DeviceView Fleet Window Apply Update Reconcile.

(** ** The two plans on a device *)

(** A step that can be executed on the store. *)
Definition ready (sec : ScheduleSection) (a : scheduleAction) (st : list ScheduleJob * Z) : Prop :=
  match a.(act_kind) with
  | AUpdate => a.(act_job).(job_ID) ∈ job_ID <$> st.1 ∧ a.(act_job).(job_Calls) ≠ []
               ∧ job_json a.(act_job)
  | ADelete => a.(act_id) ∈ job_ID <$> st.1
  | ACreate =>
      (st.2 + 1 < 2 ^ 53)%Z ∧
      ∃ n spec calls, a.(act_job).(job_ID) = (-1 - Z.of_nat n)%Z ∧ sec.(sched_Jobs) !! n = Some spec
        ∧ specCalls spec.(js_Calls) = Ok calls ∧ calls ≠ [] ∧ job_json (job_of_spec spec calls)
  end.

(** A spec the API server admits: decodable params, at least one call, and text. *)
Definition spec_ok (spec : ScheduleJobSpec) : Prop :=
  ∃ calls, specCalls spec.(js_Calls) = Ok calls ∧ calls ≠ [] ∧ job_json (job_of_spec spec calls).

Fixpoint feasible (sec : ScheduleSection) (acts : list scheduleAction)
  (st : list ScheduleJob * Z) : Prop :=
  match acts with
  | [] => True
  | a :: acts => ready sec a st ∧ ∀ st', exec_action sec st a = Some st' → feasible sec acts st'
  end.

Lemma feasible_app sec a1 : ∀ a2 st,
  feasible sec a1 st → (∀ st', exec_plan sec a1 st = Some st' → feasible sec a2 st') →
  feasible sec (a1 ++ a2) st.
Proof.
  induction a1 as [|a a1 IH]; intros a2 st H1 H2; cbn in *; [by apply H2|].
  destruct H1 as [Hr H1]. split; [done|]. intros st' Hst. apply IH; [by apply H1|].
  intros st2 Hst2. apply H2. by rewrite Hst.
Qed.

Lemma store_update_ids job jobs : job_ID <$> store_update job jobs = job_ID <$> jobs.
Proof.
  unfold store_update. rewrite <-list_fmap_compose. apply list_fmap_ext.
  intros k j Hj. cbn. by case_decide.
Qed.

(** *** The three passes *)

Lemma feasible_updates sec ups : ∀ st,
  (∀ a, a ∈ ups → act_kind a = AUpdate ∧ (a.(act_job).(job_ID)) ∈ job_ID <$> st.1
                  ∧ a.(act_job).(job_Calls) ≠ [] ∧ job_json a.(act_job)) →
  feasible sec ups st ∧
  ∀ st', exec_plan sec ups st = Some st' → job_ID <$> st'.1 = job_ID <$> st.1 ∧ st'.2 = st.2.
Proof.
  induction ups as [|a ups IH]; intros st Hups; [split; [done|]; by intros st' [= <-]|].
  destruct (Hups a) as (Hk & Hid & Hc); [constructor|].
  assert (Hexec : exec_action sec st a = Some (store_update a.(act_job) st.1, st.2))
    by (unfold exec_action; by rewrite Hk).
  destruct (IH (store_update a.(act_job) st.1, st.2)) as [Hf He].
  { intros a' Ha'. cbn. rewrite store_update_ids. apply Hups. by constructor. }
  cbn. rewrite Hexec. unfold ready. rewrite Hk. split.
  - split; [done|]. by intros st' [= <-].
  - cbn. intros st' Hst'. apply He in Hst' as [-> ->]. cbn. by rewrite store_update_ids.
Qed.

Lemma feasible_creates sec specs : ∀ ms n st,
  (∀ i spec, specs !! i = Some spec → sec.(sched_Jobs) !! (n + i) = Some spec) →
  (∀ spec, spec ∈ specs → spec_ok spec) →
  (st.2 + Z.of_nat (length specs) < 2 ^ 53)%Z →
  feasible sec (create_pass n specs ms) st ∧
  ∀ st', exec_plan sec (create_pass n specs ms) st = Some st' →
    (∀ id, id ∈ job_ID <$> st.1 → id ∈ job_ID <$> st'.1) ∧ (st'.2 ≤ st.2 + Z.of_nat (length specs))%Z.
Proof.
  induction specs as [|spec specs IH]; intros [|m ms] n st Hat Hok Hlt; cbn [create_pass];
    try (split; [done|]; intros st' [= <-]; split; [done|cbn; lia]).
  assert (Hat' : ∀ i s, specs !! i = Some s → sched_Jobs sec !! (S n + i) = Some s).
  { intros i s Hi. specialize (Hat (S i) s Hi). by rewrite Nat.add_succ_r in Hat. }
  assert (Hok' : ∀ s, s ∈ specs → spec_ok s)
    by (intros; apply Hok; by constructor).
  cbn [length] in Hlt.
  assert (Hskip : feasible sec (create_pass (S n) specs ms) st ∧
    ∀ st', exec_plan sec (create_pass (S n) specs ms) st = Some st' →
    (∀ id, id ∈ job_ID <$> st.1 → id ∈ job_ID <$> st'.1)
    ∧ (st'.2 ≤ st.2 + Z.of_nat (S (length specs)))%Z).
  { destruct (IH ms (S n) st Hat' Hok' ltac:(lia)) as [Hf He]. split; [done|].
    intros st' Hst'. destruct (He st' Hst'). split; [done|lia]. }
  destruct m; [done|]. destruct (specIsUpdateJob spec); [done|]. cbn [app].
  destruct (Hok spec) as (calls & Hcalls & Hne & Hjson); [constructor|].
  specialize (Hat 0 spec eq_refl). rewrite Nat.add_0_r in Hat.
  assert (Hexec : exec_action sec st (create_action n spec) =
    Some (store_create st.2 (job_of_spec spec calls) st.1, (st.2 + 1)%Z)).
  { unfold exec_action. cbn. replace (Z.to_nat _) with n by lia. rewrite Hat. cbn. by rewrite Hcalls. }
  destruct (IH ms (S n) (store_create st.2 (job_of_spec spec calls) st.1, (st.2 + 1)%Z) Hat' Hok')
    as [Hf He]; [cbn; lia|]. cbn [feasible exec_plan]. rewrite Hexec. split.
  - split; [|by intros st' [= <-]]. split; [lia|]. by exists n, spec, calls.
  - cbn [mbind option_bind]. intros st' Hst'. apply He in Hst' as [Hid Hle]. cbn in *. split; [|lia].
    intros id Hin. apply Hid. unfold store_create. rewrite fmap_app, elem_of_app. by left.
Qed.

Lemma feasible_deletes sec js : ∀ st,
  NoDup (job_ID <$> js) → (∀ j, j ∈ js → j.(job_ID) ∈ job_ID <$> st.1) →
  feasible sec (delete_action <$> js) st.
Proof.
  induction js as [|j js IH]; intros st Hnd Hin; [done|]. change (job_ID <$> j :: js) with (job_ID j :: (job_ID <$> js)) in Hnd.
  apply NoDup_cons in Hnd as [Hj Hnd]. cbn. split; [apply Hin; constructor|].
  intros st' [= <-]. apply IH; [done|]. intros j' Hj'. cbn. unfold store_delete.
  assert (Hin' : job_ID j' ∈ job_ID <$> st.1) by (apply Hin; by constructor).
  apply list_elem_of_fmap in Hin' as (k & Hk & Hk'). apply list_elem_of_fmap.
  exists k. split; [done|]. apply list_elem_of_filter. split; [|done].
  rewrite <-Hk. intros Heq. apply Hj. rewrite <-Heq. by apply list_elem_of_fmap_2.
Qed.

Section Plan.
Context `{JsonText}.

(** A job the plan keeps has the content of a declared one. *)
Lemma kept_declared sec jobs ups ms fl j e :
  plan_of sec jobs ups ms fl → (j, Some e) ∈ fl →
  ∃ spec, spec ∈ sec.(sched_Jobs) ∧ skey spec = jkey j.
Proof.
  intros Hp Hj. pose proof (plan_flags _ _ _ _ _ Hp (jkey j)) as Hfl.
  assert (Hin : Some e ∈ flags_of (jkey j) fl).
  { apply (list_elem_of_fmap_2 snd _ (j, Some e)). by apply list_elem_of_filter. }
  rewrite Hfl in Hin. apply elem_of_app in Hin as [Hin|Hin].
  - apply list_elem_of_fmap in Hin as (e' & _ & Hin). apply elem_of_take in Hin as (i & Hi & _).
    apply list_elem_of_lookup_2 in Hi. unfold declared, managed in Hi.
    apply list_elem_of_fmap in Hi as (spec & _ & [Hk [_ Hs]%list_elem_of_filter]%list_elem_of_filter).
    by exists spec.
  - by apply elem_of_replicate in Hin as [? _].
Qed.

Lemma skey_calls spec j : skey spec = jkey j → spec.(js_Calls) ≠ [] → j.(job_Calls) ≠ [].
Proof.
  intros Hk Hs Hj. apply (f_equal snd) in Hk. cbn in Hk. rewrite Hj in Hk. cbn in Hk.
  by apply fmap_nil_inv in Hk.
Qed.

Definition specs_ok (sec : ScheduleSection) : Prop :=
  ∀ spec, spec ∈ sec.(sched_Jobs) → spec_ok spec.

Lemma specCalls_nonempty spec calls :
  specCalls spec.(js_Calls) = Ok calls → calls ≠ [] → spec.(js_Calls) ≠ [].
Proof. intros Hs Hne Hnil. rewrite Hnil in Hs. cbn in Hs. congruence. Qed.

Lemma plan_feasible sec jobs next :
  specs_ok sec → NoDup (job_ID <$> jobs) → (∀ j, j ∈ jobs → job_json j) →
  (next + Z.of_nat (length sec.(sched_Jobs)) < 2 ^ 53)%Z →
  feasible sec (scheduleActions (Some sec) jobs) (jobs, next) ∧
  ∀ st', exec_plan sec (scheduleActions (Some sec) jobs) (jobs, next) = Some st' →
    (st'.2 ≤ next + Z.of_nat (length sec.(sched_Jobs)))%Z.
Proof.
  intros Hok Hnd Hjson Hlt. destruct (plan_exists sec jobs) as (ups & ms & fl & Hp).
  rewrite (plan_eq _ _ _ _ _ Hp).
  assert (Hfl : ∀ j o, (j, o) ∈ fl → j ∈ jobs).
  { intros j o Hj. apply (list_elem_of_fmap_2 fst) in Hj. cbn in Hj.
    rewrite (plan_jobs _ _ _ _ _ Hp) in Hj. by apply list_elem_of_filter in Hj as [_ ?]. }
  destruct (feasible_updates sec ups (jobs, next)) as [Hup Hup'].
  { intros a Ha. destruct (plan_ups _ _ _ _ _ Hp a Ha) as (j & e & -> & Hj & _). cbn.
    split; [done|]. split; [by eapply list_elem_of_fmap_2, Hfl|].
    destruct (kept_declared _ _ _ _ _ _ _ Hp Hj) as (spec & Hs & Hk).
    destruct (Hok spec Hs) as (calls & Hc & Hne & _).
    split; [eapply skey_calls; [exact Hk|]; by eapply specCalls_nonempty|].
    exact (Hjson j (Hfl _ _ Hj)). }
  assert (Hcr : ∀ st, st.2 = next → feasible sec (create_pass 0 (sched_Jobs sec) ms) st ∧
    ∀ st', exec_plan sec (create_pass 0 (sched_Jobs sec) ms) st = Some st' →
      (∀ id, id ∈ job_ID <$> st.1 → id ∈ job_ID <$> st'.1)
      ∧ (st'.2 ≤ st.2 + Z.of_nat (length (sched_Jobs sec)))%Z).
  { intros st Hst. apply feasible_creates; [done|exact Hok|lia]. }
  split.
  - apply feasible_app; [done|]. intros st1 Hst1. destruct (Hup' _ Hst1) as [Hids1 Hn1]. cbn in Hids1, Hn1.
    destruct (Hcr st1 Hn1) as [Hf1 Hf1']. apply feasible_app; [done|].
    intros st2 Hst2. destruct (Hf1' _ Hst2) as [Hids2 _]. apply feasible_deletes.
    + eapply sublist_NoDup; [exact Hnd|]. apply fmap_sublist.
      etrans; [apply fmap_sublist, sublist_filter|]. rewrite (plan_jobs _ _ _ _ _ Hp). apply sublist_filter.
    + intros j Hj. apply Hids2. rewrite Hids1. apply list_elem_of_fmap_2.
      apply list_elem_of_fmap in Hj as ([j' o] & -> & [_ Hj]%list_elem_of_filter). by eapply Hfl.
  - intros st'. rewrite exec_plan_app. destruct (exec_plan sec ups (jobs, next)) as [st1|] eqn:Hst1; [|done].
    cbn. destruct (Hup' _ eq_refl) as [_ Hn1]. cbn in Hn1. rewrite exec_plan_app.
    destruct (exec_plan sec (create_pass 0 (sched_Jobs sec) ms) st1) as [st2|] eqn:Hst2; [|done].
    destruct (Hcr st1 Hn1) as [_ Hf1']. destruct (Hf1' _ Hst2) as [_ Hle]. cbn. intros Hdel.
    destruct st2 as [jobs2 next2]. rewrite exec_deletes in Hdel. injection Hdel as <-. cbn in *. lia.
Qed.
End Plan.

(** ** Running the writers *)

Section Run.
Context `{JsonText, StrConv, Fmt, Sha256, !Sha256Law}.
Context {S : Type} (hd : handler S) (get : S → Device) `{!Backed hd get}.
Abbreviation view_of s v := (shows (get s) v).

Lemma wrapping_succeeds {A} prefix (p : prog (res error A)) s Q :
  succeeds hd p s Q → succeeds hd (wrapping prefix p) s Q.
Proof.
  intros Hp. apply ends_bind. eapply ends_mono; [exact Hp|]. intros r s' (a & -> & Ha).
  apply ends_ret. eauto.
Qed.

Lemma admitted_set_jobs jobs next v c : admitted_by (v_set_jobs jobs next v) c ↔ admitted_by v c.
Proof. done. Qed.

Lemma v_set_jobs_id v : v_set_jobs v.(v_jobs) v.(v_next) v = v.
Proof. by destruct v. Qed.

Lemma each_delete_view c ids : ∀ s v,
  view_of s v → admitted_by v c → NoDup ids → (∀ id, id ∈ ids → id ∈ job_ID <$> v_jobs v) →
  succeeds hd (each (delete_job c) ids) s (λ _ s',
    view_of s' (v_set_jobs (foldl (λ js i, store_delete i js) (v_jobs v) ids) (v_next v) v)).
Proof.
  induction ids as [|id ids IH]; intros s v Hv Hc Hnd Hin; cbn [each foldl].
  { apply succeeds_ret. by rewrite v_set_jobs_id. }
  apply NoDup_cons in Hnd as [Hid Hnd]. apply succeeds_bind_ok. unfold delete_job.
  eapply succeeds_mono; [apply wrapping_succeeds, (DeleteSchedule_view hd get); [exact Hv|done|]|].
  { apply Hin. constructor. }
  cbn beta. intros _ s' Hs'. eapply IH in Hs'; [exact Hs'|done|done|].
  intros i Hi. cbn. unfold store_delete.
  assert (Hi' : i ∈ job_ID <$> v_jobs v) by (apply Hin; by constructor).
  apply list_elem_of_fmap in Hi' as (j & -> & Hj). apply list_elem_of_fmap_2.
  apply list_elem_of_filter. split; [|done]. intros Heq. apply Hid. by rewrite <-Heq.
Qed.

Lemma applyFirmware_view c want s v :
  view_of s v → admitted_by v c → (v_next v + 1 < 2 ^ 53)%Z →
  succeeds hd (applyFirmware c want) s (λ _ s', ∃ jobs next,
    view_of s' (v_set_jobs jobs next v) ∧ firmwareFindings want jobs = [] ∧
    owned_jobs jobs = owned_jobs (v_jobs v) ∧ (next ≤ v_next v + 1)%Z).
Proof.
  intros Hv Hc Hlt. unfold applyFirmware. apply succeeds_bind_ok.
  eapply succeeds_mono; [by apply wrapping_succeeds, (ListSchedules_view hd get)|].
  intros jobs s1 [-> Hv1]. destruct (shows_ids _ _ Hv) as (Hnd & Hids & Hnext).
  pose proof (firmware_plan_clean want (v_jobs v) (v_next v) Hnd) as Hclean.
  rewrite firmwareOffenders_spec in Hclean |- *. cbn zeta in Hclean.
  apply succeeds_bind_ok. eapply succeeds_mono; [apply each_delete_view; [exact Hv1|done| |]|].
  { eapply sublist_NoDup; [exact Hnd|]. apply fmap_sublist, sublist_filter. }
  { intros id (j & -> & [_ Hj]%list_elem_of_filter)%list_elem_of_fmap. by apply list_elem_of_fmap_2. }
  cbn beta. intros _ s2 Hv2. destruct (want && negb _).
  - apply succeeds_bind_ok. eapply succeeds_mono;
      [apply wrapping_succeeds, (CreateSchedule_view hd get);
         [exact Hv2|done|done|by split; [|apply jsonable_b_sound]|done]|].
    cbn beta. intros _ s3 Hv3. apply succeeds_ret. do 2 eexists. split; [exact Hv3|]. cbn.
    destruct Hclean. split_and!; [done..|lia].
  - apply succeeds_ret. do 2 eexists. split; [exact Hv2|]. destruct Hclean. split_and!; [done..|lia].
Qed.

Lemma apply_action_view c sec a s v st' :
  view_of s v → admitted_by v c → ready sec a (v_jobs v, v_next v) →
  exec_action sec (v_jobs v, v_next v) a = Some st' →
  succeeds hd (apply_action c sec a) s (λ _ s', view_of s' (v_set_jobs st'.1 st'.2 v)).
Proof.
  unfold ready, exec_action, apply_action. cbn [fst snd].
  intros Hv Hc Hr He. destruct (act_kind a).
  - destruct Hr as (Hlt & n & spec & calls & Hid & Hn & Hcalls & Hne & Hjson). rewrite Hid in He |- *.
    replace (-1 - (-1 - Z.of_nat n))%Z with (Z.of_nat n) in He |- * by lia.
    rewrite Nat2Z.id in He |- *. rewrite Hn in He |- *. cbn in He. rewrite Hcalls in He |- *.
    injection He as <-. pose proof (lookup_lt_Some _ _ _ Hn) as Hlen.
    rewrite (proj2 (Z.ltb_ge _ _)), (proj2 (Z.leb_gt _ _)) by lia. cbn [orb].
    apply succeeds_bind_ok. eapply succeeds_mono;
      [apply wrapping_succeeds, (CreateSchedule_view hd get); [exact Hv|done|done|done|done]|].
    cbn beta. intros _ s' Hs'. by apply succeeds_ret.
  - injection He as <-. by apply wrapping_succeeds, (DeleteSchedule_view hd get).
  - injection He as <-. destruct Hr as (? & ? & ?). by apply wrapping_succeeds, (UpdateSchedule_view hd get).
Qed.

Lemma each_action_view c sec acts : ∀ s v st',
  view_of s v → admitted_by v c → feasible sec acts (v_jobs v, v_next v) →
  exec_plan sec acts (v_jobs v, v_next v) = Some st' →
  succeeds hd (each (apply_action c sec) acts) s (λ _ s', view_of s' (v_set_jobs st'.1 st'.2 v)).
Proof.
  induction acts as [|a acts IH]; intros s v st' Hv Hc Hf He; cbn [each].
  { injection He as <-. apply succeeds_ret. cbn. by rewrite v_set_jobs_id. }
  destruct Hf as [Hr Hf]. cbn [exec_plan] in He. apply bind_Some in He as (st1 & Ha & He).
  apply succeeds_bind_ok. eapply succeeds_mono; [by eapply apply_action_view|].
  cbn beta. intros _ s1 Hv1. specialize (IH s1 (v_set_jobs st1.1 st1.2 v) st' Hv1 Hc).
  cbn [v_jobs v_next v_set_jobs] in IH. rewrite <-surjective_pairing in IH.
  apply IH; [by apply Hf|done].
Qed.

Lemma applySchedule_view c p sec s v :
  scheduleSectionOf p = Some sec → specs_ok sec →
  view_of s v → admitted_by v c →
  (v_next v + Z.of_nat (length sec.(sched_Jobs)) < 2 ^ 53)%Z →
  succeeds hd (applySchedule c p) s (λ _ s', ∃ jobs next,
    view_of s' (v_set_jobs jobs next v) ∧ scheduleActions (Some sec) jobs = [] ∧
    filter (λ j, isUpdateJob j = true) jobs = filter (λ j, isUpdateJob j = true) (v_jobs v) ∧
    (next ≤ v_next v + Z.of_nat (length sec.(sched_Jobs)))%Z).
Proof.
  intros Hsec Hok Hv Hc Hlt. unfold applySchedule. rewrite Hsec. apply succeeds_bind_ok.
  eapply succeeds_mono; [by apply wrapping_succeeds, (ListSchedules_view hd get)|].
  intros jobs s1 [-> Hv1]. destruct (shows_ids _ _ Hv) as (Hnd & Hids & Hnext).
  destruct (exec_plan_aligned sec (v_jobs v) (v_next v)) as (jobs' & next' & Hex & Hal & Hfw & _ & _).
  { done. }
  { intros j Hj. apply Hids in Hj. lia. }
  { intros spec Hs. destruct (Hok spec Hs) as (calls & Hcalls & _). by exists calls. }
  destruct (plan_feasible sec (v_jobs v) (v_next v) Hok Hnd (shows_json _ _ Hv) Hlt) as [Hf Hn].
  specialize (Hn _ Hex). eapply succeeds_mono; [by apply (each_action_view c sec _ s1 v (jobs', next'))|].
  cbn beta. intros _ s2 Hv2. exists jobs', next'. split_and!; [done| |done|done]. by apply scheduleActions_nil.
Qed.
End Run.

(** ** One round of enforcement *)

(** The wifi payload carries what was rendered: it only adds the passwords. *)
Lemma carries_inject key pw (want out : obj) :
  carries (VObj want) (VObj out) → (∀ m, want !! key = Some (VObj m) → m !! "pass" = None) →
  carries (VObj want) (VObj (inject key pw out)).
Proof.
  intros Hc Hpass. unfold inject. destruct (String.eqb pw ""); [done|].
  destruct (out !! key) as [[| | | | |m]|] eqn:Hkey; try done.
  inversion Hc as [? Hleaf|? ? Hall]; subst; [done|]. apply carries_obj. intros k w Hk.
  destruct (Hall k w Hk) as (p & Hp & Hw). destruct (decide (k = key)) as [->|Hne].
  - rewrite Hkey in Hp. injection Hp as <-. rewrite lookup_insert_eq. eexists. split; [done|].
    inversion Hw as [? Hleaf|wm ? Hwm]; subst; [done|]. apply carries_obj. intros k' w' Hk'.
    rewrite lookup_insert_ne; [by apply Hwm|]. intros <-. by rewrite (Hpass _ Hk) in Hk'.
  - rewrite lookup_insert_ne by done. by eauto.
Qed.

Lemma wifi_payload_for want pw :
  every (λ k, k ≠ "pass") (λ _, True) (VObj want) →
  payload_for "wifi" want (wifiPayload (Some want) pw).
Proof.
  intros He. split; [|done].
  assert (Hpass : ∀ key m, want !! key = Some (VObj m) → m !! "pass" = None).
  { intros key m Hm. destruct (m !! "pass") as [x|] eqn:Hx; [|done]. exfalso.
    destruct (every_obj_inv _ _ _ He _ _ Hm) as [_ Hem].
    by destruct (every_obj_inv _ _ _ Hem _ _ Hx). }
  unfold wifiPayload. cbn [default from_option].
  apply carries_inject; [|by apply Hpass]. apply carries_inject; [|by apply Hpass].
  apply carries_refl.
Qed.

Lemma jsonable_inject key pw m :
  utf8 key = true → utf8 pw = true → jsonable (VObj m) → jsonable (VObj (inject key pw m)).
Proof.
  intros Hk Hp Hm. unfold inject. destruct (String.eqb pw ""); [done|].
  destruct (m !! key) as [[| | | | |m']|] eqn:Hm'; try done.
  apply jsonable_insert; [done| |done]. apply jsonable_insert; [done|by constructor|].
  by eapply jsonable_obj_inv.
Qed.

Lemma jsonable_wifi want pw :
  jsonable (VObj want) → utf8 pw.(wp_Sta) = true ∧ utf8 pw.(wp_Sta1) = true →
  jsonable (VObj (wifiPayload (Some want) pw)).
Proof. intros Hw [? ?]. unfold wifiPayload. by do 2 (apply jsonable_inject; [done|done|]). Qed.

(** The firmware section only looks at the update jobs. *)
Lemma firmware_clean_update_jobs want jobs jobs' :
  filter (λ j, isUpdateJob j = true) jobs' = filter (λ j, isUpdateJob j = true) jobs →
  firmwareFindings want jobs = [] → firmwareFindings want jobs' = [].
Proof.
  rewrite !firmwareFindings_nil. intros Heq [Hok Hex]. split.
  - intros j Hj. destruct (isUpdateJob j) eqn:Hu; [|unfold firmware_ok; by rewrite Hu].
    apply Hok. assert (Hin : j ∈ filter (λ j, isUpdateJob j = true) jobs')
      by by apply list_elem_of_filter.
    rewrite Heq in Hin. by apply list_elem_of_filter in Hin as [_ ?].
  - intros Hw. destruct (Hex Hw) as (j & Hj & Hc). exists j. split; [|done].
    assert (Hin : j ∈ filter (λ j, isUpdateJob j = true) jobs).
    { apply list_elem_of_filter. split; [|done]. unfold firmware_compliant in Hc.
      by destruct (isUpdateJob j). }
    rewrite <-Heq in Hin. by apply list_elem_of_filter in Hin as [_ ?].
Qed.

Lemma v_actual_lookup v s : v_actual v !! s = VObj <$> v_config v !! s.
Proof. apply lookup_fmap. Qed.

(** *** Sections of findings *)

Lemma firmware_finding_section want jobs f :
  f ∈ firmwareFindings want jobs → f.(Section_) = sectionFirmware.
Proof.
  unfold firmwareFindings. rewrite elem_of_app. intros [Hf|Hf].
  - apply list_elem_of_In, in_concat in Hf as (l & Hl & Hf). apply list_elem_of_In in Hl, Hf.
    apply list_elem_of_fmap in Hl as (j & -> & _). unfold firmware_job_finding in Hf.
    repeat case_match; first [by apply elem_of_nil in Hf|by apply list_elem_of_singleton in Hf as ->].
  - case_match; [by apply list_elem_of_singleton in Hf as ->|by apply elem_of_nil in Hf].
Qed.

Lemma create_pass_section specs : ∀ n ms a,
  a ∈ create_pass n specs ms → a.(act_finding).(Section_) = sectionSchedule.
Proof.
  induction specs as [|spec specs IH]; intros n [|m ms] a; cbn [create_pass];
    [by intros ?%elem_of_nil..|]. rewrite elem_of_app. intros [Ha|Ha]; [|by apply IH in Ha].
  repeat case_match; first [by apply elem_of_nil in Ha|by apply list_elem_of_singleton in Ha as ->].
Qed.

Lemma schedule_action_section `{JsonText} sec jobs a :
  a ∈ scheduleActions (Some sec) jobs → a.(act_finding).(Section_) = sectionSchedule.
Proof.
  destruct (plan_exists sec jobs) as (ups & ms & fl & Hp). rewrite (plan_eq _ _ _ _ _ Hp), !elem_of_app.
  intros [Ha|[Ha|Ha]].
  - by destruct (plan_ups _ _ _ _ _ Hp a Ha) as (j & e & -> & _).
  - by eapply create_pass_section.
  - by apply list_elem_of_fmap in Ha as (j & -> & _).
Qed.

(** A section no finding names agrees. *)
Lemma Diff_section_agrees desired actual fs s want :
  Diff desired actual = Ok fs → desired !! s = Some want → (∀ f, f ∈ fs → f.(Section_) ≠ s) →
  section_agrees want (actual !! s).
Proof.
  intros Hd Hs Hno. unfold Diff in Hd.
  assert (Hin : s ∈ sortedKeys desired) by (apply elem_of_sortedKeys; eauto).
  destruct (diff_section desired actual s) as [gs|e] eqn:Hsec.
  - pose proof (diff_section_nil desired actual s) as Hnil. rewrite Hs in Hnil. apply Hnil.
    rewrite Hsec. f_equal. apply nil_iff_no_elem. intros f Hf. apply (Hno f).
    + apply (diff_sections_Ok _ _ _ _ Hd). eauto.
    + apply (elem_of_diff_section _ _ _ _ _ Hsec) in Hf; [by destruct Hf|eauto].
  - destruct (proj2 (diff_sections_Err desired actual (sortedKeys desired))); [by eauto|congruence].
Qed.

Lemma Diff_sections_desired desired actual fs f :
  Diff desired actual = Ok fs → f ∈ fs → is_Some (desired !! f.(Section_)).
Proof.
  intros Hd Hf. unfold Diff in Hd. apply (diff_sections_Ok _ _ _ _ Hd) in Hf as (s & gs & Hs & Hg & Hf).
  apply elem_of_sortedKeys in Hs as Hsome.
  apply (elem_of_diff_section _ _ _ _ _ Hg) in Hf as [-> _]; done.
Qed.

Section Round.
Context `{JsonText, StrConv, Fmt, Sha256, !Sha256Law}.
Context {S : Type} (hd : handler S) (get : S → Device) `{!Backed hd get}.
Abbreviation view_of s v := (shows (get s) v).
Context (profile : ShellyProfile) (dn password : string) (wifiPw : WifiPasswords).
Abbreviation cfg := (prof_Spec profile).(ps_Config).

(** What the code finds when it looks at the device. *)
Definition firmware_findings (jobs : list ScheduleJob) : list Finding :=
  match firmwareEnableOf profile with
  | Some want => firmwareFindings want jobs
  | None => []
  end.

Definition schedule_findings (jobs : list ScheduleJob) : list Finding :=
  match scheduleSectionOf profile with
  | Some sec => act_finding <$> scheduleActions (Some sec) jobs
  | None => []
  end.

Definition all_findings (fs : list Finding) (v : view) : list Finding :=
  (appendAuthFinding profile fs (v_authOn v) ++ firmware_findings (v_jobs v))
  ++ schedule_findings (v_jobs v).

Lemma appendFirmwareFindings_view c fs s v :
  view_of s v → admitted_by v c →
  succeeds hd (appendFirmwareFindings c profile fs) s
    (λ fs' s', fs' = fs ++ firmware_findings (v_jobs v) ∧ view_of s' v).
Proof.
  intros Hv Hc. unfold appendFirmwareFindings, firmware_findings.
  destruct (firmwareEnableOf profile) as [want|]; [|apply succeeds_ret; by rewrite app_nil_r].
  apply succeeds_bind_ok. eapply succeeds_mono; [by apply (ListSchedules_view hd get)|].
  intros jobs s' [-> Hs']. by apply succeeds_ret.
Qed.

Lemma appendScheduleFindings_view c fs s v :
  view_of s v → admitted_by v c →
  succeeds hd (appendScheduleFindings c profile fs) s
    (λ fs' s', fs' = fs ++ schedule_findings (v_jobs v) ∧ view_of s' v).
Proof.
  intros Hv Hc. unfold appendScheduleFindings, schedule_findings.
  destruct (scheduleSectionOf profile) as [sec|]; [|apply succeeds_ret; by rewrite app_nil_r].
  apply succeeds_bind_ok. eapply succeeds_mono; [by apply (ListSchedules_view hd get)|].
  intros jobs s' [-> Hs']. by apply succeeds_ret.
Qed.

(** *** The invariant of the section loop *)

Context (v0 : view) (order : list string).
Abbreviation desired := (Render cfg dn order (v_actual v0)).
Abbreviation jobs_len := (Z.of_nat (match scheduleSectionOf profile with
                                    | Some sec => length (sched_Jobs sec) | None => 0 end)).

(** Ids the sections still to write may use. *)
Definition budget (todo : list string) : Z :=
  (if decide (sectionFirmware ∈ todo) then 1 else 0)
  + (if decide (sectionSchedule ∈ todo) then jobs_len else 0).

(** Of the sections the round writes, [todo] are left. *)
Record progress (todo : list string) (v : view) : Prop := {
  pr_id : v_id v = v_id v0;
  pr_admitted c : cl_password c = password → admitted_by v c;
  pr_auth : v_authOn v = if decide (sectionAuth ∈ todo) then v_authOn v0
                         else default (v_authOn v0) (authEnableOf profile);
  pr_config s : s ∈ todo ∨ desired !! s = None → v_config v !! s = v_config v0 !! s;
  pr_written s want : s ∉ todo → desired !! s = Some want →
    section_agrees want (v_actual v0 !! s) ∧ v_config v !! s = v_config v0 !! s ∨
    ∃ p, payload_for s want p ∧ v_config v !! s = Some (merge (default ∅ (v_config v0 !! s)) p);
  pr_firmware want : sectionFirmware ∉ todo → firmwareEnableOf profile = Some want →
    firmwareFindings want (v_jobs v) = [];
  pr_schedule sec : sectionSchedule ∉ todo → scheduleSectionOf profile = Some sec →
    scheduleActions (Some sec) (v_jobs v) = [];
  pr_next : (v_next v + budget todo < 2 ^ 53)%Z;
}.

(** Sections the profile manages. *)
Definition known (s : string) : Prop :=
  s = sectionAuth ∧ (∃ want, authEnableOf profile = Some want ∧ (want = true → password ≠ "")) ∨
  s = sectionFirmware ∧ is_Some (firmwareEnableOf profile) ∨
  s = sectionSchedule ∧ (∃ sec, scheduleSectionOf profile = Some sec ∧ specs_ok sec) ∨
  is_Some (desired !! s).

(** The device names its switches by number. *)
Definition switch_names (v : view) : Prop :=
  ∀ s, is_Some (v_config v !! s) → HasPrefix s "switch:" = true →
  ∃ n, (0 ≤ n < 2 ^ 53)%Z ∧ s = "switch:" +:+ itoa n.

Context (Hord : range_order order (v_actual v0)) (Hsw : switch_names v0).
Context (Hjson : ∀ s want, desired !! s = Some want → jsonable (VObj want))
        (Hjpw : utf8 wifiPw.(wp_Sta) = true ∧ utf8 wifiPw.(wp_Sta1) = true).

Lemma desired_special s : s ∈ [sectionAuth; sectionFirmware; sectionSchedule] → desired !! s = None.
Proof.
  intros Hs. destruct (desired !! s) as [want|] eqn:Hd; [|done].
  apply Render_names in Hd; [|done]. exfalso. revert Hd.
  repeat (apply elem_of_cons in Hs as [->|Hs]; [unfold fixed_names; set_solver|]).
  by apply elem_of_nil in Hs.
Qed.

Lemma decide_cons_ne {A} (a s : string) (l : list string) (x y : A) :
  a ≠ s → (if decide (a ∈ s :: l) then x else y) = if decide (a ∈ l) then x else y.
Proof.
  intros Hne. destruct (decide (a ∈ l)) as [Hin|Hin].
  - by rewrite decide_True by by constructor.
  - rewrite decide_False; [done|]. by intros [?|?]%elem_of_cons.
Qed.

Lemma decide_cons_eq {A} (s : string) (l : list string) (x y : A) :
  (if decide (s ∈ s :: l) then x else y) = x.
Proof. apply decide_True. constructor. Qed.

Lemma budget_other s todo : s ≠ sectionFirmware → s ≠ sectionSchedule →
  budget (s :: todo) = budget todo.
Proof. intros ? ?. unfold budget. by rewrite !decide_cons_ne by done. Qed.

Lemma budget_firmware todo : sectionFirmware ∉ todo →
  budget (sectionFirmware :: todo) = (1 + budget todo)%Z.
Proof.
  intros Hn. unfold budget. rewrite decide_cons_eq, decide_cons_ne by done.
  rewrite (decide_False (P := sectionFirmware ∈ todo)) by done. lia.
Qed.

Lemma budget_schedule todo : sectionSchedule ∉ todo →
  budget (sectionSchedule :: todo) = (jobs_len + budget todo)%Z.
Proof.
  intros Hn. unfold budget. rewrite decide_cons_eq, decide_cons_ne by done.
  rewrite (decide_False (P := sectionSchedule ∈ todo)) by done. lia.
Qed.

Lemma budget_nonneg todo : (0 ≤ budget todo)%Z.
Proof. unfold budget. repeat case_decide; lia. Qed.

(** *** What each kind of write does to the invariant *)

Lemma progress_config s todo v want p :
  progress (s :: todo) v → s ∉ todo → desired !! s = Some want → payload_for s want p →
  progress todo (v_set_config s p v).
Proof.
  intros Hp Hs Hd Hpay.
  assert (Hspecial : ∀ t, t ∈ [sectionAuth; sectionFirmware; sectionSchedule] → t ≠ s).
  { intros t Ht ->. by rewrite desired_special in Hd. }
  assert (sectionAuth ≠ s ∧ sectionFirmware ≠ s ∧ sectionSchedule ≠ s) as (Ha & Hf & Hsc)
    by (split_and!; apply Hspecial; set_solver).
  destruct Hp as [Hid Hadm Hauth Hcfg Hwr Hfw Hsch Hnext]. split; cbn.
  - done.
  - intros c Hc. apply (Hadm c Hc).
  - by rewrite decide_cons_ne in Hauth.
  - intros t Ht. rewrite lookup_insert_ne; [apply Hcfg; set_solver|].
    intros <-. destruct Ht; [done|congruence].
  - intros t w Ht Hdt. destruct (decide (s = t)) as [<-|Hne].
    + right. exists p. rewrite Hd in Hdt. injection Hdt as <-. split; [done|].
      by rewrite lookup_insert_eq, Hcfg by set_solver.
    + rewrite lookup_insert_ne by done. apply Hwr; [set_solver|done].
  - intros w Hnf. apply Hfw. set_solver.
  - intros sec Hns. apply Hsch. set_solver.
  - by rewrite budget_other in Hnext.
Qed.

Lemma progress_auth todo v want :
  progress (sectionAuth :: todo) v → sectionAuth ∉ todo →
  authEnableOf profile = Some want → (want = true → password ≠ "") →
  progress todo (v_set_ha1 (auth_hash (v_id v) (if want then password else "")) v).
Proof.
  intros [Hid Hadm Hauth Hcfg Hwr Hfw Hsch Hnext] Hs Hw Hpw.
  assert (Hhash : want = true → auth_hash (v_id v) password = device_ha1 (v_id v) password).
  { intros Ht. unfold auth_hash. by rewrite (proj2 (String.eqb_neq _ _) (Hpw Ht)). }
  split; cbn.
  - done.
  - intros c Hc. unfold admitted_by. cbn. destruct want; [right|by left].
    rewrite Hhash, Hc by done. split; [by apply Hpw|done].
  - rewrite decide_False, Hw by done. unfold v_authOn. cbn. destruct want; [|done].
    rewrite Hhash by done. by rewrite (proj2 (String.eqb_neq _ _)) by apply device_ha1_nonempty.
  - intros t Ht. apply Hcfg. set_solver.
  - intros t w Ht Hd. apply Hwr; [|done]. intros [->|?]%elem_of_cons; [|done].
    rewrite desired_special in Hd; set_solver.
  - intros w Hnf. apply Hfw. set_solver.
  - intros sec Hns. apply Hsch. set_solver.
  - by rewrite budget_other in Hnext.
Qed.

(** Writing one kind of job leaves the other kind alone. *)
Lemma progress_jobs s todo v jobs next :
  progress (s :: todo) v → s ∉ todo → s = sectionFirmware ∨ s = sectionSchedule →
  (s = sectionFirmware → ∀ want, firmwareEnableOf profile = Some want → firmwareFindings want jobs = []) →
  (s = sectionSchedule → ∀ sec, scheduleSectionOf profile = Some sec →
     scheduleActions (Some sec) jobs = []) →
  (s = sectionFirmware → owned_jobs jobs = owned_jobs (v_jobs v)) →
  (s = sectionSchedule → filter (λ j, isUpdateJob j = true) jobs =
     filter (λ j, isUpdateJob j = true) (v_jobs v)) →
  (next + budget todo ≤ v_next v + budget (s :: todo))%Z →
  progress todo (v_set_jobs jobs next v).
Proof.
  intros [Hid Hadm Hauth Hcfg Hwr Hfw Hsch Hnext] Hs Hkind Hf Hsc Howned Hupd Hb.
  split; cbn [v_set_jobs v_jobs v_config v_next v_id v_ha1].
  - done.
  - intros c Hc. apply (Hadm c Hc).
  - rewrite decide_cons_ne in Hauth; [done|]. by destruct Hkind as [->| ->].
  - intros t Ht. apply Hcfg. set_solver.
  - intros t w Ht Hd. apply Hwr; [|done]. intros [->|?]%elem_of_cons; [|done].
    rewrite desired_special in Hd; [done|]. destruct Hkind as [->| ->]; set_solver.
  - intros w Hnf Hw. destruct Hkind as [->| ->]; [by apply Hf|].
    eapply firmware_clean_update_jobs; [by apply Hupd|]. apply Hfw; [|done]. set_solver.
  - intros sec Hns Hsec. destruct Hkind as [->| ->]; [|by apply Hsc].
    rewrite scheduleActions_nil, Howned, <-scheduleActions_nil by done. apply Hsch; [|done]. set_solver.
  - lia.
Qed.

(** *** The loop *)

Context (c : Client) (dev : ShellyDevice) (Hc : cl_password c = password).
Abbreviation apply_one := (apply_section c dev desired (authEnableOf profile)
  (firmwareEnableOf profile) password wifiPw profile).

Lemma apply_auth_step todo s v want :
  view_of s v → progress (sectionAuth :: todo) v → sectionAuth ∉ todo →
  authEnableOf profile = Some want → (want = true → password ≠ "") →
  succeeds hd (apply_one sectionAuth) s (λ _ s', ∃ v', view_of s' v' ∧ progress todo v').
Proof.
  intros Hv Hp Hs Hw Hpw.
  change (succeeds hd (apply_auth c dev (authEnableOf profile) password) s
    (λ _ s', ∃ v', view_of s' v' ∧ progress todo v')). unfold apply_auth. rewrite Hw.
  assert (want && String.eqb password "" = false) as ->.
  { destruct want; [|done]. cbn. apply String.eqb_neq. by apply Hpw. }
  apply succeeds_bind_ok. eapply succeeds_mono; [by apply wrapping_succeeds, (Probe_view hd get)|].
  intros info s1 (Hid & _ & Hv1). apply succeeds_bind_ok. rewrite Hid.
  eapply succeeds_mono;
    [apply wrapping_succeeds, (SetAuth_view hd get); [exact Hv1|by eapply pr_admitted]|].
  cbn beta. intros _ s2 Hv2. apply succeeds_ret. eexists. split; [exact Hv2|].
  by apply progress_auth.
Qed.

Lemma apply_firmware_step todo s v want :
  view_of s v → progress (sectionFirmware :: todo) v → sectionFirmware ∉ todo →
  firmwareEnableOf profile = Some want →
  succeeds hd (apply_one sectionFirmware) s (λ _ s', ∃ v', view_of s' v' ∧ progress todo v').
Proof.
  intros Hv Hp Hs Hw. unfold apply_section. cbn [String.eqb Ascii.eqb Bool.eqb sectionFirmware sectionAuth].
  rewrite Hw. apply succeeds_bind_ok. pose proof (pr_next _ _ Hp) as Hn. rewrite budget_firmware in Hn by done.
  pose proof (budget_nonneg todo).
  eapply succeeds_mono;
    [apply wrapping_succeeds, (applyFirmware_view hd get); [exact Hv|by eapply pr_admitted|lia]|].
  cbn beta. intros _ s1 (jobs & next & Hv1 & Hclean & Howned & Hle). apply succeeds_ret.
  eexists. split; [exact Hv1|]. eapply progress_jobs; [done..|by left| | |done|done|].
  - intros _ w Hw'. rewrite Hw in Hw'. by injection Hw' as <-.
  - done.
  - rewrite budget_firmware by done. lia.
Qed.

Lemma apply_schedule_step todo s v sec :
  view_of s v → progress (sectionSchedule :: todo) v → sectionSchedule ∉ todo →
  scheduleSectionOf profile = Some sec → specs_ok sec →
  succeeds hd (apply_one sectionSchedule) s (λ _ s', ∃ v', view_of s' v' ∧ progress todo v').
Proof.
  intros Hv Hp Hs Hsec Hok. unfold apply_section.
  cbn [String.eqb Ascii.eqb Bool.eqb sectionFirmware sectionAuth sectionSchedule].
  pose proof (pr_next _ _ Hp) as Hn. rewrite budget_schedule, Hsec in Hn by done.
  pose proof (budget_nonneg todo). rewrite Hsec. apply succeeds_bind_ok.
  eapply succeeds_mono; [apply wrapping_succeeds, (applySchedule_view hd get); [exact Hsec|done|exact Hv|by eapply pr_admitted|lia]|].
  cbn beta. intros _ s1 (jobs & next & Hv1 & Hclean & Hupd & Hle). apply succeeds_ret.
  eexists. split; [exact Hv1|]. eapply progress_jobs; [done..|by right|done| |done|done|].
  - intros _ w Hw'. rewrite Hsec in Hw'. by injection Hw' as <-.
  - rewrite budget_schedule, Hsec by done. lia.
Qed.

Lemma apply_desired_step s0 todo s v want :
  view_of s v → progress (s0 :: todo) v → s0 ∉ todo → desired !! s0 = Some want →
  succeeds hd (apply_one s0) s (λ _ s', ∃ v', view_of s' v' ∧ progress todo v').
Proof.
  intros Hv Hp Hs Hd.
  assert (Hspecial : ∀ t, t ∈ [sectionAuth; sectionFirmware; sectionSchedule] → String.eqb s0 t = false).
  { intros t Ht. apply String.eqb_neq. intros ->. by rewrite desired_special in Hd. }
  assert (Hadm : admitted_by v c) by by eapply pr_admitted.
  unfold apply_section. rewrite !Hspecial by set_solver. rewrite Hd.
  destruct (String.eqb_spec s0 sectionWifi) as [->|Hwifi].
  - eapply succeeds_mono; [apply wrapping_succeeds, (SetConfig_view hd get);
      [exact Hv|done|left; set_solver|apply jsonable_wifi; [by eapply Hjson|done]]|].
    cbn beta. intros _ s1 Hv1. eexists. split; [exact Hv1|]. eapply progress_config; [done..|].
    by eapply wifi_payload_for, Render_keys.
  - assert (Hpay : payload_for s0 want want) by (split; [apply carries_refl|done]).
    destruct (HasPrefix s0 "switch:") eqn:Hpre.
    + assert (is_Some (v_config v0 !! s0)) as Hpres.
      { apply Render_names in Hd as [Hf|[Hu|[_ Ha]]]; [| | |done].
        - exfalso. unfold fixed_names in Hf. set_solver.
        - by rewrite (uiKeyRe_switch s0 Hu) in Hpre.
        - by rewrite v_actual_lookup, fmap_is_Some in Ha. }
      destruct (Hsw s0 Hpres Hpre) as (n & Hn & ->). rewrite TrimPrefix_app, Atoi_itoa by lia.
      eapply succeeds_mono; [apply wrapping_succeeds, (SetSwitchConfig_view hd get); [exact Hv|done|lia|by eapply Hjson]|].
      cbn beta. intros _ s1 Hv1. eexists. split; [exact Hv1|]. by eapply progress_config.
    + eapply succeeds_mono; [apply wrapping_succeeds, (SetConfig_view hd get); [exact Hv|done| |by eapply Hjson]|].
      { apply Render_names in Hd as [Hf|[Hu|[Ha _]]]; [by left|by right|congruence|done]. }
      cbn beta. intros _ s1 Hv1. eexists. split; [exact Hv1|]. by eapply progress_config.
Qed.

Lemma apply_known s0 todo s v :
  view_of s v → progress (s0 :: todo) v → s0 ∉ todo → known s0 →
  succeeds hd (apply_one s0) s (λ _ s', ∃ v', view_of s' v' ∧ progress todo v').
Proof.
  intros Hv Hp Hs [[-> (want & Hw & Hpw)]|[[-> [want Hw]]|[[-> (sec & Hsec & Hok)]|[want Hd]]]].
  - by eapply apply_auth_step.
  - by eapply apply_firmware_step.
  - by eapply apply_schedule_step.
  - by eapply apply_desired_step.
Qed.

Lemma apply_sections_view todo : ∀ acc s v,
  NoDup todo → (∀ s, s ∈ todo → known s) → view_of s v → progress todo v →
  ends hd (apply_sections apply_one todo acc) s (λ r s',
    r.2 = None ∧ ar_applied r.1 = ar_applied acc ++ todo ∧ ∃ v', view_of s' v' ∧ progress [] v').
Proof.
  induction todo as [|s0 todo IH]; intros acc s v Hnd Hk Hv Hp; cbn [apply_sections].
  { apply ends_ret. rewrite app_nil_r. eauto. }
  apply NoDup_cons in Hnd as [Hs0 Hnd]. apply ends_bind.
  eapply ends_mono; [apply (apply_known s0 todo s v Hv Hp Hs0); apply Hk; constructor|].
  intros r s1 (restart & -> & v1 & Hv1 & Hp1).
  eapply ends_mono; [apply (IH _ s1 v1 Hnd); [|done..]|].
  - intros t Ht. apply Hk. by constructor.
  - intros r s2 (Hr & Happ & Hex). rewrite Happ. cbn [ar_applied]. by rewrite <-app_assoc.
Qed.

(** *** Before and after *)

Context (Hadm : ∀ c, cl_password c = password → admitted_by v0 c)
        (Hpw : authEnableOf profile = Some true → password ≠ "")
        (Hspecs : ∀ sec, scheduleSectionOf profile = Some sec → specs_ok sec)
        (Hnext : (v_next v0 + 1 + jobs_len < 2 ^ 53)%Z).
Context (fs : list Finding) (Hdiff : Diff desired (v_actual v0) = Ok fs).
Abbreviation todo0 := (ApplyOrder (Sections (all_findings fs v0))).

Lemma elem_of_todo0 s : s ∈ todo0 ↔ ∃ f, f ∈ all_findings fs v0 ∧ f.(Section_) = s.
Proof. by rewrite elem_of_ApplyOrder, elem_of_Sections. Qed.

Lemma nil_of_section (l : list Finding) s :
  (∀ f, f ∈ l → f.(Section_) = s) → (∀ f, f ∈ l → f ∈ all_findings fs v0) → s ∉ todo0 → l = [].
Proof.
  intros Hsec Hin Hs. apply nil_iff_no_elem. intros f Hf. apply Hs, elem_of_todo0. eauto.
Qed.

(** The sections of the round are managed ones, and cover what is out of step. *)
Lemma todo0_known s : s ∈ todo0 → known s.
Proof.
  intros (f & Hf & <-)%elem_of_todo0. unfold all_findings, firmware_findings, schedule_findings, appendAuthFinding in Hf.
  rewrite !elem_of_app in Hf. unfold known. destruct Hf as [[Hf|Hf]|Hf].
  - assert (Hfs : f ∈ fs ∨ ∃ want, authEnableOf profile = Some want ∧ f.(Section_) = sectionAuth).
    { destruct (authEnableOf profile) as [want|]; [|by left].
      destruct (Bool.eqb want _); [by left|].
      apply elem_of_app in Hf as [?|Hf]; [by left|].
      apply list_elem_of_singleton in Hf as ->. right. by eexists. }
    destruct Hfs as [Hfs|(want & Hw & ->)].
    + do 3 right. by eapply Diff_sections_desired.
    + left. split; [done|]. exists want. split; [done|]. intros ->. by apply Hpw.
  - destruct (firmwareEnableOf profile) as [want|] eqn:Hw; [|by apply elem_of_nil in Hf].
    rewrite (firmware_finding_section _ _ _ Hf). right. left. by eauto.
  - destruct (scheduleSectionOf profile) as [sec|] eqn:Hsec; [|by apply elem_of_nil in Hf].
    apply list_elem_of_fmap in Hf as (a & -> & Ha). rewrite (schedule_action_section _ _ _ Ha).
    do 2 right. left. split; [done|]. exists sec. split; [done|]. by apply Hspecs.
Qed.

Lemma fs_in_todo0 f : f ∈ fs → f ∈ all_findings fs v0.
Proof.
  intros Hf. unfold all_findings, appendAuthFinding. do 2 (apply elem_of_app; left).
  repeat case_match; rewrite ?elem_of_app; auto.
Qed.

Lemma auth_settled : sectionAuth ∉ todo0 → default (v_authOn v0) (authEnableOf profile) = v_authOn v0.
Proof.
  intros Hs. destruct (authEnableOf profile) as [want|] eqn:Hw; [|done]. cbn.
  destruct (Bool.eqb want (v_authOn v0)) eqn:He; [by apply Bool.eqb_prop in He|].
  exfalso. apply Hs, elem_of_todo0. eexists. unfold all_findings, appendAuthFinding. rewrite Hw, He.
  split; [do 2 (apply elem_of_app; left); apply elem_of_app; right; by apply list_elem_of_singleton|done].
Qed.

Lemma progress_start : progress todo0 v0.
Proof.
  split.
  - done.
  - done.
  - case_decide; [done|]. by rewrite auth_settled.
  - done.
  - intros s want Hs Hd. left. split; [|done]. eapply Diff_section_agrees; [exact Hdiff|exact Hd|].
    intros f Hf Heq. apply Hs, elem_of_todo0. exists f. split; [by apply fs_in_todo0|done].
  - intros want Hs Hw. apply (nil_of_section _ sectionFirmware); [apply firmware_finding_section| |done].
    intros f Hf. unfold all_findings, firmware_findings. rewrite Hw. rewrite !elem_of_app. by auto.
  - intros sec Hs Hsec. apply (fmap_nil_inv act_finding).
    apply (nil_of_section _ sectionSchedule); [| |done].
    + intros f (a & -> & Ha)%list_elem_of_fmap. by eapply schedule_action_section.
    + intros f Hf. unfold all_findings, schedule_findings. rewrite Hsec. rewrite !elem_of_app. by auto.
  - unfold budget. repeat case_decide; lia.
Qed.

(** *** The verification read *)

(** The device is what the profile asks for: every rendered section agrees,
    whatever the map order, and so do auth and jobs. *)
Definition in_sync (v : view) : Prop :=
  (∀ order', range_order order' (v_actual v) →
     Diff (Render cfg dn order' (v_actual v)) (v_actual v) = Ok []) ∧
  all_findings [] v = [].

Context (Hfin : finite_location cfg) (Hui : unique_ui (v_actual v0)).

Lemma progress_enforced v : progress [] v → enforced desired (v_actual v0) (v_actual v).
Proof.
  intros Hp s. rewrite !v_actual_lookup. destruct (desired !! s) as [want|] eqn:Hd.
  - destruct (pr_written _ _ Hp s want) as [[Ha ->]|(p & Hpay & ->)]; [apply not_elem_of_nil|done|..].
    + left. by rewrite v_actual_lookup in Ha.
    + right. exists p. split; [done|]. by destruct (v_config v0 !! s).
  - by rewrite (pr_config _ _ Hp s) by by right.
Qed.

Lemma progress_in_sync v : progress [] v → in_sync v.
Proof.
  intros Hp. split.
  - intros order' Hord'. eapply Render_Diff_clean; [done|exact Hord|done|done| |by apply progress_enforced].
    intros s raw. rewrite v_actual_lookup. intros (m & _ & ->)%fmap_Some. by eexists.
  - unfold all_findings. apply app_nil. split; [apply app_nil; split|].
    + unfold appendAuthFinding. pose proof (pr_auth _ _ Hp) as Hauth.
      rewrite decide_False in Hauth by apply not_elem_of_nil.
      destruct (authEnableOf profile) as [want|]; [|done]. cbn in Hauth. by rewrite Hauth, eqb_reflx.
    + unfold firmware_findings. destruct (firmwareEnableOf profile) as [want|] eqn:Hw; [|done].
      by rewrite (pr_firmware _ _ Hp want (not_elem_of_nil _) Hw).
    + unfold schedule_findings. destruct (scheduleSectionOf profile) as [sec|] eqn:Hsec; [|done].
      by rewrite (pr_schedule _ _ Hp sec (not_elem_of_nil _) Hsec).
Qed.

Lemma rechecking_succeeds {A} prefix (p : prog (res error A)) s Q :
  succeeds hd p s Q → succeeds hd (rechecking prefix p) s Q.
Proof.
  intros Hp. apply ends_bind. eapply ends_mono; [exact Hp|]. intros r s' (a & -> & Ha).
  apply ends_ret. eauto.
Qed.

Lemma recheck_view s v :
  view_of s v → (∀ c, cl_password c = password → admitted_by v c) → in_sync v →
  succeeds hd (recheck dev profile dn password (v_authOn v)) s (λ fs s', fs = [] ∧ view_of s' v).
Proof.
  intros Hv Ha [Hclean Hall]. unfold recheck. apply succeeds_bind.
  apply (ends_perform hd (OClient _ _)). destruct (backed_client (st_Address (dev_Status dev)) password s) as [Hpc Hd].
  set (c' := (hd _ _).1) in *. set (s1 := (hd _ _).2) in *.
  assert (Hv1 : view_of s1 v) by by rewrite Hd.
  apply succeeds_bind_ok. eapply succeeds_mono;
    [apply rechecking_succeeds, (GetConfig_view hd get); [exact Hv1|by apply Ha]|].
  intros actual s2 [-> Hv2]. apply succeeds_bind. apply (ends_perform hd (ORange (v_actual v))).
  destruct (backed_range (v_actual v) s2) as [Hr Hd2]. set (ord := (hd (ORange (v_actual v)) s2).1) in *.
  set (s3 := (hd (ORange (v_actual v)) s2).2) in *. rewrite Hclean by done.
  assert (Hv3 : view_of s3 v) by by rewrite Hd2. unfold all_findings in Hall.
  apply succeeds_bind_ok. eapply succeeds_mono;
    [apply rechecking_succeeds, appendFirmwareFindings_view; [exact Hv3|by apply Ha]|].
  intros fs' s4 [-> Hv4]. eapply succeeds_mono;
    [apply rechecking_succeeds, appendScheduleFindings_view; [exact Hv4|by apply Ha]|].
  intros fs' s5 [-> Hv5]. by rewrite Hall.
Qed.

Lemma record_event_view r dev' t reason msg s v :
  view_of s v → ends hd (record_event r dev' t reason msg) s (λ _ s', view_of s' v).
Proof.
  intros Hv. unfold record_event. destruct (rs_Recorder r); [|by apply ends_ret].
  apply (ends_perform hd (OEvent _ _ _ _)). by rewrite backed_event.
Qed.

Lemma enforceAndRecheck_view r s :
  view_of s v0 →
  ends hd (enforceAndRecheck r c dev profile desired dn password wifiPw (all_findings fs v0) (v_authOn v0)) s
    (λ out s', ∃ v, view_of s' v ∧ in_sync v ∧ admitted_by v c ∧ out = (todo0, v_authOn v, Ok [])).
Proof.
  intros Hv. unfold enforceAndRecheck, applyFindings. apply ends_bind.
  eapply ends_mono; [apply (apply_sections_view todo0 _ s v0); [|apply todo0_known|exact Hv|apply progress_start]|].
  { unfold ApplyOrder. apply NoDup_sort_by, NoDup_Sections. }
  intros [result err] s1 (Herr & Happ & v & Hv1 & Hp). cbn [fst snd ar_applied app] in *. subst err.
  rewrite Happ. apply ends_bind.
  apply (ends_mono hd _ _ (λ _ s', view_of s' v)).
  { destruct todo0; [by apply ends_ret|by apply record_event_view]. }
  intros _ s2 Hv2. apply ends_bind. apply (ends_mono hd _ _ (λ _ s', view_of s' v)).
  { destruct (ar_restartRequired result); [by apply record_event_view|by apply ends_ret]. }
  intros _ s3 Hv3. apply ends_bind.
  assert (auth_after profile todo0 (v_authOn v0) = v_authOn v) as ->.
  { rewrite (pr_auth _ _ Hp), decide_False by set_solver. unfold auth_after. case_decide.
    - by destruct (authEnableOf profile).
    - by rewrite auth_settled. }
  eapply ends_mono; [apply (recheck_view s3 v Hv3); [by eapply pr_admitted|by apply progress_in_sync]|].
  intros out s4 (fs' & -> & -> & Hv4). apply ends_ret. exists v. split_and!; [done|by apply progress_in_sync|by eapply pr_admitted|done].
Qed.
End Round.

(** ** The controller on a cooperative device *)

Section Controller.
Context `{Conditions, JsonText, StrConv, Fmt, Locations, Sha256, !Sha256Law}.
Context {S : Type} (hd : handler S) (get : S → Device) `{!Backed hd get}.
Abbreviation view_of s v := (shows (get s) v).

Lemma rebootIfRequested_view r c dev profile restart fresh s v :
  view_of s v → admitted_by v c →
  ends hd (rebootIfRequested r c dev profile restart fresh) s (λ _ s', view_of s' v).
Proof.
  intros Hv Hc. unfold rebootIfRequested. case_match; [by apply ends_ret|].
  case_match; [by apply ends_ret|]. apply ends_bind, (ends_perform hd ONow).
  set (now := (hd ONow s).1). assert (Hv1 : view_of (hd ONow s).2 v) by by rewrite backed_now.
  clearbody now. revert Hv1. generalize (hd ONow s).2 as s1. intros s1 Hv1.
  destruct (withinRebootWindow now _) as [[|]|e].
  - apply ends_bind. eapply ends_mono; [by apply (Reboot_view hd get)|].
    intros r0 s2 (u & -> & Hv2). apply ends_bind. eapply ends_mono; [by apply (record_event_view hd get)|].
    cbn beta. intros _ s3 Hv3. apply ends_bind, (ends_perform hd (OStatusPatch _ _)).
    rewrite <-(backed_patch (hd := hd) dev (upd_status (set_st_RestartRequired false) dev) s3) in Hv3.
    destruct (hd _ s3) as [[server|err] s4]; by apply ends_ret.
  - by apply ends_ret.
  - apply ends_bind. eapply ends_mono; [by apply (record_event_view hd get)|].
    cbn beta. intros _ s3 Hv3. by apply ends_ret.
Qed.

(** A device that can be managed through [profile], with this name and these
    passwords; what is sent to it is text and finite numbers. *)
Record manageable (profile : ShellyProfile) (dn password : string) (wifiPw : WifiPasswords)
  (v : view) : Prop := {
  mg_admitted c : cl_password c = password → admitted_by v c;
  mg_password : authEnableOf profile = Some true → password ≠ "";
  mg_location : finite_location profile.(prof_Spec).(ps_Config);
  mg_specs sec : scheduleSectionOf profile = Some sec → specs_ok sec;
  mg_room : (v_next v + 1 + Z.of_nat (match scheduleSectionOf profile with
               | Some sec => length (sched_Jobs sec) | None => 0 end) < 2 ^ 53)%Z;
  mg_ui : unique_ui (v_actual v);
  mg_switches : switch_names v;
  mg_sections order s want : range_order order (v_actual v) →
    Render profile.(prof_Spec).(ps_Config) dn order (v_actual v) !! s = Some want → jsonable (VObj want);
  mg_wifi : utf8 wifiPw.(wp_Sta) = true ∧ utf8 wifiPw.(wp_Sta1) = true;
}.

Lemma Diff_of_device desired v : ∃ fs, Diff desired (v_actual v) = Ok fs.
Proof.
  destruct (Diff desired (v_actual v)) as [fs|e] eqn:Hd; [by eauto|]. exfalso. unfold Diff in Hd.
  destruct (proj1 (diff_sections_Err desired (v_actual v) (sortedKeys desired))) as (s & e' & _ & He); [by eauto|].
  destruct (proj1 (diff_section_Err desired (v_actual v) s)) as (w & raw & _ & _ & Hraw & Hnone); [by eauto|].
  rewrite v_actual_lookup in Hraw. apply fmap_Some in Hraw as (m & _ & ->). done.
Qed.

(** The gate in front of enforcement. *)
Lemma runEnforce_view r c dev profile dn password wifiPw warns order fs s v :
  view_of s v → manageable profile dn password wifiPw v → cl_password c = password →
  range_order order (v_actual v) →
  Diff (Render (ps_Config (prof_Spec profile)) dn order (v_actual v)) (v_actual v) = Ok fs →
  dev.(dev_Status).(st_AuthEnabled) = v_authOn v →
  damped dev (all_findings profile fs v) warns = false →
  ends hd (runEnforce r c dev profile (Render (ps_Config (prof_Spec profile)) dn order (v_actual v))
             dn password wifiPw (all_findings profile fs v) warns) s
    (λ out s', ∃ v' dev', out = Continue [] dev' ∧ view_of s' v' ∧ in_sync profile dn v'
       ∧ dev'.(dev_Status).(st_AuthEnabled) = v_authOn v' ∧ admitted_by v' c).
Proof.
  intros Hv [Hadm Hpw Hfin Hspecs Hroom Hui Hsw Hsec Hwifi] Hc Hord Hdiff Hauth Hdamp.
  unfold runEnforce. rewrite Hdamp, Hauth. apply ends_bind.
  eapply ends_mono; [by apply (enforceAndRecheck_view hd get profile dn password wifiPw v order Hord Hsw (λ s w, Hsec order s w Hord) Hwifi c dev Hc
    Hadm Hpw Hspecs Hroom fs Hdiff Hfin Hui r s Hv)|].
  intros out s' (v' & Hv' & Hsync & Hc' & ->). cbn [existsb]. apply ends_ret. do 2 eexists. split_and!; done.
Qed.

(** The findings before enforcement, when there are none. *)
Lemma no_findings_in_sync profile password wifiPw dn order fs v :
  manageable profile dn password wifiPw v → range_order order (v_actual v) →
  Diff (Render (ps_Config (prof_Spec profile)) dn order (v_actual v)) (v_actual v) = Ok fs →
  all_findings profile fs v = [] → in_sync profile dn v.
Proof.
  intros [Hadm Hpw Hfin Hspecs Hroom Hui Hsw Hsec Hwifi] Hord Hdiff Hnil.
  pose proof (progress_start profile dn password v order Hadm Hpw Hspecs Hroom fs Hdiff) as Hp.
  rewrite Hnil in Hp. eapply progress_in_sync; try exact Hp; done.
Qed.

(** ** Theorem *)

(** Enforcement converges, and the controller says so.  From a device that
    takes writes and a profile in Enforce mode whose credentials are good for it,
    the drift check, the writes in [ApplyOrder], the verification read and the
    optional reboot run without an error and come to the final status write
    [InSync = True]; at that point the device itself is in sync: rendered
    sections agree in every map order, the auth state is the declared one, and
    both job plans are empty. *)
Theorem check_and_enforce_converges r c dev profile dn password wifiPw warns sys s v
  (Hv : shows (get s) v) (Hmg : manageable profile dn password wifiPw v) (Hc : cl_password c = password)
  (Hmode : profile.(prof_Spec).(ps_Mode) = ModeEnforce)
  (Hpaused : dev.(dev_Spec).(ds_Paused) = false)
  (Hauth : dev.(dev_Status).(st_AuthEnabled) = v_authOn v)
  (Hprev : ∀ prev, FindStatusCondition dev.(dev_Status).(st_Conditions) ConditionInSync = Some prev →
     prev.(cond_Reason) ≠ ReasonNotConverging) :
  leads_to hd (check_and_enforce r c dev profile dn password wifiPw warns (v_actual v) sys) s
    (λ p s', ∃ dev' v',
       p = finish r dev' ConditionTrue ReasonInSync
             (withWarnings ("configuration matches profile " +:+ prof_Name profile) warns) []
             (prof_Name profile) ∧
       shows (get s') v' ∧ in_sync profile dn v').
Proof.
  unfold check_and_enforce. apply leads_to_bind, (ends_perform hd (ORange (v_actual v))).
  destruct (backed_range (v_actual v) s) as [Hord Hget]. set (order := (hd _ s).1) in *.
  rewrite <-Hget in Hv. set (s1 := (hd (ORange (v_actual v)) s).2) in *.
  set (desired := Render _ dn order _). destruct (Diff_of_device desired v) as [fs Hdiff].
  rewrite Hdiff, Hauth. apply leads_to_bind.
  eapply ends_mono; [apply (appendFirmwareFindings_view hd get); [exact Hv|by eapply mg_admitted]|].
  intros f1 s2 (? & -> & -> & Hv2). apply leads_to_bind.
  eapply ends_mono; [apply (appendScheduleFindings_view hd get); [exact Hv2|by eapply mg_admitted]|].
  intros f2 s3 (? & -> & -> & Hv3). change ((_ ++ _) ++ _) with (all_findings profile fs v).
  apply leads_to_bind. rewrite Hmode, Hpaused, String.eqb_refl. cbn [negb andb].
  rewrite andb_true_r.
  apply (ends_mono hd _ _ (λ out s', ∃ v' dev', out = Continue [] dev' ∧ view_of s' v'
    ∧ in_sync profile dn v' ∧ admitted_by v' c)).
  - case_bool_decide as Hnil; cbn [negb].
    + apply ends_ret. rewrite Hnil. exists v, dev. split_and!; [done|done| |by eapply mg_admitted].
      by eapply no_findings_in_sync.
    + eapply ends_mono; [apply (runEnforce_view r c dev profile dn password wifiPw warns order fs s3 v); try done|].
      * unfold damped. destruct (FindStatusCondition _ _) as [prev|] eqn:Hf; [|done].
        by rewrite (proj2 (String.eqb_neq _ _) (Hprev prev eq_refl)).
      * intros out s4 (v' & dev' & -> & Hv4 & Hsync & _ & Hc'). eauto 10.
  - intros out s4 (v' & dev' & -> & Hv4 & Hsync & Hc'). apply leads_to_bind.
    eapply ends_mono; [by apply rebootIfRequested_view|]. intros dev'' s5 Hv5.
    apply leads_to_now. exists dev'', v'. done.
Qed.
End Controller.
