(* ===== verification/Main.v ===== *)
(** * Process wiring (cmd/main.go)

    From the parsed command-line flags to the running manager: start-up validation,
    the options of the servers, which parts are enabled and with which settings,
    every call on the manager in order, and the exit each of them may lead to.
    What the manager and its servers do with the options is controller-runtime's. *)

From stdpp Require Import prelude gmap strings pretty sorting list.
From Stdlib Require Import SpecFloat Ascii.
From S2P Require Import Prelude Json Floats Api Diff Shelly Effects Cidr Discovery Feed Metrics Dashboard Fleet Window Apply Reconcile.

(** Every flag [main] registers, in the order of the [var] blocks. *)
Record Flags : Type := MkFlags {
  fg_metricsAddr : string;
  fg_metricsCertPath : string;
  fg_metricsCertName : string;
  fg_metricsCertKey : string;
  fg_webhookCertPath : string;
  fg_webhookCertName : string;
  fg_webhookCertKey : string;
  fg_enableLeaderElection : bool;
  fg_probeAddr : string;
  fg_secureMetrics : bool;
  fg_enableHTTP2 : bool;
  fg_discoveryCIDRs : string;
  fg_deviceNamespace : string;
  fg_discoveryInterval : duration;
  fg_nameMapName : string;
  fg_registryName : string;
  fg_reconcileInterval : duration;
  fg_firmwareUpdateSpacing : duration;
  fg_exporterConfigMap : string;
  fg_exporterDeviceUpdateInterval : duration;
  fg_dashboardAddr : string;
}.

Definition default_flags : Flags :=
  MkFlags "0" "" "tls.crt" "tls.key" "" "tls.crt" "tls.key" false ":8081" true false
    "" "default" (5 * Minute) "shelly-names" "shelly-registry" (5 * Minute) (2 * Minute)
    "" (30 * Second) ":8090".

(** ** Servers *)

(** The part of [tls.Config] that is set. *)
Record tls_Config : Type := MkTlsConfig { NextProtos : list string }.

Definition disableHTTP2 (c : tls_Config) : tls_Config := MkTlsConfig ["http/1.1"].

Definition tlsOpts (f : Flags) : list (tls_Config → tls_Config) :=
  if negb f.(fg_enableHTTP2) then [disableHTTP2] else [].

(** A server applies its options in order. *)
Definition configured (opts : list (tls_Config → tls_Config)) (c : tls_Config) : tls_Config :=
  foldl (λ c o, o c) c opts.

(** Certificate files; empty names leave the choice to controller-runtime. *)
Record Certs : Type := MkCerts {
  CertDir : string;
  CertName : string;
  KeyName : string;
}.

Definition certs (path name key : string) : Certs :=
  if (0 <? String.length path)%nat then MkCerts path name key else MkCerts "" "" "".

(** [metricsserver.Options]; [FilterProvider] is set to
    [filters.WithAuthenticationAndAuthorization] or left nil. *)
Record MetricsOptions : Type := MkMetricsOptions {
  mo_BindAddress : string;
  mo_SecureServing : bool;
  mo_TLSOpts : list (tls_Config → tls_Config);
  mo_FilterProvider : bool;
  mo_Certs : Certs;
}.

Record WebhookOptions : Type := MkWebhookOptions {
  wo_TLSOpts : list (tls_Config → tls_Config);
  wo_Certs : Certs;
}.

(** [ctrl.Options]. *)
Record ManagerOptions : Type := MkManagerOptions {
  mg_Metrics : MetricsOptions;
  mg_WebhookServer : WebhookOptions;
  mg_HealthProbeBindAddress : string;
  mg_LeaderElection : bool;
  mg_LeaderElectionID : string;
}.

Definition webhookServerOptions (f : Flags) : WebhookOptions :=
  MkWebhookOptions (tlsOpts f)
    (certs f.(fg_webhookCertPath) f.(fg_webhookCertName) f.(fg_webhookCertKey)).

Definition metricsServerOptions (f : Flags) : MetricsOptions :=
  MkMetricsOptions f.(fg_metricsAddr) f.(fg_secureMetrics) (tlsOpts f) f.(fg_secureMetrics)
    (certs f.(fg_metricsCertPath) f.(fg_metricsCertName) f.(fg_metricsCertKey)).

Definition manager_options (f : Flags) : ManagerOptions :=
  MkManagerOptions (metricsServerOptions f) (webhookServerOptions f) f.(fg_probeAddr)
    f.(fg_enableLeaderElection) "fc288ded.thirdimpact.io".

(** ** Parts *)

(** What is registered with the manager. *)
Inductive part : Type :=
| Collector (c : DeviceCollector)
| DeviceController (r : Settings)
| ExporterFeed (r : FeedReconciler)
| DashboardServer (s : Server) (addr : string)
| Discovery_ (s : Sweeper).

(** [strings.SplitSeq(s, ",")]. *)
Definition split_comma (s : string) : list string := split_on "," s.

(** [strings.TrimSpace] on ASCII text. *)
Definition is_space (c : ascii) : bool :=
  let n := N_of_ascii c in ((9 <=? n) && (n <=? 13) || (n =? 32))%N.

Fixpoint trim_left (s : string) : string :=
  match s with
  | String c s' => if is_space c then trim_left s' else s
  | EmptyString => s
  end.

Fixpoint trim_right (s : string) : string :=
  match s with
  | EmptyString => ""
  | String c s =>
      match trim_right s with
      | EmptyString => if is_space c then "" else String c ""
      | s' => String c s'
      end
  end.

Definition TrimSpace (s : string) : string := trim_right (trim_left s).

Definition sweep_cidrs (flag : string) : list string :=
  filter (λ c, c ≠ "") (TrimSpace <$> split_comma flag).

(** [d.Seconds()], in float64. *)
Definition Seconds (d : duration) : spec_float :=
  SFadd 53 1024 (float64_of_Z (Z.quot d Second))
    (SFdiv 53 1024 (float64_of_Z (Z.rem d Second)) (float64_of_Z 1000000000)).

Definition collector_part (f : Flags) : part :=
  Collector (MkDeviceCollector f.(fg_deviceNamespace) f.(fg_registryName)).

Definition controller_part (f : Flags) : part :=
  DeviceController (MkSettings true true f.(fg_nameMapName) f.(fg_registryName)
    f.(fg_reconcileInterval) f.(fg_firmwareUpdateSpacing)).

Definition feed_part (f : Flags) : list part :=
  if negb (String.eqb f.(fg_exporterConfigMap) "")
  then [ExporterFeed (MkFeedReconciler f.(fg_deviceNamespace) f.(fg_exporterConfigMap)
          (MkOptions ":8080" false (trunc (Seconds f.(fg_exporterDeviceUpdateInterval)))))]
  else [].

Definition dashboard_part (f : Flags) : list part :=
  if negb (String.eqb f.(fg_dashboardAddr) "")
  then [DashboardServer (MkServer true f.(fg_deviceNamespace) f.(fg_nameMapName) f.(fg_registryName))
          f.(fg_dashboardAddr)]
  else [].

Definition sweeper_of (f : Flags) : Sweeper :=
  MkSweeper f.(fg_deviceNamespace) (sweep_cidrs f.(fg_discoveryCIDRs)) [] f.(fg_discoveryInterval)
    0 0 0 [].

(** The exporter would poll without a delay. *)
Definition bad_interval (f : Flags) : bool :=
  negb (String.eqb f.(fg_exporterConfigMap) "")
  && (f.(fg_exporterDeviceUpdateInterval) <? Second)%Z.

(** ** main *)

(** The calls on controller-runtime, each of which may fail ([MustRegister], on
    an empty registry, does not). *)
Inductive setup_call : Type :=
| NewManager (o : ManagerOptions)
| Register_ (p : part)
| AddHealthzCheck
| AddReadyzCheck
| StartManager.

(** The calls made, and the message [main] exits with status 1 on; [None] when it
    returns. *)
Definition outcome : Type := list setup_call * option string.

Section Main.
Context `{Netip, Fmt}.
Context (ask : setup_call → option error).

(** [if err := ...; err != nil { setupLog.Error(err, msg); os.Exit(1) }]. *)
Definition attempt (s : setup_call) (msg : string) (k : outcome) : outcome :=
  match ask s with
  | Some _ => ([s], Some msg)
  | None => (s :: k.1, k.2)
  end.

Definition attempts (ps : list part) (msg : string) (k : outcome) : outcome :=
  foldr (λ p, attempt (Register_ p) msg) k ps.

Definition health_and_start : outcome :=
  attempt AddHealthzCheck "Failed to set up health check"
    (attempt AddReadyzCheck "Failed to set up ready check"
       (attempt StartManager "Failed to run manager" ([], None))).

Definition add_discovery (f : Flags) (k : outcome) : outcome :=
  if negb (String.eqb f.(fg_discoveryCIDRs) "") then
    match ExpandCIDRs (sweep_cidrs f.(fg_discoveryCIDRs)) with
    | Err e => ([], Some "invalid --discovery-cidrs")
    | Ok _ => attempt (Register_ (Discovery_ (sweeper_of f))) "unable to add discovery sweeper" k
    end
  else k.

(** [main], once the flags are parsed. *)
Definition main (f : Flags) : outcome :=
  if bad_interval f then ([], Some "--exporter-device-update-interval must be at least 1s")
  else
    attempt (NewManager (manager_options f)) "Failed to start manager"
      (let k := attempt (Register_ (controller_part f)) "unable to create controller"
         (attempts (feed_part f) "unable to create controller"
            (attempts (dashboard_part f) "unable to add dashboard"
               (add_discovery f health_and_start))) in
       (Register_ (collector_part f) :: k.1, k.2)).

(** ** Facts *)

(** What the flags ask for, in order. *)
Definition parts (f : Flags) : list part :=
  collector_part f :: controller_part f :: feed_part f ++ dashboard_part f ++
  (if negb (String.eqb f.(fg_discoveryCIDRs) "") then [Discovery_ (sweeper_of f)] else []).

Lemma attempt_started s msg k :
  StartManager ∈ (attempt s msg k).1 → s ≠ StartManager →
  StartManager ∈ k.1 ∧ attempt s msg k = (s :: k.1, k.2).
Proof.
  unfold attempt. destruct (ask s); cbn.
  - intros ->%list_elem_of_singleton. done.
  - by intros [->|?]%elem_of_cons.
Qed.

Lemma attempts_started ps msg k :
  StartManager ∈ (attempts ps msg k).1 →
  StartManager ∈ k.1 ∧ attempts ps msg k = ((Register_ <$> ps) ++ k.1, k.2).
Proof.
  induction ps as [|p ps IH]; [by destruct k|]. unfold attempts. cbn [foldr]. fold (attempts ps msg k).
  intros [Hk ->]%attempt_started; [|done]. destruct (IH Hk) as [? ->]. done.
Qed.

(** Started, or exited with an error. *)
Definition decided (o : outcome) : Prop := StartManager ∈ o.1 ∨ o.2 ≠ None.

Lemma decided_attempt s msg k : s = StartManager ∨ decided k → decided (attempt s msg k).
Proof.
  unfold attempt, decided. destruct (ask s); cbn; [by right|].
  rewrite elem_of_cons. naive_solver.
Qed.

Lemma decided_attempts ps msg k : decided k → decided (attempts ps msg k).
Proof. intros Hk. induction ps as [|p ps IH]; [done|]. apply decided_attempt. by right. Qed.

Lemma main_decided f : decided (main f).
Proof.
  unfold main. destruct (bad_interval f); [by right|]. apply decided_attempt. right. cbv zeta.
  assert (Hend : decided health_and_start).
  { do 2 (apply decided_attempt; right). apply decided_attempt. by left. }
  enough (Hk : ∀ k, decided k → decided (Register_ (collector_part f) :: k.1, k.2)).
  { apply Hk, decided_attempt. right. do 2 apply decided_attempts. unfold add_discovery.
    repeat case_match; [apply decided_attempt; by right|by right|done]. }
  intros k [Hk|Hk]; [left; by right|by right].
Qed.

(** When the manager is started, everything before it went well. *)
Lemma main_started f :
  StartManager ∈ (main f).1 →
  (main f).1 = NewManager (manager_options f) :: (Register_ <$> parts f)
                 ++ [AddHealthzCheck; AddReadyzCheck; StartManager] ∧
  bad_interval f = false ∧
  (f.(fg_discoveryCIDRs) ≠ "" → ∃ hosts, ExpandCIDRs (sweep_cidrs f.(fg_discoveryCIDRs)) = Ok hosts).
Proof.
  unfold main. destruct (bad_interval f); [by intros ?%elem_of_nil|]. cbv zeta.
  intros [[?|Hk]%elem_of_cons ->]%attempt_started; [done| |done]. cbn [fst snd] in *.
  apply attempt_started in Hk as [Hk ->]; [|done].
  apply attempts_started in Hk as [Hk ->]. apply attempts_started in Hk as [Hk ->].
  assert (Hend : ∀ k, k = health_and_start → StartManager ∈ k.1 →
    k.1 = [AddHealthzCheck; AddReadyzCheck; StartManager]).
  { intros k -> He. unfold health_and_start in *. apply attempt_started in He as [He ->]; [|done].
    apply attempt_started in He as [He ->]; [|done]. unfold attempt. by destruct (ask StartManager). }
  unfold add_discovery, parts in *. rewrite !fmap_cons, !fmap_app. cbn [fst snd].
  destruct (String.eqb_spec (fg_discoveryCIDRs f) "") as [Hd|Hd]; cbn [negb] in *.
  - rewrite (Hend _ eq_refl Hk). cbn [fmap list_fmap]. rewrite ?app_nil_r. cbn [app]. by rewrite <- ?app_assoc.
  - destruct (ExpandCIDRs _) as [hosts|e]; [|by apply elem_of_nil in Hk].
    apply attempt_started in Hk as [Hk ->]; [|done]. cbn [fst]. rewrite (Hend _ eq_refl Hk).
    cbn [fmap list_fmap app]. rewrite <- ?app_assoc. split; [done|]. split; [done|]. eauto.
Qed.
End Main.

(** [int(d.Seconds())] is not zero from a second on. *)
Lemma seconds_pos d : (Second ≤ d < 2 ^ 63)%Z → (1 ≤ trunc (Seconds d))%Z.
Proof.
  intros [Hlo Hhi]. unfold Seconds, Second in *.
  assert (Hq : (1 ≤ Z.quot d 1000000000 < 2 ^ 34)%Z).
  { rewrite Z.quot_div_nonneg by lia. split; [apply Z.div_le_lower_bound; lia|].
    apply Z.div_lt_upper_bound; lia. }
  assert (Hr : (0 ≤ Z.rem d 1000000000 < 2 ^ 30)%Z) by (pose proof (Z.rem_bound_pos d 1000000000); lia).
  set (q := Z.quot d 1000000000) in *. set (r := Z.rem d 1000000000) in *. clearbody q r.
  apply (trunc_pos _ (60 + 2)%Z); [|lia]. apply SFadd_within; [|clear Hq|lia..].
  - apply (within_weaken 0%Z (33 + 1)%Z); [lia..|]. apply of_Z_within; [exact Hq|lia..].
  - destruct (Z.eq_dec r 0%Z) as [->|Hne]; [exact I|].
    apply (SFdiv_below _ _ 0%Z (29 + 1)%Z 8388608000000000%positive (-23)%Z 59%Z); [|by vm_compute|lia..].
    apply of_Z_within; [split; [cbn; lia|exact (proj2 Hr)]|lia..].
Qed.

(** What is registered under which flag. *)
Lemma discovery_registered f s :
  Discovery_ s ∈ parts f → f.(fg_discoveryCIDRs) ≠ "" ∧ s = sweeper_of f.
Proof.
  unfold parts, feed_part, dashboard_part. rewrite !elem_of_cons, !elem_of_app.
  destruct (String.eqb_spec (fg_discoveryCIDRs f) ""); cbn [negb];
    repeat case_match; rewrite ?elem_of_cons, ?elem_of_nil; naive_solver.
Qed.

Lemma feed_registered f r :
  ExporterFeed r ∈ parts f → f.(fg_exporterConfigMap) ≠ "" ∧
  r = MkFeedReconciler f.(fg_deviceNamespace) f.(fg_exporterConfigMap)
        (MkOptions ":8080" false (trunc (Seconds f.(fg_exporterDeviceUpdateInterval)))).
Proof.
  unfold parts, feed_part, dashboard_part. rewrite !elem_of_cons, !elem_of_app.
  destruct (String.eqb_spec (fg_exporterConfigMap f) ""); cbn [negb];
    repeat case_match; rewrite ?elem_of_cons, ?elem_of_nil; naive_solver.
Qed.

Section Wiring.
Context `{Netip, Fmt}.
Context (ask : setup_call → option error).

(** C16: what runs is what the flags ask for, and it is set up soundly.  If
    [main] gets as far as starting the manager, whatever controller-runtime's
    calls return, it has made exactly these calls: the manager with its options,
    each enabled part in order, both health checks, start.  Then the sweeper's
    [init] cannot fail (its prefixes were expanded at start-up), a feed polls with
    a delay of at least one second in the whole seconds written to the exporter's
    configuration, metrics are served with authentication unless --metrics-secure
    was turned off, and neither server speaks HTTP/2 unless --enable-http2 was
    given.  If it does not, it exits with status 1. *)
Theorem main_wiring (f : Flags) (Hd : (f.(fg_exporterDeviceUpdateInterval) < 2 ^ 63)%Z) :
  (StartManager ∉ (main ask f).1 → (main ask f).2 ≠ None) ∧
  (StartManager ∈ (main ask f).1 →
   (main ask f).1 = NewManager (manager_options f) :: (Register_ <$> parts f)
                      ++ [AddHealthzCheck; AddReadyzCheck; StartManager] ∧
   (∀ s, Discovery_ s ∈ parts f → (init s).2 = None ∧ "" ∉ sw_CIDRs s) ∧
   (∀ r, ExporterFeed r ∈ parts f → (1 ≤ r.(fr_Options).(DeviceUpdateInterval))%Z) ∧
   (let o := manager_options f in
    o.(mg_Metrics).(mo_FilterProvider) = f.(fg_secureMetrics) ∧
    (f.(fg_enableHTTP2) = false → ∀ c,
       NextProtos (configured o.(mg_Metrics).(mo_TLSOpts) c) = ["http/1.1"] ∧
       NextProtos (configured o.(mg_WebhookServer).(wo_TLSOpts) c) = ["http/1.1"]))).
Proof.
  split; [destruct (main_decided ask f); naive_solver|].
  intros (Htrace & Hint & Hx)%main_started. split; [exact Htrace|]. split_and!.
  - intros s [Hne ->]%discovery_registered. destruct (Hx Hne) as [hosts Hhosts]. split.
    + unfold init, init_settings, sweeper_of. cbn [sw_targets sw_CIDRs sw_ExtraHosts]. by rewrite Hhosts.
    + cbn. unfold sweep_cidrs. by intros [? _]%list_elem_of_filter.
  - intros r [Hne ->]%feed_registered. cbn. apply seconds_pos. split; [|done].
    unfold bad_interval in Hint. apply String.eqb_neq in Hne. rewrite Hne in Hint. cbn in Hint.
    by apply Z.ltb_ge in Hint.
  - split; [reflexivity|]. cbn. unfold tlsOpts. by intros -> c.
Qed.
End Wiring.
