(* ===== verification/Safety.v ===== *)
(** * Safety of the device controller

    What [Reconcile] may do to a device and to the cluster, whatever the device,
    the API server and the clock answer: every statement is a [wp] or an [emits]
    over the whole program, so it covers every path through it. *)

From stdpp Require Import prelude gmap strings pretty sorting list.
From S2P Require Import Prelude Json Api Diff Order Match Render Shelly Effects Client Jobs Fleet Window Apply Update Reconcile.

(** ** Classes of operations *)

Definition method_of (o : op) : option string :=
  match o with OCall _ m _ _ => Some m | _ => None end.

(** Anything that reaches a device. *)
Definition is_device (o : op) : Prop :=
  match o with OCall _ _ _ _ | OProbe _ | OProbeAll _ _ => True | _ => False end.

Definition read_methods : list string := ["Shelly.GetConfig"; "Sys.GetStatus"; "Schedule.List"].

(** A call that is not one of the three reads. *)
Definition is_write (o : op) : Prop :=
  ∃ m, method_of o = Some m ∧ m ∉ read_methods.

Definition is_reboot (o : op) : Prop := method_of o = Some "Shelly.Reboot".
Definition is_update (o : op) : Prop := method_of o = Some "Shelly.Update".

(** Operations that do not reach a device. *)
Definition quiet (o : op) : Prop := ¬ is_device o.

(** Operations that do not change a device. *)
Definition reading (o : op) : Prop := ∀ m, method_of o = Some m → m ∈ read_methods.

(** Configuration writes: anything but a reboot or an update. *)
Definition configuring (o : op) : Prop := ¬ is_reboot o ∧ ¬ is_update o.

Lemma quiet_reading o : quiet o → reading o.
Proof. destruct o; cbn; try done. intros Hq. by destruct Hq. Qed.

Lemma reading_configuring o : reading o → configuring o.
Proof.
  intros Hr. split; intros Hm; apply Hr in Hm; revert Hm; apply (bool_decide_unpack _);
    vm_compute; exact I.
Qed.

Lemma reading_not_write o : reading o → ¬ is_write o.
Proof. intros Hr (m & Hm & Hn). by apply Hn, Hr. Qed.

(** ** What the helper programs issue *)

Create HintDb emits_db.

Ltac solve_op :=
  match goal with
  | |- quiet _ => let Hd := fresh in intros Hd; exact Hd
  | |- reading (OCall _ _ _ _) =>
      intros ? [= <-]; apply (bool_decide_unpack _); vm_compute; exact I
  | |- reading _ => let Hd := fresh in intros ? Hd; discriminate Hd
  | |- configuring (OCall _ _ _ _) => split; let Hd := fresh in intros Hd; discriminate Hd
  | |- configuring _ => split; let Hd := fresh in intros Hd; discriminate Hd
  end.

Ltac emits_auto := repeat first [emits_step | solve_op | solve [auto 3 with emits_db]].

Section Emits.
Context `{Selectors, Conditions, Fmt, StrConv, JsonText, Sha256, RegistryJson, QualifiedNames, Locations}.

Lemma emits_quiet_record_event P r dev t reason msg :
  (∀ o, quiet o → P o) → emits P (record_event r dev t reason msg).
Proof. intros HP. unfold record_event. repeat emits_step. apply HP. solve_op. Qed.

Lemma emits_finish r dev status reason msg fs pname :
  emits quiet (finish r dev status reason msg fs pname).
Proof.
  unfold finish, jitter. emits_auto; try (apply emits_quiet_record_event; auto).
Qed.

Lemma emits_ResolveRegistry b dev n : emits quiet (ResolveRegistry b dev n).
Proof. unfold ResolveRegistry. emits_auto. Qed.

Lemma emits_ResolveName b dev n n' : emits quiet (ResolveName b dev n n').
Proof. unfold ResolveName, name_from_map, ResolveRegistry. emits_auto. Qed.

Lemma emits_ResolvePassword b ns a : emits quiet (ResolvePassword b ns a).
Proof. unfold ResolvePassword, secretValue. emits_auto. Qed.

Lemma emits_ResolveWifiPasswords b ns w : emits quiet (ResolveWifiPasswords b ns w).
Proof. unfold ResolveWifiPasswords, network_password, secretValue. emits_auto. Qed.

Lemma emits_stampRegistry b n dev : emits quiet (stampRegistry b n dev).
Proof. unfold stampRegistry, ResolveRegistry. emits_auto. Qed.

Lemma emits_recordUpdateAttempt r dev a : emits quiet (recordUpdateAttempt r dev a).
Proof. unfold recordUpdateAttempt. emits_auto; apply emits_quiet_record_event; auto. Qed.

Lemma emits_appendFirmwareFindings c p fs : emits reading (appendFirmwareFindings c p fs).
Proof. unfold appendFirmwareFindings, ListSchedules. emits_auto. Qed.

Lemma emits_appendScheduleFindings c p fs : emits reading (appendScheduleFindings c p fs).
Proof. unfold appendScheduleFindings, ListSchedules. emits_auto. Qed.

Lemma SetConfig_method_suffix s m : s +:+ ".SetConfig" = m → HasSuffix m ".SetConfig" = true.
Proof. intros <-. apply HasSuffix_spec. eauto. Qed.

Lemma emits_SetConfig c s cfg : emits configuring (SetConfig c s cfg).
Proof.
  apply emits_perform. split; intros [= Hm%SetConfig_method_suffix]; discriminate Hm.
Qed.

Lemma emits_wrapping {A} P prefix (p : prog (res error A)) :
  emits P p → emits P (wrapping prefix p).
Proof. unfold wrapping. intros. by repeat emits_step. Qed.

Lemma emits_rechecking {A} P prefix (p : prog (res error A)) :
  emits P p → emits P (rechecking prefix p).
Proof. unfold rechecking. intros. by repeat emits_step. Qed.

Lemma emits_each {A} P (f : A → prog (res error unit)) l :
  (∀ x, emits P (f x)) → emits P (each f l).
Proof. intros Hf. induction l as [|x l IH]; simpl; repeat emits_step; auto. Qed.

Lemma emits_CreateSchedule c job : emits configuring (CreateSchedule c job).
Proof. unfold CreateSchedule. emits_auto. Qed.

Lemma emits_delete_job c id : emits configuring (delete_job c id).
Proof. apply emits_wrapping. unfold DeleteSchedule. emits_auto. Qed.

Lemma emits_applyFirmware c want : emits configuring (applyFirmware c want).
Proof.
  unfold applyFirmware, ListSchedules.
  repeat first [emits_step | apply emits_wrapping | apply emits_each
               | apply emits_CreateSchedule | apply emits_delete_job | solve_op].
Qed.

Lemma emits_applySchedule c p : emits configuring (applySchedule c p).
Proof.
  unfold applySchedule, ListSchedules, apply_action, UpdateSchedule.
  repeat first [emits_step | apply emits_wrapping | apply emits_each
               | apply emits_CreateSchedule | apply emits_delete_job | solve_op].
Qed.

Lemma emits_apply_section c dev d ae fe pw wp p s :
  emits configuring (apply_section c dev d ae fe pw wp p s).
Proof.
  unfold apply_section, apply_auth, Probe, SetAuth, SetSwitchConfig.
  repeat first [apply emits_SetConfig | emits_step | apply emits_wrapping
               | apply emits_applyFirmware | apply emits_applySchedule | solve_op].
Qed.

Lemma emits_apply_sections P f l : ∀ acc,
  (∀ s, emits P (f s)) → emits P (apply_sections f l acc).
Proof. induction l as [|s l IH]; intros acc Hf; simpl; repeat emits_step; auto. Qed.

Lemma emits_recheck dev p dn pw a : emits reading (recheck dev p dn pw a).
Proof.
  unfold recheck, GetConfig.
  repeat first [emits_step | apply emits_rechecking | apply emits_appendFirmwareFindings
               | apply emits_appendScheduleFindings | solve_op].
Qed.

Lemma emits_enforceAndRecheck r c dev p d dn pw wp fs a :
  emits configuring (enforceAndRecheck r c dev p d dn pw wp fs a).
Proof.
  unfold enforceAndRecheck, applyFindings.
  repeat first [emits_step | apply emits_apply_sections | apply emits_apply_section
               | apply emits_quiet_record_event
               | (eapply emits_mono; [|apply emits_recheck]; apply reading_configuring)];
    by apply reading_configuring, quiet_reading.
Qed.

Lemma emits_runEnforce r c dev p d dn pw wp fs w :
  emits configuring (runEnforce r c dev p d dn pw wp fs w).
Proof.
  unfold runEnforce.
  repeat first [emits_step | apply emits_enforceAndRecheck | apply emits_quiet_record_event
               | (eapply emits_mono; [|apply emits_finish])];
    by apply reading_configuring, quiet_reading.
Qed.
End Emits.

(** ** When an operation is allowed *)

(** The device answered the call with a definite refusal. *)
Definition refusal (e : event) : Prop :=
  match e with
  | existT o r =>
      match o as o' return resp o' → Prop with
      | OCall _ _ _ _ => λ r, match r with Err e => IsRefusal e = true | Ok _ => False end
      | _ => λ _, False
      end r
  end.

(** No update request so far; none that the device may have acted on. *)
Definition no_update (h : list event) : Prop := ∀ e, e ∈ h → ¬ is_update (projT1 e).
Definition settled (h : list event) : Prop := ∀ e, e ∈ h → is_update (projT1 e) → refusal e.

Section Guard.
Context `{Selectors, Conditions, Fmt, StrConv, JsonText, Sha256, RegistryJson, QualifiedNames, Locations}.
Context (namespace name : string).

(** The device object the reconcile started from. *)
Definition first_read (h : list event) (dev : ShellyDevice) : Prop :=
  ∃ k, h = k ++ [Ev (OGetDevice namespace name) (Ok dev)].

(** It is not paused, online, and no update is in flight by the clock. *)
Definition awake (h : list event) : Prop :=
  ∃ dev t, first_read h dev ∧ Ev ONow t ∈ h ∧ dev.(dev_Spec).(ds_Paused) = false ∧
    dev.(dev_Status).(st_Online) = true ∧ (updateInFlight dev t).1 = false.

(** [p] is the profile matched to it among the profiles listed. *)
Definition matched (h : list event) (p : ShellyProfile) : Prop :=
  ∃ dev profs, first_read h dev ∧ Ev (OListProfiles (dev_Namespace dev)) (Ok profs) ∈ h ∧
    (MatchProfile dev profs).1 = Some p.

(** The device's own status, read in this reconcile. *)
Definition sys_read (h : list event) (st : SysStatus) : Prop :=
  ∃ c, Ev (OCall c "Sys.GetStatus" None AnsSys) (Ok st) ∈ h.

Definition reboot_allowed (h : list event) (p : ShellyProfile) : Prop :=
  p.(prof_Spec).(ps_RebootWhenRequired) = true ∧
  p.(prof_Spec).(ps_Mode) = ModeEnforce ∧
  (∃ st, sys_read h st ∧ st.(ss_RestartRequired) = true) ∧
  (∃ t, head h = Some (Ev ONow t) ∧
        withinRebootWindow t p.(prof_Spec).(ps_RebootWindow) = Ok true).

(** The attempt at version [v] is on record: the last thing that happened is a
    successful status patch carrying it. *)
Definition attempt_persisted (h : list event) (v : string) : Prop :=
  ∃ base dev server a, head h = Some (Ev (OStatusPatch base dev) (Ok server)) ∧
    dev.(dev_Status).(st_LastFirmwareUpdate) = Some a ∧
    a.(fua_Target) = v ∧ a.(fua_Refused) = false.

Definition slot_granted (h : list event) : Prop :=
  ∃ spacing attempts, Ev (OClaim spacing attempts) true ∈ h.

Definition update_allowed (h : list event) (p : ShellyProfile) : Prop :=
  p.(prof_Spec).(ps_UpdateWhenAvailable) = true ∧
  p.(prof_Spec).(ps_Mode) = ModeEnforce ∧
  (∃ w t, p.(prof_Spec).(ps_UpdateWindow) = Some w ∧ Ev ONow t ∈ h ∧
          withinRebootWindow t (Some w) = Ok true) ∧
  slot_granted h ∧
  (∃ st v, sys_read h st ∧ st.(ss_Stable) = Some v ∧ v ≠ "" ∧ attempt_persisted h v).

Definition safe_op (h : list event) (o : op) : Prop :=
  (is_device o → awake h ∧ settled h) ∧
  (is_write o → ∃ p, matched h p ∧ p.(prof_Spec).(ps_Mode) = ModeEnforce) ∧
  (is_reboot o → ∃ p, matched h p ∧ reboot_allowed h p) ∧
  (is_update o →
     (∃ c, o = OCall c "Shelly.Update" (Some {["stage" := VStr "stable"]}) AnsNone) ∧
     no_update h ∧ ∃ p, matched h p ∧ update_allowed h p).

(** ** Facts that persist *)

Lemma first_read_suffix h h' dev : suffix h h' → first_read h dev → first_read h' dev.
Proof. intros [k ->] [k' ->]. exists (k ++ k'). by rewrite app_assoc. Qed.

Lemma elem_suffix (h h' : list event) e : suffix h h' → e ∈ h → e ∈ h'.
Proof. intros [k ->] ?. apply elem_of_app. by right. Qed.

Lemma awake_suffix h h' : suffix h h' → awake h → awake h'.
Proof.
  intros Hs (dev & t & Hf & Hn & Hd). exists dev, t.
  split; [by eapply first_read_suffix|]. split; [by eapply elem_suffix|done].
Qed.

Lemma matched_suffix h h' p : suffix h h' → matched h p → matched h' p.
Proof.
  intros Hs (dev & profs & Hf & Hn & Hd). exists dev, profs.
  split; [by eapply first_read_suffix|]. split; [by eapply elem_suffix|done].
Qed.

Lemma sys_read_suffix h h' st : suffix h h' → sys_read h st → sys_read h' st.
Proof. intros Hs [c Hc]. exists c. by eapply elem_suffix. Qed.

Lemma suffix_ev (h : list event) (e : event) : suffix h (e :: h).
Proof. by exists [e]. Qed.

Lemma no_update_settled h : no_update h → settled h.
Proof. intros Hn e He Hu. by destruct (Hn e He). Qed.

Lemma no_update_cons h o (a : resp o) : ¬ is_update o → no_update h → no_update (Ev o a :: h).
Proof. intros Ho Hn e [->|?]%elem_of_cons; [done|by apply Hn]. Qed.

Lemma settled_cons h o (a : resp o) :
  (is_update o → refusal (Ev o a)) → settled h → settled (Ev o a :: h).
Proof. intros Ho Hn e [->|?]%elem_of_cons; [done|by apply Hn]. Qed.

(** ** Lifting the classes *)

Abbreviation any := (λ (o : op) (_ : resp o), True).

Definition invariant (I : list event → Prop) : Prop :=
  ∀ h o (a : resp o), ¬ is_update o → I h → I (Ev o a :: h).

Lemma invariant_no_update : invariant no_update.
Proof. intros h o a. apply no_update_cons. Qed.

Lemma invariant_settled : invariant settled.
Proof. intros h o a Ho. apply settled_cons. by intros. Qed.

Lemma safe_quiet h o : quiet o → safe_op h o.
Proof.
  intros Ho. assert (Hr := quiet_reading o Ho). assert (Hc := reading_configuring o Hr).
  split_and!; [by intros ?%Ho|by intros ?%(reading_not_write o Hr)|by intros ?%Hc|by intros ?%Hc].
Qed.

Lemma wp_quiet {A} I (p : prog A) h :
  invariant I → emits quiet p → I h →
  wp safe_op any h p (λ h' _, suffix h h' ∧ I h').
Proof.
  intros HI He Hi. eapply wp_emits; [|exact He|done]. intros h' o Hs Hi' Ho. split.
  - by apply safe_quiet.
  - intros a. apply HI; [|done]. by apply (reading_configuring o), quiet_reading.
Qed.

Lemma wp_reading {A} I (p : prog A) h :
  invariant I → (∀ h, I h → settled h) → awake h → emits reading p → I h →
  wp safe_op any h p (λ h' _, suffix h h' ∧ I h').
Proof.
  intros HI Hset Haw He Hi. eapply wp_emits; [|exact He|done]. intros h' o Hs Hi' Ho.
  assert (Hc := reading_configuring o Ho). split; [|intros a; by apply HI; [apply Hc|]].
  split_and!; [intros _; split; [by eapply awake_suffix|auto]|by intros ?%(reading_not_write o Ho)
              |by intros ?%Hc|by intros ?%Hc].
Qed.

Lemma wp_configuring {A} I (p : prog A) h pr :
  invariant I → (∀ h, I h → settled h) → awake h → matched h pr →
  pr.(prof_Spec).(ps_Mode) = ModeEnforce → emits configuring p → I h →
  wp safe_op any h p (λ h' _, suffix h h' ∧ I h').
Proof.
  intros HI Hset Haw Hm Hmode He Hi. eapply wp_emits; [|exact He|done]. intros h' o Hs Hi' Ho.
  split; [|intros a; by apply HI; [apply Ho|]].
  split_and!; [intros _; split; [by eapply awake_suffix|auto]
    |intros _; exists pr; split; [by eapply matched_suffix|done]
    |by intros ?%Ho|by intros ?%Ho].
Qed.

(** ** The controller's own steps *)

(** The cycle's Sys.GetStatus result is what the device answered. *)
Definition sys_true (h : list event) (sys : sysRead) : Prop :=
  sys.(sr_fresh) = true →
  ∃ st, sys_read h st ∧ sys.(sr_restartRequired) = st.(ss_RestartRequired) ∧
        sys.(sr_availableFirmware) = default "" st.(ss_Stable).

Lemma sys_true_suffix h h' sys : suffix h h' → sys_true h sys → sys_true h' sys.
Proof. intros Hs Ht Hf. destruct (Ht Hf) as (st & ? & ?). exists st. split; [by eapply sys_read_suffix|done]. Qed.

(** A quiet continuation after [h1], seen from [h]. *)
Lemma wp_quiet_from {A} I (p : prog A) h h1 :
  invariant I → suffix h h1 → emits quiet p → I h1 →
  wp safe_op any h1 p (λ h' _, suffix h h' ∧ I h').
Proof.
  intros HI Hs He Hi. eapply wp_mono; [|by apply (wp_quiet I)].
  intros h' a [? ?]. split; [by etrans|done].
Qed.

Lemma wp_rebootIfRequested r c dev p sys h :
  awake h → settled h → matched h p → sys_true h sys →
  wp safe_op any h (rebootIfRequested r c dev p sys.(sr_restartRequired) sys.(sr_fresh))
    (λ h' _, suffix h h' ∧ settled h').
Proof.
  intros Haw Hset Hm Hsys. unfold rebootIfRequested.
  destruct (negb (ps_RebootWhenRequired _) || _) eqn:Hopt; [done|].
  destruct (negb (sr_fresh sys) || _) eqn:Hfr; [done|]. reflect_bools.
  cbn [bind perform wp]. split; [apply safe_quiet; solve_op|].
  intros t _. set (h1 := Ev ONow t :: h).
  assert (Hs1 : suffix h h1) by apply suffix_ev.
  assert (Hset1 : settled h1) by (by apply invariant_settled).
  destruct (withinRebootWindow t _) as [[]|e] eqn:Hw; [|done|].
  - cbn [bind Reboot perform wp]. split.
    + split_and!; [by split; [eapply awake_suffix|]| | |by intros Hu; discriminate Hu].
      * intros _. exists p. split; [by eapply matched_suffix|done].
      * intros _. exists p. split; [by eapply matched_suffix|]. split_and!; [done..| |by exists t].
        destruct Hsys as (st & Hst & Hreq & _); [done|].
        exists st. split; [by eapply sys_read_suffix|]. congruence.
    + intros err _. apply (wp_quiet_from settled); [apply invariant_settled| | |].
      * by apply suffix_cons_r.
      * emits_auto; apply emits_quiet_record_event; auto.
      * by apply invariant_settled.
  - apply (wp_quiet_from settled); [apply invariant_settled|done| |done].
    emits_auto; apply emits_quiet_record_event; auto.
Qed.

Lemma wp_stampSysStatus r c dev h :
  awake h → no_update h →
  wp safe_op any h (stampSysStatus r c dev)
    (λ h' sd, suffix h h' ∧ no_update h' ∧ sys_true h' sd.1).
Proof.
  intros Haw Hn. unfold stampSysStatus. cbn [bind GetSysStatus perform wp]. split.
  { assert (reading (OCall c "Sys.GetStatus" None AnsSys)) as Hr by solve_op.
    assert (Hc := reading_configuring _ Hr).
    split_and!; [by split; [|apply no_update_settled]|by intros ?%(reading_not_write _ Hr)
      |by intros ?%Hc|by intros ?%Hc]. }
  intros st _. set (h1 := Ev _ st :: h).
  assert (Hs1 : suffix h h1) by apply suffix_ev.
  assert (Hn1 : no_update h1) by (by apply invariant_no_update).
  destruct st as [st|e]; [|by simpl; split_and!].
  assert (Ht : sys_true h1 (MkSysRead (ss_RestartRequired st) (default "" (ss_Stable st)) true)).
  { intros _. exists st. split_and!; [|done..]. exists c. constructor. }
  case_match; [by simpl; split_and!|].
  cbn [wp]. split; [apply safe_quiet; solve_op|].
  intros p _. assert (suffix h1 (Ev _ p :: h1)) as Hs2 by apply suffix_ev.
  destruct p; simpl; (split_and!; [by etrans|by apply invariant_no_update|by eapply sys_true_suffix]).
Qed.

Lemma wp_recordUpdateAttempt r dev a h :
  a.(fua_Refused) = false → no_update h →
  wp safe_op any h (recordUpdateAttempt r dev a)
    (λ h' bd, suffix h h' ∧ no_update h' ∧
       (bd.1 = true → attempt_persisted h' a.(fua_Target))).
Proof.
  intros Ha Hn. unfold recordUpdateAttempt. cbv zeta. cbn [bind perform wp].
  split; [apply safe_quiet; solve_op|]. intros p _. set (h1 := Ev _ p :: h).
  assert (Hs1 : suffix h h1) by apply suffix_ev.
  assert (Hn1 : no_update h1) by (by apply invariant_no_update).
  destruct p as [server|e].
  { simpl. split_and!; [done..|]. intros _. by eexists _, _, server, a. }
  assert (Hfail : ∀ h2, suffix h h2 → no_update h2 →
    wp safe_op any h2 (record_event r (with_attempt (Some a) dev) EventWarning
      "FirmwareUpdateNotRecorded" "could not persist status.lastFirmwareUpdate" ;;;
      Ret (false, with_attempt (st_LastFirmwareUpdate (dev_Status dev)) (with_attempt (Some a) dev)))
    (λ h' bd, suffix h h' ∧ no_update h' ∧ (bd.1 = true → attempt_persisted h' a.(fua_Target)))).
  { intros h2 Hs2 Hn2. rewrite wp_bind. eapply wp_mono.
    2:{ apply (wp_quiet_from no_update); [apply invariant_no_update|exact Hs2| |exact Hn2].
        by apply emits_quiet_record_event. }
    intros h' _ [? ?]. simpl. by split_and!. }
  split; [apply safe_quiet; solve_op|]. intros g _. set (h2 := Ev _ g :: h1).
  assert (Hs2 : suffix h h2) by (by apply suffix_cons_r).
  assert (Hn2 : no_update h2) by (by apply invariant_no_update).
  destruct g as [fresh|e']; [|by apply Hfail]. cbn [wp].
  split; [apply safe_quiet; solve_op|]. intros p2 _. set (h3 := Ev _ p2 :: h2).
  assert (Hs3 : suffix h h3) by (by apply suffix_cons_r).
  assert (Hn3 : no_update h3) by (by apply invariant_no_update).
  destruct p2 as [server|e2]; [|by apply Hfail].
  simpl. split_and!; [done..|]. intros _. by eexists _, _, server, a.
Qed.

(** The gates passed: opt-in, a pending version and an open window. *)
Definition gates_passed (h : list event) (p : ShellyProfile) (sys : sysRead) : Prop :=
  p.(prof_Spec).(ps_UpdateWhenAvailable) = true ∧
  p.(prof_Spec).(ps_Mode) = ModeEnforce ∧
  sys.(sr_fresh) = true ∧ sys.(sr_availableFirmware) ≠ "" ∧
  ∃ w t, p.(prof_Spec).(ps_UpdateWindow) = Some w ∧ Ev ONow t ∈ h ∧
         withinRebootWindow t (Some w) = Ok true.

Lemma gates_passed_suffix h h' p sys : suffix h h' → gates_passed h p sys → gates_passed h' p sys.
Proof.
  intros Hs (? & ? & ? & ? & w & t & ? & ? & ?). split_and!; [done..|].
  exists w, t. split_and!; [done|by eapply elem_suffix|done].
Qed.

Lemma wp_update_gates r dev p sys h :
  no_update h →
  wp safe_op any h (update_gates r dev p sys)
    (λ h' b, suffix h h' ∧ no_update h' ∧ (b = true → gates_passed h' p sys)).
Proof.
  intros Hn. unfold update_gates.
  destruct (negb (ps_UpdateWhenAvailable _) || _) eqn:Hopt; [by simpl; split_and!|].
  destruct (negb (sr_fresh sys) || _) eqn:Hfr; [by simpl; split_and!|]. reflect_bools.
  destruct (ps_UpdateWindow (prof_Spec p)) as [w|] eqn:Hw; [|by simpl; split_and!].
  cbn [bind perform wp]. split; [apply safe_quiet; solve_op|]. intros t _. set (h1 := Ev ONow t :: h).
  assert (Hs1 : suffix h h1) by apply suffix_ev.
  assert (Hn1 : no_update h1) by (by apply invariant_no_update).
  destruct (withinRebootWindow t (Some w)) as [[]|e] eqn:Hwin; [|by simpl; split_and!|].
  - assert (Hg : gates_passed h1 p sys).
    { split_and!; [done..|]. exists w, t. split_and!; [done|constructor|done]. }
    destruct (st_LastFirmwareUpdate (dev_Status dev)) as [last|]; [|by simpl; split_and!].
    case_match; [|by simpl; split_and!]. cbn [wp].
    split; [apply safe_quiet; solve_op|]. intros t2 _. split_and!.
    + by apply suffix_cons_r.
    + by apply invariant_no_update.
    + intros _. eapply gates_passed_suffix; [apply suffix_ev|done].
  - rewrite wp_bind. eapply wp_mono.
    2:{ apply (wp_quiet_from no_update); [apply invariant_no_update|exact Hs1| |exact Hn1].
        by apply emits_quiet_record_event. }
    intros h' _ [? ?]. simpl. by split_and!.
Qed.

Lemma wp_claimUpdateSlot r ns h :
  no_update h →
  wp safe_op any h (claimUpdateSlot r ns)
    (λ h' b, suffix h h' ∧ no_update h' ∧ (b = true → slot_granted h')).
Proof.
  intros Hn. unfold claimUpdateSlot. cbn [bind perform wp]. split; [apply safe_quiet; solve_op|].
  intros devs _. set (h1 := Ev _ devs :: h).
  assert (Hs1 : suffix h h1) by apply suffix_ev.
  assert (Hn1 : no_update h1) by (by apply invariant_no_update).
  destruct devs as [items|e]; [|by simpl; split_and!].
  cbn [wp]. split; [apply safe_quiet; solve_op|]. intros b _. split_and!.
  - by apply suffix_cons_r.
  - by apply invariant_no_update.
  - intros ->. do 2 eexists. constructor.
Qed.

Lemma wp_send_update r c dev from a sys p h :
  awake h → no_update h → matched h p → update_allowed h p →
  wp safe_op any h (send_update r c dev from a sys)
    (λ h' sd, suffix h h' ∧ (sd.1 = false → settled h')).
Proof.
  intros Haw Hn Hm Hup. unfold send_update. cbn [bind Update perform wp]. split.
  { split_and!.
    - intros _. split; [done|]. by apply no_update_settled.
    - intros _. exists p. split; [done|]. by destruct Hup as (_ & ? & _).
    - intros Hr. discriminate Hr.
    - intros _. split_and!; [by eexists|done|by exists p]. }
  intros err _. set (h1 := Ev _ err :: h). assert (Hs1 : suffix h h1) by apply suffix_ev.
  destruct err as [u|e].
  - rewrite wp_bind. eapply wp_mono.
    2:{ apply (wp_quiet_from (λ _, True)); [by intros ? ? ? ? ?|exact Hs1| |done].
        by apply emits_quiet_record_event. }
    intros h' _ [? _]. by split.
  - assert (Hset : IsRefusal e = true → settled h1).
    { intros Href. apply settled_cons; [by intros _|by apply no_update_settled]. }
    assert (Hinv : invariant (λ h', IsRefusal e = true → settled h')).
    { intros h' o ans Ho Hs Href. apply invariant_settled; auto. }
    rewrite wp_bind. eapply wp_mono.
    2:{ apply (wp_quiet_from _ _ h h1 Hinv); [done| |done]. by apply emits_quiet_record_event. }
    intros h2 _ [Hs2 Hset2]. cbv beta. rewrite wp_bind. eapply wp_mono.
    2:{ apply (wp_quiet_from _ _ h h2 Hinv); [done| |done]. apply emits_recordUpdateAttempt. }
    intros h3 bd [Hs3 Hset3]. simpl. split; [done|]. rewrite negb_false_iff. auto.
Qed.

Lemma wp_updateIfAvailable r c dev p sys h :
  awake h → no_update h → matched h p → sys_true h sys →
  wp safe_op any h (updateIfAvailable r c dev p sys)
    (λ h' sd, suffix h h' ∧ (sd.1 = false → settled h')).
Proof.
  intros Haw Hn Hm Hsys. unfold updateIfAvailable. rewrite wp_bind.
  eapply wp_mono; [|by apply wp_update_gates]. intros h1 gates (Hs1 & Hn1 & Hg). cbv beta.
  destruct gates; simpl negb; cbv iota.
  2:{ simpl. split; [done|]. intros _. by apply no_update_settled. }
  rewrite wp_bind. eapply wp_mono; [|by apply wp_claimUpdateSlot].
  intros h2 slot (Hs2 & Hn2 & Hslot). cbv beta. destruct slot; simpl negb; cbv iota.
  2:{ simpl. split; [by etrans|]. intros _. by apply no_update_settled. }
  rewrite wp_bind. cbn [perform wp]. split; [apply safe_quiet; solve_op|].
  intros now _. set (h3 := Ev ONow now :: h2).
  assert (Hs3 : suffix h2 h3) by apply suffix_ev.
  assert (Hn3 : no_update h3) by (by apply invariant_no_update).
  rewrite wp_bind. eapply wp_mono; [|by apply wp_recordUpdateAttempt].
  intros h4 [recorded dev'] (Hs4 & Hn4 & Hrec). simpl in Hrec.
  assert (Hs14 : suffix h1 h4) by (by do 2 (etrans; [|done])).
  assert (Hs04 : suffix h h4) by (by etrans).
  destruct recorded; simpl negb; cbv iota.
  2:{ simpl. split; [done|]. intros _. by apply no_update_settled. }
  destruct (Hg eq_refl) as (Hopt & Hmode & Hfresh & Hav & Hwin).
  destruct (Hsys Hfresh) as (st & Hst & _ & Hfw).
  eapply wp_mono; [|apply (wp_send_update _ _ _ _ _ _ p)].
  - intros h5 sd [Hs5 Hset]. split; [by etrans|done].
  - by eapply awake_suffix.
  - done.
  - by eapply matched_suffix.
  - split_and!; [done..| | |].
    + destruct Hwin as (w & t & ? & ? & ?). exists w, t. split_and!; [done|by apply (elem_suffix h1)|done].
    + destruct (Hslot eq_refl) as (sp & att & ?). exists sp, att. apply (elem_suffix h2); [|done]. by etrans.
    + exists st, (sr_availableFirmware sys). split_and!; [by apply (sys_read_suffix h)| |done|auto].
      rewrite Hfw in *. by destruct (ss_Stable st).
Qed.

Lemma wp_check_and_enforce r c dev p dn pw wpw warns actual sys h :
  awake h → settled h → matched h p → sys_true h sys →
  wp safe_op any h (check_and_enforce r c dev p dn pw wpw warns actual sys) (λ _ _, True).
Proof.
  intros Haw Hset Hm Hsys.
  assert (Hq : ∀ {A} (q : prog A) h1, emits quiet q → suffix h h1 → settled h1 →
    wp safe_op any h1 q (λ _ _, True)).
  { intros A q h1 Hq Hs1 Hset1. eapply wp_mono; [|by apply (wp_quiet settled); [apply invariant_settled|..]].
    done. }
  assert (Hread : ∀ {A} (q : prog A) h1, emits reading q → suffix h h1 → settled h1 →
    wp safe_op any h1 q (λ h' _, suffix h h' ∧ settled h')).
  { intros A q h1 Hq1 Hs1 Hset1. eapply wp_mono;
      [|apply (wp_reading settled); [apply invariant_settled|done|by apply (awake_suffix h)|done|done]].
    intros h' a [? ?]. split; [by etrans|done]. }
  unfold check_and_enforce, finish_unknown. cbv zeta. rewrite wp_bind. cbn [perform wp].
  split; [apply safe_quiet; solve_op|]. intros order _. set (h1 := Ev _ order :: h).
  assert (Hs1 : suffix h h1) by apply suffix_ev.
  assert (Hset1 : settled h1) by (by apply invariant_settled).
  destruct (Diff _ _) as [fs|e]; [|apply Hq; [apply emits_finish|done..]].
  rewrite wp_bind. eapply wp_mono; [|by apply Hread; [apply emits_appendFirmwareFindings|..]].
  intros h2 f1 [Hs2 Hset2]. destruct f1 as [fs1|e]; [|apply Hq; [apply emits_finish|done..]].
  rewrite wp_bind. eapply wp_mono; [|by apply Hread; [apply emits_appendScheduleFindings|..]].
  intros h3 f2 [Hs3 Hset3]. destruct f2 as [fs2|e]; [|apply Hq; [apply emits_finish|done..]].
  rewrite wp_bind. eapply (wp_mono _ _ _ _ (λ h' _, suffix h h' ∧ settled h')).
  2:{ case_match eqn:Henf; [|done]. reflect_bools.
      eapply wp_mono; [|apply (wp_configuring settled _ h3 p); [apply invariant_settled|done| | |done|apply emits_runEnforce|done]].
      - intros h' a [? ?]. split; [by etrans|done].
      - by apply (awake_suffix h).
      - by apply (matched_suffix h). }
  intros h4 outcome [Hs4 Hset4]. destruct outcome as [res|fs3 dev']; [done|].
  rewrite wp_bind. eapply wp_mono; [|apply wp_rebootIfRequested].
  - intros h5 dev5 [Hs5 Hset5].
    case_match; (apply Hq; [apply emits_finish|by etrans|done]).
  - by apply (awake_suffix h).
  - done.
  - by apply (matched_suffix h).
  - by apply (sys_true_suffix h).
Qed.

Lemma wp_reconcile_device r dev p dn pw wpw warns h :
  awake h → no_update h → matched h p →
  wp safe_op any h (reconcile_device r dev p dn pw wpw warns) (λ _ _, True).
Proof.
  intros Haw Hn Hm. unfold reconcile_device, GetConfig. cbv zeta. rewrite wp_bind. cbn [perform wp].
  split; [apply safe_quiet; solve_op|]. intros c _. set (h1 := Ev _ c :: h).
  assert (Hs1 : suffix h h1) by apply suffix_ev.
  assert (Hn1 : no_update h1) by (by apply invariant_no_update).
  rewrite wp_bind. eapply wp_mono.
  2:{ apply (wp_reading no_update); [apply invariant_no_update|apply no_update_settled
        |by apply (awake_suffix h)| |done]. emits_auto. }
  intros h2 actual [Hs2 Hn2]. destruct actual as [actual|e].
  2:{ destruct (fetch_failure pw e) as [reason msg]. eapply wp_mono; [|apply (wp_quiet no_update);
        [apply invariant_no_update|apply emits_finish|done]]. done. }
  assert (Hs02 : suffix h h2) by (by etrans).
  rewrite wp_bind. eapply wp_mono; [|apply wp_stampSysStatus; [by apply (awake_suffix h)|done]].
  intros h3 [sys dev3] (Hs3 & Hn3 & Hsys). simpl in Hsys.
  assert (Hs03 : suffix h h3) by (by etrans).
  rewrite wp_bind. eapply wp_mono; [|apply (wp_updateIfAvailable _ _ _ p);
    [by apply (awake_suffix h)|done|by apply (matched_suffix h)|done]].
  intros h4 [sent dev4] (Hs4 & Hset). simpl in Hset. destruct sent; [done|].
  assert (Hs04 : suffix h h4) by (by etrans).
  apply wp_check_and_enforce; [by apply (awake_suffix h)|auto|by apply (matched_suffix h)
    |by apply (sys_true_suffix h3)].
Qed.

Lemma wp_reconcile_matched r dev p warns h :
  awake h → no_update h → matched h p →
  wp safe_op any h (reconcile_matched r dev p warns) (λ _ _, True).
Proof.
  intros Haw Hn Hm.
  assert (Hq : ∀ {A} (q : prog A) h1, emits quiet q → suffix h h1 → no_update h1 →
    wp safe_op any h1 q (λ h' _, suffix h h' ∧ no_update h')).
  { intros A q h1 Hq Hs1 Hn1. apply (wp_quiet_from no_update); auto using invariant_no_update. }
  assert (Hfin : ∀ reason msg d h1, suffix h h1 → no_update h1 →
    wp safe_op any h1 (finish_unknown r d reason msg (prof_Name p)) (λ _ _, True)).
  { intros. eapply wp_mono; [|by apply Hq; [apply emits_finish|..]]. done. }
  unfold reconcile_matched. cbv zeta.
  rewrite wp_bind. eapply wp_mono; [|by apply (Hq _ _ h); [apply emits_ResolvePassword|..]].
  intros h1 pw [Hs1 Hn1]. destruct pw as [pw|e]; [|by apply Hfin].
  rewrite wp_bind. eapply wp_mono; [|by apply Hq; [apply emits_ResolveWifiPasswords|..]].
  intros h2 wpw [Hs2 Hn2]. destruct wpw as [wpw|e]; [|by apply Hfin].
  rewrite wp_bind. eapply wp_mono; [|by apply Hq; [apply emits_ResolveName|..]].
  intros h3 nm [Hs3 Hn3]. destruct nm as [nm|e]; [|by apply Hfin].
  rewrite wp_bind. eapply wp_mono; [|by apply Hq; [apply emits_stampRegistry|..]].
  intros h4 [err dev4] [Hs4 Hn4]. destruct err as [e|]; [by apply Hfin|].
  apply wp_reconcile_device; [by apply (awake_suffix h)|done|by apply (matched_suffix h)].
Qed.

Lemma wp_Reconcile r :
  wp safe_op any [] (Reconcile r namespace name) (λ _ _, True).
Proof.
  assert (Hfin : ∀ d reason msg pn h1, no_update h1 →
    wp safe_op any h1 (finish_unknown r d reason msg pn) (λ _ _, True)).
  { intros. eapply wp_mono; [|apply (wp_quiet no_update); [apply invariant_no_update
      |apply emits_finish|done]]. done. }
  unfold Reconcile. rewrite wp_bind. cbn [perform wp]. split; [apply safe_quiet; solve_op|].
  intros g _. set (h1 := [Ev _ g]).
  assert (Hn1 : no_update h1) by (apply invariant_no_update; [done|by intros ? ?%elem_of_nil]).
  destruct g as [dev|e]; [|done]. cbv zeta.
  assert (Hf1 : first_read h1 dev) by (by exists []).
  destruct (ds_Paused (dev_Spec dev)) eqn:Hp; [by apply Hfin|].
  destruct (st_Online (dev_Status dev)) eqn:Ho; simpl negb; cbv iota; [|by apply Hfin].
  rewrite wp_bind. cbn [perform wp]. split; [apply safe_quiet; solve_op|].
  intros now _. set (h2 := Ev ONow now :: h1).
  assert (Hn2 : no_update h2) by (by apply invariant_no_update).
  destruct (updateInFlight dev now) as [[] wait] eqn:Hfl; [done|].
  assert (Haw : awake h2).
  { exists dev, now. split_and!; [by eapply first_read_suffix; [apply suffix_ev|]|constructor|done..|].
    by rewrite Hfl. }
  rewrite wp_bind. cbn [perform wp]. split; [apply safe_quiet; solve_op|].
  intros l _. set (h3 := Ev _ l :: h2).
  assert (Hn3 : no_update h3) by (by apply invariant_no_update).
  destruct l as [profs|e]; [|done].
  destruct (MatchProfile dev profs) as [[p|] warns] eqn:Hmp.
  - apply wp_reconcile_matched; [by apply (awake_suffix h2); [apply suffix_ev|]|done|].
    exists dev, profs. split_and!; [|constructor|by rewrite Hmp].
    eapply first_read_suffix; [|done]. by exists [Ev (OListProfiles (dev_Namespace dev)) (Ok profs); Ev ONow now].
  - case_match. by apply Hfin.
Qed.
End Guard.

(** ** Theorems: what [Reconcile] may do to a device *)

Section SafetyTheorems.
Context `{Selectors, Conditions, Fmt, StrConv, JsonText, Sha256, RegistryJson, QualifiedNames, Locations}.
Context (r : Settings) (namespace name : string).

Abbreviation any := (λ (o : op) (_ : resp o), True).

(** C6: a reboot is only ever sent when the profile matched to the device this
    cycle is in enforce mode and opted in, the device itself reported
    restart_required in this cycle's Sys.GetStatus, and the clock reading taken
    just before lies inside the reboot window (a malformed window never does). *)
Theorem reboot_only_when_allowed :
  wp (λ h o, is_reboot o → ∃ p, matched namespace name h p ∧ reboot_allowed h p)
    any [] (Reconcile r namespace name) (λ _ _, True).
Proof. eapply wp_guard; [|apply wp_Reconcile]. by intros h o (_ & _ & ? & _). Qed.

(** C4: a firmware update is only ever requested for the stable stage, at most
    once per reconcile, when the matched profile is in enforce mode, opted in and
    has a window that the clock was inside of; after the fleet-wide slot was
    granted; for a version the device itself offered in this cycle; and
    immediately after the attempt at that version was persisted. *)
Theorem update_only_when_allowed :
  wp (λ h o, is_update o →
        (∃ c, o = OCall c "Shelly.Update" (Some {["stage" := VStr "stable"]}) AnsNone) ∧
        no_update h ∧ ∃ p, matched namespace name h p ∧ update_allowed h p)
    any [] (Reconcile r namespace name) (λ _ _, True).
Proof. eapply wp_guard; [|apply wp_Reconcile]. by intros h o (_ & _ & _ & ?). Qed.

(** C7: a device is contacted only when the object read at the start is neither
    paused nor offline nor has an update in flight; and once an update request is
    out that the device did not definitely refuse, nothing more is sent to it. *)
Theorem device_left_alone :
  wp (λ h o, is_device o → awake namespace name h ∧ settled h)
    any [] (Reconcile r namespace name) (λ _ _, True).
Proof. eapply wp_guard; [|apply wp_Reconcile]. by intros h o (? & _). Qed.

(** C10: observe mode is read-only: any call other than the three reads
    (Shelly.GetConfig, Sys.GetStatus, Schedule.List) is only sent when the profile
    matched to the device this cycle is in enforce mode. *)
Theorem writes_only_in_enforce_mode :
  wp (λ h o, is_write o → ∃ p, matched namespace name h p ∧ p.(prof_Spec).(ps_Mode) = ModeEnforce)
    any [] (Reconcile r namespace name) (λ _ _, True).
Proof. eapply wp_guard; [|apply wp_Reconcile]. by intros h o (_ & ? & _). Qed.
End SafetyTheorems.

(** ** Who writes which status fields *)

(** The status fields discovery owns. *)
Definition discovery_status (st : ShellyDeviceStatus) :=
  (st.(st_Address), st.(st_MAC), st.(st_Model), st.(st_App), st.(st_Gen), st.(st_Firmware),
   st.(st_AuthEnabled), st.(st_DeviceName), st.(st_Online), st.(st_LastSeen)).

(** A patch that leaves them alone: a status patch differs from its base in the
    controller's own status fields only, a metadata patch in labels and
    annotations only. *)
Definition owned_patch (o : op) : Prop :=
  match o with
  | OStatusPatch base dev =>
      dev.(dev_Meta) = base.(dev_Meta) ∧ dev.(dev_Spec) = base.(dev_Spec) ∧
      discovery_status dev.(dev_Status) = discovery_status base.(dev_Status)
  | OPatch base dev =>
      dev_Name dev = dev_Name base ∧ dev_Namespace dev = dev_Namespace base ∧
      dev.(dev_Spec) = base.(dev_Spec) ∧ dev.(dev_Status) = base.(dev_Status)
  | OCreate _ | OUpdate _ | OStatusUpdate _ => False
  | OCreateConfigMap _ _ _ _ | OUpdateConfigMap _ _ _ => False
  | _ => True
  end.

(** ... and a slot is only ever claimed with the configured gap. *)
Definition disciplined (r : Settings) (o : op) : Prop :=
  owned_patch o ∧ match o with OClaim spacing _ => spacing = spacing_of r | _ => True end.

Section Ownership.
Context `{Selectors, Conditions, Fmt, StrConv, JsonText, Sha256, RegistryJson, QualifiedNames, Locations}.

Lemma owned_call r c m ps a : disciplined r (OCall c m ps a).
Proof. by repeat split. Qed.

Lemma owned_record_event r dev t reason msg : emits (disciplined r) (record_event r dev t reason msg).
Proof. unfold record_event. repeat first [emits_step|by repeat split]. Qed.

Lemma owned_finish r dev s reason msg fs pn : emits (disciplined r) (finish r dev s reason msg fs pn).
Proof.
  unfold finish, jitter. repeat first [emits_step|apply owned_record_event|by repeat split].
Qed.

Lemma owned_recordUpdateAttempt r dev a : emits (disciplined r) (recordUpdateAttempt r dev a).
Proof.
  unfold recordUpdateAttempt. repeat first [emits_step|apply owned_record_event|by repeat split].
Qed.

Lemma owned_updateIfAvailable r c dev p sys : emits (disciplined r) (updateIfAvailable r c dev p sys).
Proof.
  unfold updateIfAvailable, update_gates, claimUpdateSlot, send_update, Client.Update.
  repeat first [emits_step|apply owned_record_event|apply owned_recordUpdateAttempt|by repeat split].
Qed.

Lemma owned_enforceAndRecheck r c dev p d dn pw wpw fs a :
  emits (disciplined r) (enforceAndRecheck r c dev p d dn pw wpw fs a).
Proof.
  unfold enforceAndRecheck, applyFindings, apply_section, apply_auth, applyFirmware, applySchedule,
    apply_action, recheck, appendFirmwareFindings, appendScheduleFindings, CreateSchedule,
    UpdateSchedule, delete_job.
  repeat first [emits_step|apply owned_record_event|apply emits_wrapping|apply emits_rechecking
    |apply emits_each|apply emits_apply_sections|apply owned_call|by repeat split].
Qed.

Lemma owned_runEnforce r c dev p d dn pw wpw fs w :
  emits (disciplined r) (runEnforce r c dev p d dn pw wpw fs w).
Proof.
  unfold runEnforce. repeat first [emits_step|apply owned_finish|apply owned_enforceAndRecheck
    |apply owned_record_event].
Qed.

Lemma owned_stampSysStatus r c dev : emits (disciplined r) (stampSysStatus r c dev).
Proof. unfold stampSysStatus. repeat first [emits_step|by repeat split]. Qed.

Lemma owned_rebootIfRequested r c dev p b1 b2 :
  emits (disciplined r) (rebootIfRequested r c dev p b1 b2).
Proof.
  unfold rebootIfRequested, Client.Reboot.
  repeat first [emits_step|apply owned_record_event|by repeat split].
Qed.

Lemma disciplined_Reconcile r namespace name :
  emits (disciplined r) (Reconcile r namespace name).
Proof.
  unfold Reconcile, reconcile_matched, reconcile_device, check_and_enforce, finish_unknown,
    stampRegistry, ResolveRegistry, ResolveName, name_from_map, ResolveRegistry, ResolvePassword,
    ResolveWifiPasswords, network_password, secretValue, GetConfig,
    appendFirmwareFindings, appendScheduleFindings, ListSchedules.
  repeat first [emits_step|apply owned_finish|apply owned_runEnforce|apply owned_stampSysStatus
    |apply owned_updateIfAvailable|apply owned_rebootIfRequested|by repeat split].
Qed.

(** C14: the controller never patches what discovery writes.  Every status patch
    [Reconcile] sends, on every path, differs from its base in the controller's
    own fields only (availableFirmware, restartRequired, lastFirmwareUpdate,
    matchedProfile, driftedSections, conditions); in particular authEnabled is
    never part of a patch, not even after Shelly.SetAuth was enforced.  Metadata
    patches touch labels and annotations only, and the controller writes device
    objects in no other way. *)
Theorem patches_respect_ownership r namespace name :
  emits owned_patch (Reconcile r namespace name).
Proof. eapply emits_mono; [|apply (disciplined_Reconcile r)]. by intros o [? _]. Qed.
End Ownership.
