(* ===== verification/Replicas.v ===== *)
(** * Replicas and writers

    The operator may run as several replicas of one process.  Controller-runtime
    starts the parts that need leader election on the elected replica only; the
    others, and the metrics endpoint, run everywhere.  Which parts those are is
    the code's choice ([NeedLeaderElection]); that the choice is sound is shown
    here: a replica that is not the leader only reads, and on the leader every
    kind of write belongs to exactly one part. *)

From stdpp Require Import prelude gmap strings pretty sorting list.
From S2P Require Import Prelude Json Api Diff Match Render Shelly Effects Client Fleet Cidr Discovery Feed Metrics Dashboard Window Apply Update Reconcile Main Safety.

(** [Server.NeedLeaderElection] and [Sweeper.NeedLeaderElection]. *)
Definition Server_NeedLeaderElection (s : Server) : bool := false.
Definition Sweeper_NeedLeaderElection (s : Sweeper) : bool := true.

(** Controllers need it unless told otherwise, and neither is; a collector is not
    a runnable of the manager: each replica's metrics endpoint scrapes it. *)
Definition leader_only (p : part) : bool :=
  match p with
  | Collector _ => false
  | DeviceController _ | ExporterFeed _ => true
  | DashboardServer s _ => Server_NeedLeaderElection s
  | Discovery_ s => Sweeper_NeedLeaderElection s
  end.

Section Replicas.
Context `{Selectors, Conditions, Fmt, StrConv, JsonText, Sha256, RegistryJson, QualifiedNames, Locations}.
Context `{JsonIndent, Yaml, Netip}.

(** What a running part does: the program of a scrape, of a reconcile of any
    object, of any request, of any number of sweeps. *)
Inductive serves : part → ∀ A : Type, prog A → Prop :=
| serves_scrape c : serves (Collector c) _ (Collect c)
| serves_device r namespace name : serves (DeviceController r) _ (Reconcile r namespace name)
| serves_feed r : serves (ExporterFeed r) _ (reconcile_feed r)
| serves_page s addr route name : route ∈ routes s → serves (DashboardServer s addr) _ (route.2 name)
| serves_sweeps s n : serves (Discovery_ s) _ (Start n s).

(** ** What each part may do *)

(** Discovery probes without credentials and writes whole objects. *)
Definition sweeping (o : op) : Prop :=
  match o with
  | OProbeAll _ _ | ONow | OTick | OGetDevice _ _ | OListDevices _ => True
  | OCreate _ | OUpdate _ | OStatusUpdate _ => True
  | _ => False
  end.

Definition feeding (r : FeedReconciler) (o : op) : Prop :=
  match o with
  | OCreateConfigMap ns name _ _ | OUpdateConfigMap ns name _ =>
      ns = r.(fr_Namespace) ∧ name = r.(fr_ConfigMapName)
  | _ => cluster_read o
  end.

Definition footprint (p : part) : op → Prop :=
  match p with
  | Collector _ => cluster_read
  | DeviceController _ => owned_patch
  | ExporterFeed r => feeding r
  | DashboardServer _ _ => dashboard_read
  | Discovery_ _ => sweeping
  end.

(** Changes the cluster or a device. *)
Definition writes (o : op) : Prop :=
  match o with
  | OPatch _ _ | OStatusPatch _ _ | OCreate _ | OUpdate _ | OStatusUpdate _ => True
  | OCreateConfigMap _ _ _ _ | OUpdateConfigMap _ _ _ | OEvent _ _ _ _ => True
  | OCall _ m p _ => ¬ (m = "Shelly.GetConfig" ∧ p = None)
  | _ => False
  end.

Lemma feed_footprint r : emits (feeding r) (reconcile_feed r).
Proof. unfold reconcile_feed. by repeat emits_step. Qed.

Lemma sweep_footprint t now fs : emits sweeping (record_sweep t now fs).
Proof.
  unfold record_sweep, markStale. apply emits_bind.
  - generalize ([] : list error). induction fs as [|f fs IH]; intros errs; [done|]. cbn [apply_each].
    apply emits_bind; [|intros r; apply IH]. unfold applyDevice. apply emits_bind_ok.
    + split; [done|]. intros [dev|e]; cbn [bind].
      * destruct (hasLabels _ _); [done|]. by split.
      * destruct (is_kind ENotFound e); [by split|done].
    + intros [dev|]; [by split|done].
  - intros errs. apply emits_bind; [|done]. split; [done|]. intros [items|e]; [|done].
    apply (emits_bind _ (mark_each _ items [])); [|done].
    generalize ([] : list error). induction items as [|d items IH]; intros errs'; [done|]. cbn [mark_each].
    destruct (negb (stale _ d)); [apply IH|]. split; [done|]. intros r. apply IH.
Qed.

Lemma start_footprint n s : emits sweeping (Start n s).
Proof.
  unfold Start. destruct (init s) as [s' [e|]]; [done|]. clear s. revert s'.
  induction n as [|n IH]; intros s; [done|]. cbn [sweep_loop]. apply emits_bind.
  - unfold RunOnce. destruct (init s) as [s' [e|]]; [done|]. repeat first [emits_step|apply sweep_footprint]; done.
  - intros r. split; [done|]. intros [|]; [apply IH|done].
Qed.

Lemma collect_footprint c : emits cluster_read (Collect c).
Proof. split; [done|]. intros [items|e]; [apply collect_each_reads|done]. Qed.

Lemma serves_footprint p A (q : prog A) : serves p A q → emits (footprint p) q.
Proof.
  destruct 1 as [c|r ns name|r|s addr route name Hr|s n]; cbn [footprint].
  - apply collect_footprint.
  - eapply emits_mono; [|apply (disciplined_Reconcile r)]. by intros o [? _].
  - apply feed_footprint.
  - exact (proj1 (Forall_forall _ _) (routes_read s) route Hr name).
  - apply start_footprint.
Qed.

(** At most one part of each kind is registered. *)
Lemma parts_once f p1 p2 o :
  p1 ∈ parts f → p2 ∈ parts f → writes o → footprint p1 o → footprint p2 o → p1 = p2.
Proof.
  assert (Hin : ∀ p, p ∈ parts f → match p with
    | Collector _ => p = collector_part f | DeviceController _ => p = controller_part f
    | ExporterFeed _ => p ∈ feed_part f | DashboardServer _ _ => p ∈ dashboard_part f
    | Discovery_ s => s = sweeper_of f end).
  { intros p. unfold parts, feed_part, dashboard_part. rewrite !elem_of_cons, !elem_of_app.
    repeat case_match; rewrite ?elem_of_cons, ?elem_of_nil; naive_solver. }
  intros Hp1%Hin Hp2%Hin Hw. unfold feed_part, dashboard_part in *.
  destruct p1, p2; cbn [footprint]; intros F1 F2;
    try (destruct o; cbn in Hw, F1, F2; by (done || tauto));
    repeat case_match; rewrite ?list_elem_of_singleton, ?elem_of_nil in *; (done || congruence).
Qed.

(** C23: only the leader writes, and each write has one owner.  Whatever the
    flags, for every part the process registers: what it does when run stays
    within its footprint (the device controller: patches of its own fields,
    events and device calls; discovery: unauthenticated probes and its own
    objects; the feed: its one ConfigMap; metrics and dashboard: reads); parts
    that also run on replicas that are not the leader never write to the cluster
    and send devices nothing but Shelly.GetConfig; and no two registered parts
    can make the same kind of write, so the parts need no coordination. *)
Theorem replicas_sound (f : Flags) :
  (∀ p A (q : prog A), p ∈ parts f → serves p A q →
     emits (footprint p) q ∧ (leader_only p = false → emits dashboard_read q)) ∧
  (∀ p1 p2 o, p1 ∈ parts f → p2 ∈ parts f → writes o → footprint p1 o → footprint p2 o → p1 = p2).
Proof.
  split; [|intros p1 p2 o; apply parts_once].
  intros p A q _ Hs%serves_footprint. split; [done|].
  destruct p; try done; intros _; eapply emits_mono; [|exact Hs]; by intros [].
Qed.
End Replicas.
