(* ===== verification/Truth.v ===== *)
(** * What the InSync condition says

    The condition is the operator's word on a device.  That word is checked here
    against what the reconcile that wrote it had read, and the Event that should
    accompany a change of it against the pointer it is decided by. *)

From stdpp Require Import prelude gmap strings pretty sorting list.
From S2P Require Import Prelude Json Api Diff Order Match Render Shelly Effects Client Jobs Fleet Window Apply Update Reconcile Safety.

(** Operations after which the device's configuration is still what was read: no
    call but reads, a reboot or a firmware update request. *)
Definition harmless (o : op) : Prop :=
  ∀ m, method_of o = Some m → m ∈ read_methods ++ ["Shelly.Reboot"; "Shelly.Update"].

Lemma reading_harmless o : reading o → harmless o.
Proof. intros Hr m Hm%Hr. apply elem_of_app. by left. Qed.

Section Truth.
Context `{Selectors, Conditions, Fmt, StrConv, JsonText, Sha256, RegistryJson, QualifiedNames, Locations}.
Context `{!ConditionLaws}.
Context (namespace name : string) (r : Settings).

(** Whatever is answered, except that a map is ranged over in an order of its
    keys. *)
Definition ranging (o : op) : resp o → Prop :=
  match o with ORange m => λ order, range_order order m | _ => λ _, True end.

(** The patch brings an InSync condition that is true and was not there. *)
Definition reports_sync (base new : ShellyDevice) : Prop :=
  ∃ c, FindStatusCondition new.(dev_Status).(st_Conditions) ConditionInSync = Some c ∧
       c.(cond_Status) = ConditionTrue ∧
       FindStatusCondition base.(dev_Status).(st_Conditions) ConditionInSync ≠ Some c.

(** [rd] is a part of the history [h], and the configuration was not written
    after it. *)
Definition since (rd h : list event) : Prop :=
  ∃ newer, h = newer ++ rd ∧ Forall (λ e, harmless (projT1 e)) newer.

(** The schedule jobs were listed after [rd]. *)
Definition jobs_read (rd h : list event) (jobs : list ScheduleJob) : Prop :=
  ∃ c h2, suffix rd h2 ∧ suffix (Ev (OCall c "Schedule.List" None AnsJobs) (Ok jobs) :: h2) h.

Definition firmware_clean (rd h : list event) (p : ShellyProfile) : Prop :=
  ∀ want, firmwareEnableOf p = Some want →
  ∃ jobs, jobs_read rd h jobs ∧ firmwareFindings want jobs = [].

Definition schedule_clean (rd h : list event) (p : ShellyProfile) : Prop :=
  ∀ sec, scheduleSectionOf p = Some sec →
  ∃ jobs, jobs_read rd h jobs ∧ scheduleActions (Some sec) jobs = [].

(** [dn] is the name the device should have, as resolved in this reconcile. *)
Definition named (h : list event) (dn : string) : Prop :=
  ∃ dev h1 h2, first_read namespace name h dev ∧
    yields (ResolveName r.(rs_Reader) dev r.(rs_NameMapName) r.(rs_RegistryName)) h1 h2 (Ok dn) ∧
    suffix h2 h.

(** The last thing in [rd] is the device's configuration, and rendering the
    profile with the device's name against it, in the order its components were
    then ranged over, shows no difference. *)
Definition config_clean (rd h : list event) (p : ShellyProfile) : Prop :=
  ∃ c actual older dn order h2,
    rd = Ev (OCall c "Shelly.GetConfig" None AnsConfig) (Ok actual) :: older ∧
    named older dn ∧
    suffix rd h2 ∧ suffix (Ev (ORange actual) order :: h2) h ∧ range_order order actual ∧
    Diff (Render p.(prof_Spec).(ps_Config) dn order actual) actual = Ok [].

(** The device was read, every managed part of it agreed with the profile, and
    its configuration was not written since. *)
Definition checked (h : list event) (p : ShellyProfile) : Prop :=
  ∃ rd, since rd h ∧ config_clean rd h p ∧ firmware_clean rd h p ∧ schedule_clean rd h p.

Definition truthful (h : list event) (o : op) : Prop :=
  match o with
  | OStatusPatch base new =>
      reports_sync base new →
      ∃ p, matched namespace name h p ∧ p.(prof_Name) = new.(dev_Status).(st_MatchedProfile) ∧
           checked h p
  | _ => True
  end.

(** Operations that report nothing. *)
Definition modest (o : op) : Prop :=
  match o with OStatusPatch base new => ¬ reports_sync base new | _ => True end.

(** ** Facts that persist *)

Lemma since_refl h : since h h.
Proof. by exists []. Qed.

Lemma since_cons rd h o (a : resp o) : harmless o → since rd h → since rd (Ev o a :: h).
Proof. intros Ho (newer & -> & Hn). exists (Ev o a :: newer). split; [done|by constructor]. Qed.

Lemma since_suffix rd h : since rd h → suffix rd h.
Proof. intros (newer & -> & _). by exists newer. Qed.

Lemma jobs_read_suffix rd h h' jobs : suffix h h' → jobs_read rd h jobs → jobs_read rd h' jobs.
Proof. intros Hs (c & h2 & ? & ?). exists c, h2. split; [done|by etrans]. Qed.

Lemma firmware_clean_suffix rd h h' p : suffix h h' → firmware_clean rd h p → firmware_clean rd h' p.
Proof. intros Hs Hc w Hw. destruct (Hc w Hw) as (j & ? & ?). eauto using jobs_read_suffix. Qed.

Lemma schedule_clean_suffix rd h h' p : suffix h h' → schedule_clean rd h p → schedule_clean rd h' p.
Proof. intros Hs Hc w Hw. destruct (Hc w Hw) as (j & ? & ?). eauto using jobs_read_suffix. Qed.

Lemma config_clean_suffix rd h h' p : suffix h h' → config_clean rd h p → config_clean rd h' p.
Proof.
  intros Hs (c & actual & older & dn & order & h2 & ? & ? & ? & ? & ? & ?).
  exists c, actual, older, dn, order, h2. split_and!; try done. by etrans.
Qed.

Lemma named_suffix h h' dn : suffix h h' → named h dn → named h' dn.
Proof.
  intros Hs (dev & h1 & h2 & ? & ? & ?). exists dev, h1, h2.
  split_and!; [by eapply first_read_suffix|done|by etrans].
Qed.

(** ** Programs that report nothing *)

Lemma modest_truthful h o : modest o → truthful h o.
Proof. destruct o; try done. by intros Hm Hr%Hm. Qed.

Lemma wp_modest {A} (p : prog A) h :
  emits modest p → wp truthful ranging h p (λ h' _, suffix h h').
Proof.
  intros He. eapply wp_mono; [|apply (wp_emits _ _ (λ _, True) modest); [|exact He|done]].
  - by intros h' a [? _].
  - intros h' o _ _ Ho. split; [by apply modest_truthful|done].
Qed.

Lemma wp_harmless {A} (p : prog A) rd h :
  emits (λ o, modest o ∧ harmless o) p → since rd h →
  wp truthful ranging h p (λ h' _, suffix h h' ∧ since rd h').
Proof.
  intros He Hr. apply (wp_emits _ _ (since rd) (λ o, modest o ∧ harmless o)); [|exact He|done].
  intros h' o _ Hs [Hm Ho]. split; [by apply modest_truthful|]. intros a. by apply since_cons.
Qed.

(** Status patches that leave the conditions alone. *)
Lemma modest_same base new :
  new.(dev_Status).(st_Conditions) = base.(dev_Status).(st_Conditions) →
  modest (OStatusPatch base new).
Proof. intros Heq (c & Hc & _ & Hn). apply Hn. by rewrite <- Heq. Qed.

Lemma modest_finished dev status reason msg fs pn :
  status ≠ ConditionTrue → modest (OStatusPatch dev (finished dev status reason msg fs pn)).
Proof.
  intros Hst (c & Hc & Htrue & _). apply Hst. rewrite <- Htrue. unfold finished, upd_status in Hc. cbn in Hc.
  destruct (find_set (st_Conditions (dev_Status dev)) (MkCondition ConditionInSync status reason msg
    (meta_Generation (dev_Meta dev)) time_zero)) as [t Ht]. cbn in Ht.
  rewrite Ht in Hc. by injection Hc as <-.
Qed.

Abbreviation calm := (λ o, modest o ∧ harmless o).

Lemma calm_reading o : modest o → reading o → calm o.
Proof. split; [done|by apply reading_harmless]. Qed.

Lemma calm_quiet o : modest o → quiet o → calm o.
Proof. intros. by apply calm_reading, quiet_reading. Qed.

Lemma calm_record_event dev t reason msg : emits calm (record_event r dev t reason msg).
Proof. unfold record_event. repeat emits_step. apply calm_quiet; [exact I|solve_op]. Qed.

Lemma calm_finish dev status reason msg fs pn :
  status ≠ ConditionTrue → emits calm (finish r dev status reason msg fs pn).
Proof.
  intros Hst. unfold finish, jitter.
  repeat first [emits_step | apply calm_record_event
    | apply calm_quiet; [first [exact I | by apply modest_finished]|solve_op]].
Qed.

Lemma calm_finish_unknown dev reason msg pn : emits calm (finish_unknown r dev reason msg pn).
Proof. by apply calm_finish. Qed.

Lemma calm_patch base new :
  new.(dev_Status).(st_Conditions) = base.(dev_Status).(st_Conditions) →
  calm (OStatusPatch base new).
Proof. intros. apply calm_quiet; [by apply modest_same|solve_op]. Qed.

(** One call, by its method. *)
Lemma calm_call c m ps a :
  bool_decide (m ∈ read_methods ++ ["Shelly.Reboot"; "Shelly.Update"]) = true →
  calm (OCall c m ps a).
Proof. intros Hm%bool_decide_eq_true. split; [done|]. by intros ? [= <-]. Qed.

Ltac calm_auto :=
  repeat first [emits_step | apply calm_record_event | apply calm_finish_unknown
    | by apply calm_patch | by apply calm_call | apply calm_quiet; [exact I|solve_op]].

Lemma calm_recordUpdateAttempt dev a : emits calm (recordUpdateAttempt r dev a).
Proof. unfold recordUpdateAttempt. calm_auto. Qed.

Lemma calm_updateIfAvailable c dev p sys : emits calm (updateIfAvailable r c dev p sys).
Proof.
  unfold updateIfAvailable, update_gates, claimUpdateSlot, send_update, Client.Update.
  repeat first [apply calm_recordUpdateAttempt | progress calm_auto].
Qed.

Lemma calm_stampSysStatus c dev : emits calm (stampSysStatus r c dev).
Proof. unfold stampSysStatus, GetSysStatus. calm_auto. Qed.

Lemma calm_rebootIfRequested c dev p b1 b2 : emits calm (rebootIfRequested r c dev p b1 b2).
Proof. unfold rebootIfRequested, Client.Reboot. calm_auto. Qed.

(** Enforcement writes, but reports nothing before it is verified. *)
Lemma modest_applyFindings c dev d fs ae fe pw wpw p :
  emits modest (applyFindings c dev d fs ae fe pw wpw p).
Proof.
  unfold applyFindings, apply_section, apply_auth, applyFirmware, applySchedule, apply_action,
    CreateSchedule, UpdateSchedule, delete_job, DeleteSchedule, ListSchedules, Probe, SetAuth,
    SetConfig, SetSwitchConfig.
  repeat first [emits_step|apply emits_wrapping|apply emits_each|apply emits_apply_sections|exact I].
Qed.

(** ** The drift check *)

Lemma wp_list rd h c :
  since rd h →
  wp truthful ranging h (ListSchedules c) (λ h' r,
    suffix h h' ∧ since rd h' ∧ ∀ jobs, r = Ok jobs → jobs_read rd h' jobs).
Proof.
  intros Hr. cbn. split; [exact I|]. intros a _. split_and!.
  - apply suffix_ev.
  - apply since_cons; [|done]. by apply (calm_call c "Schedule.List" None AnsJobs).
  - intros jobs [= ->]. exists c, h. split; [by apply since_suffix|done].
Qed.

Lemma wp_firmware_check rd h c p fs :
  since rd h →
  wp truthful ranging h (appendFirmwareFindings c p fs) (λ h' r,
    suffix h h' ∧ since rd h' ∧ ∀ fs', r = Ok fs' → fs' = [] → fs = [] ∧ firmware_clean rd h' p).
Proof.
  intros Hr. unfold appendFirmwareFindings, firmware_clean.
  destruct (firmwareEnableOf p) as [want|]; [|by cbn; split_and!; [done..|]; intros ? [= <-] ->].
  rewrite wp_bind_ok. eapply wp_mono; [|by apply wp_list].
  intros h' [jobs|e] (Hs & Hr' & Hj); [|by split_and!]. cbn. split_and!; [done..|].
  intros ? [= <-] [? ?]%app_eq_nil. split; [done|]. intros ? [= <-]. eauto.
Qed.

Lemma wp_schedule_check rd h c p fs :
  since rd h →
  wp truthful ranging h (appendScheduleFindings c p fs) (λ h' r,
    suffix h h' ∧ since rd h' ∧ ∀ fs', r = Ok fs' → fs' = [] → fs = [] ∧ schedule_clean rd h' p).
Proof.
  intros Hr. unfold appendScheduleFindings, schedule_clean.
  destruct (scheduleSectionOf p) as [sec|]; [|by cbn; split_and!; [done..|]; intros ? [= <-] ->].
  rewrite wp_bind_ok. eapply wp_mono; [|by apply wp_list].
  intros h' [jobs|e] (Hs & Hr' & Hj); [|by split_and!]. cbn. split_and!; [done..|].
  intros ? [= <-] [? Hnil%fmap_nil_inv]%app_eq_nil. split; [done|]. intros ? [= <-]. eauto.
Qed.

Lemma appendAuthFinding_nil p fs a : appendAuthFinding p fs a = [] → fs = [].
Proof.
  unfold appendAuthFinding. repeat case_match; try done. by intros [? ?]%app_eq_nil.
Qed.

Lemma checked_suffix h h' p : suffix h h' → (∀ rd, since rd h → since rd h') → checked h p → checked h' p.
Proof.
  intros Hs Hr (rd & ? & ? & ? & ?). exists rd.
  split_and!; eauto using config_clean_suffix, firmware_clean_suffix, schedule_clean_suffix.
Qed.

(** The verification read: no findings means the device was checked. *)
Lemma wp_recheck dev p dn pw a h :
  named h dn →
  wp truthful ranging h (recheck dev p dn pw a) (λ h' r, suffix h h' ∧ (r = Ok [] → checked h' p)).
Proof.
  intros Hdn. unfold recheck, GetConfig. cbn [bind perform wp]. split; [exact I|]. intros c _.
  set (h1 := Ev _ c :: h). rewrite wp_bind_ok. unfold rechecking. rewrite wp_bind. cbn [perform wp].
  split; [exact I|]. intros [actual|e] _; cbn [wp].
  2:{ split; [by apply suffix_cons_r, suffix_ev|done]. }
  set (rd := Ev (OCall c "Shelly.GetConfig" None AnsConfig) (Ok actual) :: h1).
  assert (Hs : suffix h rd) by (by apply suffix_cons_r, suffix_ev).
  cbn [bind perform wp]. split; [exact I|]. intros order Hord. set (h2 := Ev _ order :: rd).
  assert (Hr : since rd h2) by (apply since_cons, since_refl; apply reading_harmless; solve_op).
  assert (Hs2 : suffix h h2) by (by apply suffix_cons_r).
  destruct (Diff _ actual) as [fs|e] eqn:Hd; [|by split].
  rewrite wp_bind_ok, wp_bind. eapply wp_mono; [|by apply wp_firmware_check].
  intros h3 [fs1|e] (Hs3 & Hr3 & Hf); cbn [wp]; [|by split; [etrans|]].
  rewrite wp_bind. eapply wp_mono; [|by apply wp_schedule_check].
  intros h4 [fs2|e] (Hs4 & Hr4 & Hsch); cbn [wp]; (split; [etrans; [exact Hs2|]; etrans; [exact Hs3|exact Hs4]|]); [|done].
  intros [= ->]. destruct (Hsch _ eq_refl eq_refl) as [-> Hsc].
  destruct (Hf _ eq_refl eq_refl) as [Ha%appendAuthFinding_nil Hfw]. subst fs.
  exists rd. split_and!; [done| |by eapply firmware_clean_suffix|done].
  exists c, actual, h1, dn, order, rd. split_and!; [done| |done| |done|done].
  - eapply named_suffix; [|done]. apply suffix_ev.
  - etrans; [exact Hs3|exact Hs4].
Qed.

Lemma wp_enforceAndRecheck c dev p d dn pw wpw fs a h :
  named h dn →
  wp truthful ranging h (enforceAndRecheck r c dev p d dn pw wpw fs a)
    (λ h' out, suffix h h' ∧ (out.2 = Ok [] → checked h' p)).
Proof.
  intros Hdn. assert (Hev : ∀ t reason msg, emits modest (record_event r dev t reason msg)).
  { intros. eapply emits_mono, calm_record_event. by intros o [? _]. }
  unfold enforceAndRecheck. rewrite wp_bind. eapply wp_mono; [|apply wp_modest, modest_applyFindings].
  intros h1 [result applyErr] Hs1. cbv zeta. rewrite wp_bind.
  eapply wp_mono; [|apply wp_modest; by repeat first [emits_step|apply Hev]].
  intros h2 ? Hs2. rewrite wp_bind.
  eapply wp_mono; [|apply wp_modest; by repeat first [emits_step|apply Hev]].
  intros h3 ? Hs3. assert (Hs : suffix h h3) by (etrans; [exact Hs1|]; etrans; [exact Hs2|exact Hs3]).
  destruct applyErr as [e|]; [by split|].
  rewrite wp_bind. eapply wp_mono; [|by eapply wp_recheck, named_suffix]. intros h4 out [Hs4 Hout]. cbn [wp].
  split; [by etrans|exact Hout].
Qed.

Lemma wp_runEnforce c dev p d dn pw wpw fs warns h :
  named h dn →
  wp truthful ranging h (runEnforce r c dev p d dn pw wpw fs warns)
    (λ h' out, suffix h h' ∧ ∀ dev', out = Continue [] dev' → checked h' p).
Proof.
  intros Hdn. assert (Hfin : ∀ q h1, suffix h h1 → emits calm q →
    wp truthful ranging h1 (res <- q ;; Ret (Done res))
      (λ h' out, suffix h h' ∧ ∀ dev', out = Continue [] dev' → checked h' p)).
  { intros q h1 Hs1 Hq. rewrite wp_bind. eapply wp_mono; [|apply wp_modest].
    - intros h2 res Hs2. cbn. split; [by etrans|done].
    - eapply emits_mono, Hq. by intros o [? _]. }
  unfold runEnforce. cbv zeta. destruct (damped dev fs warns); [by apply Hfin, calm_finish|].
  rewrite wp_bind. eapply wp_mono; [|by apply wp_enforceAndRecheck].
  intros h1 [[applied authNow] outcome] [Hs1 Hout]. cbn [snd] in Hout.
  destruct outcome as [fs'|[e|e]].
  - case_match; [|cbn; split; [done|intros ? [= -> <-]; auto]].
    rewrite wp_bind. eapply wp_mono.
    2:{ apply wp_modest. eapply emits_mono, calm_record_event. by intros o [? _]. }
    intros h2 ? Hs2. apply Hfin; [by etrans|by apply calm_finish].
  - by apply Hfin, calm_finish.
  - case_match; by apply Hfin, calm_finish.
Qed.

Lemma wp_check_truthful c dev p dn pw wpw warns actual sys rd older h :
  rd = Ev (OCall c "Shelly.GetConfig" None AnsConfig) (Ok actual) :: older →
  named older dn → since rd h → matched namespace name h p →
  wp truthful ranging h (check_and_enforce r c dev p dn pw wpw warns actual sys) (λ _ _, True).
Proof.
  intros Hrd Hdn Hr0 Hm.
  assert (Hfin : ∀ {A} (q : prog A) h1, emits calm q → wp truthful ranging h1 q (λ _ _, True)).
  { intros A q h1 Hq. eapply wp_mono; [|apply wp_modest; eapply emits_mono, Hq]; [done|by intros o [? _]]. }
  unfold check_and_enforce. cbv zeta. cbn [bind perform wp]. split; [exact I|]. intros order Hord.
  set (h1 := Ev _ order :: h).
  assert (Hr : since rd h1) by (apply since_cons; [apply reading_harmless; solve_op|done]).
  destruct (Diff _ actual) as [fs|e] eqn:Hd; [|apply Hfin, calm_finish_unknown].
  rewrite wp_bind. eapply wp_mono; [|by apply wp_firmware_check].
  intros h2 [fs1|e] (Hs2 & Hr2 & Hf); [|apply Hfin, calm_finish_unknown].
  rewrite wp_bind. eapply wp_mono; [|by apply wp_schedule_check].
  intros h3 [fs2|e] (Hs3 & Hr3 & Hsch); [|apply Hfin, calm_finish_unknown].
  assert (Hs : suffix h h3) by (etrans; [|exact Hs3]; etrans; [|exact Hs2]; apply suffix_ev).
  assert (Hclean : fs2 = [] → checked h3 p).
  { intros ->. destruct (Hsch _ eq_refl eq_refl) as [-> Hsc].
    destruct (Hf _ eq_refl eq_refl) as [Ha%appendAuthFinding_nil Hfw]. subst fs.
    exists rd. split_and!; [done| |eapply firmware_clean_suffix; [exact Hs3|done]|done].
    exists c, actual, older, dn, order, h. split_and!; [done|done|by apply since_suffix| |done|done].
    etrans; [exact Hs2|exact Hs3]. }
  assert (Hdn3 : named h3 dn).
  { eapply named_suffix; [|done]. etrans; [|exact Hs]. etrans; [|by apply since_suffix]. subst rd. apply suffix_ev. }
  rewrite wp_bind. eapply (wp_mono _ _ _ _ (λ h' out, suffix h h' ∧
    ∀ dev', out = Continue [] dev' → checked h' p)).
  2:{ case_match; [|cbn; split; [done|intros ? [= -> <-]; auto]].
      eapply wp_mono; [|by apply wp_runEnforce]. intros h' out [? ?]. split; [by etrans|done]. }
  intros h4 [res|fs3 dev3] [Hs4 Hout]; [done|].
  rewrite wp_bind. eapply wp_mono.
  2:{ apply (wp_emits _ _ (λ h', suffix h4 h' ∧ ∀ rd, since rd h4 → since rd h') calm);
        [|apply calm_rebootIfRequested|done].
      intros h' o _ [Hs' Hr'] [Hmo Ho]. split; [by apply modest_truthful|]. intros a.
      split; [by apply suffix_cons_r|]. intros rd' ?%Hr'. by apply since_cons. }
  intros h5 dev5 [_ [Hs5 Hr5]]. destruct fs3 as [|f fs3]; [|by apply Hfin, calm_finish].
  unfold finish, jitter. cbv zeta. cbn [bind perform wp]. split.
  - intros _. exists p. split_and!; [|done|].
    + eapply matched_suffix; [|done]. by etrans.
    + eapply checked_suffix; [exact Hs5|exact Hr5|by eapply Hout].
  - intros ans _. destruct ans as [dev'|e]; [|exact I].
    rewrite wp_bind. eapply wp_mono; [|by apply Hfin; repeat first [emits_step|apply calm_record_event]].
    intros h6 _ _. by cbn.
Qed.

Lemma wp_truthful_matched dev p warns h :
  first_read namespace name h dev → matched namespace name h p →
  wp truthful ranging h (reconcile_matched r dev p warns) (λ _ _, True).
Proof.
  intros Hdev Hm.
  assert (Hfin : ∀ d reason msg pn h1, wp truthful ranging h1 (finish_unknown r d reason msg pn) (λ _ _, True)).
  { intros. eapply wp_mono; [|apply wp_modest; eapply emits_mono, calm_finish_unknown];
      [done|by intros o [? _]]. }
  assert (Hq : ∀ {A} (q : prog A) h1, emits calm q → wp truthful ranging h1 q (λ h' _, suffix h1 h')).
  { intros A q h1 Hq. apply wp_modest. eapply emits_mono, Hq. by intros o [? _]. }
  unfold reconcile_matched. cbv zeta.
  rewrite wp_bind. eapply wp_mono; [|apply Hq; unfold ResolvePassword, secretValue; calm_auto].
  intros h1 [pw|e] Hs1; [|apply Hfin].
  rewrite wp_bind. eapply wp_mono;
    [|apply Hq; unfold ResolveWifiPasswords, network_password, secretValue; calm_auto].
  intros h2 [wpw|e] Hs2; [|apply Hfin].
  rewrite wp_bind. eapply wp_mono;
    [|apply wp_yields, Hq; unfold ResolveName, name_from_map, ResolveRegistry; calm_auto].
  intros h3 [dn|e] [Hs3 Hy]; [|apply Hfin].
  assert (Hdn : named h3 dn).
  { exists dev, h2, h3. split_and!; [|done|done]. eapply first_read_suffix; [|exact Hdev].
    etrans; [exact Hs1|]. by etrans. }
  rewrite wp_bind. eapply wp_mono; [|apply Hq; unfold stampRegistry, ResolveRegistry; calm_auto].
  intros h4 [err dev4] Hs4. destruct err as [e|]; [apply Hfin|].
  unfold reconcile_device, GetConfig. cbv zeta. cbn [bind perform wp]. split; [exact I|].
  intros c _. split; [exact I|]. intros [actual|e] _.
  2:{ destruct (fetch_failure pw e). apply Hfin. }
  set (h5 := Ev (OClient _ pw) c :: h4).
  set (rd := Ev (OCall c "Shelly.GetConfig" None AnsConfig) (Ok actual) :: h5).
  rewrite wp_bind. eapply wp_mono; [|apply (wp_harmless _ rd rd); [apply calm_stampSysStatus|apply since_refl]].
  intros h6 [sys dev6] [Hs6 Hr6].
  rewrite wp_bind. eapply wp_mono; [|apply (wp_harmless _ rd h6); [apply calm_updateIfAvailable|done]].
  intros h7 [sent dev7] [Hs7 Hr7]. destruct sent; [exact I|].
  eapply wp_check_truthful; [reflexivity| |exact Hr7|].
  { eapply named_suffix; [|exact Hdn]. etrans; [exact Hs4|]. apply suffix_ev. }
  eapply matched_suffix; [|exact Hm]. etrans; [|by apply since_suffix]. unfold rd, h5.
  do 2 apply suffix_cons_r. etrans; [exact Hs1|]. etrans; [exact Hs2|]. etrans; [exact Hs3|exact Hs4].
Qed.

(** C2: InSync is the truth as far as it was read.  When a reconcile writes an
    InSync condition that is true, whatever the device and the API server
    answered: the device's configuration was read in this reconcile; rendering
    the matched profile against it, with the name this reconcile resolved for the
    device and in the order the read components were ranged over, showed no
    difference; its schedule jobs, if managed, were listed after that and agree
    with the profile; and since that read no call went out that writes
    configuration.  The profile reported is the one matched.  In particular, after
    enforcement only the verification read counts. *)
Theorem in_sync_is_checked :
  wp truthful ranging [] (Reconcile r namespace name) (λ _ _, True).
Proof.
  assert (Hfin : ∀ d reason msg pn h1, wp truthful ranging h1 (finish_unknown r d reason msg pn) (λ _ _, True)).
  { intros. eapply wp_mono; [|apply wp_modest; eapply emits_mono, calm_finish_unknown];
      [done|by intros o [? _]]. }
  unfold Reconcile. cbn [bind perform wp]. split; [exact I|]. intros [dev|e] _; [|exact I]. cbv zeta.
  destruct (ds_Paused (dev_Spec dev)); [apply Hfin|].
  destruct (negb _); [apply Hfin|]. cbn [bind perform wp]. split; [exact I|]. intros now _.
  destruct (updateInFlight dev now) as [[] wait]; [exact I|].
  cbn [bind perform wp]. split; [exact I|]. intros [profs|e] _; [|exact I].
  destruct (MatchProfile dev profs) as [[p|] warns] eqn:Hmp.
  - apply wp_truthful_matched; [by eexists [_; _]|]. exists dev, profs. split_and!; [|constructor|by rewrite Hmp].
    by eexists [_; _].
  - case_match. apply Hfin.
Qed.

(** ** Events on a change of the condition *)

(** The API server answers a patch it accepts with the conditions it was sent. *)
Definition echoing (o : op) : resp o → Prop :=
  match o with
  | OStatusPatch _ new => λ r, ∀ server, r = Ok server →
      server.(dev_Status).(st_Conditions) = new.(dev_Status).(st_Conditions)
  | _ => λ _, True
  end.

Definition is_event (o : op) : Prop :=
  match o with OEvent _ _ _ _ => True | _ => False end.

(** A pointer taken before [SetStatusCondition] reads what was set. *)
Lemma prev_overwritten (dev server : ShellyDevice) status reason msg fs pn i :
  condition_index dev.(dev_Status).(st_Conditions) ConditionInSync = Some i →
  let sent := finished dev status reason msg fs pn in
  server.(dev_Status).(st_Conditions) = sent.(dev_Status).(st_Conditions) →
  ∃ c, through i sent.(dev_Status).(st_Conditions) server.(dev_Status).(st_Conditions) = Some c ∧
       c.(cond_Status) = status ∧ c.(cond_Reason) = reason.
Proof.
  intros Hi sent ->. unfold sent, finished, upd_status. cbn.
  set (c := MkCondition ConditionInSync status reason msg _ time_zero).
  destruct (set_existing _ c i Hi) as (t & -> & _). unfold through.
  destruct (index_found _ _ i Hi) as (c0 & Hc0 & _).
  exists (set_cond_time t c). rewrite list_lookup_insert_eq; [done|by eapply lookup_lt_Some].
Qed.

(** C17: an Event comes with a device's first InSync condition and with no later
    change of it.  When the device has no InSync condition yet, a [finish] whose
    patch is accepted emits an Event with the new reason.  When it has one, no
    [finish] emits an Event, whatever the new status and reason: the pointer the
    previous condition was found by points into the slice that
    [SetStatusCondition] updates, so the comparison is of the new condition with
    itself. *)
Theorem events_only_first dev status reason msg fs pn (Hrec : r.(rs_Recorder) = true) :
  (condition_index dev.(dev_Status).(st_Conditions) ConditionInSync = None →
   wp (λ _ _, True) echoing [] (finish r dev status reason msg fs pn) (λ h' out, out.2 = None →
     ∃ e obj t, e ∈ h' ∧ projT1 e = OEvent obj t reason msg)) ∧
  (condition_index dev.(dev_Status).(st_Conditions) ConditionInSync ≠ None →
   wp (λ _ o, ¬ is_event o) echoing [] (finish r dev status reason msg fs pn) (λ _ _, True)).
Proof.
  unfold finish, jitter, record_event. rewrite Hrec. cbv zeta. split; intros Hi.
  - rewrite Hi. cbn [mbind option_bind bind perform wp]. split; [exact I|].
    intros [server|e] _; [|done]. split; [exact I|]. intros u _. split; [exact I|]. intros x _ _.
    eexists (Ev (OEvent (dev_Name server) _ reason msg) u), _, _. split; [|reflexivity].
    right. constructor.
  - destruct (condition_index _ _) as [i|] eqn:Hidx; [|done]. cbn [mbind option_bind bind perform wp].
    split; [by intros ?|]. intros [server|e] Hecho; [|exact I].
    destruct (prev_overwritten dev server status reason msg fs pn i Hidx (Hecho _ eq_refl))
      as (c & Hc & Hst & Hre).
    rewrite Hc, Hst, Hre, bool_decide_true, String.eqb_refl by done. cbn. split; [by intros ?|done].
Qed.
End Truth.
