(* ===== verification/Damping.v ===== *)
(** * Drift that will not go away

    A device may take a write and show the old value again.  Rewriting its flash
    every cycle would wear it out, so a drift that came back is remembered in the
    InSync condition and left alone until something about it changes.  What is
    remembered, and what the next cycle makes of it, are two pieces of code that
    have to fit; here they are checked against each other. *)

From stdpp Require Import prelude gmap strings pretty sorting list.
From S2P Require Import Prelude Json Api Diff Order Match Render Shelly Effects Client Jobs Fleet Window Apply Update Reconcile Safety.

(** ** Programs that patch no status *)



Section Damping.
Context `{Selectors, Conditions, Fmt, StrConv, JsonText, Sha256, RegistryJson, QualifiedNames, Locations}.





(** ** The next cycle *)






(** ** This cycle *)


Context `{!ConditionLaws}.
Context (r : Settings) (c : Client) (dev : ShellyDevice) (p : ShellyProfile) (d : desired_config)
  (dn pw : string) (wpw : WifiPasswords) (fs : list Finding) (warns : list string).



Abbreviation any := (λ (o : op) (_ : resp o), True).





End Damping.
