(* ===== verification/Requeue.v ===== *)
(** * A device is never forgotten

    controller-runtime calls [Reconcile] again when it returned an error or a
    positive [RequeueAfter], and otherwise only when an object changes.  Every
    outcome of a reconcile asks to be called again. *)

From stdpp Require Import prelude gmap strings pretty sorting list.
From Stdlib Require Import SpecFloat.
From S2P Require Import Prelude Json Floats Api Diff Order Match Render Shelly Effects Client Jobs Fleet Window Apply Update Reconcile.

(** [rand.Float64()] lies in [0, 1). *)
Definition unit_float (f : spec_float) : Prop := below (-1) f.

(** The jittered interval neither truncates to zero nor overflows. *)
Lemma jitter_pos interval rand :
  interval ≠ 1%Z → (interval < 2 ^ 59)%Z → unit_float rand → (0 < jitter_of interval rand)%Z.
Proof.
  intros Hne Hlt Hr. unfold jitter_of. set (d := if (interval <=? 0)%Z then _ else _).
  assert (Hd : (2 ≤ d < 2 ^ 59)%Z).
  { unfold d, Minute, Second. destruct (Z.leb_spec interval 0); lia. }
  enough (within (1 + -1) (59 + 1 + 2) (SFmul 53 1024 (float64_of_Z d)
    (SFadd 53 1024 f09 (SFmul 53 1024 f02 rand)))) as Hw by (apply trunc_pos in Hw; lia).
  apply SFmul_within; [apply (of_Z_within d 1 58); [exact Hd|lia..]| |lia..].
  apply (SFadd_within _ _ (-1) (-1)); [split; vm_compute; discriminate| |lia..].
  apply (SFmul_below f02 rand (-3) (-3) (-1)) in Hr; [|split; vm_compute; discriminate|lia].
  destruct (SFmul 53 1024 f02 rand) as [[]|[]| |[] m e]; cbn in *; lia || done.
Qed.

Section Requeue.
Context `{Selectors, Conditions, Fmt, StrConv, JsonText, Sha256, RegistryJson, QualifiedNames, Locations}.
Context (r : Settings).
Hypothesis interval_ok : r.(rs_Interval) ≠ 1%Z ∧ (r.(rs_Interval) < 2 ^ 59)%Z.

(** Whatever is answered, except that random numbers lie in the unit interval. *)
Definition random (o : op) : resp o → Prop :=
  match o with ORandom => unit_float | _ => λ _, True end.

(** Called again: an error, or after a positive time. *)
Definition again (out : ctrl_Result * option error) : Prop :=
  out.2 = None → (0 < out.1.(RequeueAfter))%Z.

Abbreviation wps := (wp (λ _ _, True) random).

Lemma wp_skip {A B} h (p : prog A) (f : A → prog B) (Q : list event → B → Prop) :
  (∀ h' a, suffix h h' → wps h' (f a) Q) → wps h (bind p f) Q.
Proof.
  intros Hf. rewrite wp_bind. revert h Hf. induction p as [a|o k IH]; intros h Hf; cbn; [by apply Hf|].
  split; [exact I|]. intros x _. apply IH. intros h' a Hs. apply Hf. etrans; [|exact Hs]. by exists [Ev o x].
Qed.

Lemma wp_finish_again h dev status reason msg fs pn :
  wps h (finish r dev status reason msg fs pn) (λ _, again).
Proof.
  unfold finish, jitter. cbv zeta. apply wp_skip. intros h1 p _. destruct p as [dev'|e]; [|done].
  apply wp_skip. intros h2 _ _. cbn. split; [exact I|]. intros x Hx _.
  cbn. apply jitter_pos; [apply interval_ok..|exact Hx].
Qed.

Lemma wp_enforce_again h c dev p d dn pw wpw fs warns :
  wps h (runEnforce r c dev p d dn pw wpw fs warns)
    (λ _ out, match out with Done res => again res | Continue _ _ => True end).
Proof.
  assert (Hfin : ∀ h dev status reason msg fs pn,
    wps h (res <- finish r dev status reason msg fs pn ;; Ret (Done res))
      (λ _ out, match out with Done res => again res | Continue _ _ => True end)).
  { intros. rewrite wp_bind. eapply wp_mono; [|apply wp_finish_again]. by intros. }
  unfold runEnforce. cbv zeta. destruct (damped dev fs warns); [apply Hfin|].
  apply wp_skip. intros h1 [[applied authNow] [fs'|[e|e]]] _.
  - case_match; [|done]. apply wp_skip. intros h2 _ _. apply Hfin.
  - apply Hfin.
  - case_match; apply Hfin.
Qed.

Lemma wp_check_again h c dev p dn pw wpw warns actual sys :
  wps h (check_and_enforce r c dev p dn pw wpw warns actual sys) (λ _, again).
Proof.
  unfold check_and_enforce, finish_unknown. cbv zeta. apply wp_skip. intros h1 order _.
  destruct (Diff _ _) as [fs|e]; [|apply wp_finish_again].
  apply wp_skip. intros h2 [f1|e] _; [|apply wp_finish_again].
  apply wp_skip. intros h3 [f2|e] _; [|apply wp_finish_again].
  rewrite wp_bind. eapply (wp_mono _ _ _ _ (λ _ out, match out with Done res => again res | Continue _ _ => True end)).
  - intros h4 [res|fs' dev'] Hout; [done|]. apply wp_skip. intros h5 dev5 _.
    destruct fs'; apply wp_finish_again.
  - case_match; [apply wp_enforce_again|done].
Qed.

Lemma wp_matched_again h dev p warns :
  wps h (reconcile_matched r dev p warns) (λ _, again).
Proof.
  unfold reconcile_matched, reconcile_device, finish_unknown. cbv zeta.
  apply wp_skip. intros h1 [pw|e] _; [|apply wp_finish_again].
  apply wp_skip. intros h2 [wpw|e] _; [|apply wp_finish_again].
  apply wp_skip. intros h3 [dn|e] _; [|apply wp_finish_again].
  apply wp_skip. intros h4 [[e|] dev4] _; [apply wp_finish_again|].
  apply wp_skip. intros h5 c _. apply wp_skip. intros h6 [actual|e] _.
  - apply wp_skip. intros h7 [sys dev7] _. apply wp_skip. intros h8 [[] dev8] _; [|apply wp_check_again].
    cbn. intros _. done.
  - destruct (fetch_failure pw e). apply wp_finish_again.
Qed.

(** C8: the operator never forgets a device.  Whatever the device, the API server
    and the clock answer, a [Reconcile] that returns no error has asked to be
    called again after a positive time, or was told that the object does not
    exist.  For every configured interval up to 2^59 ns (18 years) but one
    nanosecond (zero and negative ones select the default): the jittered delay,
    computed in float64 and converted to an int64, neither truncates to zero nor
    overflows. *)
Theorem never_forgotten namespace name :
  wps [] (Reconcile r namespace name) (λ h out,
    again out ∨ ∃ e, Ev (OGetDevice namespace name) (Err e) ∈ h ∧ is_NotFound e = true).
Proof.
  assert (Hleft : ∀ h (q : prog (ctrl_Result * option error)), wps h q (λ _, again) →
    wps h q (λ h' out, again out ∨ ∃ e, Ev (OGetDevice namespace name) (Err e) ∈ h' ∧ is_NotFound e = true)).
  { intros h q. apply wp_mono. by left. }
  unfold Reconcile, finish_unknown. rewrite wp_bind. cbn [perform wp]. split; [exact I|]. intros [dev|e] _.
  2:{ destruct (is_NotFound e) eqn:He; [right; exists e; split; [constructor|done]|by left]. }
  apply Hleft. cbv zeta. destruct (ds_Paused _); [apply wp_finish_again|].
  destruct (negb _); [apply wp_finish_again|]. apply wp_skip. intros h1 now _.
  destruct (updateInFlight dev now) as [[] wait] eqn:Hfl.
  - intros _. cbn. unfold updateInFlight in Hfl. repeat case_match; simplify_eq.
    by apply Z.leb_gt.
  - apply wp_skip. intros h2 [profs|e] _; [|done].
    destruct (MatchProfile dev profs) as [[p|] warns]; [apply wp_matched_again|].
    case_match. apply wp_finish_again.
Qed.
End Requeue.
