(* ===== verification/Enforced.v ===== *)
(** * One reconcile brings a device into its desired state

    The whole of [Reconcile] against a cooperative device and a cluster that does
    not change meanwhile: from the object read first to the status written last. *)

From stdpp Require Import prelude gmap strings pretty sorting list.
From S2P Require Import Prelude Json Api Diff Order Match Render Shelly Effects Client Decode Rpc Digest FakeDevice Wire Jobs DeviceView Fleet Window Apply Update Reconcile Converge Safety.

(** ** A steady cluster *)

(** Operations of the API server. *)
Definition cluster_op (o : op) : Prop :=
  match o with
  | OGetDevice _ _ | OListDevices _ | OListProfiles _ | OGetConfigMap _ _ | OGetSecret _ _
  | OPatch _ _ | OStatusPatch _ _ => True
  | _ => False
  end.

(** The result of a program when every operation is answered by [ans]. *)
Fixpoint eval {A : Type} (ans : ∀ o, resp o) (p : prog A) : A :=
  match p with
  | Ret a => a
  | Do o k => eval ans (k (ans o))
  end.

(** The device behind the handler is the fake device; the API server answers the
    same each time, accepts every patch, and does not touch the device. *)
Class Steady `{Sha256} {S : Type} (hd : handler S) (get : S → Device) (ans : ∀ o, resp o) : Prop := {
  steady_backed :: Backed hd get;
  steady_answer o s : cluster_op o → (hd o s).1 = ans o ∧ get (hd o s).2 = get s;
  steady_status base d : ans (OStatusPatch base d) = Ok d;
  steady_patch base d : ans (OPatch base d) = Ok d;
}.

Section Enforced.
Context `{Selectors, Conditions, Fmt, StrConv, JsonText, Sha256, RegistryJson, QualifiedNames, Locations}.
Context `{!Sha256Law}.
Context {S : Type} (hd : handler S) (get : S → Device) (ans : ∀ o, resp o) `{!Steady hd get ans}.

Lemma ends_steady {A} (p : prog A) : ∀ s,
  emits cluster_op p → ends hd p s (λ a s', a = eval ans p ∧ get s' = get s).
Proof.
  induction p as [a|o k IH]; intros s He; [by apply ends_ret|]. destruct He as [Ho Hk].
  destruct (steady_answer (hd := hd) o s Ho) as [Ha Hg]. change (Do o k) with (bind (perform o) k).
  apply ends_bind, ends_perform. rewrite Ha. eapply ends_mono; [apply IH, Hk|].
  intros a s' [-> Hs']. split; [done|congruence].
Qed.

(** One cluster read. *)
Lemma leads_to_steady {A B} (p : prog A) (f : A → prog B) s Q :
  emits cluster_op p →
  (∀ s', get s' = get s → leads_to hd (f (eval ans p)) s' Q) →
  leads_to hd (bind p f) s Q.
Proof.
  intros He Hf. apply leads_to_bind. eapply ends_mono; [by apply ends_steady|].
  intros a s' [-> Hs']. by apply Hf.
Qed.

(** Stamping labels does not change spec and status. *)
Lemma stampRegistry_keeps b n dev :
  (eval ans (stampRegistry b n dev)).2.(dev_Spec) = dev.(dev_Spec) ∧
  (eval ans (stampRegistry b n dev)).2.(dev_Status) = dev.(dev_Status).
Proof.
  assert (Hbind : ∀ {A B} (p : prog A) (f : A → prog B), eval ans (bind p f) = eval ans (f (eval ans p))).
  { intros A B p f. induction p as [a|o k IH]; cbn; [done|]. apply IH. }
  unfold stampRegistry. rewrite Hbind. destruct (eval ans (ResolveRegistry _ _ _)) as [entry|e]; [|done].
  case_match; [done|]. cbv zeta. rewrite Hbind. cbn [perform eval]. by rewrite (steady_patch (hd := hd)).
Qed.

(** Reading the device's status. *)
Lemma GetSysStatus_view c s v :
  shows (get s) v → admitted_by v c → ends hd (GetSysStatus c) s (λ _ s', shows (get s') v).
Proof.
  intros Hv Hc. unfold GetSysStatus. apply (call_view hd get c "Sys.GetStatus" None AnsSys s v); [done..|].
  intros s'. cbn [dispatch String.eqb Ascii.eqb Bool.eqb andb]. intros ->. by apply shows_record.
Qed.

Lemma stampSysStatus_view r c dev s v :
  shows (get s) v → admitted_by v c →
  ends hd (stampSysStatus r c dev) s (λ sd s', shows (get s') v ∧
    sd.2.(dev_Spec) = dev.(dev_Spec) ∧
    sd.2.(dev_Status).(st_AuthEnabled) = dev.(dev_Status).(st_AuthEnabled) ∧
    sd.2.(dev_Status).(st_Conditions) = dev.(dev_Status).(st_Conditions)).
Proof.
  intros Hv Hc. unfold stampSysStatus. apply ends_bind.
  eapply ends_mono; [by apply GetSysStatus_view|]. intros [st|e] s1 Hv1; [|by apply ends_ret].
  cbv zeta. case_match; [by apply ends_ret|]. apply ends_bind, ends_perform.
  set (dev' := upd_status _ dev).
  destruct (steady_answer (hd := hd) (OStatusPatch dev dev') s1 I) as [-> Hg].
  rewrite (steady_status (hd := hd)). apply ends_ret. split_and!; [by rewrite Hg|done..].
Qed.

(** ** What the cluster says *)

(** The device object and the cluster's contents make [profile] govern the device,
    with these passwords and name; it is to be enforced and can be. *)
Record governed (r : Settings) (namespace name : string) (dev : ShellyDevice)
  (profile : ShellyProfile) (dn password : string) (wifiPw : WifiPasswords) (v : view) : Prop := {
  gv_device : ans (OGetDevice namespace name) = Ok dev;
  gv_unpaused : dev.(dev_Spec).(ds_Paused) = false;
  gv_online : dev.(dev_Status).(st_Online) = true;
  gv_idle t : (updateInFlight dev t).1 = false;
  gv_profile : ∃ profiles, ans (OListProfiles (dev_Namespace dev)) = Ok profiles ∧
                 (MatchProfile dev profiles).1 = Some profile;
  gv_mode : profile.(prof_Spec).(ps_Mode) = ModeEnforce;
  gv_no_update : profile.(prof_Spec).(ps_UpdateWhenAvailable) = false;
  gv_password : eval ans (ResolvePassword r.(rs_Reader) (dev_Namespace dev)
                  profile.(prof_Spec).(ps_Config).(cfg_Auth)) = Ok password;
  gv_wifi : eval ans (ResolveWifiPasswords r.(rs_Reader) (dev_Namespace dev)
              profile.(prof_Spec).(ps_Config).(cfg_Wifi)) = Ok wifiPw;
  gv_name : eval ans (ResolveName r.(rs_Reader) dev r.(rs_NameMapName) r.(rs_RegistryName)) = Ok dn;
  gv_registry : (eval ans (stampRegistry r.(rs_Reader) r.(rs_RegistryName) dev)).1 = None;
  gv_manageable : manageable profile dn password wifiPw v;
  gv_auth : dev.(dev_Status).(st_AuthEnabled) = v_authOn v;
  gv_undamped prev :
    FindStatusCondition dev.(dev_Status).(st_Conditions) ConditionInSync = Some prev →
    prev.(cond_Reason) ≠ ReasonNotConverging;
}.

(** [p] is the write of InSync = True for [profile], and the device is in sync. *)
Definition reaches_sync (r : Settings) (profile : ShellyProfile) (dn : string)
  (p : prog (ctrl_Result * option error)) (s' : S) : Prop :=
  ∃ dev' v' msg, p = finish r dev' ConditionTrue ReasonInSync msg [] (prof_Name profile) ∧
    shows (get s') v' ∧ in_sync profile dn v'.

Lemma reconcile_device_converges r dev profile dn password wifiPw warns s v :
  shows (get s) v → manageable profile dn password wifiPw v →
  profile.(prof_Spec).(ps_Mode) = ModeEnforce →
  profile.(prof_Spec).(ps_UpdateWhenAvailable) = false →
  dev.(dev_Spec).(ds_Paused) = false →
  dev.(dev_Status).(st_AuthEnabled) = v_authOn v →
  (∀ prev, FindStatusCondition dev.(dev_Status).(st_Conditions) ConditionInSync = Some prev →
     prev.(cond_Reason) ≠ ReasonNotConverging) →
  leads_to hd (reconcile_device r dev profile dn password wifiPw warns) s (reaches_sync r profile dn).
Proof.
  intros Hv Hmg Hmode Hup Hpaused Hauth Hprev. unfold reconcile_device. cbv zeta.
  apply leads_to_bind, ends_perform.
  destruct (backed_client (hd := hd) (get := get) (st_Address (dev_Status dev)) password s) as [Hpw Hg].
  set (c := (hd _ s).1) in *. set (s1 := (hd _ s).2) in *.
  assert (Hc : admitted_by v c) by (by eapply mg_admitted). rewrite <- Hg in Hv.
  apply leads_to_bind. eapply ends_mono; [by apply (GetConfig_view hd get)|].
  intros a s2 (? & -> & -> & Hv2). apply leads_to_bind.
  eapply ends_mono; [by apply stampSysStatus_view|].
  intros [sys dev2] s3 (Hv3 & Hspec & Hau & Hcs). cbn [snd] in *. apply leads_to_bind.
  unfold updateIfAvailable, update_gates. rewrite Hup. cbn [negb orb bind]. apply ends_ret.
  eapply leads_to_mono; [apply (check_and_enforce_converges hd get r c dev2 profile dn password wifiPw warns
    sys s3 v Hv3 Hmg Hpw Hmode)|].
  - by rewrite Hspec.
  - by rewrite Hau.
  - by rewrite Hcs.
  - intros p' s' (dev' & v' & -> & ? & ?). do 3 eexists. by split_and!.
Qed.

(** On a device that takes writes, governed by a profile in enforce mode whose
    secrets are good for it, one [Reconcile] gets from reading the object to
    writing InSync = True for that profile; and when it writes that, the device is
    in sync.  For every implementation of the interface. *)
Lemma Reconcile_converges r namespace name dev profile dn password wifiPw s v
  (Hv : shows (get s) v) (Hgov : governed r namespace name dev profile dn password wifiPw v) :
  leads_to hd (Reconcile r namespace name) s (reaches_sync r profile dn).
Proof.
  destruct Hgov as [Hdev Hpaused Honline Hidle (profs & Hprofs & Hmatch) Hmode Hup Hpw Hwifi
    Hname Hreg Hmg Hauth Hprev].
  unfold Reconcile. apply leads_to_steady; [by repeat emits_step|]. intros s1 Hg1.
  cbn [perform eval]. rewrite Hdev. cbv zeta. rewrite Hpaused, Honline. cbn [negb].
  apply leads_to_bind, ends_perform.
  pose proof (backed_now (hd := hd) (get := get) s1) as Hg2.
  set (now := (hd ONow s1).1) in *. set (s2 := (hd ONow s1).2) in *.
  pose proof (Hidle now) as Hfl. destruct (updateInFlight dev now) as [[] wait]; [done|].
  apply leads_to_steady; [by repeat emits_step|]. intros s3 Hg3. cbn [perform eval]. rewrite Hprofs.
  destruct (MatchProfile dev profs) as [[p|] warns]; [|done]. injection Hmatch as ->.
  unfold reconcile_matched. cbv zeta.
  apply leads_to_steady; [unfold ResolvePassword, secretValue; by repeat emits_step|]. intros s4 Hg4.
  rewrite Hpw. apply leads_to_steady;
    [unfold ResolveWifiPasswords, network_password, secretValue; by repeat emits_step|].
  intros s5 Hg5. rewrite Hwifi.
  apply leads_to_steady; [unfold ResolveName, name_from_map, ResolveRegistry; by repeat emits_step|].
  intros s6 Hg6. rewrite Hname.
  apply leads_to_steady; [unfold stampRegistry, ResolveRegistry; by repeat emits_step|].
  intros s7 Hg7. destruct (stampRegistry_keeps (rs_Reader r) (rs_RegistryName r) dev) as [Hsp Hst].
  destruct (eval ans (stampRegistry _ _ dev)) as [err dev7]. cbn [fst snd] in *. subst err.
  apply (reconcile_device_converges _ _ _ _ _ _ _ _ v); rewrite ?Hsp, ?Hst; try done.
  by rewrite Hg7, Hg6, Hg5, Hg4, Hg3, Hg2, Hg1.
Qed.
End Enforced.
