(* ===== verification/Stack.v ===== *)
(** * The whole stack: a reconcile over HTTP

    [Enforced.Reconcile_converges] is about any implementation of the interfaces
    [Backed] and [Steady].  Here they are implemented by the code: every device
    call is [Client.Call], with its cached challenge, its digest exchange and its
    retries, against the fake device's HTTP handler.  The refinement of Wire.v
    discharges the interface, and the convergence theorem becomes one about
    controller, client and device together. *)

From stdpp Require Import prelude gmap strings pretty sorting list.
From S2P Require Import Prelude Json Api Diff Order Match Render Shelly Effects Client Decode Rpc Digest FakeDevice Wire Jobs DeviceView Fleet Window Apply Update Reconcile Converge Safety Enforced.

(** ** Devices up to how often they challenged *)

Definition forget (d : Device) : Device :=
  MkDevice d.(fd_setup) d.(fd_AvailableUpdates) d.(fd_RestartRequired) d.(fd_ha1)
    d.(fd_config) d.(fd_calls) 0 d.(fd_getConfigCalls)
    d.(fd_schedules) d.(fd_scheduleRev) d.(fd_nextSchedID).

Lemma forget_challenges k d : forget (Nat.iter k count_challenge d) = forget d.
Proof. induction k as [|k IH]; [done|]. exact IH. Qed.

Lemma serve_call_forget d method params :
  serve_call spelled (forget d) method params =
  let '(r, d') := serve_call spelled d method params in (r, forget d').
Proof.
  destruct d. unfold serve_call, dispatch, record_call, forget. cbn.
  unfold handleGetConfig, handleSetAuth, handleReboot, handleUpdate, handleScheduleCreate, handleScheduleUpdate,
    handleScheduleDelete, handleSetConfig. cbn.
  repeat case_match; simplify_eq/=; done.
Qed.

Lemma device_call_forget `{Sha256} d c m p a :
  device_call (forget d) c m p a = let '(r, d') := device_call d c m p a in (r, forget d').
Proof.
  unfold device_call, accepts. cbn [forget fd_ha1 fd_setup]. case_match; [|done].
  rewrite serve_call_forget. by destruct (serve_call spelled d m (VObj <$> p)).
Qed.

Lemma shows_forget d v : shows (forget d) v ↔ shows d v.
Proof. split; intros []; by split. Qed.

(** No request changes what the device is. *)
Lemma serve_call_setup d method params : (serve_call spelled d method params).2.(fd_setup) = d.(fd_setup).
Proof.
  destruct d. unfold serve_call, dispatch, record_call. cbn.
  unfold handleGetConfig, handleSetAuth, handleReboot, handleUpdate, handleScheduleCreate, handleScheduleUpdate,
    handleScheduleDelete, handleSetConfig. cbn.
  repeat case_match; simplify_eq/=; done.
Qed.

Lemma after_setup `{Fmt, JsonText, Sha256, JsonParse} log : ∀ d, (after d log).(fd_setup) = d.(fd_setup).
Proof.
  induction log as [|rq log IH]; intros d; [done|]. cbn. unfold after in IH. rewrite IH.
  unfold rpc_step, handleRPC. case_match; [done|]. repeat case_match; try done.
  cbn. pose proof (serve_call_setup d s o) as Hs. by destruct (serve_call spelled d s o); simplify_eq/=.
Qed.

(** ** The stack *)

(** What the network has seen, and the challenge each client has cached. *)
Record wire : Type := MkWire {
  wi_log : list request;
  wi_auth : gmap nat digestState;
  wi_waits : nat;
}.

Section Stack.
Context `{Fmt, JsonText, Sha256, JsonParse}.
Context (d0 : Device) (cancelled : nat → bool) (random : nat → list Z).
Context {E : Type} (env : handler E).

(** One call of the client [c]: [Client.Call] with the challenge [c] has cached. *)
Definition http_call (c : Client) (m : string) (p : option obj) (a : answer) (w : wire)
  : res error (answer_type a) * wire :=
  let '(r, st) := Call (device_env d0 cancelled random) c m (VObj <$> p) (zero_answer a)
                    (decode_answer a) (MkState (w.(wi_auth) !! c.(cl_ptr)) w.(wi_log) w.(wi_waits)) in
  (r, MkWire st.(st_log) (partial_alter (λ _, st.(st_auth)) c.(cl_ptr) w.(wi_auth)) st.(st_waits)).

(** Device operations over the network, everything else as [env] has it. *)
Definition over_http : handler (wire * E) := λ o s,
  match o as o' return resp o' * (wire * E) with
  | OCall c m p a => let '(r, w) := http_call c m p a s.1 in (r, (w, s.2))
  | OProbe host =>
      (match to_DeviceInfo (handleProbe (after d0 s.1.(wi_log))) with
       | Ok info => Ok info
       | Err e => Err (errorf ("shelly: probe " +:+ host +:+ ": decode: " +:+ e))
       end, s)
  | o => let '(r, e) := env o s.2 in (r, (s.1, e))
  end.

(** The device behind the network. *)
Definition device_of (s : wire * E) : Device := forget (after d0 s.1.(wi_log)).

Context `{!QuoteLaw, !Sha256Law, !JsonLaw}.

(** The rest of the process: the client cache hands out clients with the password
    asked for, and maps are ranged over in some order. *)
Class Process : Prop := {
  process_client addr pw e : (env (OClient addr pw) e).1.(cl_password) = pw;
  process_range m e : range_order (env (ORange m) e).1 m;
}.

Context `{!Process}
  (Hid : str_all is_plain d0.(fd_setup).(fd_ID) = true) (Hne : d0.(fd_setup).(fd_ID) ≠ "").

Lemma http_call_refines c m p a s :
  jsonable (request_doc m (VObj <$> p)) → accepts (device_of s) c = true →
  (http_call c m p a s.1).1 = (device_call (device_of s) c m p a).1 ∧
  device_of ((http_call c m p a s.1).2, s.2) = (device_call (device_of s) c m p a).2.
Proof.
  intros Hj Hacc. unfold http_call, device_of in *.
  destruct (Call _ c m _ _ _ _) as [r st'] eqn:Hcall.
  apply Call_refines_device_call in Hcall; cbn [st_log] in *; [|done|by rewrite after_setup..|done].
  rewrite device_call_forget. destruct Hcall as [-> [k Hk]]. destruct (device_call _ c m p a) as [r d'].
  cbn [fst snd wi_log] in *. by rewrite Hk, forget_challenges.
Qed.

(** A client without a password is turned away by a device that has one, with one
    request. *)
Lemma http_call_rejected c m p a s :
  jsonable (request_doc m (VObj <$> p)) → accepts (device_of s) c = false → c.(cl_password) = "" →
  (http_call c m p a s.1).1 = (device_call (device_of s) c m p a).1 ∧
  device_of ((http_call c m p a s.1).2, s.2) = (device_call (device_of s) c m p a).2.
Proof.
  intros Hj Hacc Hpw. unfold device_call. rewrite Hacc. unfold accepts in Hacc.
  apply orb_false_iff in Hacc as [Hha _]. unfold device_of in *. set (d := after d0 (wi_log s.1)) in *.
  apply jsonable_request_text in Hj as [payload Hp].
  unfold http_call, Call, postRetrying, tooManyRequestsRetries. rewrite (proj1 Hp). cbn [post_retrying]. unfold post.
  assert (Hauth : ∀ st, send_with_auth (device_env d0 cancelled random) c payload st =
    send (device_env d0 cancelled random) c.(cl_host) payload None st).
  { intros st. unfold send_with_auth, authHeader. rewrite Hpw. by destruct (st_auth st). }
  pose proof (rpc_step_request d m (VObj <$> p) (MkRequest payload None) Hp) as Hstep.
  cbn [forget fd_ha1] in Hha. rewrite Hha in Hstep.
  change (authorized _ _ (header_of _)) with false in Hstep. cbn [negb andb] in Hstep.
  rewrite Hauth. unfold send. cbn [env_url device_env st_log st_auth st_waits]. rewrite device_env_snoc. fold d.
  pose proof (after_snoc d0 (wi_log s.1) (MkRequest payload None)) as Hlog.
  fold d in Hlog. rewrite Hstep in Hlog |- *. cbn [fst snd unauthorized rsp_code] in *.
  change (negb (StatusUnauthorized =? StatusUnauthorized)%Z) with false. rewrite Hpw. cbn [orb String.eqb].
  split; [done|]. cbn [wi_log st_log fst snd].
  change (negb (rsp_code (unauthorized d) =? StatusTooManyRequests)%Z) with true. cbv beta iota. cbn [wi_log st_log fst snd].
  by rewrite Hlog.
Qed.

(** *** Programs *)

(** The same with atomic device calls. *)
Definition atomic : handler (Device * E) := λ o s,
  match o as o' return resp o' * (Device * E) with
  | OCall c m p a => let '(r, d) := device_call s.1 c m p a in (r, (d, s.2))
  | OProbe host =>
      (match to_DeviceInfo (handleProbe s.1) with
       | Ok info => Ok info
       | Err e => Err (errorf ("shelly: probe " +:+ host +:+ ": decode: " +:+ e))
       end, s)
  | o => let '(r, e) := env o s.2 in (r, (s.1, e))
  end.

(** JSON can carry the call, and the client has the device's password or none. *)
Definition sendable (d : Device) (o : op) : Prop :=
  match o with
  | OCall c m p _ =>
      jsonable (request_doc m (VObj <$> p)) ∧ (accepts d c = true ∨ c.(cl_password) = "")
  | _ => True
  end.

(** Every call the program makes, run with atomic calls from [s]. *)
Fixpoint carried {A : Type} (p : prog A) (s : Device * E) : Prop :=
  match p with
  | Ret _ => True
  | Do o k => sendable s.1 o ∧ carried (k (atomic o s).1) (atomic o s).2
  end.

(** One operation. *)
Lemma over_http_step o s : sendable (device_of s) o →
  (over_http o s).1 = (atomic o (device_of s, s.2)).1 ∧
  (device_of (over_http o s).2, (over_http o s).2.2) = (atomic o (device_of s, s.2)).2.
Proof.
  destruct o; intros Hs; try by (cbn; destruct (env _ s.2)).
  - destruct Hs as [Hj Hacc]. unfold over_http, atomic. cbn [fst snd].
    assert (Hcall : (http_call c method params a s.1).1 = (device_call (device_of s) c method params a).1 ∧
      device_of ((http_call c method params a s.1).2, s.2) = (device_call (device_of s) c method params a).2).
    { destruct (accepts (device_of s) c) eqn:He; [by apply http_call_refines|].
      destruct Hacc; [done|]. by apply http_call_rejected. }
    destruct Hcall as [Hr Hd]. destruct (http_call _ _ _ _ _), (device_call _ _ _ _ _). cbn in *. by subst.
  - done.
Qed.

(** The refinement discharges the interface. *)
Lemma over_http_backed : Backed over_http device_of.
Proof.
  assert (Henv : ∀ o s, device_of (s.1, (env o s.2).2) = device_of s) by done.
  split.
  - intros c m p a s Hj Hacc. pose proof (http_call_refines c m p a s Hj Hacc) as [Hr Hd]. unfold over_http.
    by destruct (http_call c m p a s.1).
  - done.
  - intros addr pw s. pose proof (process_client addr pw s.2). unfold over_http. rewrite <- (Henv (OClient addr pw) s).
    by destruct (env (OClient addr pw) s.2).
  - intros m s. pose proof (process_range m s.2). unfold over_http. rewrite <- (Henv (ORange m) s).
    by destruct (env (ORange m) s.2).
  - intros n t r m s. unfold over_http. rewrite <- (Henv (OEvent n t r m) s). by destruct (env _ s.2).
  - intros s. unfold over_http. rewrite <- (Henv ONow s). by destruct (env _ s.2).
  - intros base dev s. unfold over_http. rewrite <- (Henv (OStatusPatch base dev) s). by destruct (env _ s.2).
Qed.
End Stack.

(** ** Programs over HTTP *)

Section Programs.
Context `{Fmt, JsonText, Sha256, JsonParse, !QuoteLaw, !Sha256Law, !JsonLaw}.
Context (d0 : Device) (cancelled : nat → bool) (random : nat → list Z)
  (Hid : str_all is_plain d0.(fd_setup).(fd_ID) = true) (Hne : d0.(fd_setup).(fd_ID) ≠ "").
Context {E : Type} (env : handler E).

(** C5: the RPC client implements atomic device calls, for whole programs.  Let
    the fake device have seen any requests and the clients have any challenges
    cached.  Whatever the program (a reconcile, a sweep, a dashboard page), if
    every call it makes can be carried by JSON and comes from a client that has
    the device's password or none, then running it with each call made by
    [Client.Call] over HTTP, digest exchanges and retries included, gives exactly
    what running it with atomic calls gives: the same result, the same operations
    with the same answers, the same cluster, and the device in the same state up
    to how often it challenged. *)
Theorem program_over_http {A : Type} (p : prog A) w e h
  (Hp : carried env p (device_of d0 (w, e), e)) :
  let '(r, (d', e'), h') := run (atomic env) p (device_of d0 (w, e), e) h in
  ∃ w', run (over_http d0 cancelled random env) p (w, e) h = (r, (w', e'), h') ∧
        device_of d0 (w', e') = d'.
Proof.
  revert w e h Hp. induction p as [a|o k IH]; intros w e h Hp; cbn [run]; [by exists w|].
  destruct Hp as [Hs Hp].
  pose proof (over_http_step d0 cancelled random env Hid Hne o (w, e) Hs) as [Hr Hst]. cbn [snd] in Hr, Hst.
  destruct (over_http d0 cancelled random env o (w, e)) as [r [w1 e1]].
  destruct (atomic env o _) as [r' s']. cbn [fst snd] in *. subst. apply IH, Hp.
Qed.
End Programs.

(** ** A reconcile on the stack *)

(** The API server answers the same each time and accepts every patch. *)
Class SteadyCluster {E : Type} (env : handler E) (ans : ∀ o, resp o) : Prop := {
  sc_process :: Process env;
  sc_answer o e : cluster_op o → (env o e).1 = ans o;
  sc_status base d : ans (OStatusPatch base d) = Ok d;
  sc_patch base d : ans (OPatch base d) = Ok d;
}.

Section Reconciled.
Context `{Selectors, Conditions, Fmt, StrConv, JsonText, Sha256, RegistryJson, QualifiedNames, Locations}.
Context `{JsonParse, !QuoteLaw, !Sha256Law, !JsonLaw}.
Context (d0 : Device) (cancelled : nat → bool) (random : nat → list Z)
  (Hid : str_all is_plain d0.(fd_setup).(fd_ID) = true) (Hne : d0.(fd_setup).(fd_ID) ≠ "").
Context {E : Type} (env : handler E) (ans : ∀ o, resp o) `{!SteadyCluster env ans}.
Abbreviation stack := (over_http d0 cancelled random env).

Lemma over_http_steady : Steady stack (device_of d0) ans.
Proof.
  split; [exact (over_http_backed d0 cancelled random env Hid Hne)| |by apply sc_status|by apply sc_patch].
  intros o [w e] Ho. pose proof (sc_answer o e Ho) as Ha. unfold over_http.
  destruct o; try done; cbn [fst snd]; by destruct (env _ e).
Qed.

(** C3: enforcement converges, from the controller down to the wire.  Let the
    fake device have seen any requests and the operator's clients have any
    challenges cached; let the device take writes and be governed by a profile in
    enforce mode whose secrets are good for it (the device online and not paused,
    no update in flight or opted into, the last drift not one already found not to
    converge, and what is to be sent text and finite numbers).  Then one
    [Reconcile], every device call of which is [Client.Call] over HTTP against the
    device's request handler, digest exchange included, gets from reading the
    object to writing InSync = True for that profile without an error, whatever
    the device had drifted to; and when it writes that, the device is in sync:
    every rendered section agrees in every map order, the auth state is the
    declared one, and both job plans are empty.  This holds even where the
    reconcile itself switches the device's password on or off half-way. *)
Theorem Reconcile_over_http r namespace name dev profile dn password wifiPw w e v
  (Hv : shows (after d0 w.(wi_log)) v)
  (Hgov : governed ans r namespace name dev profile dn password wifiPw v) :
  leads_to stack (Reconcile r namespace name) (w, e) (λ p s', ∃ dev' v' msg,
    p = finish r dev' ConditionTrue ReasonInSync msg [] (prof_Name profile) ∧
    shows (after d0 s'.1.(wi_log)) v' ∧ in_sync profile dn v').
Proof.
  pose proof over_http_steady as Hsteady.
  eapply leads_to_mono; [eapply (Reconcile_converges stack (device_of d0) ans); [|exact Hgov]|].
  - by apply shows_forget.
  - intros p s' (dev' & v' & msg & -> & Hs' & Hsync). exists dev', v', msg.
    split_and!; [done|by apply shows_forget|done].
Qed.
End Reconciled.
