(* ===== verification/Watch.v ===== *)
(** * What wakes the controller (SetupWithManager of shellydevice_controller.go)

    The predicate on device updates and the mapping from a profile event to
    reconcile requests, with the writes of both controllers measured against
    them. *)

From stdpp Require Import prelude gmap strings pretty sorting list.
From S2P Require Import Prelude Json Api Labels Diff Match Render Shelly Effects Client Discovery Jobs Fleet Window Apply Update Reconcile Safety.

(** [UpdateFunc] of [devChanged]. *)
Definition devChanged (oldDev newDev : ShellyDevice) : bool :=
  if negb (oldDev.(dev_Meta).(meta_Generation) =? newDev.(dev_Meta).(meta_Generation))%Z
     || negb (bool_decide (dev_Labels oldDev = dev_Labels newDev))
  then true
  else
    let o := oldDev.(dev_Status) in
    let n := newDev.(dev_Status) in
    negb (Bool.eqb o.(st_Online) n.(st_Online)) ||
    negb (String.eqb o.(st_Address) n.(st_Address)) ||
    negb (Bool.eqb o.(st_AuthEnabled) n.(st_AuthEnabled)) ||
    negb (String.eqb o.(st_Firmware) n.(st_Firmware)).

(** A profile event enqueues every device of its namespace. *)
Definition mapAll (namespace : string) : prog (list (string * string)) :=
  devs <- perform (OListDevices namespace) ;;
  Ret (match devs with
       | Err _ => []
       | Ok items => (λ d, (dev_Namespace d, dev_Name d)) <$> items
       end).

Lemma devChanged_spec o n :
  devChanged o n = false ↔
  o.(dev_Meta).(meta_Generation) = n.(dev_Meta).(meta_Generation) ∧ dev_Labels o = dev_Labels n ∧
  o.(dev_Status).(st_Online) = n.(dev_Status).(st_Online) ∧
  o.(dev_Status).(st_Address) = n.(dev_Status).(st_Address) ∧
  o.(dev_Status).(st_AuthEnabled) = n.(dev_Status).(st_AuthEnabled) ∧
  o.(dev_Status).(st_Firmware) = n.(dev_Status).(st_Firmware).
Proof.
  unfold devChanged. destruct (Z.eqb_spec (meta_Generation (dev_Meta o)) (meta_Generation (dev_Meta n)));
    [|naive_solver]. case_bool_decide; [|naive_solver]. cbn [negb orb].
  rewrite !orb_false_iff, !negb_false_iff, !eqb_true_iff, !String.eqb_eq. naive_solver.
Qed.

(** A status patch that does not wake the controller. *)
Definition silent (o : op) : Prop :=
  match o with OStatusPatch base dev => devChanged base dev = false | _ => True end.

Section Watch.
Context `{Selectors, Conditions, Fmt, StrConv, JsonText, Sha256, RegistryJson, QualifiedNames, Locations}.

(** C21: the controller is woken by news only.  None of the status patches
    [Reconcile] sends passes the update predicate, so reconciling never
    triggers itself; and a discovery refresh passes it exactly when the device
    was offline or its address, auth state or firmware changed, so the lastSeen
    refreshes of a quiet sweep do not trigger either. *)
Theorem woken_by_news_only r namespace name :
  emits silent (Reconcile r namespace name) ∧
  ∀ now f dev, devChanged dev (refresh now f dev) = false ↔
    dev.(dev_Status).(st_Online) = true ∧ dev.(dev_Status).(st_Address) = f.(f_Host) ∧
    dev.(dev_Status).(st_AuthEnabled) = f.(f_Info).(di_AuthEnabled) ∧
    dev.(dev_Status).(st_Firmware) = f.(f_Info).(di_Firmware).
Proof.
  split.
  - eapply emits_mono; [|apply (disciplined_Reconcile r)]. intros o [Ho _].
    destruct o; try done. destruct Ho as (Hm & _ & Hs). apply devChanged_spec.
    unfold discovery_status in Hs. rewrite Hm. naive_solver.
  - intros now f dev. rewrite devChanged_spec. cbn. naive_solver.
Qed.
End Watch.
