(* ===== verification/Sequencing.v ===== *)
(** * Ordering of writes, and spacing of updates

    Within one reconcile: auth is written after every other section but wifi, and
    nothing follows the wifi write.  Across concurrent reconciles: the requests
    for firmware updates are spaced, in any interleaving of the workers. *)

From stdpp Require Import prelude gmap strings pretty sorting list.
From Stdlib Require Import Ascii.
From S2P Require Import Prelude Json Api Diff Order Match Render Shelly Effects Client Jobs Fleet Window Apply Update Reconcile Safety.

(** ** One reconcile: auth second to last, wifi last *)

Definition wifi_method : string := "Wifi.SetConfig".
Definition auth_method : string := "Shelly.SetAuth".

(** The history has a call of method [m]. *)
Definition called (m : string) (h : list event) : Prop :=
  ∃ e, e ∈ h ∧ method_of (projT1 e) = Some m.

(** Nothing reaches the device after wifi was written, and only the wifi write
    after auth was. *)
Definition safest_first (h : list event) (o : op) : Prop :=
  is_device o → ¬ called wifi_method h ∧
                (called auth_method h → method_of o = Some wifi_method).

(** Operations of the ordinary sections. *)
Definition ordinary_op (o : op) : Prop :=
  method_of o ≠ Some wifi_method ∧ method_of o ≠ Some auth_method.

Lemma ToUpper_no_lower s c t : ToUpper s ≠ String c (String "i" t).
Proof.
  unfold ToUpper. destruct s as [|c0 [|c1 s]]; simpl; [done..|]. intros [= _ Hc _].
  revert Hc. by destruct c1 as [[] [] [] [] [] [] [] []].
Qed.

Lemma component_namespace_wifi s : component_namespace s = "Wifi" → s = "wifi".
Proof.
  unfold component_namespace, componentMethods.
  destruct (list_to_map _ !! s) as [ns|] eqn:E; [|by intros ?%ToUpper_no_lower].
  intros ->. apply elem_of_list_to_map_2 in E.
  repeat (apply elem_of_cons in E as [E|E]; [by simplify_eq|]). by apply elem_of_nil in E.
Qed.

Lemma ordinary_SetConfig s : s ≠ "wifi" → component_namespace s +:+ ".SetConfig" ≠ wifi_method.
Proof.
  intros Hs Heq. apply Hs, component_namespace_wifi. by apply (str_app_inj_r _ "Wifi" ".SetConfig").
Qed.

Lemma not_called_cons m o (a : resp o) h :
  method_of o ≠ Some m → ¬ called m h → ¬ called m (Ev o a :: h).
Proof. intros Ho Hh (e & [->|He]%elem_of_cons & Hm); [done|]. apply Hh. by exists e. Qed.

Section EnforceOrder.
Context `{JsonText, Sha256, StrConv, Fmt}.

Ltac solve_ordinary :=
  match goal with
  | |- ordinary_op _ => split; let Hm := fresh in intros Hm; discriminate Hm
  end.

Lemma ordinary_CreateSchedule c job : emits ordinary_op (CreateSchedule c job).
Proof. unfold CreateSchedule. repeat first [emits_step|solve_ordinary]. Qed.

Lemma ordinary_delete_job c id : emits ordinary_op (delete_job c id).
Proof. apply emits_wrapping, emits_perform. solve_ordinary. Qed.

Lemma ordinary_firmware c want : emits ordinary_op (applyFirmware c want).
Proof.
  unfold applyFirmware, ListSchedules.
  repeat first [emits_step|apply emits_wrapping|apply emits_each|apply ordinary_CreateSchedule
    |apply ordinary_delete_job|solve_ordinary].
Qed.

Lemma ordinary_schedule c p : emits ordinary_op (applySchedule c p).
Proof.
  unfold applySchedule, ListSchedules, apply_action, UpdateSchedule.
  repeat first [emits_step|apply emits_wrapping|apply emits_each|apply ordinary_CreateSchedule
    |apply ordinary_delete_job|solve_ordinary].
Qed.

Lemma ordinary_section c dev d ae fe pw wpw p s :
  s ≠ "auth" → s ≠ "wifi" →
  emits ordinary_op (apply_section c dev d ae fe pw wpw p s).
Proof.
  intros Ha Hw. unfold apply_section, SetSwitchConfig, SetConfig, sectionAuth, sectionWifi.
  apply String.eqb_neq in Ha as ->. pose proof (proj2 (String.eqb_neq _ _) Hw) as ->.
  repeat first [emits_step|apply emits_wrapping|apply ordinary_firmware|apply ordinary_schedule
    |solve_ordinary].
  split; intros [= Hm]; [by apply (ordinary_SetConfig s Hw)|].
  by apply SetConfig_method_suffix in Hm.
Qed.

Lemma emits_apply_sections_in P f l : ∀ acc,
  (∀ s, s ∈ l → emits P (f s)) → emits P (apply_sections f l acc).
Proof.
  induction l as [|s l IH]; intros acc Hf; simpl; repeat emits_step.
  - apply Hf. constructor.
  - apply IH. intros s' Hs'. apply Hf. by constructor.
Qed.

Lemma wp_apply_sections_app G R f l1 l2 : ∀ acc h Q,
  wp G R h (apply_sections f (l1 ++ l2) acc) Q ↔
  wp G R h (apply_sections f l1 acc)
    (λ h' a, match a.2 with
             | None => wp G R h' (apply_sections f l2 a.1) Q
             | Some e => Q h' (a.1, Some e)
             end).
Proof.
  induction l1 as [|s l1 IH]; intros acc h Q; simpl; [done|].
  rewrite !wp_bind. split; apply wp_mono; intros h' [restart|e]; try done; apply IH.
Qed.

Abbreviation any := (λ (o : op) (_ : resp o), True).

(** Before auth, and before wifi. *)
Definition before_auth (h : list event) : Prop := ¬ called wifi_method h ∧ ¬ called auth_method h.

Lemma wp_ordinary_sections c dev d ae fe pw wpw p l acc h :
  (∀ s, s ∈ l → s ≠ "auth" ∧ s ≠ "wifi") → before_auth h →
  wp safest_first any h (apply_sections (apply_section c dev d ae fe pw wpw p) l acc)
    (λ h' _, before_auth h').
Proof.
  intros Hl Hh. eapply wp_mono; [|apply (wp_emits _ _ before_auth ordinary_op); [| |done]].
  - by intros h' a [_ ?].
  - intros h' o _ [Hw Ha] [Ho1 Ho2]. split; [by intros _|].
    intros a. split; by apply not_called_cons.
  - apply emits_apply_sections_in. intros s Hs. by apply ordinary_section; apply Hl.
Qed.

Lemma wp_auth_section c dev d ae fe pw wpw p acc h :
  before_auth h →
  wp safest_first any h (apply_sections (apply_section c dev d ae fe pw wpw p) ["auth"] acc)
    (λ h' _, ¬ called wifi_method h').
Proof.
  intros [Hw Ha]. cbn [apply_sections apply_section String.eqb sectionAuth]. rewrite wp_bind.
  eapply (wp_mono _ _ _ _ (λ h' _, ¬ called wifi_method h')); [by intros h' [|]|].
  change (apply_section c dev d ae fe pw wpw p "auth") with (apply_auth c dev ae pw).
  unfold apply_auth. cbv zeta. case_match; [done|].
  rewrite wp_bind_ok. unfold wrapping at 1. rewrite wp_bind. cbn [Probe perform wp].
  split; [by intros _|]. intros info _.
  assert (Hw1 : ¬ called wifi_method (Ev (OProbe (st_Address (dev_Status dev))) info :: h))
    by by apply not_called_cons.
  assert (Ha1 : ¬ called auth_method (Ev (OProbe (st_Address (dev_Status dev))) info :: h))
    by by apply not_called_cons.
  destruct info as [info|e]; [|done]. rewrite wp_bind_ok. unfold wrapping. rewrite wp_bind.
  cbn [SetAuth perform wp]. split; [by intros _|]. intros a _.
  assert (¬ called wifi_method (Ev (OCall c "Shelly.SetAuth"
    (Some (auth_params (di_ID info) (if match ae with Some b => b | None => false end then pw else "")))
    AnsNone) a :: Ev (OProbe (st_Address (dev_Status dev))) (Ok info) :: h))
    by by apply not_called_cons.
  by destruct a.
Qed.

Lemma wp_wifi_section c dev d ae fe pw wpw p acc h :
  ¬ called wifi_method h →
  wp safest_first any h (apply_sections (apply_section c dev d ae fe pw wpw p) ["wifi"] acc)
    (λ _ _, True).
Proof.
  intros Hw. cbn [apply_sections]. rewrite wp_bind.
  change (apply_section c dev d ae fe pw wpw p "wifi") with
    (wrapping "wifi" (SetConfig c "wifi" (Some (wifiPayload (d !! "wifi") wpw)))).
  unfold wrapping. rewrite wp_bind. cbn [SetConfig perform wp]. split.
  - intros _. split; [done|]. by intros _.
  - intros [restart|e] _; done.
Qed.

(** C11: enforcement writes safest-first.  For any findings and any answers,
    once Wifi.SetConfig was sent nothing more is sent to the device, and once
    Shelly.SetAuth was sent only Wifi.SetConfig may follow. *)
Theorem applyFindings_safest_first c dev d fs ae fe pw wpw p :
  wp safest_first any [] (applyFindings c dev d fs ae fe pw wpw p) (λ _ _, True).
Proof.
  assert (Hb0 : before_auth []) by (by split; intros (? & ?%elem_of_nil & _)).
  unfold applyFindings. rewrite ApplyOrder_split by apply NoDup_Sections.
  rewrite wp_apply_sections_app. eapply wp_mono; [|apply wp_ordinary_sections; [|done]].
  2:{ intros s Hs. by apply elem_of_ApplyOrder, list_elem_of_filter in Hs as [? _]. }
  intros h1 [acc1 [e|]] Hb1; [done|]. cbn [fst snd]. rewrite wp_apply_sections_app.
  eapply (wp_mono _ _ _ _ (λ h' _, ¬ called wifi_method h')).
  2:{ unfold if_present. case_decide; [by apply wp_auth_section|]. by destruct Hb1. }
  intros h2 [acc2 [e|]] Hw; [done|]. cbn [fst snd].
  unfold if_present. case_decide; [by apply wp_wifi_section|done].
Qed.
End EnforceOrder.

(** ** Concurrent reconciles: spacing of update requests *)

(** A running operator: its own mutable fields, handled by the source's critical
    sections, a clock that never goes back, and an arbitrary environment [E] that
    answers everything else.  [ps_grants] logs when slots were granted. *)
Record process (E : Type) : Type := MkProcess {
  pr_env : E;
  pr_state : RState;
  pr_clock : time;
  pr_grants : list time;
}.
Arguments MkProcess {E}.
Arguments pr_env {E}.
Arguments pr_state {E}.
Arguments pr_clock {E}.
Arguments pr_grants {E}.

Definition process_handler {E : Type} (env : handler E) (tick : E → nat) : handler (process E) :=
  λ o s,
    let clock := (s.(pr_clock) + Z.of_nat (tick s.(pr_env)))%Z in
    match o as o' return resp o' * process E with
    | OClient addr password =>
        let '(c, st) := deviceClient addr password s.(pr_state) in
        (c, MkProcess s.(pr_env) st clock s.(pr_grants))
    | OClaim spacing attempts =>
        let '(ok, last) := claim_locked spacing attempts clock s.(pr_state).(rst_lastUpdateStart) in
        (ok, MkProcess s.(pr_env)
               (MkRState last s.(pr_state).(rst_clients) s.(pr_state).(rst_next)) clock
               (if ok then clock :: s.(pr_grants) else s.(pr_grants)))
    | ONow => (clock, MkProcess s.(pr_env) s.(pr_state) clock s.(pr_grants))
    | o => let '(a, e) := env o s.(pr_env) in
           (a, MkProcess e s.(pr_state) clock s.(pr_grants))
    end.

(** Any two grants are at least [gap] apart (newest first). *)
Definition spaced (gap : duration) (grants : list time) : Prop :=
  StronglySorted (λ later earlier, (gap <= later - earlier)%Z) grants.

Definition is_update_b (e : event) : bool :=
  match projT1 e with OCall _ m _ _ => String.eqb m "Shelly.Update" | _ => false end.

Definition granted (e : event) : bool :=
  match e with
  | existT o a => match o as o' return resp o' → bool with
                  | OClaim _ _ => λ b, b
                  | _ => λ _, false
                  end a
  end.

Definition count (f : event → bool) (h : list event) : nat :=
  foldr (λ e n, (if f e then 1 else 0) + n) 0 h.

Section Spacing.
Context `{Selectors, Conditions, Fmt, StrConv, JsonText, Sha256, RegistryJson, QualifiedNames, Locations}.

Lemma spacing_of_pos r : (0 < spacing_of r)%Z.
Proof. unfold spacing_of. case_match; reflect_bools; [|done]. done. Qed.

Lemma latest_start_ge last attempts : (last <= latest_start last attempts)%Z.
Proof.
  unfold latest_start. revert last. induction attempts as [|t l IH]; intros last; simpl; [lia|].
  etrans; [|apply IH]. unfold time_After. case_match; reflect_bools; lia.
Qed.

Lemma time_Sub_ge gap a b : (0 < gap)%Z → (gap <= time_Sub a b)%Z → (gap <= a - b)%Z.
Proof. unfold time_Sub, min_duration, max_duration. lia. Qed.

(** A granted slot lies the gap after the last one this process granted. *)
Lemma claim_locked_granted gap attempts now last last' :
  (0 < gap)%Z → claim_locked gap attempts now last = (true, last') →
  last' = now ∧ ((time_zero < last)%Z → (gap <= now - last)%Z).
Proof.
  intros Hgap. unfold claim_locked. pose proof (latest_start_ge last attempts) as Hge.
  case_match eqn:E; intros [= <-]. split; [done|]. intros Hz. apply andb_false_iff in E as [E|E].
  - unfold IsZero in E. reflect_bools. lia.
  - reflect_bools. apply time_Sub_ge in E; [lia|done].
Qed.

Lemma claim_locked_refused gap attempts now last last' :
  claim_locked gap attempts now last = (false, last') → last' = last.
Proof. unfold claim_locked. by case_match; intros [=]. Qed.

Definition spacing_inv {E} (gap : duration) (s : process E) : Prop :=
  (time_zero < s.(pr_clock))%Z ∧ spaced gap s.(pr_grants) ∧
  ∀ g, head s.(pr_grants) = Some g →
       s.(pr_state).(rst_lastUpdateStart) = g ∧ (time_zero < g)%Z.

Lemma deviceClient_last addr pw s :
  (deviceClient addr pw s).2.(rst_lastUpdateStart) = s.(rst_lastUpdateStart).
Proof. unfold deviceClient. by repeat case_match. Qed.

Lemma spacing_inv_grant {E} gap (env : E) (st : RState) clock g l rst :
  (0 < gap)%Z → (time_zero < clock)%Z → spaced gap l →
  (∀ g', head l = Some g' → (gap <= clock - g')%Z) →
  rst.(rst_lastUpdateStart) = clock → g = clock →
  spacing_inv gap (MkProcess env rst clock (g :: l)).
Proof.
  intros Hgap Hc Hl Hh Hr ->. split_and!; [done| |].
  - constructor; [done|]. destruct l as [|g' l]; [constructor|].
    specialize (Hh g' eq_refl). constructor; [done|].
    apply StronglySorted_inv in Hl as [_ Hl]. eapply Forall_impl; [exact Hl|]. simpl. lia.
  - intros g' [= <-]. done.
Qed.

(** The guard the workers keep: an update follows a granted slot and no other
    update, and a slot is claimed with the configured gap. *)
Definition update_guard (r : Settings) (h : list event) (o : op) : Prop :=
  (is_update o → no_update h ∧ slot_granted h) ∧
  match o with OClaim spacing _ => spacing = spacing_of r | _ => True end.

Lemma process_keeps {E} r (env : handler E) tick :
  keeps (update_guard r) (λ _ _, True) (spacing_inv (spacing_of r)) (process_handler env tick).
Proof.
  intros h o s [_ Hsp] (Hc & Hs & Hg). split; [done|].
  pose proof (spacing_of_pos r) as Hpos.
  assert (Hc' : (time_zero < pr_clock s + Z.of_nat (tick (pr_env s)))%Z) by lia.
  assert (Hkeep : ∀ (e : E) (st : RState), st.(rst_lastUpdateStart) = s.(pr_state).(rst_lastUpdateStart) →
    spacing_inv (spacing_of r)
      (MkProcess e st (pr_clock s + Z.of_nat (tick (pr_env s))) s.(pr_grants))).
  { intros e st Hst. split_and!; [done..|]. simpl. by rewrite Hst. }
  destruct o; cbn [process_handler];
    try (match goal with |- context [env ?o ?e] => destruct (env o e) as [? ?] end; by apply Hkeep).
  - by apply Hkeep.
  - pose proof (deviceClient_last addr password s.(pr_state)) as Hl.
    destruct (deviceClient addr password s.(pr_state)) as [c st]. by apply Hkeep.
  - subst spacing. destruct (claim_locked _ _ _ _) as [ok last] eqn:Hcl.
    destruct ok; [|apply claim_locked_refused in Hcl as ->; by apply Hkeep].
    apply claim_locked_granted in Hcl as [-> Hgap]; [|done].
    apply (spacing_inv_grant _ _ s.(pr_state)); try done. simpl.
    intros g' Hg'. destruct (Hg g' Hg') as [Heq Hz]. rewrite Heq in Hgap. auto.
Qed.

Lemma wp_update_guard r namespace name :
  wp (update_guard r) (λ _ _, True) [] (Reconcile r namespace name) (λ _ _, True).
Proof.
  assert (Hcl : wp (λ _ o, disciplined r o) (λ _ _, True) [] (Reconcile r namespace name) (λ _ _, True)).
  { eapply wp_mono; [|apply (wp_emits _ _ (λ _, True) (disciplined r)); [|apply disciplined_Reconcile|done]];
      done. }
  pose proof (wp_Reconcile namespace name r) as Hsafe. revert Hcl Hsafe.
  generalize (@nil event). generalize (Reconcile r namespace name). intros q.
  induction q as [a|o k IH]; intros h; simpl; [done|]. intros [[_ Ho] Hk1] [Hs Hk2].
  split; [|by auto]. split; [|done]. intros Hu. destruct Hs as (_ & _ & _ & Hs).
  destruct (Hs Hu) as (_ & ? & p & _ & _ & _ & _ & ? & _). done.
Qed.

(** ** Counting *)

Lemma is_update_b_spec e : is_update_b e = true ↔ is_update (projT1 e).
Proof.
  destruct e as [o a]. unfold is_update_b, is_update. simpl.
  destruct o; simpl; try (split; discriminate).
  rewrite String.eqb_eq. split; [by intros ->|by intros [=]].
Qed.

Lemma count_no_update h : no_update h → count is_update_b h = 0.
Proof.
  induction h as [|e h IH]; intros Hn; simpl; [done|]. rewrite IH.
  2:{ intros e' He'. apply Hn. by constructor. }
  destruct (is_update_b e) eqn:E; [|done]. apply is_update_b_spec in E.
  exfalso. apply (Hn e); [constructor|done].
Qed.

Lemma count_granted h : slot_granted h → 1 ≤ count granted h.
Proof.
  intros (sp & att & Hin). induction h as [|e h IH]; [by apply elem_of_nil in Hin|].
  apply elem_of_cons in Hin as [<-|Hin]; simpl; [lia|]. specialize (IH Hin). lia.
Qed.

(** A worker never sent more updates than it was granted slots. *)
Lemma guarded_counts r h :
  guarded (update_guard r) h → count is_update_b h ≤ count granted h.
Proof.
  induction h as [|e h IH]; simpl; [done|]. intros [[Hu _] Hg]. specialize (IH Hg).
  destruct (is_update_b e) eqn:E; [|lia]. apply is_update_b_spec in E.
  destruct (Hu E) as [Hn Hs]. apply count_no_update in Hn. apply count_granted in Hs. lia.
Qed.

Definition total {A} (f : event → bool) (ths : list (list event * prog A)) : nat :=
  foldr (λ t n, count f t.1 + n) 0 ths.

Lemma total_insert {A} f (ths : list (list event * prog A)) i h p e p' :
  ths !! i = Some (h, p) →
  total f (<[i := (e :: h, p')]> ths) = (if f e then 1 else 0) + total f ths.
Proof.
  revert i. induction ths as [|t ths IH]; intros [|i] Hi; simplify_eq/=; [lia|].
  rewrite (IH i Hi). lia.
Qed.

(** The common trace has what the workers did, and the log what they were granted. *)
Lemma pool_counts {E A} (env : handler E) tick (c c' : pool (process E) A) :
  rtc (pool_step (process_handler env tick)) c c' →
  (∀ f, total f c.(pool_threads) = count f c.(pool_trace)) →
  length c.(pool_state).(pr_grants) = count granted c.(pool_trace) →
  (∀ f, total f c'.(pool_threads) = count f c'.(pool_trace)) ∧
  length c'.(pool_state).(pr_grants) = count granted c'.(pool_trace).
Proof.
  induction 1 as [c|c1 c2 c3 Hs _ IH]; intros Ht Hg; [done|].
  destruct Hs as [ths i h o k s tr Hl]; simpl in *. apply IH.
  - intros f. simpl. by rewrite (total_insert _ _ _ _ _ _ _ Hl), Ht.
  - simpl. destruct o; cbn [process_handler];
      try (match goal with |- context [env ?o ?e] => destruct (env o e) as [? ?] end; simpl; lia);
      try (simpl; lia).
    + destruct (deviceClient addr password (pr_state s)); simpl; lia.
    + destruct (claim_locked _ _ _ _) as [[] last]; simpl; lia.
Qed.

Lemma total_le {A} f g (ths : list (list event * prog A)) :
  Forall (λ t, count f t.1 ≤ count g t.1) ths → total f ths ≤ total g ths.
Proof. induction 1; simpl; lia. Qed.

(** C1: firmware updates are spaced fleet-wide.  Run any number of reconciles,
    of any devices, interleaved in any way, in one process with a clock that does
    not go back and any environment: the slots granted are pairwise at least the
    configured spacing apart (2 minutes by default), and at most as many
    Shelly.Update requests are sent as slots were granted. *)
Theorem updates_spaced {E} r (env : handler E) (tick : E → nat)
  (devices : list (string * string)) (e : E) (st : RState) (start : time) c'
  (Hstart : (time_zero < start)%Z)
  (Hrun : rtc (pool_step (process_handler env tick))
    (MkPool ((λ d, ([], Reconcile r d.1 d.2)) <$> devices) (MkProcess e st start []) []) c') :
  spaced (spacing_of r) c'.(pool_state).(pr_grants) ∧
  count is_update_b c'.(pool_trace) ≤ length c'.(pool_state).(pr_grants).
Proof.
  destruct (wp_pool (update_guard r) (λ _ _, True) (spacing_inv (spacing_of r))
    (process_handler env tick) (λ _ _, True) _ _ (process_keeps r env tick) Hrun) as [Hinv Hth].
  - split_and!; [done|constructor|done].
  - apply Forall_fmap, Forall_true. intros [ns nm]. split; [done|]. apply wp_update_guard.
  - split; [by destruct Hinv as (_ & ? & _)|].
    destruct (pool_counts _ _ _ _ Hrun) as [Ht Hg]; [|done|].
    { intros f. clear. simpl. by induction devices. }
    rewrite Hg, <-!Ht. apply total_le. eapply Forall_impl; [exact Hth|].
    intros [h q] [Hgd _]. by apply (guarded_counts r).
Qed.
End Spacing.
