(* ===== verification/Cache.v ===== *)
(** * Device clients (shelly.NewClient and the cache of deviceClient)

    How a client is put together from options, and the cache that makes every
    reconcile of a device use the same one: its digest challenge, and so the
    device's scarce nonces, are reused.  Shown for all interleavings of the
    controller's workers. *)

From stdpp Require Import prelude gmap strings pretty sorting list.
From S2P Require Import Prelude Json Api Diff Shelly Effects Apply Update Reconcile Sequencing.

(** ** NewClient and its options (client.go) *)

(** An [http.Client] is known by its timeout. *)
Record http_Client : Type := MkHttpClient { Timeout_ : duration }.

Definition defaultHTTPClient : http_Client := MkHttpClient (10 * Second).
Definition defaultRPCHTTP : http_Client := MkHttpClient (10 * Second).

(** The fields options can set. *)
Record client_fields : Type := MkClientFields {
  cf_host : string;
  cf_hc : http_Client;
  cf_password : string;
  cf_retryDelay : duration;
}.

Abbreviation client_option := (client_fields → client_fields).

Definition WithPassword (pw : string) : client_option := λ c,
  MkClientFields c.(cf_host) c.(cf_hc) pw c.(cf_retryDelay).

Definition WithHTTPClient (hc : option http_Client) : client_option := λ c,
  match hc with
  | Some hc => MkClientFields c.(cf_host) hc c.(cf_password) c.(cf_retryDelay)
  | None => c
  end.

Definition WithRetryDelay (d : duration) : client_option := λ c,
  MkClientFields c.(cf_host) c.(cf_hc) c.(cf_password) d.

Definition NewClient (host : string) (opts : list client_option) : client_fields :=
  foldl (λ c o, o c) (MkClientFields host defaultHTTPClient "" 0) opts.

(** The options [deviceClient] passes; [http] is the reconciler's [HTTP]. *)
Definition device_options (http : option http_Client) (password : string) : list client_option :=
  WithHTTPClient http :: (if negb (String.eqb password "") then [WithPassword password] else []).

(** [rpcHTTPClient]: the client probes go through. *)
Definition rpcHTTPClient (http : option http_Client) : http_Client :=
  match http with Some hc => hc | None => defaultRPCHTTP end.

(** What [deviceClient] stores has the address and the password it is stored
    under, and a timeout unless the reconciler was given a client without one. *)
Lemma device_client_fields http addr password :
  let c := NewClient addr (device_options http password) in
  c.(cf_host) = addr ∧ c.(cf_password) = password ∧
  c.(cf_hc) = match http with Some hc => hc | None => defaultHTTPClient end.
Proof.
  unfold NewClient, device_options. destruct (String.eqb_spec password "") as [->|];
    by destruct http.
Qed.

(** ** The cache over all interleavings *)

(** A property of state and trace that every operation keeps. *)
Lemma pool_trace_inv {S A} (hd : handler S) (I : S → list event → Prop) (c c' : pool S A) :
  (∀ o s tr, I s tr → I (hd o s).2 (Ev o (hd o s).1 :: tr)) →
  rtc (pool_step hd) c c' → I c.(pool_state) c.(pool_trace) → I c'.(pool_state) c'.(pool_trace).
Proof.
  intros Hstep. induction 1 as [c|c1 c2 c3 Hs _ IH]; intros Hi; [done|].
  apply IH. destruct Hs. by apply Hstep.
Qed.

(** A call of [deviceClient]. *)
Definition client_call (e : event) : option (string * string * Client) :=
  match e with
  | existT o a => match o as o' return resp o' → option (string * string * Client) with
                  | OClient addr pw => λ c, Some (addr, pw, c)
                  | _ => λ _, None
                  end a
  end.

(** The password and client of the last call for an address (newest first). *)
Fixpoint last_client (addr : string) (tr : list event) : option (string * Client) :=
  match tr with
  | [] => None
  | e :: tr =>
      match client_call e with
      | Some (a, pw, c) => if String.eqb a addr then Some (pw, c) else last_client addr tr
      | None => last_client addr tr
      end
  end.

(** No earlier call returned this client. *)
Definition brand_new (c : Client) (tr : list event) : Prop :=
  ∀ e a pw c', e ∈ tr → client_call e = Some (a, pw, c') → c'.(cl_ptr) ≠ c.(cl_ptr).

(** The client of a call: for this address and password; the very one of the
    address's previous call when the password is the same, a new one otherwise. *)
Definition served_right (e : event) (tr : list event) : Prop :=
  match client_call e with
  | None => True
  | Some (addr, pw, c) =>
      c.(cl_host) = addr ∧ c.(cl_password) = pw ∧
      match last_client addr tr with
      | Some (pw0, c0) => if String.eqb pw0 pw then c = c0 else brand_new c tr
      | None => brand_new c tr
      end
  end.

Fixpoint all_served_right (tr : list event) : Prop :=
  match tr with
  | [] => True
  | e :: tr => served_right e tr ∧ all_served_right tr
  end.

Section Cache.
Context {E : Type} (env : handler E) (tick : E → nat).

(** The cache holds the last client of every address; pointers stay below the
    next fresh one. *)
Definition cache_inv (s : process E) (tr : list event) : Prop :=
  all_served_right tr ∧
  (∀ addr, s.(pr_state).(rst_clients) !! addr = last_client addr tr) ∧
  (∀ addr pw c, last_client addr tr = Some (pw, c) → c.(cl_host) = addr ∧ c.(cl_password) = pw) ∧
  (∀ e a pw c, e ∈ tr → client_call e = Some (a, pw, c) → c.(cl_ptr) < s.(pr_state).(rst_next)).

(** Operations that leave the cache alone. *)
Lemma cache_inv_other (s s' : process E) e tr :
  client_call e = None →
  s'.(pr_state).(rst_clients) = s.(pr_state).(rst_clients) →
  s'.(pr_state).(rst_next) = s.(pr_state).(rst_next) →
  cache_inv s tr → cache_inv s' (e :: tr).
Proof.
  intros He Hc Hn (Hall & Hcache & Hlast & Hptr). unfold cache_inv. cbn [all_served_right last_client].
  rewrite He, Hc, Hn. split_and!; [unfold served_right; by rewrite He|done..|].
  intros e' a pw c [->|Hin]%elem_of_cons Hcall; [congruence|by eapply Hptr].
Qed.

Lemma cache_inv_client (s : process E) addr pw clock grants tr :
  cache_inv s tr →
  let '(c, st) := deviceClient addr pw s.(pr_state) in
  cache_inv (MkProcess s.(pr_env) st clock grants) (Ev (OClient addr pw) c :: tr).
Proof.
  intros (Hall & Hcache & Hlast & Hptr).
  assert (Hnew : ∀ c, c = MkClient s.(pr_state).(rst_next) addr pw →
    match last_client addr tr with Some (pw0, c0) => pw0 ≠ pw | None => True end →
    cache_inv (MkProcess s.(pr_env) (MkRState s.(pr_state).(rst_lastUpdateStart)
      (<[addr := (pw, c)]> s.(pr_state).(rst_clients)) (S s.(pr_state).(rst_next))) clock grants)
      (Ev (OClient addr pw) c :: tr)).
  { intros c -> Hpw.
    assert (Hfresh : brand_new (MkClient s.(pr_state).(rst_next) addr pw) tr).
    { intros e a pw' c' Hin Hcall. cbn. pose proof (Hptr e a pw' c' Hin Hcall). lia. }
    split_and!.
    - split; [|done]. cbn. split_and!; [done..|].
      destruct (last_client addr tr) as [[pw0 c0]|]; [|done]. by rewrite (proj2 (String.eqb_neq _ _) Hpw).
    - intros a. cbn. destruct (String.eqb_spec addr a) as [->|Hne].
      + by rewrite lookup_insert_eq.
      + by rewrite lookup_insert_ne.
    - intros a pw' c'. cbn. destruct (String.eqb_spec addr a) as [->|Hne]; [|apply Hlast].
      by intros [= <- <-].
    - intros e a pw' c' [->|Hin]%elem_of_cons Hcall; cbn.
      + cbn in Hcall. injection Hcall as <- <- <-. cbn. lia.
      + pose proof (Hptr e a pw' c' Hin Hcall). lia. }
  unfold deviceClient. rewrite Hcache.
  destruct (last_client addr tr) as [[pw0 c0]|] eqn:Hl; [|by apply Hnew].
  destruct (String.eqb_spec pw0 pw) as [->|Hne]; [|by apply Hnew].
  destruct (Hlast _ _ _ Hl) as [Hh Hp]. split_and!.
  - split; [|done]. cbn. rewrite Hl, String.eqb_refl. by split_and!.
  - intros a. cbn. destruct (String.eqb_spec addr a) as [<-|Hne]; [by rewrite Hcache|apply Hcache].
  - intros a pw' c'. cbn. destruct (String.eqb_spec addr a) as [<-|Hne]; [|apply Hlast].
    intros [= <- <-]. done.
  - assert (Hin0 : ∀ tr0, last_client addr tr0 = Some (pw, c0) →
      ∃ e a pw', e ∈ tr0 ∧ client_call e = Some (a, pw', c0)).
    { clear. induction tr0 as [|e tr0 IH]; [done|]. cbn. intros Hl.
      destruct (client_call e) as [[[a pw'] c']|] eqn:He.
      - destruct (String.eqb a addr); [injection Hl as -> ->; exists e, a, pw; split; [constructor|done]|].
        destruct (IH Hl) as (e' & a' & pw'' & ? & ?). exists e', a', pw''. split; [by right|done].
      - destruct (IH Hl) as (e' & a' & pw'' & ? & ?). exists e', a', pw''. split; [by right|done]. }
    intros e a pw' c' [->|Hin]%elem_of_cons Hcall; cbn; [|by eapply Hptr].
    cbn in Hcall. injection Hcall as <- <- <-.
    destruct (Hin0 tr Hl) as (e' & a' & pw'' & ? & ?). by eapply Hptr.
Qed.

Lemma cache_inv_step o (s : process E) tr :
  cache_inv s tr →
  cache_inv (process_handler env tick o s).2 (Ev o (process_handler env tick o s).1 :: tr).
Proof.
  intros Hi. destruct o; cbn [process_handler];
    try (match goal with |- context [env ?o ?e] => destruct (env o e) as [? ?] end;
         by apply (cache_inv_other s)).
  - by apply (cache_inv_other s).
  - pose proof (cache_inv_client s addr password (pr_clock s + Z.of_nat (tick (pr_env s)))
      (pr_grants s) tr Hi) as Hc.
    by destruct (deviceClient addr password (pr_state s)).
  - destruct (claim_locked _ _ _ _) as [ok last]. by apply (cache_inv_other s).
Qed.

(** C15: clients are reused.  Whatever reconciles run in the process, interleaved
    in whatever way, and whatever the cluster and the devices answer: every
    client handed out is for the address and the password asked for; it is the
    client of the previous call for that address as long as the password is the
    same, so that its digest challenge is kept; and when the password changed, or
    on first use, it is one that was never handed out before, so that no
    challenge leaks from one device or password to another. *)
Theorem clients_reused {A : Type} (c c' : pool (process E) A)
  (Hnew : c.(pool_state).(pr_state).(rst_clients) = ∅) (Htr : c.(pool_trace) = [])
  (Hrun : rtc (pool_step (process_handler env tick)) c c') :
  all_served_right c'.(pool_trace).
Proof.
  eapply (pool_trace_inv (process_handler env tick) cache_inv) in Hrun as [? _]; [done| |].
  - intros o s tr. apply cache_inv_step.
  - rewrite Htr. split_and!; [done| |done|by intros ? ? ? ? ?%elem_of_nil].
    intros addr. by rewrite Hnew.
Qed.
End Cache.
