(* ===== verification/TestUtils.v ===== *)
(** * Helpers of the end-to-end tests (test/utils/utils.go)

    Running kubectl and kind from the project directory, and editing
    kustomization files by uncommenting parts of them.  The machine is a state
    (files, working directory, environment, commands run so far, lines printed)
    with oracles for what commands answer and which file operations fail.  A
    command inherits the environment, with GO111MODULE=on added. *)

From stdpp Require Import prelude gmap strings pretty sorting list.
From Stdlib Require Import Ascii.
From S2P Require Import Prelude Json Api Diff.

Definition newline : ascii := "010".
Definition cr : ascii := "013".
Definition newlines : string := String newline "".

(** ** strings and bufio *)

(** [strings.Index]; [None] for -1. *)
Fixpoint Index (s substr : string) : option nat :=
  if HasPrefix s substr then Some 0
  else match s with
       | EmptyString => None
       | String _ s => S <$> Index s substr
       end.

Definition strings_Contains (s substr : string) : bool := bool_decide (is_Some (Index s substr)).

(** [strings.ReplaceAll(s, old, "")] for a nonempty [old]: occurrences are taken
    from the left and do not overlap; [skip] bytes of one are still to drop. *)
Fixpoint remove_all (skip : nat) (s old : string) : string :=
  match s with
  | EmptyString => ""
  | String c s' =>
      match skip with
      | S skip => remove_all skip s' old
      | O => if HasPrefix s old then remove_all (pred (String.length old)) s' old
             else String c (remove_all 0 s' old)
      end
  end.

(** The tokens of a [bufio.Scanner] over a text: its lines, without a final empty
    one, each without a trailing carriage return; it stops at a line that does
    not fit its buffer. *)
Definition MaxScanTokenSize : N := 65536.

Fixpoint drop_cr (s : string) : string :=
  match s with
  | EmptyString => ""
  | String c EmptyString => if Ascii.eqb c cr then "" else s
  | String c s => String c (drop_cr s)
  end.

Definition drop_last_empty (ls : list string) : list string :=
  match last ls with Some "" => removelast ls | _ => ls end.

Fixpoint fitting (ls : list string) : list string :=
  match ls with
  | [] => []
  | l :: ls => if (N.of_nat (String.length l) <? MaxScanTokenSize)%N then l :: fitting ls else []
  end.

Definition scan_lines (s : string) : list string :=
  drop_cr <$> fitting (drop_last_empty (split_on newline s)).

(** ** The machine *)

Record machine : Type := MkMachine {
  mc_files : gmap string string;
  mc_wd : res string string;        (** [os.Getwd()] *)
  mc_env : gmap string string;
  mc_ran : list (list string * string);  (** arguments and directory, newest first *)
  mc_warnings : list string;        (** lines on GinkgoWriter, newest first *)
}.

Definition set_files (x : gmap string string) (m : machine) : machine :=
  MkMachine x m.(mc_wd) m.(mc_env) m.(mc_ran) m.(mc_warnings).
Definition set_wd (x : res string string) (m : machine) : machine :=
  MkMachine m.(mc_files) x m.(mc_env) m.(mc_ran) m.(mc_warnings).
Definition ran (c : list string * string) (m : machine) : machine :=
  MkMachine m.(mc_files) m.(mc_wd) m.(mc_env) (c :: m.(mc_ran)) m.(mc_warnings).
Definition say (line : string) (m : machine) : machine :=
  MkMachine m.(mc_files) m.(mc_wd) m.(mc_env) m.(mc_ran) (line :: m.(mc_warnings)).

Section Utils.
Context `{Fmt}.
(** What a command prints and how it ends, by the commands before it; which
    directories cannot be entered; which files cannot be read; which cannot be
    written, with what is left of them. *)
Context (exec : list (list string * string) → list string → string → string * option string)
        (chdir_error : string → option string)
        (read_error : string → option string)
        (write_error : string → option (string * option string)).

Abbreviation cmd A := (machine → A * machine).

Definition certmanagerVersion : string := "v1.20.2".
Definition certmanagerURL : string :=
  "https://github.com/cert-manager/cert-manager/releases/download/" +:+ certmanagerVersion
  +:+ "/cert-manager.yaml".
Definition defaultKindBinary : string := "kind".
Definition defaultKindCluster : string := "kind".

Definition warnError (err : string) (m : machine) : machine := say ("warning: " +:+ err) m.

Definition GetProjectDir (m : machine) : string * option string :=
  match m.(mc_wd) with
  | Err e => ("", Some ("failed to get current working directory: " +:+ e))
  | Ok wd => (remove_all 0 wd "/test/e2e", None)
  end.

(** The output, and the error. *)
Definition Run (args : list string) : cmd (string * option string) := λ m,
  let '(dir, _) := GetProjectDir m in
  let m := match chdir_error dir with
           | Some e => say ("chdir dir: " +:+ fmt_q e) m
           | None => set_wd (Ok dir) m
           end in
  let command := Join args " " in
  let m := say ("running: " +:+ fmt_q command) m in
  let '(output, err) := exec m.(mc_ran) args dir in
  let m := ran (args, dir) m in
  (match err with
   | Some e => (output, Some (fmt_q command +:+ " failed with error " +:+ fmt_q output +:+ ": " +:+ e))
   | None => (output, None)
   end, m).

(** [if _, err := Run(cmd); err != nil { warnError(err) }]. *)
Definition run_or_warn (args : list string) (m : machine) : machine :=
  let '((_, err), m) := Run args m in
  match err with Some e => warnError e m | None => m end.

Definition kubeSystemLeases : list string :=
  ["cert-manager-cainjector-leader-election"; "cert-manager-controller"].

Definition delete_lease (m : machine) (lease : string) : machine :=
  run_or_warn ["kubectl"; "delete"; "lease"; lease; "-n"; "kube-system"; "--ignore-not-found";
               "--force"; "--grace-period=0"] m.

Definition UninstallCertManager (m : machine) : machine :=
  let m := run_or_warn ["kubectl"; "delete"; "-f"; certmanagerURL] m in
  foldl delete_lease m kubeSystemLeases.

Definition InstallCertManager : cmd (option string) := λ m,
  let '((_, err), m) := Run ["kubectl"; "apply"; "-f"; certmanagerURL] m in
  match err with
  | Some e => (Some e, m)
  | None =>
      let '((_, err), m) :=
        Run ["kubectl"; "wait"; "deployment.apps/cert-manager-webhook"; "--for"; "condition=Available";
             "--namespace"; "cert-manager"; "--timeout"; "5m"] m in
      (err, m)
  end.

Definition GetNonEmptyLines (output : string) : list string :=
  filter (λ l, l ≠ "") (split_on newline output).

Definition certManagerCRDs : list string :=
  ["certificates.cert-manager.io"; "issuers.cert-manager.io"; "clusterissuers.cert-manager.io";
   "certificaterequests.cert-manager.io"; "orders.acme.cert-manager.io";
   "challenges.acme.cert-manager.io"].

Definition IsCertManagerCRDsInstalled : cmd bool := λ m,
  let '((output, err), m) := Run ["kubectl"; "get"; "crds"] m in
  match err with
  | Some _ => (false, m)
  | None =>
      let crdList := GetNonEmptyLines output in
      (existsb (λ crd, existsb (λ line, strings_Contains line crd) crdList) certManagerCRDs, m)
  end.

Definition LoadImageToKindClusterWithName (name : string) : cmd (option string) := λ m,
  let cluster := default defaultKindCluster (m.(mc_env) !! "KIND_CLUSTER") in
  let kindBinary := default defaultKindBinary (m.(mc_env) !! "KIND") in
  let '((_, err), m) := Run [kindBinary; "load"; "docker-image"; name; "--name"; cluster] m in
  (err, m).

(** [os.ReadFile] and [os.WriteFile]. *)
Definition ReadFile (name : string) (m : machine) : res string string :=
  match read_error name, m.(mc_files) !! name with
  | Some e, _ => Err e
  | None, Some content => Ok content
  | None, None => Err ("open " +:+ name +:+ ": no such file or directory")
  end.

Definition WriteFile (name content : string) : cmd (option string) := λ m,
  match write_error name with
  | Some (e, left_) => (Some e, set_files (partial_alter (λ _, left_) name m.(mc_files)) m)
  | None => (None, set_files (<[name := content]> m.(mc_files)) m)
  end.

(** The text of [target] with [prefix] off its lines. *)
Definition uncommented (lines : list string) (prefix : string) : string :=
  Join ((λ l, TrimPrefix l prefix) <$> lines) newlines.

(** Writes to the buffer do not fail. *)
Definition UncommentCode (filename target prefix : string) : cmd (option string) := λ m,
  match ReadFile filename m with
  | Err e => (Some ("failed to read file " +:+ fmt_q filename +:+ ": " +:+ e), m)
  | Ok content =>
      match Index content target with
      | None => (Some ("unable to find the code " +:+ fmt_q target +:+ " to be uncommented"), m)
      | Some idx =>
          match scan_lines target with
          | [] => (None, m)
          | lines =>
              let out := String.substring 0 idx content +:+ uncommented lines prefix
                         +:+ drop_str (idx + String.length target) content in
              let '(err, m) := WriteFile filename out m in
              (match err with
               | Some e => Some ("failed to write file " +:+ fmt_q filename +:+ ": " +:+ e)
               | None => None
               end, m)
          end
      end
  end.

(** ** Uncommenting *)

(** A text as a scanner takes it for one line. *)
Definition one_line (l : string) : bool :=
  str_all (λ c, negb (Ascii.eqb c newline)) l && String.eqb (drop_cr l) l &&
  (N.of_nat (String.length l) <? MaxScanTokenSize)%N.

Definition commented (prefix : string) (ls : list string) : string :=
  Join ((λ l, prefix +:+ l) <$> ls) newlines.
End Utils.

(** ** What is run *)

Section Commands.
Context `{Fmt} (exec : list (list string * string) → list string → string → string * option string)
        (chdir_error : string → option string).

Lemma Run_ran args m : (Run exec chdir_error args m).2.(mc_ran).*1 = args :: m.(mc_ran).*1.
Proof. unfold Run. destruct (GetProjectDir m). destruct (chdir_error s); cbn; by destruct (exec _ _ _). Qed.

Lemma run_or_warn_ran args m : (run_or_warn exec chdir_error args m).(mc_ran).*1 = args :: m.(mc_ran).*1.
Proof.
  unfold run_or_warn. pose proof (Run_ran args m) as Hr. destruct (Run _ _ args m) as [[out [e|]] m']; exact Hr.
Qed.

(** Uninstalling goes through every delete, whatever fails on the way. *)
Lemma UninstallCertManager_ran m :
  (UninstallCertManager exec chdir_error m).(mc_ran).*1 =
  rev (["kubectl"; "delete"; "-f"; certmanagerURL] ::
       ((λ l, ["kubectl"; "delete"; "lease"; l; "-n"; "kube-system"; "--ignore-not-found"; "--force";
               "--grace-period=0"]) <$> kubeSystemLeases)) ++ m.(mc_ran).*1.
Proof. unfold UninstallCertManager, delete_lease. cbn [foldl kubeSystemLeases]. by rewrite !run_or_warn_ran. Qed.

(** Installing succeeds exactly when both commands do, and waits only for what was
    applied. *)
Lemma InstallCertManager_ran m :
  let apply := ["kubectl"; "apply"; "-f"; certmanagerURL] in
  let '((_, applied), m1) := Run exec chdir_error apply m in
  let '(err, m') := InstallCertManager exec chdir_error m in
  (is_Some applied → err = applied ∧ m' = m1) ∧
  (applied = None → ∃ wait, m'.(mc_ran).*1 = wait :: apply :: m.(mc_ran).*1 ∧
     err = (Run exec chdir_error wait m1).1.2).
Proof.
  cbv zeta. unfold InstallCertManager.
  pose proof (Run_ran ["kubectl"; "apply"; "-f"; certmanagerURL] m) as Hran.
  destruct (Run _ _ _ m) as [[out applied] m1]. destruct applied as [e|]; cbn in Hran.
  - by split.
  - pose proof (λ args, Run_ran args m1) as Hw.
    destruct (Run _ _ _ m1) as [[out' err] m'] eqn:Hr. split; [by intros []|]. intros _. eexists.
    split; [|by rewrite Hr]. rewrite <- Hran, <- Hw. by rewrite Hr.
Qed.
End Commands.

(** *** The first occurrence *)

Lemma Index_app pre t post :
  (∀ pre' post', pre +:+ t +:+ post = pre' +:+ t +:+ post' → String.length pre ≤ String.length pre') →
  Index (pre +:+ t +:+ post) t = Some (String.length pre).
Proof.
  induction pre as [|c pre IH]; intros Hmin.
  - rewrite str_app_nil_l. pose proof (HasPrefix_app t post) as Hp.
    destruct (t +:+ post); cbn [Index]; by rewrite Hp.
  - rewrite str_app_cons in *. cbn [Index]. case_match eqn:Hp.
    + apply HasPrefix_inv in Hp. specialize (Hmin "" _ Hp). cbn in Hmin. lia.
    + rewrite IH; [done|]. intros pre' post' Heq. specialize (Hmin (String c pre') post').
      rewrite str_app_cons, Heq in Hmin. cbn in Hmin. specialize (Hmin eq_refl). lia.
Qed.

Lemma Index_Some s t n : Index s t = Some n → ∃ pre post, s = pre +:+ t +:+ post.
Proof.
  revert n. induction s as [|c s IH]; intros n; cbn [Index]; case_match eqn:Hp; try done; intros Hn.
  - apply HasPrefix_inv in Hp. by eexists "", _.
  - apply HasPrefix_inv in Hp. by eexists "", _.
  - apply fmap_Some in Hn as (n' & Hn & _). apply IH in Hn as (pre & post & ->). by exists (String c pre), post.
Qed.

Lemma Index_least pre t post n : Index (pre +:+ t +:+ post) t = Some n → n ≤ String.length pre.
Proof.
  revert n. induction pre as [|c pre IH]; intros n.
  - rewrite str_app_nil_l. pose proof (HasPrefix_app t post) as Hp.
    destruct (t +:+ post); cbn [Index]; rewrite Hp; by intros [= <-].
  - rewrite str_app_cons. cbn [Index]. case_match; [intros [= <-]; cbn; lia|].
    intros (n' & Hn & ->)%fmap_Some. apply IH in Hn. cbn. lia.
Qed.

(** *** The lines of the commented text *)

Lemma fitting_all ls : Forall (λ l, one_line l = true) ls → fitting ls = ls.
Proof.
  induction 1 as [|l ls Hl _ IH]; [done|]. cbn. unfold one_line in Hl.
  apply andb_true_iff in Hl as [_ ->]. by rewrite IH.
Qed.

Lemma drop_cr_all ls : Forall (λ l, one_line l = true) ls → drop_cr <$> ls = ls.
Proof.
  induction 1 as [|l ls Hl _ IH]; [done|]. cbn. unfold one_line in Hl.
  rewrite !andb_true_iff in Hl. destruct Hl as [[_ Hl%String.eqb_eq] _]. by rewrite Hl, IH.
Qed.

Lemma drop_last_nonempty ls : Forall (λ l, l ≠ "") ls → drop_last_empty ls = ls.
Proof.
  intros Hls. unfold drop_last_empty. destruct (last ls) as [l|] eqn:Hl; [|done].
  apply last_Some in Hl as [ls' ->]. apply Forall_app in Hls as [_ Hl].
  apply Forall_cons_1 in Hl as [Hl _]. by destruct l.
Qed.

Lemma scan_lines_commented prefix ls : prefix ≠ "" → ls ≠ [] →
  Forall (λ l, one_line (prefix +:+ l) = true) ls →
  scan_lines (commented prefix ls) = (λ l, prefix +:+ l) <$> ls.
Proof.
  intros Hp Hne Hls.
  assert (Forall (λ l, one_line l = true) ((λ l, prefix +:+ l) <$> ls)) as Hall by by apply Forall_fmap.
  clear Hls.
  unfold scan_lines, commented, newlines. rewrite split_on_Join.
  - rewrite drop_last_nonempty, fitting_all, drop_cr_all; [done..|].
    apply Forall_fmap, Forall_true. intros l. by destruct prefix.
  - by destruct ls.
  - eapply Forall_impl; [exact Hall|]. intros l Hl. unfold one_line in Hl. rewrite !andb_true_iff in Hl. tauto.
Qed.

Lemma uncommented_commented prefix ls : uncommented ((λ l, prefix +:+ l) <$> ls) prefix = Join ls newlines.
Proof.
  unfold uncommented. f_equal. induction ls as [|l ls IH]; [done|]. cbn. by rewrite TrimPrefix_app, IH.
Qed.

Section Uncommenting.
Context `{Fmt} (read_error : string → option string) (write_error : string → option (string * option string)).

(** C40: uncommenting undoes commenting, in place.  Let a file that can be read
    and written hold a text, and let the code to uncomment be given lines, each
    with the comment prefix (which is not empty) put before it and each one line
    to a scanner.  Where the text has the commented code, [UncommentCode] succeeds
    and replaces exactly its first occurrence by the lines, leaving the text before
    and after it, every other file and the rest of the machine as they were; where
    the text does not have it, it returns an error and changes nothing. *)
Theorem UncommentCode_uncomments filename prefix ls m content
  (Hprefix : prefix ≠ "") (Hne : ls ≠ []) (Hls : Forall (λ l, one_line (prefix +:+ l) = true) ls)
  (Hread : read_error filename = None) (Hwrite : write_error filename = None)
  (Hfile : m.(mc_files) !! filename = Some content) :
  let result := UncommentCode read_error write_error filename (commented prefix ls) prefix m in
  (∀ pre post, content = pre +:+ commented prefix ls +:+ post →
     (∀ pre' post', content = pre' +:+ commented prefix ls +:+ post' → String.length pre ≤ String.length pre') →
     result = (None, set_files (<[filename := pre +:+ Join ls newlines +:+ post]> m.(mc_files)) m)) ∧
  ((∀ pre post, content ≠ pre +:+ commented prefix ls +:+ post) → ∃ e, result = (Some e, m)).
Proof.
  set (target := commented prefix ls). cbv zeta. unfold UncommentCode, ReadFile. rewrite Hread, Hfile. split.
  - intros pre post -> Hfirst. rewrite (Index_app _ _ _ Hfirst). unfold target.
    rewrite scan_lines_commented by done. fold target.
    destruct ((λ l, prefix +:+ l) <$> ls) as [|l0 ls0] eqn:Hmap; [by destruct ls|].
    unfold WriteFile. rewrite Hwrite, <- Hmap, uncommented_commented, substring_app.
    by rewrite <- str_length_app, <- (str_app_assoc pre target), drop_str_app.
  - intros Hnone. destruct (Index content target) as [n|] eqn:Hi; [|by eexists].
    apply Index_Some in Hi as (pre & post & ->). by destruct (Hnone pre post).
Qed.
End Uncommenting.

(** A target that ends in a newline loses it: the line after it is joined to the
    last one uncommented. *)
Example UncommentCode_joins_lines `{Fmt} :
  let file := "#a" +:+ newlines +:+ "b" in
  let m := MkMachine {["f" := file]} (Ok "/") ∅ [] [] in
  UncommentCode (λ _, None) (λ _, None) "f" ("#a" +:+ newlines) "#" m = (None, set_files {["f" := "ab"]} m).
Proof. reflexivity. Qed.
