(* ===== verification/Witnesses.v ===== *)
(** * Concrete inputs

    Instances of the classes that stand for library code, and for each theorem
    with hypotheses an input on which they hold and the theorem applies. *)

From stdpp Require Import prelude gmap strings pretty sorting list relations.
From Stdlib Require Import SpecFloat Ascii.
From S2P Require Import Prelude Json Api Labels Diff Order Match Render Shelly Effects Client Rpc Digest Cidr Discovery Sweeping Jobs Fleet Window Apply Update Reconcile Safety Sequencing.

Module Concrete.

Definition quote (s : string) : string := String "034" s +:+ String "034" "".

#[export] Instance fmt : Fmt := {|
  fmt_v v := match v with
             | VBool true => "true" | VBool false => "false" | VStr s => s | _ => "?"
             end;
  fmt_q := quote;
|}.

(** Equality-based selectors; an unknown operator is an error. *)
Definition requirement_matches (labels : gmap string string) (q : LabelSelectorRequirement)
  : res string bool :=
  let have := labels !! q.(req_Key) in
  let listed := match have with Some v => bool_decide (v ∈ q.(req_Values)) | None => false end in
  if String.eqb q.(req_Operator) "In" then Ok listed
  else if String.eqb q.(req_Operator) "NotIn" then Ok (negb listed)
  else if String.eqb q.(req_Operator) "Exists" then Ok (bool_decide (is_Some have))
  else if String.eqb q.(req_Operator) "DoesNotExist" then Ok (bool_decide (have = None))
  else Err (quote q.(req_Operator) +:+ " is not a valid label selector operator").

#[export] Instance selectors : Selectors := {|
  selector_matches sel labels :=
    foldr (λ q acc, try b := requirement_matches labels q in try b' := acc in Ok (b && b'))
      (Ok (bool_decide (sel.(sel_MatchLabels) ⊆ labels))) sel.(sel_MatchExpressions);
|}.

#[export] Instance conditions : Conditions := {|
  condition_index cs ty := fst <$> list_find (λ c, c.(cond_Type) = ty) cs;
  SetStatusCondition cs c :=
    match list_find (λ c', c'.(cond_Type) = c.(cond_Type)) cs with
    | Some (i, _) => <[i := c]> cs
    | None => cs ++ [c]
    end;
|}.

#[export] Instance str_conv : StrConv := {|
  ParseFloat s := float64_of_Z <$> Atoi s;
|}.

#[export] Instance json_text : JsonText := {| json_Marshal v := Ok "" |}.

(** A stand-in of the right shape: 64 hexadecimal digits of the text's bytes. *)
Definition byte_sum (s : string) : Z :=
  foldl (λ acc c, acc * 31 + Z.of_N (N_of_ascii c))%Z 7%Z (String.list_ascii_of_string s).
#[export] Instance sha : Sha256 := {| sha256hex s := hex_digits 64 (byte_sum s) |}.
#[export] Instance registry_json : RegistryJson :=
  {| unmarshal_entry s := Err (errorf "no entry") |}.
#[export] Instance qualified_names : QualifiedNames := {| IsQualifiedName s := true |}.
(** Greenwich time, and an hour more from 29 March to 25 October 2026, 01:00 UTC. *)
Definition london : location := λ now,
  if ((1774746000 * Second <=? now) && (now <? 1792890000 * Second))%Z then 3600%Z else 0%Z.

#[export] Instance locations : Locations := {|
  LoadLocation tz := if String.eqb tz "Etc/GMT-2" then Ok (λ _, 7200%Z)
                     else if String.eqb tz "Europe/London" then Ok london
                     else Err (errorf ("unknown time zone " +:+ tz));
|}.

(** Dotted decimal prefixes; anything else is an error. *)
Definition bounded (hi : Z) (s : string) : option Z :=
  match Atoi s with
  | Some n => if (0 <=? n)%Z && (n <=? hi)%Z then Some n else None
  | None => None
  end.

Definition parse_prefix (s : string) : option (Z * Z) :=
  match split_on "/" s with
  | [addr; bits] =>
      match split_on "." addr with
      | [a; b; c; d] =>
          a ← bounded 255 a; b ← bounded 255 b; c ← bounded 255 c; d ← bounded 255 d;
          n ← bounded 32 bits;
          Some (a * 2 ^ 24 + b * 2 ^ 16 + c * 2 ^ 8 + d, n)%Z
      | _ => None
      end
  | _ => None
  end.

#[export] Instance netip : Netip := {|
  ParsePrefix s := match parse_prefix s with
                   | Some (a, n) => Ok (Prefix4 a n)
                   | None => Err ("netip.ParsePrefix(" +:+ quote s +:+ "): no '/'")
                   end;
|}.

Lemma bounded_range hi s n : bounded hi s = Some n → (0 ≤ n ≤ hi)%Z.
Proof. unfold bounded. repeat case_match; intros; simplify_eq. lia. Qed.

Lemma netip_laws : NetipLaws.
Proof.
  constructor. intros s addr bits. cbn. destruct (parse_prefix s) as [[a' n]|] eqn:Hp; [|done].
  intros [= -> ->]. unfold parse_prefix in Hp. repeat case_match; try done.
  repeat (apply bind_Some in Hp as (? & ?%bounded_range & Hp)). simplify_eq. lia.
Qed.

(** *** A profile and a device *)

Definition empty_config : ProfileConfig :=
  MkProfileConfig None None None None None None None None None None None None.

Definition some_config : ProfileConfig :=
  MkProfileConfig
    (Some (MkSystemSection (Some true) None (Some "Europe/London") (Some "51") None None None))
    None (Some (MkMQTTSection (Some true) "broker:1883")) None None None None
    (Some (MkSwitchSection (Some "restore_last") None None None None (Some 2500%Z) None None None))
    (Some (MkWifiSection (Some (MkWifiNetwork (Some true) "iot" (Some (MkSecretKeyRef "wifi" "pass"))))
       None None None))
    None None
    (Some (MkUISection (Some "off") None (Some "momentary"))).

Definition profile (name : string) (priority : Z) (sel : gmap string string) (cfg : ProfileConfig)
  (reboot update : bool) (w : option RebootWindow) : ShellyProfile :=
  MkShellyProfile name
    (MkShellyProfileSpec (Some (MkLabelSelector sel [])) priority ModeEnforce cfg reboot w update w).

Definition status0 : ShellyDeviceStatus :=
  MkShellyDeviceStatus "10.0.0.2" "AABBCCDDEE01" "S3PL" "PlugS" 3 "1.0" "" false false None ""
    true None "" [] [].

Definition device (ref : string) : ShellyDevice :=
  MkShellyDevice
    (MkObjectMeta "default" "aabbccddee01" 1 (DeviceLabels "S3PL" "PlugS" 3) ∅)
    (MkShellyDeviceSpec false "" ref) status0.

Definition by_app : gmap string string := {[LabelApp := "PlugS"]}.
Definition by_room : gmap string string := {[LabelRoom := "attic"]}.

Definition profiles : list ShellyProfile :=
  [profile "b" 10 by_app empty_config false false None;
   profile "a" 10 by_app empty_config false false None;
   profile "c" 99 by_room empty_config false false None].
End Concrete.
Import Concrete.

(** ** Matching *)

Lemma MatchProfile_governs_witness :
  prof_Name <$> (MatchProfile (device "") profiles).1 = Some "a" ∧
  (∀ q, q ∈ profiles → applies (device "") q → beats (profile "a" 10 by_app empty_config false false None) q) ∧
  (MatchProfile (device "") profiles).1 = (MatchProfile (device "") (reverse profiles)).1 ∧
  prof_Name <$> (MatchProfile (device "c") profiles).1 = Some "c".
Proof.
  assert (Hnames : NoDup (prof_Name <$> profiles)) by (apply (bool_decide_unpack _); vm_compute; exact I).
  pose proof (MatchProfile_governs (device "") profiles Hnames) as (Hperm & _ & Hsel).
  assert (E : (MatchProfile (device "") profiles).1 =
    Some (profile "a" 10 by_app empty_config false false None)) by (vm_compute; reflexivity).
  specialize (Hsel eq_refl). rewrite E in Hsel.
  split; [rewrite E; reflexivity|]. split; [apply Hsel|].
  split; [apply Hperm; symmetry; apply reverse_Permutation|vm_compute; reflexivity].
Defined.

(** ** Rendering and diffing *)

Definition actual0 : actual_config :=
  {["sys" := VObj {["device" := VObj {["eco_mode" := VBool false; "name" := VStr "plug"]}]};
    "switch:0" := VObj {["id" := VNum (float64_of_Z 0); "power_limit" := VNum (float64_of_Z 2800)]};
    "wifi" := VObj {["sta" := VObj {["ssid" := VStr "old"; "enable" := VBool true]}]};
    "plugs_ui" := VObj {["leds" := VObj {["mode" := VStr "power"]};
                         "controls" := VObj {["switch:0" := VObj {["in_mode" := VStr "detached"]}]}]}]}.

Definition order_of (m : actual_config) : list string := (map_to_list m).*1.

Definition desired0 : desired_config := Render some_config "" (order_of actual0) actual0.

Lemma Diff_findings_witness :
  ∃ f, reported desired0 actual0 f ∧ f.(Section_) = "wifi" ∧ f.(Path) = "sta.ssid".
Proof.
  destruct (Diff desired0 actual0) as [fs|e] eqn:E; [|vm_compute in E; discriminate E].
  exists (MkFinding "wifi" "sta.ssid" (VStr "iot") (VStr "old")).
  split; [|split; reflexivity]. apply (Diff_findings desired0 actual0 fs E).
  vm_compute in E. injection E as <-.
  repeat first [apply list_elem_of_here | apply list_elem_of_further].
Defined.

Lemma Render_no_password_witness :
  (∃ want, desired0 !! "wifi" = Some want ∧
     value_at (Some (VObj want)) ["sta"; "ssid"] = Some (VStr "iot")) ∧ "pass" ∉ ["sta"; "ssid"].
Proof.
  destruct (desired0 !! "wifi") as [want|] eqn:E; [|vm_compute in E; discriminate E].
  assert (Hv : value_at (Some (VObj want)) ["sta"; "ssid"] = Some (VStr "iot")).
  { vm_compute in E. injection E as <-. vm_compute. reflexivity. }
  split; [exists want; split; [reflexivity|exact Hv]|]. unfold desired0 in E.
  exact (Render_no_password some_config "" (order_of actual0) actual0 "wifi" want _ _ E Hv).
Defined.

Lemma unique_ui_actual0 : unique_ui actual0.
Proof.
  intros k1 k2 H1 H2 Hs1 Hs2.
  assert (Hk : ∀ k, uiKeyRe k = true → is_Some (actual0 !! k) → k = "plugs_ui").
  { intros k Hk [v Hv]. unfold actual0 in Hv.
    repeat (apply lookup_insert_Some in Hv as [[<- _]|[_ Hv]]; [discriminate Hk|]).
    by apply lookup_singleton_Some in Hv as [<- _]. }
  by rewrite (Hk k1), (Hk k2).
Qed.

Lemma Render_Diff_converges_witness :
  Diff desired0 actual0 ≠ Ok [] ∧
  Diff (Render some_config "" (order_of (write_all desired0 actual0)) (write_all desired0 actual0))
       (write_all desired0 actual0) = Ok [].
Proof.
  split; [intros E; vm_compute in E; discriminate E|].
  unfold desired0. apply (Render_Diff_converges some_config "" (order_of actual0) _ actual0).
  - intros sys s f [= <-] [[= <-]|[=]] [= <-]. vm_compute. reflexivity.
  - unfold range_order, order_of. reflexivity.
  - unfold range_order, order_of. reflexivity.
  - apply unique_ui_actual0.
  - intros s raw Hs. unfold actual0 in Hs.
    repeat (apply lookup_insert_Some in Hs as [[<- <-]|[_ Hs]]; [eexists; reflexivity|]).
    apply lookup_singleton_Some in Hs as [<- <-]. eexists; reflexivity.
  - apply enforced_write_all.
Defined.

(** ** Windows *)

Definition early : RebootWindow := MkRebootWindow "03:00" "05:00" "Europe/London".

(** The same UTC time of day, in winter and in summer: 04:30 is inside the window on
    15 February and outside it, an hour later on the wall, on 26 May; there 02:30 is
    inside. *)
Definition utc (day hour mn : Z) : time := ((day * 86400 + hour * 3600 + mn * 60) * Second + 17)%Z.

Lemma window_daily_witness :
  withinRebootWindow (utc 20499 4 30) (Some early) = Ok true ∧
  withinRebootWindow (utc 20599 4 30) (Some early) = Ok false ∧
  withinRebootWindow (utc 20599 2 30) (Some early) = Ok true.
Proof.
  assert (Hne : (3%Z, 0%Z) ≠ (5%Z, 0%Z)) by discriminate.
  split_and!.
  - rewrite (window_daily early london _ 3 0 5 0 20499 90 0);
      [vm_compute; reflexivity|reflexivity|reflexivity|reflexivity|lia|lia|done|lia|lia|reflexivity].
  - rewrite (window_daily early london _ 3 0 5 0 20599 150 0);
      [vm_compute; reflexivity|reflexivity|reflexivity|reflexivity|lia|lia|done|lia|lia|reflexivity].
  - rewrite (window_daily early london _ 3 0 5 0 20599 30 0);
      [vm_compute; reflexivity|reflexivity|reflexivity|reflexivity|lia|lia|done|lia|lia|reflexivity].
Defined.

Lemma window_malformed_witness :
  (∃ e, withinRebootWindow 0 (Some (MkRebootWindow "24:00" "06:00" "")) = Err e) ∧
  (∃ e, withinRebootWindow 0 (Some (MkRebootWindow "06:00" "6:00" "")) = Err e).
Proof.
  split; apply window_malformed; [right; left|right; right; right]; vm_compute; reflexivity.
Defined.

(** ** Schedule jobs *)

Definition call_on : ScheduleCallSpec :=
  MkScheduleCallSpec "Switch.Set" (Some (VObj {["id" := VNum (float64_of_Z 0)]})).
Definition spec_on : ScheduleJobSpec := MkScheduleJobSpec None "0 0 7 * * *" [call_on].
Definition sec0 : ScheduleSection := MkScheduleSection [spec_on].

Definition jobs0 : list ScheduleJob :=
  [MkScheduleJob 1 true "0 0 0 * * *" [MkScheduleCall shellyUpdateMethod ∅];
   MkScheduleJob 2 true "0 0 9 * * *" [MkScheduleCall "Switch.Set" ∅]].

Lemma schedule_plan_converges_witness :
  length (scheduleActions (Some sec0) jobs0) = 2 ∧
  ∃ jobs' next', exec_plan sec0 (scheduleActions (Some sec0) jobs0) (jobs0, 3%Z) = Some (jobs', next') ∧
    scheduleActions (Some sec0) jobs' = [].
Proof.
  split; [vm_compute; reflexivity|].
  destruct (schedule_plan_converges sec0 jobs0 3) as (jobs' & next' & ? & ? & _).
  - apply (bool_decide_unpack _). vm_compute. exact I.
  - intros j Hj. repeat (apply elem_of_cons in Hj as [->|Hj]; [reflexivity|]).
    by apply elem_of_nil in Hj.
  - intros s Hs. repeat (apply elem_of_cons in Hs as [->|Hs]; [eexists; reflexivity|]).
    by apply elem_of_nil in Hs.
  - by exists jobs', next'.
Defined.

Lemma firmware_plan_converges_witness :
  firmwareFindings false jobs0 ≠ [] ∧
  firmwareFindings false
    (foldl (λ js i, store_delete i js) jobs0 (firmwareOffenders false jobs0).1) = [].
Proof.
  split; [discriminate|].
  assert (Hnd : NoDup (job_ID <$> jobs0)) by (apply (bool_decide_unpack _); vm_compute; exact I).
  exact (proj1 (firmware_plan_converges false jobs0 9 Hnd)).
Defined.

(** ** A device that drifts back *)

Definition settings : Settings := MkSettings true true "" "" 0 0.

Definition drift0 : list Finding := [MkFinding "sys" "device.eco_mode" (VBool true) (VBool false)].

Definition reverting : ShellyDevice :=
  upd_status (set_st_Conditions [MkCondition ConditionInSync ConditionFalse ReasonNotConverging
    (Summarize drift0) 1 0%Z]) (device "").

(** ** A run with an update *)

(** An environment with one device and one profile that opted in to updates. *)
Definition updating : ShellyProfile :=
  profile "up" 1 by_app empty_config false true (Some (MkRebootWindow "00:00" "23:59" "")).

Definition answer_of (a : answer) : answer_type a :=
  match a with
  | AnsConfig => ∅
  | AnsRestart => false
  | AnsJobs => []
  | AnsJobID => 1%Z
  | AnsSys => MkSysStatus (Some "1.1") false
  | AnsNone => tt
  end.

Definition one_device : handler unit := λ o s,
  (match o as o' return resp o' with
   | OCall _ _ _ a => Ok (answer_of a)
   | OProbe _ => Err (errorf "no route")
   | ORange m => (map_to_list m).*1
   | OGetDevice _ _ => Ok (device "")
   | OListDevices _ => Ok [device ""]
   | OListProfiles _ => Ok [updating]
   | OGetConfigMap _ _ => Ok ∅
   | OGetSecret _ _ => Ok ∅
   | OPatch _ d => Ok d
   | OStatusPatch _ d => Ok d
   | OEvent _ _ _ _ => tt
   | ONow => 0%Z
   | ORandom => S754_zero false
   | OClient a p => MkClient 0 a p
   | ONewClient a p => MkClient 0 a p
   | OClaim _ _ => false
   | OCreate d => Ok d
   | OUpdate d => Ok d
   | OStatusUpdate d => Ok d
   | OCreateConfigMap _ _ _ _ => Ok tt
   | OUpdateConfigMap _ _ _ => Ok tt
   | OProbeAll _ _ => ([], false)
   | OTick => false
   end, s).

(** Run the first worker of a pool for at most [n] steps. *)
Fixpoint first_worker {S A : Type} (hd : handler S) (n : nat) (c : pool S A) : pool S A :=
  match n with
  | O => c
  | Datatypes.S n =>
      match c.(pool_threads) with
      | (h, Do o k) :: ths =>
          first_worker hd n
            (MkPool ((Ev o (hd o c.(pool_state)).1 :: h, k (hd o c.(pool_state)).1) :: ths)
               (hd o c.(pool_state)).2 (Ev o (hd o c.(pool_state)).1 :: c.(pool_trace)))
      | _ => c
      end
  end.

Lemma first_worker_steps {S A : Type} (hd : handler S) n : ∀ c : pool S A,
  rtc (pool_step hd) c (first_worker hd n c).
Proof.
  induction n as [|n IH]; intros [ths s tr]; simpl; [constructor|].
  destruct ths as [|[h [a|o k]] ths]; [constructor|constructor|].
  eapply rtc_l; [|apply IH].
  by apply (pool_step_intro hd ((h, Do o k) :: ths) 0 h o k s tr).
Qed.

Definition pool0 : pool (process unit) (ctrl_Result * option error) :=
  MkPool ((λ d, ([], Reconcile settings d.1 d.2)) <$>
            [("default", "aabbccddee01"); ("default", "aabbccddee02")])
    (MkProcess tt (MkRState time_zero ∅ 0) (1700000000 * Second) []) [].

Lemma updates_spaced_witness :
  let c := first_worker (process_handler one_device (λ _, 1)) 40 pool0 in
  count is_update_b c.(pool_trace) = 1 ∧ length c.(pool_state).(pr_grants) = 1 ∧
  spaced (2 * Minute) c.(pool_state).(pr_grants) ∧
  count is_update_b c.(pool_trace) ≤ length c.(pool_state).(pr_grants).
Proof.
  cbv zeta. split; [vm_compute; reflexivity|]. split; [vm_compute; reflexivity|].
  apply (updates_spaced settings one_device (λ _, 1)
    [("default", "aabbccddee01"); ("default", "aabbccddee02")] tt (MkRState time_zero ∅ 0)
    (1700000000 * Second)).
  - reflexivity.
  - apply first_worker_steps.
Defined.

(** *** Calls over HTTP *)

Lemma quote_law : QuoteLaw.
Proof. constructor. intros s _. reflexivity. Qed.

Lemma hex_digits_length k n : String.length (hex_digits k n) = k.
Proof.
  revert n. induction k as [|k IH]; intros n; [done|]. cbn [hex_digits].
  rewrite str_length_app, IH. cbn. lia.
Qed.

Lemma sha_law : Sha256Law.
Proof. constructor; intros s; [apply hex_digits_word|apply hex_digits_length]. Qed.

Definition rpc_client : Client := MkClient 0 "10.0.0.7" "secret".
Definition fresh : state := MkState None [] 0.

Definition answer_ok : response :=
  MkResponse StatusOK "200 OK" "" "{}" (Ok (MkRpcResponse (Some (VBool true)) None)).

(** A device that is always too busy. *)
Definition busy : env :=
  MkEnv (λ _, Ok (MkResponse StatusTooManyRequests "429 Too Many Requests" "" "busy" (Err "EOF")))
    (λ _, false) (λ n, [Z.of_nat n]) (λ _, None).

Definition busy_call : res error () * state :=
  Call busy rpc_client "Sys.GetStatus" None tt None fresh.

Lemma Call_bounded_witness :
  length busy_call.2.(st_log) = 3 ∧ busy_call.2.(st_waits) = 2 ∧
  ∃ new, busy_call.2.(st_log) = [] ++ new ∧ busy_call.2.(st_waits) ≤ 0 + 2 ∧
    1 ≤ length new ≤ 6 ∧ Forall (rq_ok rpc_client "") new.
Proof.
  split; [reflexivity|]. split; [reflexivity|].
  destruct (Call_bounded busy rpc_client "Sys.GetStatus" None tt None fresh busy_call.1 busy_call.2)
    as (new & Hl & Hw & Hn & Hok); [reflexivity|].
  exists new. split; [exact Hl|]. split; [exact Hw|]. split; [exact Hn|exact Hok].
Defined.

Lemma Call_refusal_definite_witness :
  (∃ e, busy_call.1 = Err e ∧ IsRefusal e = true) ∧
  ∃ resp, busy.(env_answer) busy_call.2.(st_log) = Ok resp
    ∧ (resp.(rsp_code) ≠ StatusOK
       ∨ ∃ rr, resp.(rsp_decoded) = Ok rr ∧ is_Some rr.(rr_Error)).
Proof.
  split; [eexists; split; reflexivity|].
  exact (Call_refusal_definite busy rpc_client "Sys.GetStatus" None tt None fresh
    busy_call.1 busy_call.2 eq_refl eq_refl).
Defined.

(** A protected device, and a client that holds another device's challenge. *)
Definition protected : env :=
  MkEnv (guarded_server "shellyplus1-aabbcc" "secret" (λ _, answer_ok)) (λ _, false)
    (λ n, [Z.of_nat n; 255%Z]) (λ _, None).

Definition stale_state : state := MkState (Some (MkDigest "other" "n0" 41%Z)) [] 0.

Definition protected_call : res error bool * state :=
  Call protected rpc_client "Sys.GetStatus" None false
    (Some (λ v, match v with VBool b => Ok b | _ => Err "not a bool" end)) stale_state.

Lemma Call_authenticates_witness :
  protected_call.1 = Ok true ∧ length protected_call.2.(st_log) ≤ 0 + 2.
Proof.
  apply (Call_authenticates (H2 := quote_law) (H3 := sha_law) protected "shellyplus1-aabbcc"
    (λ _, answer_ok) rpc_client "Sys.GetStatus" None "" false
    (Some (λ v, match v with VBool b => Ok b | _ => Err "not a bool" end)) stale_state
    protected_call.1 protected_call.2).
  - reflexivity.
  - reflexivity.
  - discriminate.
  - discriminate.
  - intros log. split; discriminate.
  - reflexivity.
Defined.

Lemma nonce_counters_advance_witness :
  length (run_calls protected rpc_client [("A", None); ("B", None)] fresh).(st_log) = 3 ∧
  log_disciplined protected
    (run_calls protected rpc_client [("A", None); ("B", None)] fresh).(st_log).
Proof.
  split; [vm_compute; reflexivity|].
  by apply (nonce_counters_advance protected rpc_client [("A", None); ("B", None)]).
Defined.

(** *** A sweep *)

Lemma ExpandCIDRs_correct_witness :
  ExpandCIDRs ["10.0.0.5/29"; "255.255.255.254/31"] =
    Ok ["10.0.0.1"; "10.0.0.2"; "10.0.0.3"; "10.0.0.4"; "10.0.0.5"; "10.0.0.6";
        "255.255.255.254"; "255.255.255.255"]
  ∧ ExpandCIDRs ["10.0.0.5/29"; "255.255.255.254/31"] =
    expand_spec ["10.0.0.5/29"; "255.255.255.254/31"] [].
Proof.
  split; [vm_compute; reflexivity|].
  exact (ExpandCIDRs_correct (H1 := netip_laws) ["10.0.0.5/29"; "255.255.255.254/31"]).
Defined.

Definition probe_answer (target : string) : res error DeviceInfo :=
  if String.eqb target "10.0.0.2" then Err (errorf "no route")
  else Ok (MkDeviceInfo "shellyplus1" "AABBCC" "SNSW" 2 "1.0" "Plus1" false "").

(** Both probes run at once and finish in the other order. *)
Definition swept : Probing.state :=
  Probing.MkState [] false [] (probe_result probe_answer "10.0.0.2" ++ probe_result probe_answer "10.0.0.1")
    false.

Lemma swept_steps :
  nsteps (Probing.step (probe_slots 2) probe_answer) 6
    (Probing.initial ["10.0.0.1"; "10.0.0.2"]) swept.
Proof.
  eapply nsteps_l; [apply Probing.step_admit|].
  eapply nsteps_l; [apply Probing.step_launch; vm_compute; lia|].
  eapply nsteps_l; [apply Probing.step_admit|].
  eapply nsteps_l; [apply Probing.step_launch; vm_compute; lia|].
  eapply nsteps_l; [apply (Probing.step_finish _ _ [] _ ["10.0.0.1"] "10.0.0.2" [])|].
  eapply nsteps_l; [apply (Probing.step_finish _ _ [] _ [] "10.0.0.1" [])|].
  constructor.
Qed.

Lemma probeAll_collects_witness :
  length swept.(Probing.found) = 1 ∧
  swept.(Probing.found) ≡ₚ ["10.0.0.1"; "10.0.0.2"] ≫= probe_result probe_answer.
Proof.
  split; [reflexivity|].
  apply (probeAll_collects (probe_slots 2) probe_answer ["10.0.0.1"; "10.0.0.2"] swept).
  - apply rtc_nsteps; exists 6; apply swept_steps.
  - split; reflexivity.
  - reflexivity.
Defined.

Lemma probeAll_terminates_witness :
  6 ≤ 3 * 2 + 2 ∧
  (Probing.all_done swept ∨ ∃ s', Probing.step (probe_slots 2) probe_answer swept s').
Proof.
  apply (probeAll_terminates 2 probe_answer ["10.0.0.1"; "10.0.0.2"] swept 6). apply swept_steps.
Defined.

(** An interval so long that three of them overflow. *)
Definition sweeper : Sweeper :=
  MkSweeper "default" ["10.0.0.0/29"] [] (2 ^ 62) 0 0 0 [].

Definition initialised : Sweeper :=
  MkSweeper "default" ["10.0.0.0/29"] [] (2 ^ 62) (3 * Second) 32 Second
    ["10.0.0.1"; "10.0.0.2"; "10.0.0.3"; "10.0.0.4"; "10.0.0.5"; "10.0.0.6"].

Definition seen_now : Found :=
  MkFound "10.0.0.1" (MkDeviceInfo "shellyplus1" "AABBCC" "SNSW" 2 "1.0" "Plus1" false "").

Lemma refreshed_stays_online_witness :
  init sweeper = (initialised, None) ∧
  stale (1700000000 * Second + 999999999 - Second)
    (stored (refresh (1700000000 * Second + 999999999) seen_now (device ""))) = false.
Proof.
  split; [vm_compute; reflexivity|].
  apply (refreshed_stays_online sweeper initialised). vm_compute. reflexivity.
Defined.
