(* ===== verification/DeviceWitnesses.v ===== *)
(** * Concrete inputs: devices, pages and the feed

    Inputs for the theorems of DeviceStore.v, Converge.v, Stack.v, Feed.v,
    Dashboard.v, Truth.v and Damping.v. *)

From stdpp Require Import prelude gmap strings pretty sorting list countable.
From Stdlib Require Import SpecFloat Ascii.
From S2P Require Import Prelude Json Api Diff Order Match Render Shelly Effects Client Decode Rpc Digest FakeDevice Wire Jobs DeviceView DeviceStore Cidr Discovery Feed Metrics Dashboard Fleet Window Apply Update Reconcile Converge Safety Truth Damping Enforced Stack Witnesses.
Import Concrete.

(** ** A JSON text that parses back *)

Module Text.

Abbreviation leaf := (unit + (bool + ((bool * Z * Z) + string)))%type.

Definition float_leaf (f : spec_float) : bool * Z * Z :=
  match f with
  | S754_finite s m e => (s, Z.pos m, e)
  | S754_zero s => (s, 0%Z, 0%Z)
  | S754_infinity s => (s, 0%Z, 1%Z)
  | S754_nan => (false, 0%Z, 2%Z)
  end.

Definition leaf_float (l : bool * Z * Z) : spec_float :=
  match l with
  | (s, Z.pos m, e) => S754_finite s m e
  | (s, _, _) => S754_zero s
  end.

(** Node 0 is an array, node 1 an object with keys and values in turn. *)
Fixpoint to_tree (v : value) : gen_tree leaf :=
  match v with
  | VNull => GenLeaf (inl tt)
  | VBool b => GenLeaf (inr (inl b))
  | VNum f => GenLeaf (inr (inr (inl (float_leaf f))))
  | VStr s => GenLeaf (inr (inr (inr s)))
  | VArr l => GenNode 0 (to_tree <$> l)
  | VObj m =>
      GenNode 1 ((λ kt, GenNode 2 [GenLeaf (inr (inr (inr kt.1))); kt.2]) <$>
                 map_fold (λ k v acc, (k, to_tree v) :: acc) [] m)
  end.

Fixpoint of_tree (t : gen_tree leaf) : value :=
  match t with
  | GenLeaf (inl _) => VNull
  | GenLeaf (inr (inl b)) => VBool b
  | GenLeaf (inr (inr (inl f))) => VNum (leaf_float f)
  | GenLeaf (inr (inr (inr s))) => VStr s
  | GenNode 0 ts => VArr (of_tree <$> ts)
  | GenNode _ ts =>
      VObj (list_to_map ((λ t, match t with
                               | GenNode _ [GenLeaf (inr (inr (inr k))); t] => (k, of_tree t)
                               | _ => ("", VNull)
                               end) <$> ts))
  end.

Lemma leaf_float_leaf f : finite64 f = true → leaf_float (float_leaf f) = f.
Proof. by destruct f. Qed.

Lemma of_to_tree v : jsonable v → of_tree (to_tree v) = v.
Proof.
  induction v as [|b|f|s|l IH|m IH] using value_ind'; intros Hj; try done.
  - cbn. inversion Hj; subst. by rewrite leaf_float_leaf.
  - cbn. f_equal. inversion Hj as [| | | |? Hl|]; subst. rewrite <-list_fmap_compose.
    rewrite Forall_forall in IH. rewrite <-(list_fmap_id l) at 2. apply list_fmap_ext.
    intros i v Hv. apply list_elem_of_lookup_2 in Hv. cbn. apply IH; [by apply list_elem_of_In|by apply Hl].
  - inversion Hj as [| | | | |? Hm]; subst. cbn. f_equal. rewrite <-list_fmap_compose.
    transitivity (list_to_map (M := obj) ((λ kt, (kt.1, of_tree kt.2)) <$>
      map_fold (λ k v acc, (k, to_tree v) :: acc) [] m)).
    { f_equal. }
    assert (Hnd : NoDup ((λ kt : string * gen_tree leaf, (kt.1, of_tree kt.2)) <$>
       map_fold (λ k v acc, (k, to_tree v) :: acc) [] m).*1).
    { rewrite <-list_fmap_compose. change (fst ∘ _) with (fst (A := string) (B := gen_tree leaf)).
      rewrite (map_fold_cons (λ _ v, to_tree v)), <-list_fmap_compose.
      change (fst ∘ _) with (fst (A := string) (B := value)). apply NoDup_fst_map_to_list. }
    apply map_eq. intros k. apply option_eq. intros w.
    rewrite <-elem_of_list_to_map by exact Hnd. rewrite list_elem_of_fmap.
    setoid_rewrite (map_fold_cons (λ _ v, to_tree v)). setoid_rewrite list_elem_of_fmap. split.
    + intros (kt & [= -> ->] & ([k' u] & -> & Hu%elem_of_map_to_list)). cbn.
      rewrite (IH k' u Hu); [done|]. by apply (Hm k' u).
    + intros Hw. exists (k, to_tree w). cbn. rewrite (IH k w Hw) by by apply (Hm k w).
      split; [done|]. exists (k, w). split; [done|]. by apply elem_of_map_to_list.
Qed.

Fixpoint pos_str (p : positive) : string :=
  match p with
  | xH => ""
  | xO p => String "0" (pos_str p)
  | xI p => String "1" (pos_str p)
  end.

Fixpoint str_pos (s : string) : positive :=
  match s with
  | EmptyString => xH
  | String c s => if Ascii.eqb c "0" then xO (str_pos s) else xI (str_pos s)
  end.

Lemma str_pos_str p : str_pos (pos_str p) = p.
Proof. induction p as [p IH|p IH|]; cbn; by rewrite ?IH. Qed.

Definition tree_json : JsonText := {| json_Marshal v := Ok (pos_str (encode (to_tree v))) |}.
Definition tree_parse : JsonParse :=
  {| json_Unmarshal s := match decode (str_pos s) with
                         | Some t => Ok (of_tree t)
                         | None => Err "invalid character"
                         end |}.

Lemma tree_law : @JsonLaw tree_json tree_parse.
Proof. constructor. intros v Hj. eexists. split; [reflexivity|]. cbn. by rewrite str_pos_str, decode_encode, of_to_tree. Qed.
End Text.

#[local] Instance witness_json : JsonText := Text.tree_json.
#[local] Instance witness_parse : JsonParse := Text.tree_parse.

(** ** A plug *)

Definition plug_config : gmap string obj :=
  {["sys" := {["device" := VObj {["eco_mode" := VBool false; "name" := VStr "plug"]}]};
    "switch:0" := {["id" := vint 0; "power_limit" := vint 2800]};
    "wifi" := {["sta" := VObj {["ssid" := VStr "old"; "enable" := VBool true]}]};
    "plugs_ui" := {["leds" := VObj {["mode" := VStr "power"]};
                    "controls" := VObj {["switch:0" := VObj {["in_mode" := VStr "detached"]}]}]}]}.

(** An auto-update job for beta firmware, and a job of the user's. *)
Definition plug_jobs : list obj :=
  [{["enable" := VBool true; "timespec" := VStr "0 0 0 * * *";
     "calls" := json_calls [MkScheduleCall shellyUpdateMethod {["stage" := VStr "beta"]}]]};
   {["enable" := VBool true; "timespec" := VStr "0 0 9 * * *";
     "calls" := json_calls [MkScheduleCall "Switch.Set" {["id" := vint 0]}]]}].

Definition plug_setup (password : string) : Setup :=
  MkSetup "shellyplugsg3-aabbccddee01" "AABBCCDDEE01" "S3PL-00112EU" "PlugSG3" 3 "1.4.4" ""
    password false "" false plug_config 0 plug_jobs "" false.

Definition plug : Device := New (plug_setup "") None false.

(** *** Requests *)

Definition asked (body : res string value) : incoming := MkIncoming "" body spelled.

(** The update spells the id in capitals. *)
Definition job_requests : list incoming :=
  [asked (Ok (request_doc "Schedule.Create" (Some (VObj (create_params
      (MkScheduleJob 0 true "0 0 7 * * *" [MkScheduleCall "Switch.Set" ∅]))))));
   asked (Ok (request_doc "Schedule.Update" (Some (VObj {["ID" := vint 2; "enable" := VBool false]}))));
   asked (Ok (request_doc "Schedule.Delete" (Some (VObj {["id" := vint 1]}))));
   asked (Err "unexpected EOF");
   asked (Ok (request_doc "Schedule.Create" (Some (VObj {["timespec" := VStr "0 0 8 * * *"]}))))].

Lemma served_store_ok_witness :
  job_id <$> fd_schedules (served plug job_requests) = [2; 3]%Z ∧
  (λ j : obj, j !! "enable") <$> fd_schedules (served plug job_requests) = [Some (VBool false); Some (VBool true)] ∧
  store_ok (served plug job_requests).
Proof.
  split; [vm_compute; reflexivity|]. split; [vm_compute; reflexivity|]. unfold plug.
  apply (served_store_ok (plug_setup "") None false job_requests); [|cbn; lia].
  unfold job_requests. repeat (apply Forall_cons_2;
    [split; [exact spelled_picks|apply one_id_request_b_sound; vm_compute; reflexivity]|]).
  apply Forall_nil_2.
Defined.

(** With the id spelled in two ways, the job found by the one gets the other. *)
Example two_spellings :
  let capitals (m : obj) (k : string) :=
    match m !! "ID" with Some v => if String.eqb k "id" then Some v else spelled m k | None => spelled m k end in
  let req := MkIncoming "" (Ok (request_doc "Schedule.Update"
               (Some (VObj {["id" := vint 2; "ID" := vint 1]})))) capitals in
  job_id <$> fd_schedules (served plug [req]) = [2; 2]%Z.
Proof. vm_compute. reflexivity. Qed.

(** *** A call over HTTP *)

Definition locked_plug : Device := New (plug_setup "secret") None false.
Definition plug_client : Client := MkClient 7 "10.0.0.2" "secret".
Definition never (n : nat) : bool := false.
Definition no_random (n : nat) : list Z := [].

Lemma jsonable_GetConfig : jsonable (request_doc "Shelly.GetConfig" None).
Proof.
  apply jsonable_obj. cbn. intros k v Hk.
  apply lookup_insert_Some in Hk as [[<- <-]|[_ Hk]]; [by repeat constructor|].
  apply lookup_singleton_Some in Hk as [<- <-]. by repeat constructor.
Qed.

(** *** One round of enforcement *)

Definition full_config : ProfileConfig :=
  MkProfileConfig
    (Some (MkSystemSection (Some true) None (Some "Europe/London") (Some "51") None None None))
    None (Some (MkMQTTSection (Some true) "broker:1883")) None None None
    (Some (MkAuthSection (Some true) (Some (MkSecretKeyRef "shelly" "password"))))
    (Some (MkSwitchSection (Some "restore_last") None None None None (Some 2500%Z) None None None))
    (Some (MkWifiSection (Some (MkWifiNetwork (Some true) "iot" (Some (MkSecretKeyRef "wifi" "pass"))))
       None None None))
    (Some (MkFirmwareSection (Some true))) (Some sec0)
    (Some (MkUISection (Some "off") None (Some "momentary"))).

Definition full : ShellyProfile := profile "full" 1 by_app full_config false false None.

Definition plug_view : view :=
  MkView "shellyplugsg3-aabbccddee01" "" plug_config
    [MkScheduleJob 1 true "0 0 0 * * *" [MkScheduleCall shellyUpdateMethod {["stage" := VStr "beta"]}];
     MkScheduleJob 2 true "0 0 9 * * *" [MkScheduleCall "Switch.Set" {["id" := vint 0]}]] 3.

Lemma plug_shown : shows plug plug_view.
Proof.
  split.
  - split; [reflexivity|]. split; [reflexivity|]. split; cbn; lia.
  - reflexivity.
  - reflexivity.
  - vm_compute. reflexivity.
  - repeat (constructor; [split; [vm_compute; reflexivity|by eexists]|]). constructor.
  - reflexivity.
  - split; [apply (bool_decide_unpack _); vm_compute; exact I|]. split; [|cbn; lia].
    intros j Hj. repeat (apply elem_of_cons in Hj as [->|Hj]; [cbn; lia|]). by apply elem_of_nil in Hj.
  - reflexivity.
  - intros j Hj. repeat (apply elem_of_cons in Hj as [->|Hj];
      [split; [reflexivity|apply jsonable_b_sound; vm_compute; reflexivity]|]).
    by apply elem_of_nil in Hj.
Qed.

Lemma plug_components k v : plug_config !! k = Some v →
  k ∈ ["sys"; "switch:0"; "wifi"; "plugs_ui"].
Proof.
  unfold plug_config. intros Hv.
  repeat (apply lookup_insert_Some in Hv as [[<- _]|[_ Hv]]; [by repeat constructor|]).
  apply lookup_singleton_Some in Hv as [<- _]. by repeat constructor.
Qed.

(** Whatever order the configuration is ranged over in, the same is rendered. *)
Definition plug_rendered : desired_config :=
  Render full_config "" ["plugs_ui"] (v_actual plug_view).

Lemma plug_render order :
  range_order order (v_actual plug_view) →
  Render full_config "" order (v_actual plug_view) = plug_rendered.
Proof.
  intros Hord. assert (Hui : discoverUIKey order = discoverUIKey ["plugs_ui"]);
    [|unfold plug_rendered, Render; by rewrite Hui].
  assert (Hk : discoverUIKey order ≠ "" ∧ uiKeyRe (discoverUIKey order) = true
    ∧ is_Some (v_actual plug_view !! discoverUIKey order)).
  { assert (Hin : ∀ k, k ∈ order ↔ is_Some (v_actual plug_view !! k)).
    { intros k. unfold range_order in Hord. rewrite Hord. split.
      - intros ([k' x] & -> & Hx%elem_of_map_to_list)%list_elem_of_fmap. by exists x.
      - intros [x Hx]. apply (list_elem_of_fmap_2 fst _ (k, x)). by apply elem_of_map_to_list. }
    unfold discoverUIKey. destruct (filter _ order) as [|k l] eqn:Hf.
    - exfalso. assert (Hp : "plugs_ui" ∈ order) by (apply Hin; vm_compute; by eexists).
      assert (Hp' : "plugs_ui" ∈ filter (λ k, uiKeyRe k = true) order) by by apply list_elem_of_filter.
      rewrite Hf in Hp'. by apply elem_of_nil in Hp'.
    - assert (Hk : k ∈ filter (λ k, uiKeyRe k = true) order) by (rewrite Hf; constructor).
      apply list_elem_of_filter in Hk as [Hk Ho]. cbn. split; [by intros ->|]. split; [done|]. by apply Hin. }
  destruct Hk as (_ & Hre & Hs). rewrite v_actual_lookup, fmap_is_Some in Hs. destruct Hs as [x Hx].
  apply plug_components in Hx. generalize dependent (discoverUIKey order). intros k Hre Hk.
  repeat (apply elem_of_cons in Hk as [->|Hk]; [first [reflexivity|discriminate Hre]|]).
  by apply elem_of_nil in Hk.
Qed.

Lemma plug_manageable : manageable full "" "secret" (MkWifiPasswords "hush" "") plug_view.
Proof.
  assert (Hkeys : ∀ k, is_Some (plug_config !! k) → k ∈ ["sys"; "switch:0"; "wifi"; "plugs_ui"]).
  { intros k [v Hv]. by eapply plug_components. }
  split.
  - intros c _. by left.
  - discriminate.
  - intros sys s f [= <-] [[= <-]|[=]] [= <-]. vm_compute. reflexivity.
  - intros sec [= <-] spec Hs. apply list_elem_of_singleton in Hs as ->.
    eexists. split; [vm_compute; reflexivity|]. split; [discriminate|].
    split; [reflexivity|apply jsonable_b_sound; vm_compute; reflexivity].
  - cbn. lia.
  - intros k1 k2 H1 H2 Hs1 Hs2. rewrite v_actual_lookup, fmap_is_Some in Hs1, Hs2.
    assert (Hui : ∀ k, uiKeyRe k = true → is_Some (plug_config !! k) → k = "plugs_ui").
    { intros k Hk Hs. apply Hkeys in Hs. unfold uiKeyRe in Hk.
      repeat (apply elem_of_cons in Hs as [->|Hs]; [first [reflexivity|discriminate Hk]|]).
      by apply elem_of_nil in Hs. }
    by rewrite (Hui k1), (Hui k2).
  - intros k Hs Hp. apply Hkeys in Hs.
    repeat (apply elem_of_cons in Hs as [->|Hs];
      [first [discriminate Hp|exists 0%Z; split; [lia|reflexivity]]|]).
    by apply elem_of_nil in Hs.
  - intros order s want Hord. cbn [prof_Spec ps_Config full profile]. intros Hw.
    change (Render full_config "" order (v_actual plug_view) !! s = Some want) in Hw.
    rewrite (plug_render order Hord) in Hw.
    assert (Hall : map_fold (λ (_ : string) want acc, jsonable_b (VObj want) && acc) true plug_rendered = true)
      by (vm_compute; reflexivity).
    apply jsonable_b_sound. by apply (proj1 (map_fold_andb (λ _ want, jsonable_b (VObj want)) plug_rendered) Hall s).
  - split; reflexivity.
Qed.

Lemma check_and_enforce_converges_witness :
  (∃ f, Diff (Render full_config "" (order_of (v_actual plug_view)) (v_actual plug_view))
          (v_actual plug_view) = Ok f ∧ f ≠ []) ∧
  leads_to device_handler
    (check_and_enforce settings (MkClient 0 "10.0.0.2" "secret") (device "") full "" "secret"
       (MkWifiPasswords "hush" "") [] (v_actual plug_view) (MkSysRead false "" true)) plug
    (λ p s', ∃ dev' v',
       p = finish settings dev' ConditionTrue ReasonInSync "configuration matches profile full" [] "full" ∧
       shows s' v' ∧ in_sync full "" v').
Proof.
  split; [eexists; split; [vm_compute; reflexivity|discriminate]|].
  apply (check_and_enforce_converges (H5 := sha_law) device_handler id settings
    (MkClient 0 "10.0.0.2" "secret") (device "") full "" "secret" (MkWifiPasswords "hush" "") []
    (MkSysRead false "" true) plug plug_view).
  - exact plug_shown.
  - exact plug_manageable.
  - reflexivity.
  - reflexivity.
  - reflexivity.
  - reflexivity.
  - intros prev [=].
Defined.

(** ** The feed *)

Definition yaml : Yaml := {| yaml_Marshal c := Ok (Join c.(ec_Devices) ",") |}.
#[local] Existing Instance yaml.

Definition cluster_handler : handler cluster := λ o k,
  match o as o' return resp o' * cluster with
  | OListDevices ns => (Ok (default [] (k.(cl_devices) !! ns)), k)
  | OGetConfigMap ns name =>
      (match k.(cl_maps) !! (ns, name) with
       | Some data => Ok data
       | None => Err (MkError ENotFound "not found")
       end, k)
  | OCreateConfigMap ns name _ data =>
      match k.(cl_maps) !! (ns, name) with
      | None => (Ok tt, set_map (ns, name) data k)
      | Some _ => (Err (errorf "already exists"), k)
      end
  | OUpdateConfigMap ns name data =>
      match k.(cl_maps) !! (ns, name) with
      | Some _ => (Ok tt, set_map (ns, name) data k)
      | None => (Err (MkError ENotFound "not found"), k)
      end
  | o => ((device_handler o plug).1, k)
  end.

Lemma cluster_serves : Serves cluster_handler id.
Proof. split; try done; intros; cbn [cluster_handler id]; by case_match. Qed.

Definition at_address (addr : string) (online : bool) : ShellyDevice :=
  upd_status (λ st, set_st_Online online (set_st_Address addr st)) (device "").

Definition fleet0 : cluster :=
  MkCluster {["default" := [at_address "10.0.0.9" true; at_address "10.0.0.2" true;
                            at_address "10.0.0.7" false; at_address "10.0.0.9" true]]}
    {[("default", "exporter") := {["config.yaml" := "stale"; "other" := "kept"]}]}.

Definition feed0 : FeedReconciler := MkFeedReconciler "default" "exporter" (MkOptions ":8080" false 30).

Lemma reconcile_feed_settles_witness :
  RenderConfig (default [] (fleet0.(cl_devices) !! "default")) (fr_Options feed0) = Ok "10.0.0.2,10.0.0.9" ∧
  ends cluster_handler (reconcile_feed feed0) fleet0 (λ e s', e = None ∧ feed_settled feed0 s').
Proof.
  assert (Hr : RenderConfig (default [] (fleet0.(cl_devices) !! "default")) (fr_Options feed0)
    = Ok "10.0.0.2,10.0.0.9") by (vm_compute; reflexivity).
  split; [exact Hr|].
  pose proof (reconcile_feed_settles (Serves0 := cluster_serves) cluster_handler id feed0 fleet0 _ Hr) as H.
  eapply ends_mono; [exact H|]. intros e s' (? & ? & _). split; assumption.
Defined.

(** ** Pages *)

Definition indent : JsonIndent := {| json_MarshalIndent v := Ok "{}" |}.
#[local] Existing Instance indent.

Lemma finds_first : FindsFirst.
Proof.
  split. intros cs ty. unfold FindStatusCondition. cbn [condition_index conditions].
  induction cs as [|c cs IH]; [done|]. cbn [list_find]. rewrite filter_cons.
  destruct (decide (cond_Type c = ty)); [done|].
  rewrite <- IH. by destruct (list_find _ cs) as [[i ?]|].
Qed.

Definition server : Server := MkServer true "default" "" "".

Lemma handleFleet_rows_witness :
  ends cluster_handler (handleFleet server) fleet0 (λ p _, ∃ rows, p = PageFleet rows ∧ length rows = 4).
Proof.
  pose proof (handleFleet_rows (H5 := finds_first) cluster_handler server fleet0 _ eq_refl) as H.
  eapply ends_mono; [exact H|]. intros p s' (rows & -> & Hnames & _). exists rows. split; [reflexivity|].
  apply (f_equal length) in Hnames. rewrite length_fmap in Hnames. rewrite Hnames. vm_compute. reflexivity.
Defined.

Lemma profile_rows_count_witness :
  pr_Matched <$> profile_rows profiles [device ""; device "b"; device "gone"] = [1; 1; 0] ∧
  sum_list_with pr_Matched (profile_rows profiles [device ""; device "b"; device "gone"]) = 2.
Proof.
  split; [vm_compute; reflexivity|].
  destruct (profile_rows_count profiles [device ""; device "b"; device "gone"]) as (_ & _ & Hsum).
  - apply (bool_decide_unpack _). vm_compute. exact I.
  - rewrite Hsum. vm_compute. reflexivity.
Defined.

(** ** Reports *)

Lemma condition_laws : ConditionLaws.
Proof.
  split; cbn [condition_index SetStatusCondition conditions].
  - intros cs ty i Hi. destruct (list_find _ cs) as [[j c]|] eqn:Hf; [|discriminate Hi].
    injection Hi as <-. apply list_find_Some in Hf as (Hc & Hty & _). eauto.
  - intros cs c i Hi. destruct (list_find _ cs) as [[j c']|] eqn:Hf; [|discriminate Hi].
    injection Hi as <-. exists c.(cond_LastTransitionTime). split; [by destruct c|].
    apply list_find_Some in Hf as (Hc' & Hty & Hbefore).
    enough (list_find (λ c', cond_Type c' = cond_Type c) (<[j:=c]> cs) = Some (j, c)) as -> by done.
    apply list_find_Some. split_and!; [apply list_lookup_insert_eq; by eapply lookup_lt_Some|done|].
    intros k y Hk Hlt. rewrite list_lookup_insert_ne in Hk by lia. by eapply Hbefore.
  - intros cs c Hi. destruct (list_find _ cs) as [[j c']|] eqn:Hf; [discriminate Hi|].
    exists c.(cond_LastTransitionTime). split; [by destruct c|].
    apply list_find_None in Hf.
    enough (list_find (λ c', cond_Type c' = cond_Type c) (cs ++ [c]) = Some (length cs, c)) as -> by done.
    apply list_find_Some. split_and!; [by apply list_lookup_middle|done|].
    intros k y Hk Hlt. rewrite lookup_app_l in Hk by done.
    exact (proj1 (Forall_lookup _ _) Hf k y Hk).
Qed.

(** The operation reports a device in sync. *)
Definition sync_b (e : event) : bool :=
  match projT1 e with
  | OStatusPatch base new =>
      match FindStatusCondition new.(dev_Status).(st_Conditions) ConditionInSync with
      | Some c => bool_decide (c.(cond_Status) = ConditionTrue)
      | None => false
      end
  | _ => false
  end.

Lemma in_sync_is_checked_witness :
  let h := (run one_device (Reconcile settings "default" "aabbccddee01") tt []).2 in
  existsb sync_b h = true ∧ guarded (truthful "default" "aabbccddee01" settings) h.
Proof.
  split; [vm_compute; reflexivity|].
  pose proof (in_sync_is_checked (H8 := condition_laws) "default" "aabbccddee01" settings) as Hwp.
  pose proof (wp_run (truthful "default" "aabbccddee01" settings) ranging (λ _, True) one_device
    (Reconcile settings "default" "aabbccddee01") tt [] (λ _ _, True)) as Hrun.
  destruct (run one_device _ tt []) as [[a s'] h]. destruct Hrun as (_ & Hg & _);
    [|done|exact Hwp|done|exact Hg].
  intros h' o s _ _. split; [|done]. destruct o; first [exact I|exact (Permutation_refl _)].
Defined.




(** A device that has been reported once. *)
Lemma events_only_first_witness :
  condition_index (device "").(dev_Status).(st_Conditions) ConditionInSync = None ∧
  condition_index reverting.(dev_Status).(st_Conditions) ConditionInSync ≠ None ∧
  wp (λ _ o, ¬ is_event o) echoing []
    (finish settings reverting ConditionTrue ReasonInSync "back in sync" [] "a") (λ _ _, True).
Proof.
  split; [reflexivity|]. split; [discriminate|].
  apply (proj2 (events_only_first (H8 := condition_laws) settings reverting ConditionTrue
    ReasonInSync "back in sync" [] "a" eq_refl)). discriminate.
Defined.

(** ** A whole reconcile *)

(** A cluster with the device, the profile and its two secrets. *)
Definition steady_answers : ∀ o, resp o := λ o,
  match o as o' return resp o' with
  | OGetDevice _ _ => Ok (device "")
  | OListProfiles _ => Ok [full]
  | OGetSecret _ name =>
      Ok (if String.eqb name "shelly" then {["password" := "secret"]} else {["pass" := "hush"]})
  | o => (device_handler o plug).1
  end.

Definition steady_env : handler unit := λ o s, (steady_answers o, s).

Lemma steady_cluster : SteadyCluster steady_env steady_answers.
Proof. split; [|done..]. split; [done|]. intros m e. unfold range_order. reflexivity. Qed.

Lemma plug_governed : governed steady_answers settings "default" "aabbccddee01" (device "") full "" "secret"
  (MkWifiPasswords "hush" "") plug_view.
Proof.
  split; try reflexivity; try exact plug_manageable.
  - exists [full]. split; [reflexivity|vm_compute; reflexivity].
  - intros prev [=].
Qed.

(** From the plug as it was set up, with nothing sent yet. *)
Lemma Reconcile_over_http_witness :
  Diff (Render full_config "" (order_of (v_actual plug_view)) (v_actual plug_view)) (v_actual plug_view) ≠ Ok [] ∧
  leads_to (over_http plug never no_random steady_env) (Reconcile settings "default" "aabbccddee01")
    (MkWire [] ∅ 0, tt) (λ p s', ∃ dev' v' msg,
    p = finish settings dev' ConditionTrue ReasonInSync msg [] "full" ∧
    shows (after plug s'.1.(wi_log)) v' ∧ in_sync full "" v').
Proof.
  split; [vm_compute; discriminate|].
  exact (Reconcile_over_http (H9 := quote_law) (H10 := sha_law) (H11 := Text.tree_law)
    plug never no_random eq_refl ltac:(discriminate) steady_env steady_answers
    (SteadyCluster0 := steady_cluster) settings "default" "aabbccddee01" (device "") full "" "secret"
    (MkWifiPasswords "hush" "") (MkWire [] ∅ 0) tt plug_view plug_shown plug_governed).
Defined.

(** Reading a locked device without its password, then with it: the first read is
    turned away, the second is challenged and answered. *)
Definition read_twice : prog (res error actual_config * res error actual_config) :=
  bind (GetConfig (MkClient 6 "10.0.0.2" "")) (λ a, bind (GetConfig plug_client) (λ b, Ret (a, b))).

Definition turned_away_then_read (x : (res error actual_config * res error actual_config) * (Device * unit) * list event) : Prop :=
  let '((a, b), (d, _), _) := x in
  (∃ err, a = Err err) ∧ b = Ok (VObj <$> plug_config) ∧ length d.(fd_calls) = 1.

Lemma read_twice_atomic s : s = (device_of locked_plug (MkWire [] ∅ 0, tt), tt) →
  turned_away_then_read (run (atomic steady_env) read_twice s []) ∧ carried steady_env read_twice s.
Proof.
  intros ->. split.
  - vm_compute. exact (conj (ex_intro _ _ eq_refl) (conj eq_refl eq_refl)).
  - split; [split; [exact jsonable_GetConfig|right; reflexivity]|].
    split; [split; [exact jsonable_GetConfig|left; vm_compute; reflexivity]|exact I].
Qed.

Lemma program_over_http_witness : ∃ err w' h,
  run (over_http locked_plug never no_random steady_env) read_twice (MkWire [] ∅ 0, tt) [] =
    ((Err err, Ok (VObj <$> plug_config)), (w', tt), h) ∧
  length (fd_calls (device_of locked_plug (w', tt))) = 1.
Proof.
  destruct (read_twice_atomic _ eq_refl) as [Hout Hcar].
  pose proof (program_over_http (H3 := quote_law) (H4 := sha_law) (H5 := Text.tree_law)
    locked_plug never no_random eq_refl ltac:(discriminate) steady_env read_twice
    (MkWire [] ∅ 0) tt [] Hcar) as Hrun.
  destruct (run (atomic steady_env) read_twice _ []) as [[[a b] [d' []]] h].
  destruct Hout as ([err ->] & -> & Hcalls), Hrun as (w' & Hover & Hdev).
  exists err, w', h. split; [exact Hover|]. subst d'. exact Hcalls.
Defined.
