(* ===== verification/CopyWitnesses.v ===== *)
(** * Concrete memory: an object with its references, and its copy

    An instance of the library functions the generated deep copies call, and a
    device object in memory on which they run. *)

From stdpp Require Import prelude gmap strings pretty sorting list.
From Stdlib Require Import Ascii.
From S2P Require Import Prelude Json Api Diff Shelly Effects Wire Memory Objects DeepCopy.

Definition Requirement_DeepCopyInto (x : RequirementObj) : mem cell RequirementObj :=
  values ← make_assign x.(o_req_Values);
  mret (MkRequirementObj x.(o_req_Key) x.(o_req_Operator) values).

#[local] Instance machinery : Machinery := {|
  ObjectMeta_DeepCopyInto x :=
    labels ← new_assign x.(o_meta_Labels);
    annotations ← new_assign x.(o_meta_Annotations);
    mret (MkObjectMetaObj x.(o_meta_Namespace) x.(o_meta_Name) x.(o_meta_Generation) labels annotations);
  ListMeta_DeepCopyInto x :=
    remaining ← new_assign x.(o_lm_RemainingItemCount);
    mret (MkListMetaObj x.(o_lm_ResourceVersion) x.(o_lm_Continue) remaining);
  LabelSelector_DeepCopyInto x :=
    labels ← new_assign x.(o_sel_MatchLabels);
    exprs ← make_copy Requirement_DeepCopyInto x.(o_sel_MatchExpressions);
    mret (MkLabelSelectorObj labels exprs);
  Condition_DeepCopyInto := mret;
  Time_DeepCopyInto := mret;
  Time_DeepCopy := new_assign;
  JSON_DeepCopyInto x := raw ← make_assign x.(o_json_Raw); mret (MkJSONObj raw);
|}.

(** No document is ever parsed here. *)
#[local] Instance no_json : JsonParse := {| json_Unmarshal s := Err "no document" |}.

#[local] Instance assign_map : Copier (mret : gmap string string → mem cell (gmap string string)) :=
  copier_plain.
#[local] Instance assign_ascii : Copier (mret : ascii → mem cell ascii) := copier_plain.
#[local] Instance assign_Time : Copier (mret : TimeObj → mem cell TimeObj).
Proof. copy_struct view_Time. Qed.
#[local] Instance copier_Requirement : Copier Requirement_DeepCopyInto.
Proof. copy_struct view_Requirement. Qed.

Lemma machinery_laws : MachineryLaws.
Proof.
  split.
  - copy_struct view_ObjectMeta.
  - copy_struct view_ListMeta.
  - copy_struct view_LabelSelector.
  - apply copier_plain.
  - apply _.
  - apply copier_ptr, _.
  - intros h x p Hp. apply reads_bind in Hp as (raw & Hraw & Hp).
    apply extends_bind. eapply extends_mono; [by apply (copies (f := make_assign))|].
    intros y h1 Hs Hy. apply extends_ret. eapply freshly_bind; [exact Hy|].
    destruct raw as [|a raw]; [|destruct Hp as [F Hp]; discriminate Hp].
    destruct Hp as [F [= <- <-]]. exists ∅. split; [done|set_solver].
Qed.

(** A device with labels, a drifted section, one condition and a time, at the
    addresses 1 to 5. *)
Definition status_obj : ShellyDeviceStatusObj :=
  MkShellyDeviceStatusObj "10.0.0.9" "AABB" "S3" "Plug" 3 "1.4.0" "" false false Nil "plug" true
    (Ref 4) "plugs" (Slice 3 0 1) (Slice 2 0 1).

Definition device_obj : ShellyDeviceObj :=
  MkShellyDeviceObj (MkTypeMeta "ShellyDevice" "v1alpha1")
    (MkObjectMetaObj "default" "aabb" 1 (Ref 5) Nil) (MkShellyDeviceSpec false "" "") status_obj.

Definition in_sync_cond : Condition := MkCondition ConditionInSync ConditionTrue ReasonInSync "" 1 0.

Definition memory : heap cell :=
  {[ 1%positive := CShellyDevice device_obj;
     2%positive := CConditions [in_sync_cond];
     3%positive := CStrings ["sys"; "wifi"];
     4%positive := CTime (MkTimeObj 77);
     5%positive := CMap {["room" := "lab"]} ]}.

(** The object is read, copied, and its condition overwritten in place: the copy
    still has the old one. *)
Lemma DeepCopyObject_isolates_witness :
  ∃ v F, read_object (Some (ADevice (Ref 1))) memory = Some (v, F) ∧ 2%positive ∈ F ∧
  ∃ c h' F', DeepCopyObject (ADevice (Ref 1)) memory = Some (c, h') ∧
    read_object c (<[2%positive := CConditions []]> h') = Some (v, F').
Proof.
  assert (Hin : match read_object (Some (ADevice (Ref 1))) memory with
                | Some (_, F) => bool_decide (2%positive ∈ F)
                | None => false
                end = true) by (vm_compute; reflexivity).
  destruct (read_object (Some (ADevice (Ref 1))) memory) as [[v F]|] eqn:Hr; [|discriminate Hin].
  apply bool_decide_eq_true in Hin. exists v, F. split; [reflexivity|]. split; [exact Hin|].
  destruct (DeepCopyObject_isolates (H1 := machinery_laws) memory (ADevice (Ref 1)) v F Hr)
    as (c & h' & F' & Hc & _ & _ & _ & Hw & _).
  exists c, h', F'. split; [exact Hc|]. apply Hw. intros l _ Hl. apply lookup_insert_ne.
  intros <-. exact (Hl Hin).
Defined.
