(* ===== verification/ProcessWitnesses.v ===== *)
(** * Concrete inputs: the process

    Inputs for the theorems of Cache.v, Requeue.v, Main.v and TestUtils.v. *)

From stdpp Require Import prelude gmap strings pretty sorting list.
From Stdlib Require Import SpecFloat.
From S2P Require Import Prelude Json Floats Api Diff Order Match Render Shelly Effects Client Jobs Fleet Window Apply Update Reconcile Cidr Discovery Feed Metrics Dashboard Safety Requeue Main Sequencing Cache TestUtils Witnesses.
Import Concrete.

(** ** Clients *)

(** Two reconciles of one device: the second call gets the first one's client. *)
Definition clients_of (tr : list event) : list nat :=
  omap (λ e, (λ x, x.2.(cl_ptr)) <$> client_call e) tr.

Definition pool1 : pool (process unit) (ctrl_Result * option error) :=
  MkPool [([], bind (Reconcile settings "default" "aabbccddee01")
                 (λ _, Reconcile settings "default" "aabbccddee01"))]
    (MkProcess tt (MkRState time_zero ∅ 0) (1700000000 * Second) []) [].

Lemma clients_reused_witness :
  let c := first_worker (process_handler one_device (λ _, 1)) 60 pool1 in
  clients_of c.(pool_trace) = [0; 0] ∧ all_served_right c.(pool_trace).
Proof.
  split; [vm_compute; reflexivity|].
  apply (clients_reused one_device (λ _, 1) pool1); [reflexivity..|apply first_worker_steps].
Defined.

(** ** Requeueing *)

Lemma never_forgotten_witness :
  (run one_device (Reconcile settings "default" "aabbccddee01") tt []).1.1.1 = MkResult 270000000000 ∧
  wp (λ _ _, True) random [] (Reconcile settings "default" "aabbccddee01") (λ h out,
    again out ∨ ∃ e, Ev (OGetDevice "default" "aabbccddee01") (Err e) ∈ h ∧ is_NotFound e = true).
Proof.
  split; [vm_compute; reflexivity|].
  apply (never_forgotten settings); cbn. split; [discriminate|lia].
Defined.

(** ** Wiring *)

Definition lab_flags : Flags :=
  MkFlags ":8443" "" "tls.crt" "tls.key" "" "tls.crt" "tls.key" false ":8081" true false
    "10.0.0.0/30, ,10.0.1.0/30" "default" (5 * Minute) "shelly-names" "shelly-registry"
    (5 * Minute) (2 * Minute) "feed" (1500 * 1000000) "".

Definition no_errors (s : setup_call) : option error := None.

Lemma main_wiring_witness :
  StartManager ∈ (main no_errors lab_flags).1 ∧ (main no_errors lab_flags).2 = None ∧
  length (parts lab_flags) = 4 ∧
  ∀ r, ExporterFeed r ∈ parts lab_flags → (1 ≤ r.(fr_Options).(DeviceUpdateInterval))%Z.
Proof.
  assert (Hs : StartManager ∈ (main no_errors lab_flags).1).
  { apply (list_elem_of_lookup_2 _ 7). vm_compute. reflexivity. }
  split; [exact Hs|]. split; [vm_compute; reflexivity|]. split; [reflexivity|].
  apply (main_wiring no_errors lab_flags); [vm_compute; reflexivity|exact Hs].
Defined.

(** ** Test helpers *)

(** A kustomization with two resources commented out, twice. *)
Definition resources : list string := ["- ../crd"; "- ../rbac"].
Definition kustomization : string :=
  Join ["resources:"; "#- ../crd"; "#- ../rbac"; "#- ../crd"; "#- ../rbac"; ""] newlines.
Definition edited : string :=
  Join ["resources:"; "- ../crd"; "- ../rbac"; "#- ../crd"; "#- ../rbac"; ""] newlines.
Definition workstation : machine :=
  MkMachine {["config/kustomization.yaml" := kustomization]} (Ok "/repo/test/e2e") ∅ [] [].

Lemma UncommentCode_uncomments_witness :
  UncommentCode (λ _, None) (λ _, None) "config/kustomization.yaml" (commented "#" resources) "#" workstation =
    (None, set_files {["config/kustomization.yaml" := edited]} workstation).
Proof.
  destruct (UncommentCode_uncomments (λ _, None) (λ _, None) "config/kustomization.yaml" "#" resources
    workstation kustomization ltac:(discriminate) ltac:(discriminate)
    ltac:(repeat constructor) eq_refl eq_refl eq_refl) as [Hfirst _].
  etransitivity; [apply (Hfirst ("resources:" +:+ newlines)
    (newlines +:+ commented "#" resources +:+ newlines))|]; [reflexivity| |reflexivity].
  intros pre' post' Heq. apply (Index_least pre' (commented "#" resources) post'). rewrite <- Heq. reflexivity.
Defined.
